(* ===== verification/_CoqProject ===== *)
-Q . S2P
Prelude.v
Memory.v
Machine.v
Bytes.v
Lists.v
Strings.v
ReadOnly.v
Fdt.v
FdtRo.v
FdtRw.v
FdtSw.v
FdtOverlay.v
FdtProofs.v
FdtLookup.v
FdtPath.v
FdtSpec.v
FdtSwProofs.v
FdtFinish.v
FdtCreate.v
FdtReadBack.v
FdtSwSpec.v
FdtEdit.v
Hal.v
Qsort.v
DevMemory.v
Lock.v
DeviceIo.v
Ring.v
Spin.v
Console.v
Csr.v
Sbi.v
Bootmem.v
Buddy.v
BuddyMem.v
BuddyInv.v
BuddyProofs.v
PageAlloc.v
Object.v
ObjectInv.v
ObjectProofs.v
Vmem.v
PageTable.v
VmemProofs.v
UserCopy.v
Reap.v
MmuSpec.v
BuddyInit.v
Kmem.v
Heap.v
Proc.v
Trap.v
Plic.v
Uart.v
Virtio.v
Device.v
Main.v
ProcProofs.v
ProcHold.v
ProcExit.v
ProcSleep.v
UartProofs.v
ProcSpec.v
SchedSpec.v
SleepSpec.v
TrapProofs.v
TrapSpec.v
IrqProofs.v
Sample.v
BuddySpec.v
ObjectSpec.v
VmemSpec.v
HeapSpec.v
UartSpec.v
IrqSpec.v
