(* ===== verification/Prelude.v ===== *)
(** * A verification library for kalorona-kernel

    kalorona-kernel is a small RISC-V kernel in C.  This development models
    its C code, function by function, and proves what makes it correct.

    ** How the program is modelled

    Machine gives the state [kst] the C code works on: one flat
    byte-addressed memory (Memory), the registers of the executing hart, the
    per-hart records, the global variables whose address is never taken, and
    logs of what leaves the machine (console bytes, firmware calls, accesses
    to device registers).  A C function is a computation [M A]: it returns a
    value and a state, stops in [panic], faults, or never returns.  Structs
    are addresses with field offsets, so aliasing, reuse of freed pages and
    reinterpretation of bytes are those of the C code; integers are [Z] with
    the casts and wrap-around of the C types written out (Prelude).
    [wp c Q s] is total correctness: no panic, no fault, termination;
    [stops r c s] says that [c] stops as [r] says and never returns.
    [ro P c Q s] (ReadOnly) adds that nothing is written and no byte outside
    [P] is read.

    ** The parts, bottom up

    - utilities/bytes.c, string.c, algorithm/list.c, algorithm/qsort.c: Bytes,
      Strings, Lists, Qsort.
    - asm/hart.c, spinlock.c, asm/csr.h: Lock (one hart), Spin (any number of
      harts, access by access, under every schedule), Csr.  asm/sbi.c: Sbi.
    - console/print.c: Console.  device/hal.c, device/hal/uart_io.c,
      device/hal/trap.c: Hal; drivers are reached through [call], the
      function at an address.
    - Start of memory: device/memory.c finds RAM (DevMemory, Device),
      memory/bootmem.c hands out the first pages (Bootmem), and
      memory/buddy.c takes over the rest (Buddy, BuddyInit).
    - memory/object.c gets blocks of pages from buddy.c and cuts them into
      objects (Object); memory/kmem.c serves any size from object managers
      (Kmem); memory/vmem.c and boot/setup_mmu.c build page tables (Vmem).
    - proc/proc.c, proc/scheduler.c, sleeplock.c: Proc.  proc/syscall.c and
      trap/trap.c: Trap.  They share the process list and its lock.
    - device/libfdt/fdt.c and fdt_ro.c read the firmware's device tree (Fdt,
      FdtRo); device/device.c walks it and starts the drivers (Device);
      the drivers are device/drivers/plic, ns16550a and virtio (Plic, Uart,
      Virtio).
    - The rest of device/libfdt makes and changes trees: fdt_sw.c writes one
      from scratch (FdtSw, with fdt_empty_tree.c, fdt_check.c and
      fdt_strerror.c), fdt_rw.c, fdt_wip.c and fdt_addresses.c edit one
      (FdtRw), fdt_overlay.c lays one over another (FdtOverlay).  The kernel
      links these files and calls none of them so far.
    - main.c, boot/entrypoint.c, signal.c: Main, which calls all of it in
      order.

    Interfaces are classes: [KernelLayout] (addresses the linker chooses),
    [Code] (function pointers), [Devices] (what device registers return),
    [Firmware] (SBI replies), [Switch] (what runs while a context is switched
    out), [Others] (what other harts do meanwhile) and [PageAllocator]
    (PageAlloc): what the page allocator promises to object.c and vmem.c,
    whose proofs know nothing else of it; [buddy_pages] is its instance.

    ** What is shown

    - Page allocator (C1 to C6, C8; BuddyMem, BuddyInv, BuddyProofs, BuddySpec):
      the free lists and bitmaps in memory represent an abstract set of
      aligned disjoint free blocks; allocating and freeing refine taking and
      returning blocks, never hand out a page in use, find a block whenever
      one exists, and panic exactly on a page freed twice; initialisation
      establishes the invariant; one bitmap is sized a bit short.
    - System calls (C9; TrapProofs, TrapSpec): a program's kill system call,
      from the trap over the process table to the jump back to the program,
      or to the switch away from it when it has been killed or kills itself.
    - Serial port (C10, C11, C14; DeviceIo, Ring, UartProofs, UartSpec,
      IrqProofs, IrqSpec): the rings in memory hold a transmit and a receive
      queue, or the newest part of one that has overflowed; putting a
      character, with the sleep while there is no room, and the interrupt
      handler refine operations on the queues, and send on the wire what
      leaves the transmit queue, in order; and the whole way of an interrupt
      out of a user program, over the trap handler, the interrupt controller,
      the dispatcher, the driver and the process table, back to the program,
      or to the end of one that has been killed.
    - Writing device trees (C12, C13, C15; FdtSwProofs, FdtFinish, FdtCreate,
      FdtReadBack, FdtSwSpec, FdtEdit): a call to fdt_property refines the
      growth of an abstract tree under construction, with the error the
      library documents when there is no room, and the overrun when a name is
      longer than what lies before the strings; a tree built from nothing and
      finished is read back by fdt_ro.c; replacing a value in place refines
      the replacement in the abstract tree.
    - Strings, console (C18, C19; Strings, Console): numbers printed and
      parsed, [printf] against a reference rendering, its string arguments
      being pointers into memory.
    - Boot allocator, sorting, RAM discovery (C20, C23, C24).
    - Kernel heap (C22, C29; Heap, HeapSpec): kmem_alloc and kmem_free on top
      of the object managers, of any size.
    - Spinlock under interleaving (C25, C26; Spin): mutual exclusion whatever
      the harts do, no panic for a hart that uses the lock as it should, and
      a lock that is free again when the hart inside has left, or taken for
      ever when that hart has stopped.
    - Object allocator (C27, C28; ObjectInv, ObjectProofs, ObjectSpec): live
      objects never overlap, freeing takes back one object, contents are kept.
    - Page tables (C16, C21, C30 to C34; PageTable, VmemProofs, UserCopy,
      Reap, VmemSpec, MmuSpec): the code's walk against the hardware's Sv39
      walk, mapping and unmapping as updates of an abstract address space,
      copying to and from a user's memory as the hardware sees it, and what
      happens where nothing is mapped, tearing a
      table down gives all its pages back, and the boot table maps what the
      kernel assumes.
    - Processes (C7, C35 to C38; ProcProofs, ProcHold, ProcExit, ProcSleep,
      ProcSpec, SchedSpec, SleepSpec): the process table an abstraction of the
      list in memory, which ProcHold takes and gives back under its lock;
      waking and killing refine updates of the table, a round of the scheduler
      a round on it, whatever the processes do while they run; exiting
      (ProcExit) and sleeping (ProcSleep) on one hart; exiting with a child
      panics; the gap between going to sleep and switching lets another hart
      run the same process (SleepSpec).
    - Reading device trees (C17, C39, C40; FdtProofs, FdtLookup, FdtPath,
      FdtSpec): on any blob the header check accepts, the walk, the property
      lookup and the lookup of a path terminate, read only the blob, and
      return an offset inside it of what was asked for or an error code.

    Every theorem with hypotheses has a witness that meets them, most of them
    on the sixteen-page machine of Sample.

    ** Bounds and fuel

    A loop with no static bound is [while], which allows 2^64 rounds: more
    than a loop over 64-bit counters or distinct addresses can make; the
    theorems of total correctness bound the rounds by a variant.
    [reap_pagetable] recurses to depth 64, page tables have 3 levels.  [qsort]
    gets the length of the array plus one.  The walks over the device tree
    and its aliases take the levels the stack has room for as an argument
    ([depth]), since nothing in the code bounds them.

    ** What is not modelled

    The assembly (entry code, trap stubs, context switch, user stubs) appears
    through the interfaces above.  Other harts appear in Spin, in SleepSpec and
    through [Others]; elsewhere code runs as one hart sees it, under its locks.
    device/drivers/virtio/virtio_blk.c is unfinished in the source: two
    assignments have no right-hand side and are left out.
    fs/vfs.c and fs/tmpfs.c are empty.  ksdk/lib/string.c is a copy of
    utilities/string.c for user programs.  Paging modes other than Sv39, the
    kernel's default, are left out.  The jump to the return stub is a call
    whose continuation is a hypothesis.  Modelled without theorems are the
    system calls other than kill, kernel traps, timer interrupts, the
    initialisation of drivers, virtio, device.c, main.c, vm_uvmcpy, and the
    libfdt files that insert into, delete from or overlay a tree. *)

From stdpp Require Export base gmap list sorting strings.
From Stdlib Require Export ZArith Lia Permutation Sorted.

#[global] Open Scope Z_scope.

(** ** Fixed-width integers

    A C value of an unsigned type of [w] bits is the [Z] in [0, 2^w); the
    casts below are the reductions the compiler performs when a result is
    stored in such a type. *)

Declare Scope kint_scope.
Delimit Scope kint_scope with K.
#[global] Open Scope kint_scope.

Definition u8 (z : Z) : Z := z mod 2 ^ 8.
Definition u16 (z : Z) : Z := z mod 2 ^ 16.
Definition u32 (z : Z) : Z := z mod 2 ^ 32.
Definition u64 (z : Z) : Z := z mod 2 ^ 64.

(** Signed reinterpretation of a [w]-bit pattern. *)
Definition swrap (w z : Z) : Z := (z + 2 ^ (w - 1)) mod 2 ^ w - 2 ^ (w - 1).
Definition s8 (z : Z) : Z := swrap 8 z.
Definition s32 (z : Z) : Z := swrap 32 z.
Definition s64 (z : Z) : Z := swrap 64 z.

(** [~x] on a 64-bit operand. *)
Definition not64 (z : Z) : Z := u64 (Z.lnot z).
(** Unsigned 64-bit arithmetic: [+], [-], [*], [<<] wrap modulo 2^64. *)
Definition add64 (a b : Z) : Z := u64 (a + b).
Definition sub64 (a b : Z) : Z := u64 (a - b).
Definition mul64 (a b : Z) : Z := u64 (a * b).
Definition shl64 (a n : Z) : Z := u64 (Z.shiftl a n).

Notation "a +l b" := (add64 a b) (at level 50, left associativity) : kint_scope.
Notation "a -l b" := (sub64 a b) (at level 50, left associativity) : kint_scope.
Notation "a *l b" := (mul64 a b) (at level 40, left associativity) : kint_scope.
Notation "a <<l n" := (shl64 a n) (at level 35, no associativity) : kint_scope.
Notation "a >>l n" := (Z.shiftr a n) (at level 35, no associativity) : kint_scope.
Notation "a &l b" := (Z.land a b) (at level 36, left associativity) : kint_scope.
Notation "a |l b" := (Z.lor a b) (at level 37, left associativity) : kint_scope.
Notation "a ^l b" := (Z.lxor a b) (at level 37, left associativity) : kint_scope.

(** ** Tactics *)

(** Linear arithmetic with division and remainder by constants. *)
Ltac zdm := Z.div_mod_to_equations; lia.

(** Case analysis on every boolean comparison of integers in the goal. *)
Ltac zcases :=
  repeat match goal with
    | |- context [Z.eqb ?a ?b] => destruct (Z.eqb_spec a b)
    | |- context [Z.ltb ?a ?b] => destruct (Z.ltb_spec a b)
    | |- context [Z.leb ?a ?b] => destruct (Z.leb_spec a b)
    | |- context [Z.gtb ?a ?b] => rewrite (Z.gtb_ltb a b)
    | |- context [Z.geb ?a ?b] => rewrite (Z.geb_leb a b)
    end.

Ltac deex :=
  repeat match goal with
    | H : exists x, _ |- _ => let x' := fresh x in destruct H as [x' H]
    | H : _ /\ _ |- _ => destruct H
    end.

Create HintDb kint.
Create HintDb kmem.

(** ** Bounds *)

Lemma u64_bound z : 0 <= u64 z < 2 ^ 64.
Proof. unfold u64. apply Z.mod_pos_bound. lia. Qed.
Lemma u32_bound z : 0 <= u32 z < 2 ^ 32.
Proof. unfold u32. apply Z.mod_pos_bound. lia. Qed.
Lemma u8_bound z : 0 <= u8 z < 256.
Proof. unfold u8. change (2 ^ 8) with 256. apply Z.mod_pos_bound. lia. Qed.
Lemma s32_small z : - 2 ^ 31 <= z < 2 ^ 31 -> s32 z = z.
Proof. intros. unfold s32, swrap. rewrite Z.mod_small; lia. Qed.
Lemma u64_small z : 0 <= z < 2 ^ 64 -> u64 z = z.
Proof. intros. unfold u64. by apply Z.mod_small. Qed.
Lemma u32_small z : 0 <= z < 2 ^ 32 -> u32 z = z.
Proof. intros. unfold u32. by apply Z.mod_small. Qed.
Lemma u8_small z : 0 <= z < 256 -> u8 z = z.
Proof. intros. unfold u8. by apply Z.mod_small. Qed.
Lemma add64_small a b : 0 <= a + b < 2 ^ 64 -> a +l b = a + b.
Proof. apply u64_small. Qed.
Lemma sub64_small a b : 0 <= a - b < 2 ^ 64 -> a -l b = a - b.
Proof. apply u64_small. Qed.
Lemma not64_sub z : 0 <= z < 2 ^ 64 -> not64 z = 2 ^ 64 - 1 - z.
Proof.
  intros. unfold not64, u64, Z.lnot.
  replace (Z.pred (- z)) with (2 ^ 64 - 1 - z + (-1) * 2 ^ 64) by lia.
  rewrite Z.mod_add by lia. apply Z.mod_small. lia.
Qed.

Lemma land64_bound x y : 0 <= x < 2 ^ 64 -> 0 <= x &l y < 2 ^ 64.
Proof.
  intros Hx. assert (E : x &l y = (x &l y) mod 2 ^ 64); [|rewrite E; apply Z.mod_pos_bound; lia].
  rewrite <- Z.land_ones, <- Z.land_assoc, (Z.land_comm y), Z.land_assoc, Z.land_ones, Z.mod_small by lia. done.
Qed.

Lemma lor_64_bound x y : 0 <= x < 2 ^ 64 -> 0 <= y < 2 ^ 64 -> 0 <= x |l y < 2 ^ 64.
Proof.
  intros Hx Hy. assert (E : x |l y = (x |l y) mod 2 ^ 64); [|rewrite E; apply Z.mod_pos_bound; lia].
  rewrite <- Z.land_ones, Z.land_lor_distr_l, !Z.land_ones, !Z.mod_small by lia. done.
Qed.
#[export] Hint Resolve u64_bound u32_bound u8_bound : kint.

(** ** Powers of two, masks and alignment *)

Lemma pow2_pos n : 0 <= n -> 0 < 2 ^ n.
Proof. intros. by apply Z.pow_pos_nonneg. Qed.
#[export] Hint Resolve pow2_pos : kint.

Lemma shiftl_1 n : 0 <= n -> Z.shiftl 1 n = 2 ^ n.
Proof. intros. rewrite Z.shiftl_mul_pow2 by done. lia. Qed.

(** [x & (2^n - 1)] is the remainder. *)
Lemma land_mask x n : 0 <= n -> x &l (2 ^ n - 1) = x mod 2 ^ n.
Proof.
  intros. rewrite <- Z.land_ones by done. by rewrite Z.ones_equiv, <- Z.sub_1_r.
Qed.

(** [x & ~(2^n - 1)] rounds down to a multiple of [2^n]. *)
Lemma land_not_mask x n :
  0 <= x < 2 ^ 64 -> 0 <= n <= 64 ->
  x &l not64 (2 ^ n - 1) = x - x mod 2 ^ n.
Proof.
  intros Hx Hn.
  assert (Hp : 0 < 2 ^ n) by (apply pow2_pos; lia).
  assert (2 ^ n <= 2 ^ 64) by (apply Z.pow_le_mono_r; lia).
  assert (E : x - x mod 2 ^ n = Z.shiftl (Z.shiftr x n) n).
  { rewrite Z.shiftl_mul_pow2, Z.shiftr_div_pow2 by lia.
    pose proof (Z.div_mod x (2 ^ n) ltac:(lia)). lia. }
  rewrite E. apply Z.bits_inj'. intros i Hi.
  rewrite Z.land_spec, Z.shiftl_spec by done.
  unfold not64, u64. rewrite Z.sub_1_r, <- Z.ones_equiv.
  destruct (Z.lt_ge_cases i 64).
  - rewrite Z.mod_pow2_bits_low by done. rewrite Z.lnot_spec by done.
    destruct (Z.lt_ge_cases i n).
    + rewrite Z.ones_spec_low by lia. rewrite (Z.testbit_neg_r _ (i - n)) by lia. 
      by rewrite andb_false_r.
    + rewrite Z.ones_spec_high by lia. rewrite Z.shiftr_spec by lia.
      rewrite andb_true_r. f_equal; lia.
  - rewrite Z.mod_pow2_bits_high by lia. rewrite andb_false_r.
    rewrite Z.shiftr_spec by lia. symmetry.
    replace (i - n + n) with i by lia.
    rewrite <- (Z.mod_small x (2 ^ 64)) by done.
    apply Z.mod_pow2_bits_high. lia.
Qed.

(** Disjoint bits: [|] is [+]. *)
Lemma lor_add_disjoint a b n :
  0 <= n -> 0 <= b < 2 ^ n -> a mod 2 ^ n = 0 -> a |l b = a + b.
Proof.
  intros Hn Hb Ha. pose proof (Z.add_lor_land a b) as E.
  enough (Z.land a b = 0) by lia.
  apply Z.bits_inj'. intros i Hi. rewrite Z.land_spec, Z.bits_0.
  destruct (Z.lt_ge_cases i n).
  - rewrite (Z.div_mod a (2 ^ n)) by (pose proof (pow2_pos n Hn); lia).
    rewrite Ha, Z.add_0_r, Z.mul_comm, Z.mul_pow2_bits_low by done. done.
  - rewrite <- (Z.mod_small b (2 ^ n)) by done.
    rewrite Z.mod_pow2_bits_high by lia. by rewrite andb_false_r.
Qed.

(** Flipping bit [n] of a multiple of [2^n]: the buddy of a block. *)
Lemma lxor_pow2_clear x n :
  0 <= n -> Z.even (x / 2 ^ n) = true -> x ^l 2 ^ n = x + 2 ^ n.
Proof.
  intros Hn He. rewrite Z.add_nocarry_lxor; [done|].
  apply Z.bits_inj'. intros i Hi. rewrite Z.land_spec, Z.bits_0.
  rewrite Z.pow2_bits_eqb by done. destruct (Z.eqb_spec n i) as [->|]; [|by rewrite andb_false_r].
  rewrite andb_true_r. rewrite Z.testbit_odd, Z.shiftr_div_pow2 by done.
  by rewrite <- Z.negb_even, He.
Qed.

Lemma lxor_pow2 x n :
  0 <= n -> x ^l 2 ^ n = if Z.even (x / 2 ^ n) then x + 2 ^ n else x - 2 ^ n.
Proof.
  intros Hn. pose proof (pow2_pos n Hn).
  destruct (Z.even (x / 2 ^ n)) eqn:E; [by apply lxor_pow2_clear|].
  assert (Hy : (x - 2 ^ n) ^l 2 ^ n = x).
  { rewrite lxor_pow2_clear; [lia|done|].
    replace (x - 2 ^ n) with (x + (-1) * 2 ^ n) by lia.
    rewrite Z.div_add, Z.even_add, E by lia. done. }
  rewrite <- Hy at 1. rewrite Z.lxor_assoc, Z.lxor_nilpotent. apply Z.lxor_0_r.
Qed.
