(* ===== verification/Memory.v ===== *)
(** * Flat byte-addressed memory

    The kernel reads and writes one flat address space through pointers of
    several widths, and reinterprets the same bytes at different types (a
    free page holds a list node, later a page table).  Memory is therefore a
    finite map from addresses to bytes; [ld n] and [st n] are the
    little-endian loads and stores of [n] bytes that RISC-V performs. *)

From S2P Require Import Prelude.

Abbreviation memory := (gmap Z Z).

(** A byte never written reads as some fixed value; a byte is truncated to
    eight bits when it is read. *)
Definition ldb (m : memory) (a : Z) : Z := u8 (default 0 (m !! a)).

Fixpoint ld (n : nat) (m : memory) (a : Z) : Z :=
  match n with
  | O => 0
  | S n' => ldb m a + 256 * ld n' m (a + 1)
  end.

Fixpoint st (n : nat) (m : memory) (a v : Z) : memory :=
  match n with
  | O => m
  | S n' => st n' (<[a := v mod 256]> m) (a + 1) (v / 256)
  end.

(** [agree P m m']: the two memories hold the same bytes at the addresses
    satisfying [P]. *)
Definition agree (P : Z -> Prop) (m m' : memory) : Prop :=
  forall a, P a -> ldb m' a = ldb m a.

(** The half-open address range [lo, lo + len). *)
Definition in_range (lo len a : Z) : Prop := lo <= a < lo + len.

(** Two ranges do not overlap. *)
Definition disjoint (lo len lo' len' : Z) : Prop := lo + len <= lo' \/ lo' + len' <= lo.

Arguments ld : simpl never.
Arguments st : simpl never.

Lemma ldb_bound m a : 0 <= ldb m a < 256.
Proof. apply u8_bound. Qed.

Lemma ldb_insert m a v b :
  ldb (<[a := v]> m) b = if Z.eqb b a then u8 v else ldb m b.
Proof.
  unfold ldb. destruct (Z.eqb_spec b a) as [->|].
  - by rewrite lookup_insert_eq.
  - by rewrite lookup_insert_ne by done.
Qed.

Lemma ld_S n m a : ld (S n) m a = ldb m a + 256 * ld n m (a + 1).
Proof. done. Qed.
Lemma st_S n m a v : st (S n) m a v = st n (<[a := v mod 256]> m) (a + 1) (v / 256).
Proof. done. Qed.
Lemma ld_1 m a : ld 1 m a = ldb m a.
Proof. rewrite ld_S. unfold ld. lia. Qed.

Lemma pow256_S n : 256 ^ Z.of_nat (S n) = 256 * 256 ^ Z.of_nat n.
Proof. rewrite Nat2Z.inj_succ, Z.pow_succ_r by lia. done. Qed.

Lemma ld_bound n m a : 0 <= ld n m a < 256 ^ Z.of_nat n.
Proof.
  revert a. induction n as [|n IH]; intros a.
  - unfold ld. simpl. lia.
  - rewrite ld_S, pow256_S. pose proof (ldb_bound m a). pose proof (IH (a + 1)). nia.
Qed.

Lemma ldb_st_out n m a v b : ~ in_range a (Z.of_nat n) b -> ldb (st n m a v) b = ldb m b.
Proof.
  unfold in_range. revert m a v. induction n as [|n IH]; intros m a v Hb; [done|].
  rewrite st_S, IH by lia. rewrite ldb_insert. destruct (Z.eqb_spec b a); [lia|done].
Qed.

Lemma ldb_st_hd n m a v : ldb (st (S n) m a v) a = v mod 256.
Proof.
  rewrite st_S, ldb_st_out by (unfold in_range; lia).
  rewrite ldb_insert, Z.eqb_refl. unfold u8. change (2 ^ 8) with 256.
  by rewrite Z.mod_mod by lia.
Qed.

Lemma ld_agree n m m' a :
  agree (in_range a (Z.of_nat n)) m m' -> ld n m' a = ld n m a.
Proof.
  unfold agree, in_range. revert a. induction n as [|n IH]; intros a H; [done|].
  rewrite !ld_S, H by lia. rewrite IH; [done|]. intros b Hb. apply H. lia.
Qed.

Lemma ld_st_same n m a v : ld n (st n m a v) a = v mod 256 ^ Z.of_nat n.
Proof.
  revert m a v. induction n as [|n IH]; intros m a v.
  - change (256 ^ Z.of_nat 0) with 1. by rewrite Z.mod_1_r.
  - rewrite ld_S, ldb_st_hd, st_S, IH, pow256_S.
    rewrite Z.rem_mul_r by lia. lia.
Qed.

Lemma ld_st_other n k m a v b :
  disjoint a (Z.of_nat k) b (Z.of_nat n) -> ld n (st k m a v) b = ld n m b.
Proof.
  intros H. apply ld_agree. intros c Hc. apply ldb_st_out.
  unfold in_range, disjoint in *. lia.
Qed.

Lemma agree_st (P : Z -> Prop) n m a v :
  (forall b, in_range a (Z.of_nat n) b -> ~ P b) -> agree P m (st n m a v).
Proof. intros H b Hb. apply ldb_st_out. intros Hr. by apply (H b). Qed.

Lemma agree_refl P m : agree P m m.
Proof. done. Qed.
Lemma agree_trans P m1 m2 m3 : agree P m1 m2 -> agree P m2 m3 -> agree P m1 m3.
Proof. intros H1 H2 a Ha. by rewrite H2, H1. Qed.
Lemma agree_weaken (P Q : Z -> Prop) m m' :
  (forall a, Q a -> P a) -> agree P m m' -> agree Q m m'.
Proof. intros H H1 a Ha. apply H1. by apply H. Qed.
Lemma agree_sym P m m' : agree P m m' -> agree P m' m.
Proof. intros H a Ha. by rewrite H. Qed.

#[export] Hint Resolve agree_refl : kmem.
#[global] Instance agree_equiv P : Equivalence (agree P).
Proof.
  split; [exact (agree_refl P) | exact (agree_sym P) | exact (agree_trans P)].
Qed.

#[global] Instance agree_proper : Proper (pointwise_relation Z iff ==> eq ==> eq ==> iff) agree.
Proof. intros P Q H m _ <- m' _ <-. split; intros Ha a; [rewrite <- (H a)|rewrite (H a)]; apply Ha. Qed.

(** A word load only depends on the bytes it covers. *)
#[global] Instance ld_proper n a : Proper (agree (in_range a (Z.of_nat n)) ==> eq) (fun m => ld n m a).
Proof. intros m m' H. symmetry. by apply ld_agree. Qed.

(** ** 64- and 32-bit accesses *)

Abbreviation ld64 := (ld 8).
Abbreviation st64 := (st 8).
Abbreviation ld32 := (ld 4).
Abbreviation st32 := (st 4).

Lemma ld64_bound m a : 0 <= ld64 m a < 2 ^ 64.
Proof. pose proof (ld_bound 8 m a). change (256 ^ Z.of_nat 8) with (2 ^ 64) in *. done. Qed.
Lemma ld64_st64 m a v : 0 <= v < 2 ^ 64 -> ld64 (st64 m a v) a = v.
Proof.
  intros. rewrite ld_st_same. change (256 ^ Z.of_nat 8) with (2 ^ 64). by apply Z.mod_small.
Qed.
Lemma ld64_st64_ne m a b v : disjoint a 8 b 8 -> ld64 (st64 m a v) b = ld64 m b.
Proof. intros. by apply ld_st_other. Qed.
Lemma ld32_st32 m a v : 0 <= v < 2 ^ 32 -> ld32 (st32 m a v) a = v.
Proof.
  intros. rewrite ld_st_same. change (256 ^ Z.of_nat 4) with (2 ^ 32). by apply Z.mod_small.
Qed.
#[export] Hint Resolve ld64_bound : kmem.

(** A one-byte store. *)
Lemma ldb_st1 m a v b : ldb (st 1 m a v) b = if Z.eqb b a then v mod 256 else ldb m b.
Proof.
  destruct (Z.eqb_spec b a) as [->|]; [apply ldb_st_hd|].
  apply ldb_st_out. unfold in_range. lia.
Qed.

(** ** Bytes of a word *)

Definition byte_of (v k : Z) : Z := (v / 256 ^ k) mod 256.

Lemma byte_of_ld n m a k : 0 <= k < Z.of_nat n -> byte_of (ld n m a) k = ldb m (a + k).
Proof.
  revert a k. induction n as [|n IH]; intros a k Hk; [lia|].
  rewrite ld_S. pose proof (ldb_bound m a) as Hb. unfold byte_of.
  destruct (Z.eq_dec k 0) as [->|].
  - change (256 ^ 0) with 1. rewrite Z.div_1_r, Z.add_0_r.
    rewrite Z.mul_comm, Z.mod_add by lia. by apply Z.mod_small.
  - replace k with (1 + (k - 1)) at 1 by lia. rewrite Z.pow_add_r by lia.
    rewrite <- Z.div_div by (try apply Z.pow_pos_nonneg; lia).
    change (256 ^ 1) with 256. rewrite Z.mul_comm, Z.div_add, (Z.div_small (ldb m a)) by lia.
    rewrite Z.add_0_l. specialize (IH (a + 1) (k - 1)). unfold byte_of in IH.
    rewrite IH by lia. f_equal. lia.
Qed.

Lemma ldb_st_in n m a v k :
  0 <= k < Z.of_nat n -> ldb (st n m a v) (a + k) = byte_of v k.
Proof.
  intros Hk. rewrite <- (byte_of_ld n) by done. rewrite ld_st_same. unfold byte_of.
  replace (Z.of_nat n) with (k + (1 + (Z.of_nat n - k - 1))) by lia.
  assert (0 < 256 ^ k) by (apply Z.pow_pos_nonneg; lia).
  assert (0 < 256 ^ (Z.of_nat n - k - 1)) by (apply Z.pow_pos_nonneg; lia).
  rewrite !Z.pow_add_r by lia. change (256 ^ 1) with 256.
  rewrite Z.rem_mul_r by nia. rewrite (Z.mul_comm (256 ^ k)), Z.div_add by lia.
  rewrite (Z.div_small (v mod 256 ^ k)) by (apply Z.mod_pos_bound; lia).
  rewrite Z.add_0_l. rewrite Z.rem_mul_r by lia.
  rewrite Z.mul_comm, Z.mod_add by lia. by rewrite Z.mod_mod by lia.
Qed.

(** Words are equal when their bytes are. *)
Lemma byte_of_ext n v w :
  0 <= v < 256 ^ Z.of_nat n -> 0 <= w < 256 ^ Z.of_nat n ->
  (forall k, 0 <= k < Z.of_nat n -> byte_of v k = byte_of w k) -> v = w.
Proof.
  revert v w. induction n as [|n IH]; intros v w Hv Hw H.
  - change (256 ^ Z.of_nat 0) with 1 in *. lia.
  - rewrite pow256_S in *. rewrite (Z.div_mod v 256), (Z.div_mod w 256) by lia.
    f_equal.
    + f_equal. apply IH; [zdm|zdm|]. intros k Hk. specialize (H (1 + k) ltac:(lia)).
      unfold byte_of in *. rewrite !Z.pow_add_r in H by lia.
      rewrite <- !Z.div_div in H by (try apply Z.pow_pos_nonneg; lia). done.
    + specialize (H 0 ltac:(lia)). unfold byte_of in H. by rewrite !Z.div_1_r in H.
Qed.
