(* ===== verification/Machine.v ===== *)
(** * The kernel's state and the monad its C code runs in

    [kst] is what the C code of the kernel can read and change: the flat
    memory, the registers of the executing hart, the per-hart records of
    asm/hart.c, the bytes sent to the console, and the kernel's global
    variables whose address is never taken.  Globals whose address is taken
    (list heads, locks) live in the flat memory at the addresses the linker
    gives them, which are the fields of [KernelLayout].

    A C function is a computation [M A]: it returns a value and a new state,
    stops in [panic], touches an unmapped page, or never returns. *)

From S2P Require Import Prelude Memory.

(** ** Constants of kmem.h, vmem.h and parameters.h *)

Definition PAGE_SIZE : Z := 0x1000.
Definition PAGE_SHIFT : Z := 12.
Definition MAX_MEM_ORDER : Z := 11.
Definition OBJECT_ALIGNMENT : Z := 8.
Definition MAX_CPU : Z := 16.

Definition PAGE_ROUND_UP (x : Z) : Z := (x +l PAGE_SIZE -l 1) &l not64 (PAGE_SIZE - 1).
Definition PAGE_ROUND_DOWN (x : Z) : Z := x &l not64 (PAGE_SIZE - 1).
Definition BINARY_ROUND_UP (x agn : Z) : Z := (x +l agn -l 1) &l not64 (agn - 1).
Definition BINARY_ROUND_DOWN (x agn : Z) : Z := x &l not64 (agn - 1).

(** The direct map of physical memory (SV39, the default [VMEM_MODE]). *)
Definition VA_KERNEL_BEGIN : Z := 0xFFFFFFC000000000.
Definition VA_KERNEL_PMA_SIZE : Z := 0x2000000000.
Definition VA_KERNEL_IMG_BEGIN : Z := 0xFFFFFFFF80000000.
Definition PMA_VA2PA (va : Z) : Z := va &l not64 VA_KERNEL_BEGIN.
Definition PMA_PA2VA (pa : Z) : Z := pa |l VA_KERNEL_BEGIN.

Definition NULL : Z := 0.

(** ** Global state *)

(** [struct hart_struct] of asm/hart.h; a context is its 14 saved registers. *)
Record hart_struct := mk_hart {
  enabled : Z;
  running_proc : Z;
  context : list Z;
  trap_pushoff_dep : Z;
  trap_enabled : Z;
}.

(** [struct bootmem_node_struct] of kmem.h. *)
Record bootmem_node_struct := mk_bootmem_node {
  b_begin_ppn : Z;
  b_num_ppn : Z;
  b_mem_map : Z;
  b_mem_map_size : Z;
  last_page : Z;
  last_page_offset : Z;
}.

(** The fields of [struct kmem_node_struct] whose address is not taken;
    [free_area_map] and [free_area_map_size] are indexed by order. *)
Record kmem_node_struct := mk_kmem_node {
  begin_ppn : Z;
  num_ppn : Z;
  mem_map : Z;
  mem_map_size : Z;
  free_area_map : list Z;
  free_area_map_size : list Z;
}.

Record ram_segment_descriptor_struct := mk_seg { pa_begin : Z; pa_len : Z }.

(** [struct ram_descriptor_struct] of device/memory.h: the array of
    available segments is the list of its first
    [available_ram_segments_num] entries. *)
Record ram_descriptor_struct := mk_ram {
  ram : ram_segment_descriptor_struct;
  available_ram_segments : list ram_segment_descriptor_struct;
}.

(** One access to a device register: its width in bytes, address and value. *)
Inductive mmio_event :=
| MRead (n : nat) (a v : Z)
| MWrite (n : nat) (a v : Z).

(** [console_out]: the bytes handed to the SBI firmware's console so far;
    [ecalls]: the other requests made of the firmware (extension, function,
    arguments); [csr]: the control and status registers other than [sstatus],
    by their number; [mmio]: the accesses to device registers so far. *)
Record kst := mk_kst {
  mem : memory;
  tp : Z;
  sstatus : Z;
  harts : gmap Z hart_struct;
  uma_node : bootmem_node_struct;
  kmem : kmem_node_struct;
  ram_descriptor : ram_descriptor_struct;
  console_out : list Z;
  csr : gmap Z Z;
  ecalls : list (Z * Z * list Z);
  mmio : list mmio_event;
}.

Definition set_mem (m : memory) (s : kst) : kst :=
  mk_kst m (tp s) (sstatus s) (harts s) (uma_node s) (kmem s) (ram_descriptor s) (console_out s) (csr s) (ecalls s) (mmio s).
Definition set_sstatus (x : Z) (s : kst) : kst :=
  mk_kst (mem s) (tp s) x (harts s) (uma_node s) (kmem s) (ram_descriptor s) (console_out s) (csr s) (ecalls s) (mmio s).
Definition set_harts (h : gmap Z hart_struct) (s : kst) : kst :=
  mk_kst (mem s) (tp s) (sstatus s) h (uma_node s) (kmem s) (ram_descriptor s) (console_out s) (csr s) (ecalls s) (mmio s).
Definition set_uma (u : bootmem_node_struct) (s : kst) : kst :=
  mk_kst (mem s) (tp s) (sstatus s) (harts s) u (kmem s) (ram_descriptor s) (console_out s) (csr s) (ecalls s) (mmio s).
Definition set_kmem (k : kmem_node_struct) (s : kst) : kst :=
  mk_kst (mem s) (tp s) (sstatus s) (harts s) (uma_node s) k (ram_descriptor s) (console_out s) (csr s) (ecalls s) (mmio s).
Definition set_ram (r : ram_descriptor_struct) (s : kst) : kst :=
  mk_kst (mem s) (tp s) (sstatus s) (harts s) (uma_node s) (kmem s) r (console_out s) (csr s) (ecalls s) (mmio s).
Definition set_out (o : list Z) (s : kst) : kst :=
  mk_kst (mem s) (tp s) (sstatus s) (harts s) (uma_node s) (kmem s) (ram_descriptor s) o (csr s) (ecalls s) (mmio s).
Definition set_csr (c : gmap Z Z) (s : kst) : kst :=
  mk_kst (mem s) (tp s) (sstatus s) (harts s) (uma_node s) (kmem s) (ram_descriptor s) (console_out s) c (ecalls s) (mmio s).
Definition set_ecalls (e : list (Z * Z * list Z)) (s : kst) : kst :=
  mk_kst (mem s) (tp s) (sstatus s) (harts s) (uma_node s) (kmem s) (ram_descriptor s) (console_out s) (csr s) e (mmio s).
Definition set_mmio (x : list mmio_event) (s : kst) : kst :=
  mk_kst (mem s) (tp s) (sstatus s) (harts s) (uma_node s) (kmem s) (ram_descriptor s) (console_out s) (csr s) (ecalls s) x.

(** ** Addresses the linker chooses

    The addresses of the globals [kmem], [harts], [console],
    [hal_uart_manager], [hal_trap_manager], [uni_managers],
    [list_node_object_manager], [kernel_pagetable], [pkernel_pgtbl],
    [proc_manager], [tick_lock] and [tick]; they lie in the kernel image,
    above the direct map, and do not overlap.  [sym_str] gives the addresses
    of string literals, [sym_fn] those of
    functions, [sym_var] those of the remaining variables, [kimage] the values of the variables of kimage_defs.h, which
    describe where the image was loaded. *)
Class KernelLayout := {
  sym_kmem : Z;
  sym_harts : Z;
  sym_console : Z;
  sym_hal_uart : Z;
  sym_hal_trap : Z;
  sym_uni_managers : Z;
  sym_list_node_mgr : Z;
  sym_kernel_pagetable : Z;
  sym_pkernel_pgtbl : Z;
  sym_proc_manager : Z;
  sym_tick_lock : Z;
  sym_tick : Z;
  sym_str : string -> Z;
  sym_fn : string -> Z;
  sym_var : string -> Z;
  kimage : string -> Z;
  sym_kmem_image : VA_KERNEL_IMG_BEGIN <= sym_kmem /\ sym_kmem + 1024 < 2 ^ 64;
  sym_kmem_aligned : sym_kmem mod 8 = 0;
  sym_harts_image : VA_KERNEL_IMG_BEGIN <= sym_harts /\ sym_harts + 4096 < 2 ^ 64;
  sym_harts_aligned : sym_harts mod 8 = 0;
  sym_console_image : VA_KERNEL_IMG_BEGIN <= sym_console /\ sym_console + 64 < 2 ^ 64;
  sym_hal_uart_image : VA_KERNEL_IMG_BEGIN <= sym_hal_uart /\ sym_hal_uart + 32 < 2 ^ 64;
  sym_hal_trap_image : VA_KERNEL_IMG_BEGIN <= sym_hal_trap /\ sym_hal_trap + 40 < 2 ^ 64;
  sym_kmem_harts : disjoint sym_kmem 1024 sym_harts 4096;
  sym_console_kmem : disjoint sym_console 64 sym_kmem 1024;
  sym_data_image : Forall (fun '(x, n) => VA_KERNEL_IMG_BEGIN <= x /\ x + n < 2 ^ 64)
    [(sym_uni_managers, 24); (sym_list_node_mgr, 8); (sym_kernel_pagetable, 8); (sym_pkernel_pgtbl, 8);
     (sym_proc_manager, 256); (sym_tick_lock, 24); (sym_tick, 8)];
  sym_var_image : forall x, VA_KERNEL_IMG_BEGIN <= sym_var x /\ sym_var x + 2 ^ 24 < 2 ^ 64;
  sym_tick_proc : disjoint sym_tick_lock 24 sym_proc_manager 256 /\ disjoint sym_tick 8 sym_proc_manager 256 /\
    disjoint sym_tick 8 sym_tick_lock 24;
}.

(** A layout of the shape the linker script produces. *)
#[local] Program Instance sample_layout : KernelLayout := {|
  sym_kmem := 0xFFFFFFFF80400000;
  sym_harts := 0xFFFFFFFF80500000;
  sym_console := 0xFFFFFFFF80600000;
  sym_hal_uart := 0xFFFFFFFF80601000;
  sym_hal_trap := 0xFFFFFFFF80602000;
  sym_uni_managers := 0xFFFFFFFF80603000;
  sym_list_node_mgr := 0xFFFFFFFF80603100;
  sym_kernel_pagetable := 0xFFFFFFFF80603200;
  sym_pkernel_pgtbl := 0xFFFFFFFF80603300;
  sym_proc_manager := 0xFFFFFFFF80604000;
  sym_tick_lock := 0xFFFFFFFF80605000;
  sym_tick := 0xFFFFFFFF80605100;
  sym_str := fun _ => 0xFFFFFFFF80300000;
  sym_fn := fun f => 0xFFFFFFFF80200000 + 64 * Z.of_nat (String.length f);
  sym_var := fun _ => 0xFFFFFFFF80700000;
  kimage := fun x =>
    if String.eqb x "__KERNEL_IMG_PA_BEGIN" then 0x80000000
    else if String.eqb x "__KERNEL_IMG_VA_BEGIN" then 0xFFFFFFFF80000000
    else if String.eqb x "__KERNEL_IMG_VA_END" then 0xFFFFFFFF80800000
    else if String.eqb x "pkernel_pgtbl" then 0x80210000
    else 0x80200000;
|}.
Solve All Obligations with
  (lazymatch goal with
   | |- Forall _ _ => repeat (constructor; [split; vm_compute; congruence|]); constructor
   | |- _ => vm_compute; intuition congruence
   end).

(** A machine with one running hart, interrupts on, no memory managed yet. *)
Definition sample_state (m : memory) : kst :=
  mk_kst m 0 2 ∅ (mk_bootmem_node 0 0 0 0 0 0) (mk_kmem_node 0 0 0 0 [] []) (mk_ram (mk_seg 0 0) []) [] ∅ [] [].

(** ** The monad *)

Inductive res (A : Type) : Type :=
| Ok (a : A) (s : kst)
| Panic (msg : string)
| Fault (addr : Z)
| Hang.
Arguments Ok {A} _ _.
Arguments Panic {A} _.
Arguments Fault {A} _.
Arguments Hang {A}.

Definition M (A : Type) : Type := kst -> res A.

#[global] Instance M_ret : MRet M := fun A a s => Ok a s.
#[global] Instance M_bind : MBind M := fun A B f c s =>
  match c s with
  | Ok a s' => f a s'
  | Panic msg => Panic msg
  | Fault a => Fault a
  | Hang => Hang
  end.

(** signal.c: [panic] prints its message and loops for ever. *)
Definition panic {A} (msg : string) : M A := fun _ => Panic msg.
Definition fault {A} (a : Z) : M A := fun _ => Fault a.
Definition hang {A} : M A := fun _ => Hang.
Definition gets {A} (f : kst -> A) : M A := fun s => Ok (f s) s.
Definition modify (f : kst -> kst) : M unit := fun s => Ok tt (f s).
Definition when (b : bool) (c : M unit) : M unit := if b then c else mret tt.

(** Loads and stores; page zero is never mapped, so dereferencing a null
    pointer, or a field of one, faults. *)
Definition rd (n : nat) (a : Z) : M Z := fun s =>
  if a <? PAGE_SIZE then Fault a else Ok (ld n (mem s) a) s.
Definition wr (n : nat) (a v : Z) : M unit := fun s =>
  if a <? PAGE_SIZE then Fault a else Ok tt (set_mem (st n (mem s) a v) s).

(** [for (i = i0; n more rounds; i++) body] *)
Fixpoint for_up (n : nat) (i : Z) (body : Z -> M unit) : M unit :=
  match n with
  | O => mret tt
  | S n' => body i ;; for_up n' (i + 1) body
  end.

(** A loop whose body either goes round again with a new loop state or
    leaves with a result ([break], [return]). *)
Fixpoint loop {X R} (fuel : nat) (body : X -> M (X + R)) (x : X) : M R :=
  match fuel with
  | O => hang
  | S n => r ← body x; match r with inl x' => loop n body x' | inr r => mret r end
  end.

(** A C loop with no static bound on its rounds: up to [2^k] rounds,
    organised as a binary tree so that 64-bit counters are never built. *)
Fixpoint rounds {X R} (k : nat) (body : X -> M (X + R)) (x : X) : M (X + R) :=
  match k with
  | O => body x
  | S k' => r ← rounds k' body x; match r with inl x' => rounds k' body x' | inr r => mret (inr r) end
  end.

(** [2^64] rounds are more than any loop over 64-bit addresses or counters
    makes before it repeats itself. *)
Definition while {X R} (body : X -> M (X + R)) (x : X) : M R :=
  r ← rounds 64 body x; match r with inl _ => hang | inr r => mret r end.

(** ** Devices

    A device register is not memory: what a read returns is up to the device,
    which has seen the accesses so far. *)
Class Devices := dev_read : list mmio_event -> nat -> Z -> Z.

Definition rdv {D : Devices} (n : nat) (a : Z) : M Z := fun s =>
  let v := dev_read (mmio s) n a mod 256 ^ Z.of_nat n in Ok v (set_mmio (mmio s ++ [MRead n a v]) s).
Definition wrv (n : nat) (a v : Z) : M unit := modify (fun s => set_mmio (mmio s ++ [MWrite n a (v mod 256 ^ Z.of_nat n)]) s).

(** ** Function pointers

    Drivers are called through function pointers; [call f args] is the
    function at address [f]. *)
Class Code := call : Z -> list Z -> M Z.

(** ** Weakest preconditions (total correctness)

    [wp c Q s]: run from [s], [c] returns a value and a state satisfying
    [Q]; in particular it neither panics, faults nor diverges. *)
Definition wp {A} (c : M A) (Q : A -> kst -> Prop) (s : kst) : Prop :=
  match c s with Ok a s' => Q a s' | _ => False end.

Lemma wp_iff {A} (c : M A) Q s : wp c Q s <-> exists a s', c s = Ok a s' /\ Q a s'.
Proof.
  unfold wp. split.
  - destruct (c s); try done. eauto.
  - intros (a & s' & -> & H). done.
Qed.

Lemma wp_mono {A} (c : M A) (Q Q' : A -> kst -> Prop) s :
  wp c Q s -> (forall a s', Q a s' -> Q' a s') -> wp c Q' s.
Proof. unfold wp. destruct (c s); eauto. Qed.

Lemma wp_bind {A B} (c : M A) (f : A -> M B) Q s :
  wp c (fun a s' => wp (f a) Q s') s -> wp (c ≫= f) Q s.
Proof. unfold wp, mbind, M_bind. by destruct (c s). Qed.

Lemma wp_ret {A} (a : A) (Q : A -> kst -> Prop) s : Q a s -> wp (mret a) Q s.
Proof. done. Qed.
Lemma wp_gets {A} (f : kst -> A) (Q : A -> kst -> Prop) s : Q (f s) s -> wp (gets f) Q s.
Proof. done. Qed.
Lemma wp_modify f (Q : unit -> kst -> Prop) s : Q tt (f s) -> wp (modify f) Q s.
Proof. done. Qed.
Lemma wp_rd n a (Q : Z -> kst -> Prop) s :
  PAGE_SIZE <= a -> Q (ld n (mem s) a) s -> wp (rd n a) Q s.
Proof. intros. unfold wp, rd. destruct (Z.ltb_spec a PAGE_SIZE); [lia|done]. Qed.
Lemma wp_wr n a v (Q : unit -> kst -> Prop) s :
  PAGE_SIZE <= a -> Q tt (set_mem (st n (mem s) a v) s) -> wp (wr n a v) Q s.
Proof. intros. unfold wp, wr. destruct (Z.ltb_spec a PAGE_SIZE); [lia|done]. Qed.

Lemma wp_rdv {D : Devices} n a (Q : Z -> kst -> Prop) s :
  (let v := dev_read (mmio s) n a mod 256 ^ Z.of_nat n in Q v (set_mmio (mmio s ++ [MRead n a v]) s)) -> wp (rdv n a) Q s.
Proof. done. Qed.
Lemma wp_wrv n a v (Q : unit -> kst -> Prop) s :
  Q tt (set_mmio (mmio s ++ [MWrite n a (v mod 256 ^ Z.of_nat n)]) s) -> wp (wrv n a v) Q s.
Proof. done. Qed.

(** The result of a run on a concrete machine. *)
Definition run_or {A} (c : M A) (s : kst) (d : A) : A * kst := match c s with Ok a s' => (a, s') | _ => (d, s) end.
Lemma run_or_ok {A} (c : M A) Q s d : wp c Q s -> Q (fst (run_or c s d)) (snd (run_or c s d)).
Proof. unfold wp, run_or. by destruct (c s). Qed.

(** A computation whose first part returns and whose rest panics. *)
Lemma bind_panics {A B} (c : M A) (f : A -> M B) msg s :
  wp c (fun a s' => f a s' = Panic msg) s -> (c ≫= f) s = Panic msg.
Proof. unfold wp, mbind, M_bind. by destruct (c s). Qed.

Lemma bind_faults {A B} (c : M A) (f : A -> M B) a s :
  wp c (fun x s' => f x s' = Fault a) s -> (c ≫= f) s = Fault a.
Proof. unfold wp, mbind, M_bind. by destruct (c s). Qed.

(** ** Computations that may not return

    [ends K c s]: the outcome of [c] run from [s] satisfies [K], whatever it
    is; [wp c Q s] is the case of a [K] that asks for a result, [stops r c s]
    says that [c] does not return but ends in [r].  A function parameter can
    be made to stop in a way of its own, so "if [d] stops with [r] in every
    state where [P] holds, then [c] stops with [r]" says that [c] gets as far
    as [d] and calls it where [P] holds. *)
Definition ends {A} (K : res A -> Prop) (c : M A) (s : kst) : Prop := K (c s).

Inductive stop := Panics (msg : string) | Faults (addr : Z) | Hangs.
Definition stop_res {A} (r : stop) : res A :=
  match r with Panics msg => Panic msg | Faults a => Fault a | Hangs => Hang end.
Definition stops {A} (r : stop) (c : M A) (s : kst) : Prop := ends (fun o => o = stop_res r) c s.

Lemma ends_wp {A} (c : M A) Q s : ends (fun o => match o with Ok a s' => Q a s' | _ => False end) c s <-> wp c Q s.
Proof. done. Qed.
Lemma ends_bind {A B} K (c : M A) (f : A -> M B) s : wp c (fun a s' => ends K (f a) s') s -> ends K (c ≫= f) s.
Proof. unfold wp, ends, mbind, M_bind. by destruct (c s). Qed.
Lemma stops_bind {A B} r (c : M A) (f : A -> M B) s : wp c (fun a s' => stops r (f a) s') s -> stops r (c ≫= f) s.
Proof. apply ends_bind. Qed.
Lemma stops_first {A B} r (c : M A) (f : A -> M B) s : stops r c s -> stops r (c ≫= f) s.
Proof. unfold stops, ends, mbind, M_bind. intros ->. by destruct r. Qed.

(** Invariant rule for a counted loop. *)
Lemma wp_for_up (I : Z -> kst -> Prop) (n : nat) (i : Z) body (Q : unit -> kst -> Prop) s :
  I i s ->
  (forall j s', i <= j < i + Z.of_nat n -> I j s' -> wp (body j) (fun _ s'' => I (j + 1) s'') s') ->
  (forall s', I (i + Z.of_nat n) s' -> Q tt s') ->
  wp (for_up n i body) Q s.
Proof.
  revert i s. induction n as [|n IH]; intros i s HI Hb HQ.
  - apply wp_ret, HQ. by replace (i + Z.of_nat 0) with i by lia.
  - cbn [for_up]. apply wp_bind. eapply wp_mono; [apply Hb; [lia|done]|].
    intros [] s' HI'. apply IH; [done| |].
    + intros j s'' Hj. apply Hb. lia.
    + intros s''. replace (i + 1 + Z.of_nat n) with (i + Z.of_nat (S n)) by lia. apply HQ.
Qed.

(** Variant rule for [loop]: [I n x s] is the invariant with at most [n]
    rounds left. *)
Lemma wp_loop {X R} (I : nat -> X -> kst -> Prop) fuel body (x : X) (Q : R -> kst -> Prop) s :
  I fuel x s ->
  (forall x' s', ~ I O x' s') ->
  (forall n x' s', I (S n) x' s' ->
     wp (body x') (fun r s'' => match r with inl y => I n y s'' | inr r => Q r s'' end) s') ->
  wp (loop fuel body x) Q s.
Proof.
  revert x s. induction fuel as [|n IH]; intros x s HI H0 Hb; [by destruct (H0 x s)|].
  cbn [loop]. apply wp_bind. eapply wp_mono; [by apply Hb|].
  intros [y|r] s' H; [by apply IH|done].
Qed.

Lemma wp_rounds {X R} (I : Z -> X -> kst -> Prop) body (k : nat) (n : Z) (x : X) (Q : X + R -> kst -> Prop) s :
  I n x s -> 0 <= n ->
  (forall n' x' s', I n' x' s' -> 0 <= n' ->
     wp (body x') (fun r s'' => match r with inl y => exists n'', 0 <= n'' < n' /\ I n'' y s'' | inr _ => Q r s'' end) s') ->
  (forall n' y s', I n' y s' -> 0 <= n' <= n - 2 ^ Z.of_nat k -> Q (inl y) s') ->
  wp (rounds k body x) Q s.
Proof.
  revert n x Q s. induction k as [|k IH]; intros n x Q s HI Hv Hb HQ; cbn [rounds].
  - eapply wp_mono; [by apply (Hb n)|]. intros [y|r] s' H; [|done]. destruct H as (n' & Hn & H).
    apply (HQ n'); [done|]. simpl. lia.
  - apply wp_bind. apply (IH n); try done.
    + intros n' x' s' H H'. eapply wp_mono; [by apply (Hb n')|]. intros [y|r] s'' H''; [done|by apply wp_ret].
    + intros n' y s' HI' Hv'. apply (IH n'); try done; [lia|]. intros n'' z s'' H1 H2. apply (HQ n''); [done|].
      rewrite Nat2Z.inj_succ, Z.pow_succ_r by lia. lia.
Qed.

(** Variant rules for [while]: the invariant carries a bound on the rounds
    left, or the bound is a function of the loop variables. *)
Lemma wp_while_n {X R} (I : Z -> X -> kst -> Prop) body (n : Z) (x : X) (Q : R -> kst -> Prop) s :
  I n x s -> 0 <= n < 2 ^ 64 ->
  (forall n' x' s', I n' x' s' -> 0 <= n' ->
     wp (body x') (fun r s'' => match r with inl y => exists n'', 0 <= n'' < n' /\ I n'' y s'' | inr r => Q r s'' end) s') ->
  wp (while body x) Q s.
Proof.
  intros HI Hv Hb. unfold while. apply wp_bind.
  apply (wp_rounds I body 64 n x); [done|lia| |].
  - intros n' x' s' H H'. eapply wp_mono; [by apply (Hb n')|]. intros [y|r] s'' H''; [done|by apply wp_ret].
  - intros n' y s' _ H. change (2 ^ Z.of_nat 64) with (2 ^ 64) in H. lia.
Qed.

Lemma wp_while {X R} (I : X -> kst -> Prop) (v : X -> kst -> Z) body (x : X) (Q : R -> kst -> Prop) s :
  I x s -> 0 <= v x s < 2 ^ 64 ->
  (forall x' s', I x' s' -> 0 <= v x' s' ->
     wp (body x') (fun r s'' => match r with inl y => I y s'' /\ 0 <= v y s'' < v x' s' | inr r => Q r s'' end) s') ->
  wp (while body x) Q s.
Proof.
  intros HI Hv Hb. apply (wp_while_n (fun n x s => I x s /\ n = v x s) body (v x s)); try done.
  intros n x' s' [H ->] H'. eapply wp_mono; [by apply Hb|]. intros [y|r] s'' H''; [|done].
  exists (v y s''). tauto.
Qed.

(** A loop one of whose rounds does not return. *)
Lemma rounds_stops {X R} (I : Z -> X -> kst -> Prop) (body : X -> M (X + R)) r (k : nat) (n : Z) (x : X) s :
  (forall n x s, I n x s -> 0 <= n -> stops r (body x) s \/ exists y s' n', body x s = Ok (inl y) s' /\ 0 <= n' < n /\ I n' y s') ->
  I n x s -> 0 <= n ->
  stops r (rounds k body x) s \/
  exists y s' n', rounds k body x s = Ok (inl y) s' /\ 0 <= n' <= n - 2 ^ Z.of_nat k /\ I n' y s'.
Proof.
  intros Hb. revert n x s. induction k as [|k IH]; intros n x s HI Hn; cbn [rounds].
  - destruct (Hb n x s HI Hn) as [H|(y & s' & n' & H & Hn' & HI')]; [by left|right]. exists y, s', n'. split_and!; try done; simpl; lia.
  - destruct (IH n x s HI Hn) as [E|(y & s' & n' & E & Hn' & HI')]; [left; by apply stops_first|]. unfold stops, ends, mbind, M_bind. rewrite E.
    destruct (IH n' y s' HI' ltac:(lia)) as [E2|(z & s'' & n'' & E2 & Hn'' & HI'')]; [by left|right]. exists z, s'', n''. split_and!; try done; try lia.
    rewrite Nat2Z.inj_succ, Z.pow_succ_r by lia. lia.
Qed.

Lemma while_stops {X R} (I : Z -> X -> kst -> Prop) (body : X -> M (X + R)) r (n : Z) (x : X) s :
  (forall n x s, I n x s -> 0 <= n -> stops r (body x) s \/ exists y s' n', body x s = Ok (inl y) s' /\ 0 <= n' < n /\ I n' y s') ->
  I n x s -> 0 <= n < 2 ^ 64 -> stops r (while body x) s.
Proof.
  intros Hb HI Hn. unfold while.
  destruct (rounds_stops I body r 64 n x s Hb HI ltac:(lia)) as [E|(y & s' & n' & _ & Hn' & _)]; [by apply stops_first|].
  change (2 ^ Z.of_nat 64) with (2 ^ 64) in Hn'. lia.
Qed.

(** One step of symbolic execution. *)
Ltac wp_step :=
  lazymatch goal with
  | |- wp (mbind _ _) _ _ => apply wp_bind
  | |- wp (mret _) _ _ => apply wp_ret
  | |- wp (gets _) _ _ => apply wp_gets
  | |- wp (modify _) _ _ => apply wp_modify
  | |- wp (rd _ _) _ _ => apply wp_rd; [try first [assumption | lia]|]
  | |- wp (wr _ _ _) _ _ => apply wp_wr; [try first [assumption | lia]|]
  | |- wp (when ?b ?c) ?Q ?s =>
      let b' := eval cbn in b in
      lazymatch b' with true => change (wp c Q s) | false => change (wp (mret tt) Q s) end
  | |- wp (if ?b then ?c else ?d) ?Q ?s =>
      let b' := eval cbn in b in
      lazymatch b' with true => change (wp c Q s) | false => change (wp d Q s) end
  end.

(** Run the straight-line code at the head of the goal. *)
Ltac wp_steps := repeat (progress wp_step).

(** Two states that differ at most in memory and in the hart records. *)
Definition same_globals (s s' : kst) : Prop := set_harts ∅ (set_mem ∅ s') = set_harts ∅ (set_mem ∅ s).

#[export] Instance same_globals_equiv : Equivalence same_globals.
Proof. split; unfold same_globals; [by intros s|by intros s s' ->|intros s1 s2 s3 H1 H2; by rewrite H2]. Qed.

Lemma same_globals_fields s s' : same_globals s s' ->
  tp s' = tp s /\ sstatus s' = sstatus s /\ uma_node s' = uma_node s /\ kmem s' = kmem s /\
  ram_descriptor s' = ram_descriptor s /\ console_out s' = console_out s /\ csr s' = csr s /\ ecalls s' = ecalls s /\ mmio s' = mmio s.
Proof. destruct s, s'. unfold same_globals, set_harts, set_mem. simpl. intros H. injection H. intros. subst. done. Qed.

Lemma set_mem_mem m s : mem (set_mem m s) = m. Proof. done. Qed.
Lemma set_mem_twice m m' s : set_mem m (set_mem m' s) = set_mem m s. Proof. done. Qed.
Lemma set_mem_id s : set_mem (mem s) s = s. Proof. by destruct s. Qed.

(** ** Page arithmetic *)

Lemma PAGE_ROUND_DOWN_spec x : 0 <= x < 2 ^ 64 -> PAGE_ROUND_DOWN x = x - x mod PAGE_SIZE.
Proof. intros. unfold PAGE_ROUND_DOWN. change (PAGE_SIZE - 1) with (2 ^ 12 - 1).
  by rewrite land_not_mask by lia.
Qed.

Lemma PAGE_ROUND_UP_spec x :
  0 <= x -> x + PAGE_SIZE <= 2 ^ 64 ->
  PAGE_ROUND_UP x = (x + PAGE_SIZE - 1) - (x + PAGE_SIZE - 1) mod PAGE_SIZE.
Proof.
  unfold PAGE_ROUND_UP, PAGE_SIZE. intros. 
  assert (E : x +l 4096 -l 1 = x + 4095).
  { unfold sub64, add64, u64. rewrite Zminus_mod_idemp_l. rewrite Z.mod_small; lia. }
  rewrite E. change (4096 - 1) with (2 ^ 12 - 1).
  rewrite land_not_mask by lia. change (2 ^ 12) with 4096. do 2 f_equal; lia.
Qed.

Lemma PMA_PA2VA_spec pa : 0 <= pa < 2 ^ 38 -> PMA_PA2VA pa = pa + VA_KERNEL_BEGIN.
Proof.
  intros. unfold PMA_PA2VA. rewrite Z.lor_comm, (lor_add_disjoint _ _ 38); [lia|lia|lia|done].
Qed.

Lemma PMA_VA2PA_spec pa : 0 <= pa < 2 ^ 38 -> PMA_VA2PA (pa + VA_KERNEL_BEGIN) = pa.
Proof.
  intros. unfold PMA_VA2PA. change (not64 VA_KERNEL_BEGIN) with (2 ^ 38 - 1).
  rewrite land_mask by lia.
  replace (pa + VA_KERNEL_BEGIN) with (pa + (2 ^ 26 - 1) * 2 ^ 38) by (unfold VA_KERNEL_BEGIN; lia).
  rewrite Z.mod_add by lia. by apply Z.mod_small.
Qed.
