(* ===== verification/Bytes.v ===== *)
(** * utilities/bytes.c: bitmaps and byte order

    [bit m map i] is the meaning of a bitmap: bit [i] of the byte array at
    [map].  The four bit operations are shown to read it or to update it at
    exactly one index; the allocators are verified against that view.  The
    byte-order helpers are shown to reverse bytes in place. *)

From S2P Require Import Prelude Memory Machine.

(** ** The code *)

Definition test_bit (map index : Z) : M Z :=
  v ← rd 1 (map + (index >>l 3));
  mret ((v >>l (index &l 7)) &l 1).

Definition test_and_set_bit (map index : Z) : M Z :=
  v ← rd 1 (map + (index >>l 3));
  let ret := (v >>l (index &l 7)) &l 1 in
  wr 1 (map + (index >>l 3)) (u8 (v |l Z.shiftl 1 (index &l 7)));;
  mret ret.

Definition test_and_clear_bit (map index : Z) : M Z :=
  v ← rd 1 (map + (index >>l 3));
  let ret := (v >>l (index &l 7)) &l 1 in
  wr 1 (map + (index >>l 3)) (u8 (v &l Z.lnot (Z.shiftl 1 (index &l 7))));;
  mret ret.

Definition toggle_bit (map index : Z) : M Z :=
  v ← rd 1 (map + (index >>l 3));
  wr 1 (map + (index >>l 3)) (u8 (v ^l Z.shiftl 1 (index &l 7)));;
  v' ← rd 1 (map + (index >>l 3));
  mret ((v' >>l (index &l 7)) &l 1).

(** The loop state is the pair of pointers [(lft, rig)]; each round brings
    them two bytes closer, so [numOfBytes + 1] rounds are enough. *)
Definition flip_bytes_inplace (x numOfBytes : Z) : M unit :=
  loop (S (Z.to_nat numOfBytes)) (fun '(lft, rig) =>
    if lft <? rig then
      tmp ← rd 1 lft;
      v ← rd 1 rig;
      wr 1 lft v;;
      wr 1 rig tmp;;
      mret (inl (lft + 1, rig - 1))
    else mret (inr tt))
  (x, x + numOfBytes - 1).

(** The argument is a local variable whose address is taken: [sp] is its
    stack slot. *)
Definition flip_bytes_16 (sp x : Z) : M Z :=
  wr 2 sp x;; flip_bytes_inplace sp 2;; rd 2 sp.
Definition flip_bytes_32 (sp x : Z) : M Z :=
  wr 4 sp x;; flip_bytes_inplace sp 4;; rd 4 sp.
Definition flip_bytes_64 (sp x : Z) : M Z :=
  wr 8 sp x;; flip_bytes_inplace sp 8;; rd 8 sp.

(** ** Bitmaps *)

Definition bit (m : memory) (map i : Z) : bool := Z.testbit (ldb m (map + i / 8)) (i mod 8).

(** The memory after bit [i] of the bitmap has been set to [b]. *)
Definition upd_bit (m : memory) (map i : Z) (b : bool) : memory :=
  let v := ldb m (map + i / 8) in
  st 1 m (map + i / 8) (if b then Z.setbit v (i mod 8) else Z.clearbit v (i mod 8)).

Lemma shr_index i : i >>l 3 = i / 8.
Proof. by rewrite Z.shiftr_div_pow2. Qed.
Lemma and_index i : i &l 7 = i mod 8.
Proof. exact (land_mask i 3 ltac:(lia)). Qed.

Lemma testbit_land1 v k : 0 <= k -> (v >>l k) &l 1 = Z.b2z (Z.testbit v k).
Proof.
  intros. change 1 with (2 ^ 1 - 1). rewrite land_mask by lia.
  rewrite Z.testbit_spec' by done. by rewrite Z.shiftr_div_pow2.
Qed.

(** A byte stays below [2^8] under a bit operation when its high bits do. *)
Lemma byte_bits v : (forall i, 8 <= i -> Z.testbit v i = false) -> u8 v = v.
Proof.
  intros H. unfold u8. apply Z.bits_inj'. intros i Hi.
  destruct (Z.lt_ge_cases i 8).
  - by rewrite Z.mod_pow2_bits_low.
  - rewrite Z.mod_pow2_bits_high by lia. by rewrite H.
Qed.

Lemma byte_high v i : 0 <= v < 256 -> 8 <= i -> Z.testbit v i = false.
Proof.
  intros. rewrite <- (Z.mod_small v (2 ^ 8)) by done. apply Z.mod_pow2_bits_high. lia.
Qed.

Lemma setbit_u8 v k : 0 <= v < 256 -> 0 <= k < 8 -> u8 (v |l Z.shiftl 1 k) = Z.setbit v k.
Proof.
  intros. rewrite Z.setbit_spec', shiftl_1 by lia. apply byte_bits. intros i Hi.
  rewrite Z.lor_spec, (byte_high v) by lia. rewrite Z.pow2_bits_false by lia. done.
Qed.

Lemma clearbit_u8 v k :
  0 <= v < 256 -> 0 <= k < 8 -> u8 (v &l Z.lnot (Z.shiftl 1 k)) = Z.clearbit v k.
Proof.
  intros. rewrite Z.clearbit_spec'. rewrite shiftl_1 by lia.
  assert (E : v &l Z.lnot (2 ^ k) = Z.ldiff v (2 ^ k)).
  { apply Z.bits_inj'. intros i Hi.
    by rewrite Z.land_spec, Z.lnot_spec, Z.ldiff_spec by done. }
  rewrite E. apply byte_bits. intros i Hi.
  by rewrite Z.ldiff_spec, (byte_high v) by lia.
Qed.

Lemma togglebit_u8 v k :
  0 <= v < 256 -> 0 <= k < 8 ->
  u8 (v ^l Z.shiftl 1 k) = if Z.testbit v k then Z.clearbit v k else Z.setbit v k.
Proof.
  intros. rewrite shiftl_1 by lia.
  rewrite byte_bits.
  2:{ intros i Hi. rewrite Z.lxor_spec, (byte_high v) by lia.
      by rewrite Z.pow2_bits_false by lia. }
  apply Z.bits_inj'. intros i Hi. rewrite Z.lxor_spec, Z.pow2_bits_eqb by lia.
  destruct (Z.testbit v k) eqn:E.
  - rewrite Z.clearbit_eqb. destruct (Z.eqb_spec k i) as [->|].
    + by rewrite E.
    + by rewrite xorb_false_r, andb_true_r.
  - rewrite Z.setbit_eqb by lia. destruct (Z.eqb_spec k i) as [->|].
    + by rewrite E.
    + by rewrite xorb_false_r, orb_false_l.
Qed.

Lemma upd_byte_bound m map i (b : bool) :
  0 <= (if b then Z.setbit (ldb m (map + i / 8)) (i mod 8)
        else Z.clearbit (ldb m (map + i / 8)) (i mod 8)) < 256.
Proof.
  pose proof (ldb_bound m (map + i / 8)) as Hv.
  assert (0 <= i mod 8 < 8) by (apply Z.mod_pos_bound; lia).
  destruct b.
  - rewrite <- setbit_u8 by done. apply u8_bound.
  - rewrite <- clearbit_u8 by done. apply u8_bound.
Qed.

Lemma bit_upd m map i b j :
  bit (upd_bit m map i b) map j = if Z.eqb i j then b else bit m map j.
Proof.
  unfold bit, upd_bit. pose proof (upd_byte_bound m map i b) as Hv.
  assert (0 <= i mod 8 < 8) by (apply Z.mod_pos_bound; lia).
  assert (0 <= j mod 8 < 8) by (apply Z.mod_pos_bound; lia).
  pose proof (Z.div_mod i 8 ltac:(lia)). pose proof (Z.div_mod j 8 ltac:(lia)).
  destruct (Z.eq_dec (j / 8) (i / 8)) as [E|E].
  - rewrite E, ldb_st_hd, Z.mod_small by done. destruct b.
    + rewrite Z.setbit_eqb by lia. zcases; try lia; done.
    + rewrite Z.clearbit_eqb. zcases; try lia; simpl; by rewrite ?andb_false_r, ?andb_true_r.
  - rewrite ldb_st_out by (unfold in_range; lia).
    destruct (Z.eqb_spec i j) as [->|]; done.
Qed.

(** Updating a bit touches one byte. *)
Lemma upd_bit_out m map i b a : a <> map + i / 8 -> ldb (upd_bit m map i b) a = ldb m a.
Proof. intros. unfold upd_bit. apply ldb_st_out. unfold in_range. lia. Qed.

Lemma upd_bit_agree (P : Z -> Prop) m map i b :
  ~ P (map + i / 8) -> agree P m (upd_bit m map i b).
Proof. intros H a Ha. apply upd_bit_out. intros ->. done. Qed.

(** A bitmap only depends on its bytes. *)
Lemma bit_agree m m' map i :
  ldb m' (map + i / 8) = ldb m (map + i / 8) -> bit m' map i = bit m map i.
Proof. intros H. unfold bit. by rewrite H. Qed.

(** ** Specifications of the bit operations *)

Section bit_specs.
Context (map i : Z) (Hmap : PAGE_SIZE <= map) (Hi : 0 <= i).

#[local] Lemma idx_ok : PAGE_SIZE <= map + i / 8.
Proof. pose proof (Z.div_pos i 8 Hi ltac:(lia)). lia. Qed.
#[local] Lemma off_ok : 0 <= i mod 8 < 8.
Proof. apply Z.mod_pos_bound. lia. Qed.

Lemma wp_test_bit (Q : Z -> kst -> Prop) s :
  Q (Z.b2z (bit (mem s) map i)) s -> wp (test_bit map i) Q s.
Proof.
  intros HQ. pose proof idx_ok. pose proof off_ok. unfold test_bit.
  rewrite shr_index, and_index. wp_steps.
  rewrite testbit_land1, ld_1 by lia. done.
Qed.

Lemma wp_test_and_set_bit (Q : Z -> kst -> Prop) s :
  Q (Z.b2z (bit (mem s) map i)) (set_mem (upd_bit (mem s) map i true) s) ->
  wp (test_and_set_bit map i) Q s.
Proof.
  intros HQ. pose proof idx_ok. pose proof off_ok. unfold test_and_set_bit.
  rewrite shr_index, and_index. wp_steps.
  rewrite testbit_land1, ld_1 by lia. rewrite setbit_u8 by auto using ldb_bound. done.
Qed.

Lemma wp_test_and_clear_bit (Q : Z -> kst -> Prop) s :
  Q (Z.b2z (bit (mem s) map i)) (set_mem (upd_bit (mem s) map i false) s) ->
  wp (test_and_clear_bit map i) Q s.
Proof.
  intros HQ. pose proof idx_ok. pose proof off_ok. unfold test_and_clear_bit.
  rewrite shr_index, and_index. wp_steps.
  rewrite testbit_land1, ld_1 by lia. rewrite clearbit_u8 by auto using ldb_bound. done.
Qed.

(** [toggle_bit] returns the new value. *)
Lemma wp_toggle_bit (Q : Z -> kst -> Prop) s :
  let b := negb (bit (mem s) map i) in
  Q (Z.b2z b) (set_mem (upd_bit (mem s) map i b) s) ->
  wp (toggle_bit map i) Q s.
Proof.
  intros b HQ. pose proof idx_ok. pose proof off_ok. unfold toggle_bit.
  rewrite shr_index, and_index. wp_steps.
  rewrite testbit_land1, !ld_1 by lia. rewrite togglebit_u8 by auto using ldb_bound.
  rewrite set_mem_mem.
  assert (E : st 1 (mem s) (map + i / 8)
      (if Z.testbit (ldb (mem s) (map + i / 8)) (i mod 8)
       then Z.clearbit (ldb (mem s) (map + i / 8)) (i mod 8)
       else Z.setbit (ldb (mem s) (map + i / 8)) (i mod 8)) = upd_bit (mem s) map i b).
  { unfold upd_bit, b, bit. by destruct (Z.testbit _ _). }
  rewrite E. change (Z.testbit (ldb (upd_bit (mem s) map i b) (map + i / 8)) (i mod 8))
    with (bit (upd_bit (mem s) map i b) map i).
  rewrite bit_upd, Z.eqb_refl. done.
Qed.
End bit_specs.

(** ** Byte reversal *)

Lemma wp_flip_bytes_inplace x n s :
  PAGE_SIZE <= x -> 0 <= n ->
  wp (flip_bytes_inplace x n)
    (fun _ s' => exists m', s' = set_mem m' s /\
       (forall j, 0 <= j < n -> ldb m' (x + j) = ldb (mem s) (x + (n - 1 - j))) /\
       agree (fun a => ~ in_range x n a) (mem s) m') s.
Proof.
  intros Hx Hn. unfold flip_bytes_inplace.
  apply (wp_loop (fun fuel '(l, r) s' => exists k m',
    0 <= k /\ l = x + k /\ r = x + n - 1 - k /\ n < Z.of_nat fuel + k /\
    (2 * k <= n + 1) /\ s' = set_mem m' s /\
    (forall j, 0 <= j < n -> ldb m' (x + j) =
       if (j <? k) || (n - 1 - k <? j) then ldb (mem s) (x + (n - 1 - j)) else ldb (mem s) (x + j)) /\
    agree (fun a => ~ in_range x n a) (mem s) m')).
  - exists 0, (mem s). rewrite set_mem_id. split_and!; try lia; try done.
    intros j Hj. by zcases; try lia.
  - intros [l r] s' (k & m' & ?). lia.
  - intros fuel [l r] s' (k & m' & Hk & -> & -> & Hf & Hk2 & -> & Hin & Hout).
    destruct (Z.ltb_spec (x + k) (x + n - 1 - k)).
    + wp_steps. rewrite !set_mem_mem, !set_mem_twice, !ld_1.
      eexists (k + 1), _. split_and!; [lia|lia|lia|lia|lia|done| |].
      * intros j Hj.
        pose proof (ldb_bound m' (x + k)). pose proof (ldb_bound m' (x + n - 1 - k)).
        rewrite !ldb_st1, !Z.mod_small by lia.
        pose proof (Hin k ltac:(lia)) as E1. pose proof (Hin (n - 1 - k) ltac:(lia)) as E2.
        rewrite (Hin j Hj). replace (x + (n - 1 - k)) with (x + n - 1 - k) in E2 by lia.
        rewrite E1, E2. zcases; simpl; try lia; try (f_equal; lia).
      * intros a Ha. unfold in_range in Ha.
        rewrite !ldb_st_out by (unfold in_range; lia). apply Hout. unfold in_range. lia.
    + wp_step. exists m'. split_and!; [done| |done].
      intros j Hj. rewrite (Hin j Hj). zcases; simpl; try done. f_equal. lia.
Qed.

(** Storing a word in a stack slot, reversing the slot and reading it back
    reverses the bytes of the word. *)
Lemma wp_flip_word (n : nat) sp x s :
  PAGE_SIZE <= sp ->
  wp (wr n sp x;; flip_bytes_inplace sp (Z.of_nat n);; rd n sp)
    (fun r s' => 0 <= r < 256 ^ Z.of_nat n /\
       (forall k, 0 <= k < Z.of_nat n -> byte_of r k = byte_of x (Z.of_nat n - 1 - k)) /\
       exists m', s' = set_mem m' s /\ agree (fun a => ~ in_range sp (Z.of_nat n) a) (mem s) m') s.
Proof.
  intros Hsp. wp_step. wp_step. wp_step.
  eapply wp_mono; [apply wp_flip_bytes_inplace; [done|lia]|].
  intros [] s' (m' & -> & Hin & Hout). wp_step. rewrite set_mem_twice, !set_mem_mem in *.
  split; [apply ld_bound|]. split.
  - intros k Hk. rewrite byte_of_ld, Hin by lia. by rewrite ldb_st_in by lia.
  - exists m'. split; [done|]. etrans; [|done]. apply agree_st. tauto.
Qed.

(** ** The theorems *)

(** Bit [i] of the bitmap has become [b] and everything else is as before. *)
Definition only_bit (map i : Z) (b : bool) (s s' : kst) : Prop :=
  s' = set_mem (mem s') s /\
  (forall j, bit (mem s') map j = if i =? j then b else bit (mem s) map j) /\
  agree (fun a => a <> map + i / 8) (mem s) (mem s').

Lemma only_bit_upd map i b s : only_bit map i b s (set_mem (upd_bit (mem s) map i b) s).
Proof. split_and!; [done|intros; apply bit_upd|]. intros a Ha. by apply upd_bit_out. Qed.

(** [test_bit] reads a bit and changes nothing; [test_and_set_bit] and
    [test_and_clear_bit] return the old value of the bit, [toggle_bit] the new
    one, and each changes that bit of the bitmap and no other byte of
    memory. *)
Theorem bit_operations map i s :
  PAGE_SIZE <= map -> 0 <= i ->
  wp (test_bit map i) (fun r s' => r = Z.b2z (bit (mem s) map i) /\ s' = s) s /\
  wp (test_and_set_bit map i) (fun r s' => r = Z.b2z (bit (mem s) map i) /\ only_bit map i true s s') s /\
  wp (test_and_clear_bit map i) (fun r s' => r = Z.b2z (bit (mem s) map i) /\ only_bit map i false s s') s /\
  wp (toggle_bit map i) (fun r s' => r = Z.b2z (negb (bit (mem s) map i)) /\
    only_bit map i (negb (bit (mem s) map i)) s s') s.
Proof.
  intros Hm Hi. split_and!.
  - by apply wp_test_bit.
  - apply wp_test_and_set_bit; try done. split; [done|apply only_bit_upd].
  - apply wp_test_and_clear_bit; try done. split; [done|apply only_bit_upd].
  - apply wp_toggle_bit; try done. split; [done|apply only_bit_upd].
Qed.

Lemma bit_operations_witness :
  wp (toggle_bit 0x10000 13) (fun r s' => r = Z.b2z (negb (bit ∅ 0x10000 13)) /\
    only_bit 0x10000 13 (negb (bit ∅ 0x10000 13)) (sample_state ∅) s') (sample_state ∅).
Proof.
  destruct (bit_operations 0x10000 13 (sample_state ∅)) as (_ & _ & _ & H).
  - unfold PAGE_SIZE. lia.
  - lia.
  - exact H.
Defined.

(** The bytes of [r] are those of the [n]-byte word [x] in reverse order, and
    at most the stack slot [sp] has changed. *)
Definition reversed (n sp x : Z) (s : kst) (r : Z) (s' : kst) : Prop :=
  0 <= r < 256 ^ n /\ (forall k, 0 <= k < n -> byte_of r k = byte_of x (n - 1 - k)) /\
  s' = set_mem (mem s') s /\ agree (fun a => ~ in_range sp n a) (mem s) (mem s').

(** the byte-order conversions reverse the bytes of 16-, 32- and 64-bit
    words, touching nothing but their stack slot. *)
Theorem flip_bytes_correct sp x s :
  PAGE_SIZE <= sp ->
  wp (flip_bytes_16 sp x) (reversed 2 sp x s) s /\
  wp (flip_bytes_32 sp x) (reversed 4 sp x s) s /\
  wp (flip_bytes_64 sp x) (reversed 8 sp x s) s.
Proof.
  intros Hsp.
  assert (H : forall n : nat, wp (wr n sp x;; flip_bytes_inplace sp (Z.of_nat n);; rd n sp) (reversed (Z.of_nat n) sp x s) s).
  { intros n. eapply wp_mono; [by apply wp_flip_word|]. intros r s' (H1 & H2 & m' & -> & H3). done. }
  split_and!; [apply (H 2%nat)|apply (H 4%nat)|apply (H 8%nat)].
Qed.

Lemma flip_bytes_correct_witness :
  wp (flip_bytes_32 0x8000 0xd00dfeed) (reversed 4 0x8000 0xd00dfeed (sample_state ∅)) (sample_state ∅).
Proof.
  destruct (flip_bytes_correct 0x8000 0xd00dfeed (sample_state ∅)) as (_ & H & _).
  - unfold PAGE_SIZE. lia.
  - exact H.
Defined.
