(* ===== verification/Lists.v ===== *)
(** * Intrusive doubly linked lists

    utilities/algorithm/list.c, and the two other copies of the same code:
    [proc_insert]/[proc_detach] of proc/proc.c and
    [kmem_object_header_insert]/[_detach] of memory/object.c.  They differ
    only in the offsets of the link fields and in their panic messages, so
    the code is written once with these as parameters.

    [dll m h l]: in memory [m], the nodes reachable from the head [h] by
    [nxt] are [l], linked backwards by [prv], and the last [nxt] is null.
    Insertion puts a node in front of [l] and detaching removes it from
    anywhere in [l]; both leave all other memory alone. *)

From S2P Require Import Prelude Memory Machine.

(** ** Chains over abstract link functions *)

Definition fupd (f : Z -> Z) (x v : Z) (y : Z) : Z := if y =? x then v else f y.

(** The update [if (z != NULL) z->prv = v]. *)
Definition fupd_nz (f : Z -> Z) (z v : Z) : Z -> Z := if z =? NULL then f else fupd f z v.

(** The last node of the chain that starts at [p] and goes through [l]. *)
Fixpoint lastn (p : Z) (l : list Z) : Z :=
  match l with [] => p | x :: l' => lastn x l' end.

Fixpoint links (nx pv : Z -> Z) (p : Z) (l : list Z) : Prop :=
  match l with
  | [] => True
  | x :: l' => nx p = x /\ pv x = p /\ links nx pv x l'
  end.

Definition chain (nx pv : Z -> Z) (h : Z) (l : list Z) : Prop :=
  links nx pv h l /\ nx (lastn h l) = NULL.

(** Membership and disequality of list nodes. *)
Ltac lmem :=
  repeat match goal with H : forall _, _ |- _ => clear H | H : links _ _ _ _ |- _ => clear H end;
  intros; try (intro; subst); repeat rewrite ?elem_of_app, ?elem_of_cons, ?elem_of_nil in *;
  intuition (try congruence).

Lemma fupd_eq f x v : fupd f x v x = v.
Proof. unfold fupd. by rewrite Z.eqb_refl. Qed.
Lemma fupd_ne f x v y : y <> x -> fupd f x v y = f y.
Proof. intros. unfold fupd. by destruct (Z.eqb_spec y x). Qed.

Lemma lastn_in p l : lastn p l ∈ p :: l.
Proof.
  revert p. induction l as [|x l IH]; intros p; simpl; [apply list_elem_of_here|].
  apply list_elem_of_further, IH.
Qed.

Lemma lastn_app p l1 l2 : lastn p (l1 ++ l2) = lastn (lastn p l1) l2.
Proof. revert p. induction l1 as [|x l1 IH]; intros p; simpl; auto. Qed.

Lemma links_app nx pv p l1 l2 :
  links nx pv p (l1 ++ l2) <-> links nx pv p l1 /\ links nx pv (lastn p l1) l2.
Proof. revert p. induction l1 as [|x l1 IH]; intros p; simpl; [tauto|]. rewrite IH. tauto. Qed.

(** Links only depend on the [nxt] fields of all nodes but the last and on
    the [prv] fields of all nodes but the head. *)
Lemma links_ext nx pv nx' pv' p l :
  NoDup (p :: l) ->
  (forall x, x ∈ p :: l -> x <> lastn p l -> nx' x = nx x) ->
  (forall x, x ∈ l -> pv' x = pv x) ->
  links nx pv p l -> links nx' pv' p l.
Proof.
  revert p. induction l as [|x l IH]; intros p Hnd Hn Hp; [done|].
  intros (H1 & H2 & H3). apply NoDup_cons in Hnd as [Hpx Hnd]. simpl in Hn.
  assert (p <> lastn x l) by (intros ->; apply Hpx, lastn_in).
  split_and!; [rewrite Hn by lmem; done | rewrite Hp by lmem; done |].
  apply IH; [done| | |done]; intros y Hy; [apply Hn|apply Hp]; lmem.
Qed.

Lemma chain_ext nx pv nx' pv' h l :
  NoDup (h :: l) ->
  (forall x, x ∈ h :: l -> nx' x = nx x) -> (forall x, x ∈ l -> pv' x = pv x) ->
  chain nx pv h l -> chain nx' pv' h l.
Proof.
  intros Hnd Hn Hp [Hl Hz]. split; [by apply (links_ext nx pv); auto|].
  rewrite Hn; [done|]. apply lastn_in.
Qed.

Lemma chain_hd nx pv h l : chain nx pv h l -> nx h = hd NULL l.
Proof. intros [Hl Hz]. destruct l; simpl in *; [done|]. tauto. Qed.

Lemma chain_mid nx pv h l1 x l2 :
  chain nx pv h (l1 ++ x :: l2) ->
  pv x = lastn h l1 /\ nx x = hd NULL l2 /\ nx (lastn h l1) = x.
Proof.
  intros [Hl Hz]. apply links_app in Hl as [_ Hl]. simpl in Hl.
  rewrite lastn_app in Hz. simpl in Hz. destruct l2; simpl in *; tauto.
Qed.

Lemma fupd_nz_hd pv l v y :
  y ∉ l -> y <> NULL -> fupd_nz pv (hd NULL l) v y = pv y.
Proof.
  intros Hy Hn. unfold fupd_nz. destruct l as [|z l]; simpl; [done|].
  destruct (z =? NULL); [done|]. apply fupd_ne. lmem.
Qed.

(** The effect on the chain of the assignments of an insertion. *)
Lemma chain_insert nx pv nx' pv' h x l :
  NoDup (x :: h :: l) -> NULL ∉ x :: h :: l -> chain nx pv h l ->
  (forall y, y ∈ x :: h :: l -> nx' y = fupd (fupd nx x (nx h)) h x y) ->
  (forall y, y ∈ x :: l -> pv' y = fupd_nz (fupd pv x h) (hd NULL l) x y) ->
  chain nx' pv' h (x :: l).
Proof.
  intros Hnd H0 Hc Hn Hp.
  pose proof Hnd as [Hx Hnd1]%NoDup_cons. pose proof Hnd1 as [Hh Hndl]%NoDup_cons.
  assert (Hxh : x <> h) by lmem. pose proof (chain_hd _ _ _ _ Hc) as Hhd.
  assert (Hnx : forall y, y ∈ l -> nx' y = nx y).
  { intros y Hy. rewrite Hn by lmem. rewrite !fupd_ne by lmem. done. }
  split; simpl.
  - split_and!.
    + rewrite Hn by lmem. apply fupd_eq.
    + rewrite Hp, fupd_nz_hd by lmem. apply fupd_eq.
    + destruct l as [|y l]; [done|]. destruct Hc as [(H1 & H2 & H3) _]. simpl in *.
      apply NoDup_cons in Hndl as [Hy Hndl]. split_and!.
      * rewrite Hn by lmem. by rewrite fupd_ne, fupd_eq by lmem.
      * rewrite Hp by lmem. unfold fupd_nz. destruct (Z.eqb_spec y NULL); [lmem|]. apply fupd_eq.
      * apply (links_ext nx pv); [by constructor| | |done].
        -- intros z Hz _. apply Hnx. lmem.
        -- intros z Hz. rewrite Hp by lmem. unfold fupd_nz.
           destruct (y =? NULL); rewrite ?fupd_ne by lmem; done.
  - destruct l as [|y l]; simpl.
    + rewrite Hn by lmem. by rewrite fupd_ne, fupd_eq by lmem.
    + pose proof (lastn_in y l) as Hin. destruct Hc as [_ Hz]. by rewrite Hnx.
Qed.

(** The effect on the chain of the assignments that detach [x]. *)
Lemma chain_detach nx pv nx' pv' h l1 x l2 :
  NoDup (h :: l1 ++ x :: l2) -> NULL ∉ h :: l1 ++ x :: l2 -> chain nx pv h (l1 ++ x :: l2) ->
  (forall y, y ∈ h :: l1 ++ l2 -> nx' y = fupd nx (lastn h l1) (hd NULL l2) y) ->
  (forall y, y ∈ l1 ++ l2 -> pv' y = fupd_nz pv (hd NULL l2) (lastn h l1) y) ->
  chain nx' pv' h (l1 ++ l2).
Proof.
  intros Hnd H0 [Hl Hz] Hn Hp.
  apply links_app in Hl as [Hl1 Hl2]. rewrite lastn_app in Hz. simpl in Hl2, Hz.
  destruct Hl2 as (_ & _ & Hl2). pose proof (lastn_in h l1) as Hy.
  rewrite app_comm_cons in Hnd. apply NoDup_app in Hnd as (Hnd1 & Hdisj & Hnd2).
  pose proof Hnd2 as [Hx2 Hnd2']%NoDup_cons.
  assert (Hl12 : forall z, z ∈ h :: l1 -> z ∉ l2) by (intros z Hz1 Hz2; apply (Hdisj z); lmem).
  assert (Hnx2 : forall z, z ∈ l2 -> nx' z = nx z).
  { intros z Hz1. rewrite Hn by lmem. apply fupd_ne. intros ->. by apply (Hl12 (lastn h l1)). }
  split; [apply links_app; split|].
  - apply (links_ext nx pv); [done| | |done].
    + intros z Hz1 Hz2. rewrite Hn by lmem. by rewrite fupd_ne.
    + intros z Hz1. rewrite Hp by lmem. apply fupd_nz_hd; [apply Hl12|]; lmem.
  - destruct l2 as [|w l2]; [done|]. simpl in *. destruct Hl2 as (H1 & H2 & H3).
    apply NoDup_cons in Hnd2' as [Hw Hnd2']. split_and!.
    + rewrite Hn by lmem. apply fupd_eq.
    + rewrite Hp by lmem. unfold fupd_nz. destruct (Z.eqb_spec w NULL); [lmem|]. apply fupd_eq.
    + apply (links_ext nx pv); [by constructor| | |done].
      * intros z Hz1 _. apply Hnx2. lmem.
      * intros z Hz1. rewrite Hp by lmem. unfold fupd_nz.
        destruct (w =? NULL); rewrite ?fupd_ne by lmem; done.
  - rewrite lastn_app. destruct l2 as [|w l2]; simpl in *.
    + rewrite Hn by lmem. apply fupd_eq.
    + rewrite Hnx2; [done|]. apply lastn_in.
Qed.

(** The effect on the chain of linking [x] behind the last node. *)
Lemma chain_append nx pv nx' pv' h l x :
  NoDup (h :: l) -> chain nx pv h l ->
  nx' (lastn h l) = x -> pv' x = lastn h l -> nx' x = NULL ->
  (forall y, y ∈ h :: l -> y <> lastn h l -> nx' y = nx y) -> (forall y, y ∈ l -> pv' y = pv y) ->
  chain nx' pv' h (l ++ [x]).
Proof.
  intros Hnd [Hl _] H1 H2 H3 Hn Hp. split.
  - apply links_app. split; [by apply (links_ext nx pv)|]. simpl. split_and!; done.
  - by rewrite lastn_app.
Qed.

(** ** The code, for link fields at offsets [prv_off] and [nxt_off] *)

Section code.
Context (prv_off nxt_off : Z).

Definition dl_insert (msg : string) (head node : Z) : M unit :=
  (if (head =? NULL) || (node =? NULL) then panic msg else mret tt);;
  wr 8 (node + prv_off) head;;
  hn ← rd 8 (head + nxt_off);
  wr 8 (node + nxt_off) hn;;
  nn ← rd 8 (node + nxt_off);
  when (negb (nn =? NULL)) (nn' ← rd 8 (node + nxt_off); wr 8 (nn' + prv_off) node);;
  wr 8 (head + nxt_off) node.

Definition dl_detach (msg : string) (node : Z) : M unit :=
  (if node =? NULL then panic msg else mret tt);;
  p ← rd 8 (node + prv_off);
  when (negb (p =? NULL)) (p' ← rd 8 (node + prv_off); n ← rd 8 (node + nxt_off); wr 8 (p' + nxt_off) n);;
  n ← rd 8 (node + nxt_off);
  when (negb (n =? NULL)) (n' ← rd 8 (node + nxt_off); p ← rd 8 (node + prv_off); wr 8 (n' + prv_off) p);;
  wr 8 (node + nxt_off) NULL;;
  wr 8 (node + prv_off) NULL.

Definition nxtm (m : memory) (x : Z) : Z := ld64 m (x + nxt_off).
Definition prvm (m : memory) (x : Z) : Z := ld64 m (x + prv_off).

Definition dll (m : memory) (h : Z) (l : list Z) : Prop := chain (nxtm m) (prvm m) h l.

(** [W] is a set of node addresses, any two of which are far enough apart
    that the link fields of one never overlap those of another. *)
Context (W : Z -> Prop) (sz : Z).

Class NodeSpace : Prop := {
  ns_prv : 0 <= prv_off /\ prv_off + 8 <= sz;
  ns_nxt : 0 <= nxt_off /\ nxt_off + 8 <= sz;
  ns_fields : disjoint prv_off 8 nxt_off 8;
  ns_valid : forall x, W x -> PAGE_SIZE <= x < 2 ^ 64;
  ns_sep : forall x y, W x -> W y -> x <> y -> disjoint x sz y sz;
}.
Context {NS : NodeSpace}.

(** The memory outside the nodes of a list, and outside their link fields. *)
Definition outside (l : list Z) (a : Z) : Prop := forall n, n ∈ l -> ~ in_range n sz a.
Definition unlinked (l : list Z) (a : Z) : Prop :=
  forall n, n ∈ l -> ~ in_range (n + prv_off) 8 a /\ ~ in_range (n + nxt_off) 8 a.

Lemma outside_unlinked l a : outside l a -> unlinked l a.
Proof. intros H n Hn. destruct NS as [? ? _ _ _]. specialize (H n Hn). unfold in_range in *. lia. Qed.

Lemma nxtm_bound m x : 0 <= nxtm m x < 2 ^ 64.
Proof. apply ld64_bound. Qed.
Lemma prvm_bound m x : 0 <= prvm m x < 2 ^ 64.
Proof. apply ld64_bound. Qed.

Lemma nxtm_st_nxt m x v y :
  W x -> W y -> 0 <= v < 2 ^ 64 -> nxtm (st64 m (x + nxt_off) v) y = if y =? x then v else nxtm m y.
Proof.
  intros Wx Wy Hv. unfold nxtm. destruct (Z.eqb_spec y x) as [->|Hne]; [by rewrite ld64_st64|].
  destruct NS as [? ? ? ? Hs]. specialize (Hs x y Wx Wy ltac:(congruence)).
  apply ld64_st64_ne. unfold disjoint in *. lia.
Qed.
Lemma prvm_st_prv m x v y :
  W x -> W y -> 0 <= v < 2 ^ 64 -> prvm (st64 m (x + prv_off) v) y = if y =? x then v else prvm m y.
Proof.
  intros Wx Wy Hv. unfold prvm. destruct (Z.eqb_spec y x) as [->|Hne]; [by rewrite ld64_st64|].
  destruct NS as [? ? ? ? Hs]. specialize (Hs x y Wx Wy ltac:(congruence)).
  apply ld64_st64_ne. unfold disjoint in *. lia.
Qed.
Lemma nxtm_st_prv m x v y : W x -> W y -> nxtm (st64 m (x + prv_off) v) y = nxtm m y.
Proof.
  intros Wx Wy. unfold nxtm. apply ld64_st64_ne. destruct NS as [? ? ? ? Hs].
  destruct (Z.eq_dec x y) as [->|Hne]; [|specialize (Hs x y Wx Wy Hne)]; unfold disjoint in *; lia.
Qed.
Lemma prvm_st_nxt m x v y : W x -> W y -> prvm (st64 m (x + nxt_off) v) y = prvm m y.
Proof.
  intros Wx Wy. unfold prvm. apply ld64_st64_ne. destruct NS as [? ? ? ? Hs].
  destruct (Z.eq_dec x y) as [->|Hne]; [|specialize (Hs x y Wx Wy Hne)]; unfold disjoint in *; lia.
Qed.

Lemma W_valid x : W x -> PAGE_SIZE <= x + prv_off /\ PAGE_SIZE <= x + nxt_off /\ 0 <= x < 2 ^ 64 /\ x <> NULL.
Proof.
  intros Hx. destruct NS as [? ? _ Hv _]. specialize (Hv x Hx). unfold PAGE_SIZE, NULL in *. lia.
Qed.

(** Writing a link field of a node touches nothing else. *)
Lemma unlinked_st_nxt m l x v : x ∈ l -> agree (unlinked l) m (st64 m (x + nxt_off) v).
Proof. intros Hx. apply agree_st. intros a Hr Hout. by destruct (Hout x Hx). Qed.
Lemma unlinked_st_prv m l x v : x ∈ l -> agree (unlinked l) m (st64 m (x + prv_off) v).
Proof. intros Hx. apply agree_st. intros a Hr Hout. by destruct (Hout x Hx). Qed.
Lemma unlinked_trans_st_prv m m' l x v :
  x ∈ l -> agree (unlinked l) m m' -> agree (unlinked l) m (st64 m' (x + prv_off) v).
Proof. intros. etrans; [done|]. by apply unlinked_st_prv. Qed.
Lemma unlinked_trans_st_nxt m m' l x v :
  x ∈ l -> agree (unlinked l) m m' -> agree (unlinked l) m (st64 m' (x + nxt_off) v).
Proof. intros. etrans; [done|]. by apply unlinked_st_nxt. Qed.

Definition linked (l : list Z) (a : Z) : Prop :=
  exists n, n ∈ l /\ (in_range (n + prv_off) 8 a \/ in_range (n + nxt_off) 8 a).

Lemma dll_frame_links m m' h l :
  NoDup (h :: l) -> agree (linked (h :: l)) m m' -> dll m h l -> dll m' h l.
Proof.
  intros Hnd Ha. apply chain_ext; [done| |]; intros x Hx; apply ld_agree; intros a Hr; apply Ha; exists x;
    (split; [lmem|auto]).
Qed.

Lemma dll_frame m m' h l :
  NoDup (h :: l) -> agree (fun a => exists n, n ∈ h :: l /\ in_range n sz a) m m' ->
  dll m h l -> dll m' h l.
Proof.
  intros Hnd Ha. apply dll_frame_links; [done|]. eapply agree_weaken; [|exact Ha]. intros a (n & Hn & Hr).
  exists n. split; [done|]. destruct NS as [? ? _ _ _]. unfold in_range in *. lia.
Qed.

(** Evaluate a link field after a sequence of stores. *)
Ltac lsimp :=
  repeat first
    [ rewrite nxtm_st_nxt by (done || apply nxtm_bound || apply prvm_bound || lia)
    | rewrite prvm_st_prv by (done || apply nxtm_bound || apply prvm_bound || lia)
    | rewrite nxtm_st_prv by done | rewrite prvm_st_nxt by done
    | rewrite Z.eqb_refl | rewrite (proj2 (Z.eqb_neq _ _)) by congruence ].
Ltac lcase := lsimp; unfold fupd; zcases; subst; try congruence; try done.

Lemma wp_dl_insert_links msg h x l (Q : unit -> kst -> Prop) s :
  NoDup (x :: h :: l) -> Forall W (x :: h :: l) -> dll (mem s) h l ->
  (forall m', dll m' h (x :: l) -> agree (unlinked (x :: h :: l)) (mem s) m' -> Q tt (set_mem m' s)) ->
  wp (dl_insert msg h x) Q s.
Proof.
  intros Hnd HW Hl HQ. set (m := mem s) in *. rewrite Forall_forall in HW.
  assert (Wx : W x) by (apply HW; lmem). assert (Wh : W h) by (apply HW; lmem).
  pose proof (W_valid x Wx) as (Ax & Bx & Rx & Nx). pose proof (W_valid h Wh) as (Ah & Bh & Rh & Nh).
  assert (Hxh : x <> h) by (apply NoDup_cons in Hnd as [? _]; lmem).
  assert (H0 : NULL ∉ x :: h :: l) by (intros H; destruct (W_valid _ (HW _ H)) as (_ & _ & _ & ?); done).
  pose proof (chain_hd _ _ _ _ Hl) as Hhd.
  unfold dl_insert. destruct (Z.eqb_spec h NULL), (Z.eqb_spec x NULL); try done. simpl orb.
  wp_steps. rewrite !set_mem_mem, !set_mem_twice. fold m. fold (nxtm (st64 m (x + prv_off) h) h).
  fold (nxtm (st64 (st64 m (x + prv_off) h) (x + nxt_off) (nxtm (st64 m (x + prv_off) h) h)) x).
  lsimp. set (m1 := st64 (st64 m (x + prv_off) h) (x + nxt_off) (nxtm m h)).
  assert (E : nxtm m1 x = nxtm m h) by (unfold m1; by lsimp).
  assert (O1 : agree (unlinked (x :: h :: l)) m m1).
  { unfold m1. apply unlinked_trans_st_nxt; [lmem|]. apply unlinked_st_prv. lmem. }
  destruct (Z.eqb_spec (nxtm m h) NULL) as [Hz|Hz]; simpl negb.
  - wp_steps. rewrite set_mem_mem, set_mem_twice. apply HQ.
    + apply (chain_insert (nxtm m) (prvm m)); try done.
      * intros y Hy. pose proof (HW y Hy). unfold m1. lcase.
      * intros y Hy. pose proof (HW y ltac:(lmem)). unfold m1, fupd_nz. rewrite <- Hhd, Hz. lcase.
    + apply unlinked_trans_st_nxt; [lmem|done].
  - assert (Wn : W (nxtm m h)) by (rewrite Hhd in *; destruct l; [done|apply HW; simpl; lmem]).
    pose proof (W_valid _ Wn) as (An & _ & Rn & _).
    assert (Hin : nxtm m h ∈ l) by (rewrite Hhd in *; destruct l; [done|simpl; lmem]).
    wp_steps; rewrite ?set_mem_mem, ?set_mem_twice; fold (nxtm m1 x); rewrite E; [done|].
    apply HQ.
    + apply (chain_insert (nxtm m) (prvm m)); try done.
      * intros y Hy. pose proof (HW y Hy). unfold m1. lcase.
      * intros y Hy. pose proof (HW y ltac:(lmem)). unfold m1, fupd_nz. rewrite <- Hhd. lcase.
    + apply unlinked_trans_st_nxt; [lmem|]. apply unlinked_trans_st_prv; [lmem|done].
Qed.

Lemma wp_dl_detach_links msg h l1 x l2 (Q : unit -> kst -> Prop) s :
  NoDup (h :: l1 ++ x :: l2) -> Forall W (h :: l1 ++ x :: l2) -> dll (mem s) h (l1 ++ x :: l2) ->
  (forall m', dll m' h (l1 ++ l2) -> agree (unlinked (h :: l1 ++ x :: l2)) (mem s) m' ->
     Q tt (set_mem m' s)) ->
  wp (dl_detach msg x) Q s.
Proof.
  intros Hnd HW Hl HQ. set (m := mem s) in *. rewrite Forall_forall in HW.
  assert (Wx : W x) by (apply HW; lmem).
  pose proof (W_valid x Wx) as (Ax & Bx & Rx & Nx).
  assert (H0 : NULL ∉ h :: l1 ++ x :: l2)
    by (intros H; destruct (W_valid _ (HW _ H)) as (_ & _ & _ & ?); done).
  pose proof (chain_mid _ _ _ _ _ _ Hl) as (Hp & Hn & _).
  assert (Hpin : prvm m x ∈ h :: l1) by (rewrite Hp; apply lastn_in).
  assert (Wp : W (prvm m x)) by (apply HW; lmem).
  assert (Hx : forall y, y ∈ h :: l1 ++ l2 -> y <> x /\ W y).
  { intros y Hy. split; [|apply HW; lmem]. intros ->. rewrite app_comm_cons in Hnd.
    apply NoDup_app in Hnd as (_ & Hd & Hnd2). apply NoDup_cons in Hnd2 as [Hx2 _].
    assert (x ∉ h :: l1) by (intros H; apply (Hd x H); lmem). lmem. }
  assert (Hpx : prvm m x <> x) by (apply Hx; lmem).
  pose proof (W_valid _ Wp) as (Ap & Bp & Rp & Np).
  unfold dl_detach. rewrite (proj2 (Z.eqb_neq x NULL)) by done.
  wp_steps. fold m (prvm m x). rewrite (proj2 (Z.eqb_neq (prvm m x) NULL)) by done. simpl negb.
  wp_steps. fold m (prvm m x) (nxtm m x). rewrite set_mem_mem.
  set (m1 := st64 m (prvm m x + nxt_off) (nxtm m x)). fold (nxtm m1 x).
  assert (E1 : nxtm m1 x = nxtm m x) by (unfold m1; by lsimp).
  assert (E2 : prvm m1 x = prvm m x) by (unfold m1; by lsimp).
  assert (O1 : agree (unlinked (h :: l1 ++ x :: l2)) m m1) by (apply unlinked_st_nxt; lmem).
  rewrite E1. destruct (Z.eqb_spec (nxtm m x) NULL) as [Hz|Hz]; simpl negb.
  - wp_steps. rewrite !set_mem_mem, !set_mem_twice. apply HQ.
    + apply (chain_detach (nxtm m) (prvm m) _ _ _ _ x); try done; intros y Hy;
        destruct (Hx y ltac:(lmem)); rewrite <- Hp, <- Hn; unfold m1, fupd_nz;
        rewrite ?Hz; lcase.
    + apply unlinked_trans_st_prv; [lmem|]. apply unlinked_trans_st_nxt; [lmem|done].
  - assert (Hin : nxtm m x ∈ l2) by (rewrite Hn in *; destruct l2; [done|simpl; lmem]).
    destruct (Hx (nxtm m x) ltac:(lmem)) as [Hnx Wn].
    pose proof (W_valid _ Wn) as (An & _ & Rn & _).
    wp_steps; rewrite ?set_mem_mem; fold (nxtm m1 x) (prvm m1 x); rewrite ?E1, ?E2; [done|].
    rewrite ?set_mem_mem, ?set_mem_twice. apply HQ.
    + apply (chain_detach (nxtm m) (prvm m) _ _ _ _ x); try done; intros y Hy;
        destruct (Hx y ltac:(lmem)); rewrite <- Hp, <- Hn; unfold m1, fupd_nz; lcase.
    + apply unlinked_trans_st_prv; [lmem|]. apply unlinked_trans_st_nxt; [lmem|].
      apply unlinked_trans_st_prv; [lmem|done].
Qed.

Lemma wp_dl_insert msg h x l (Q : unit -> kst -> Prop) s :
  NoDup (x :: h :: l) -> Forall W (x :: h :: l) -> dll (mem s) h l ->
  (forall m', dll m' h (x :: l) -> agree (outside (x :: h :: l)) (mem s) m' -> Q tt (set_mem m' s)) ->
  wp (dl_insert msg h x) Q s.
Proof.
  intros Hnd HW Hl HQ. apply (wp_dl_insert_links msg h x l); try done. intros m' Hd Ha. apply HQ; [done|].
  eapply agree_weaken; [apply outside_unlinked|done].
Qed.

Lemma wp_dl_detach msg h l1 x l2 (Q : unit -> kst -> Prop) s :
  NoDup (h :: l1 ++ x :: l2) -> Forall W (h :: l1 ++ x :: l2) -> dll (mem s) h (l1 ++ x :: l2) ->
  (forall m', dll m' h (l1 ++ l2) -> agree (outside (h :: l1 ++ x :: l2)) (mem s) m' ->
     Q tt (set_mem m' s)) ->
  wp (dl_detach msg x) Q s.
Proof.
  intros Hnd HW Hl HQ. apply (wp_dl_detach_links msg h l1 x l2); try done. intros m' Hd Ha. apply HQ; [done|].
  eapply agree_weaken; [apply outside_unlinked|done].
Qed.

(** A write to the links of one list does not disturb another. *)
Lemma linked_unlinked l l' a :
  Forall W l -> Forall W l' -> (forall x, x ∈ l -> x ∉ l') -> linked l' a -> unlinked l a.
Proof.
  intros Hl Hl' Hd (n & Hn & Hr) x Hx. rewrite Forall_forall in Hl, Hl'.
  assert (Hne : x <> n) by (intros ->; by apply (Hd n)).
  destruct NS as [? ? _ _ Hs]. specialize (Hs x n (Hl x Hx) (Hl' n Hn) Hne). unfold in_range, disjoint in *. lia.
Qed.

Lemma unlinked_mono l l' a : (forall x, x ∈ l -> x ∈ l') -> unlinked l' a -> unlinked l a.
Proof. intros H Hu n Hn. apply Hu. by apply H. Qed.

#[global] Instance unlinked_perm : Proper (Permutation ==> pointwise_relation Z iff) unlinked.
Proof. intros l l' P a. split; apply unlinked_mono; intros x; by rewrite P. Qed.

(** Detaching and inserting next to a second list. *)
Lemma wp_dl_detach2 msg h l1 x l2 h' l (Q : unit -> kst -> Prop) s :
  NoDup (h :: h' :: x :: l1 ++ l2 ++ l) -> Forall W (h :: h' :: x :: l1 ++ l2 ++ l) ->
  dll (mem s) h (l1 ++ x :: l2) -> dll (mem s) h' l ->
  (forall m', dll m' h (l1 ++ l2) -> dll m' h' l -> agree (unlinked (h :: h' :: x :: l1 ++ l2 ++ l)) (mem s) m' ->
     Q tt (set_mem m' s)) ->
  wp (dl_detach msg x) Q s.
Proof.
  intros Hnd HW H1 H2 HQ.
  assert (P : h :: h' :: x :: l1 ++ l2 ++ l ≡ₚ (h :: l1 ++ x :: l2) ++ h' :: l).
  { etrans; [|apply Permutation_middle]. simpl. rewrite perm_swap. do 2 apply perm_skip.
    rewrite <- app_assoc. simpl. apply Permutation_middle. }
  rewrite P in Hnd. rewrite P in HW. apply Forall_app in HW as [W1 W2]. apply NoDup_app in Hnd as (N1 & N2 & N3).
  apply (wp_dl_detach_links msg h l1 x l2); try done. intros m' D Ha. apply HQ; [done| |].
  - apply (dll_frame_links (mem s)); try done. eapply agree_weaken; [|exact Ha]. intros a. by apply linked_unlinked.
  - eapply agree_weaken; [|exact Ha]. intros a. apply unlinked_mono. intros y Hy. rewrite P. apply elem_of_app. by left.
Qed.

Lemma wp_dl_insert2 msg h x l h' l' (Q : unit -> kst -> Prop) s :
  NoDup (h :: h' :: x :: l ++ l') -> Forall W (h :: h' :: x :: l ++ l') ->
  dll (mem s) h l -> dll (mem s) h' l' ->
  (forall m', dll m' h (x :: l) -> dll m' h' l' -> agree (unlinked (h :: h' :: x :: l ++ l')) (mem s) m' ->
     Q tt (set_mem m' s)) ->
  wp (dl_insert msg h x) Q s.
Proof.
  intros Hnd HW H1 H2 HQ.
  assert (P : h :: h' :: x :: l ++ l' ≡ₚ (x :: h :: l) ++ h' :: l').
  { etrans; [|apply Permutation_middle]. simpl. rewrite perm_swap. apply perm_skip. by rewrite perm_swap. }
  rewrite P in Hnd. rewrite P in HW. apply Forall_app in HW as [W1 W2]. apply NoDup_app in Hnd as (N1 & N2 & N3).
  apply (wp_dl_insert_links msg h x l); try done. intros m' D Ha. apply HQ; [done| |].
  - apply (dll_frame_links (mem s)); try done. eapply agree_weaken; [|exact Ha]. intros a. by apply linked_unlinked.
  - eapply agree_weaken; [|exact Ha]. intros a. apply unlinked_mono. intros y Hy. rewrite P. apply elem_of_app. by left.
Qed.
End code.

(** ** utilities/algorithm/list.c

    [struct list_node { prv; nxt; val }]: the links are at offsets 0 and 8. *)
Definition list_insert (head node : Z) : M unit := dl_insert 0 8 "list_insert - null parameters" head node.
Definition list_detach (node : Z) : M unit := dl_detach 0 8 "list_detach - null parameters" node.

(** ** The theorems *)

(** Distinct nodes of 24 bytes that do not overlap. *)
Definition nodes_apart (l : list Z) : Prop :=
  NoDup l /\ (forall x, x ∈ l -> PAGE_SIZE <= x < 2 ^ 64) /\
  (forall x y, x ∈ l -> y ∈ l -> x <> y -> disjoint x 24 y 24).

Lemma nodes_apart_space l : nodes_apart l -> NodeSpace 0 8 (fun x => x ∈ l) 24.
Proof. intros (_ & H1 & H2). split; try done; try lia. unfold disjoint. lia. Qed.

(** [list_insert] puts a node at the front of a doubly linked list and
    writes nothing outside the nodes of the list. *)
Theorem list_insert_correct h x l s :
  nodes_apart (x :: h :: l) -> dll 0 8 (mem s) h l ->
  wp (list_insert h x) (fun _ s' => s' = set_mem (mem s') s /\ dll 0 8 (mem s') h (x :: l) /\
    agree (outside 24 (x :: h :: l)) (mem s) (mem s')) s.
Proof.
  intros Ha Hd. pose proof (nodes_apart_space _ Ha) as NS. unfold list_insert.
  apply (wp_dl_insert 0 8 (fun y => y ∈ x :: h :: l) 24 _ _ _ l); try done; [apply Ha|by apply Forall_forall].
Qed.

(** [list_detach] removes a node from the middle, front or end of a
    doubly linked list, keeps the order of the others and writes nothing
    outside the nodes of the list. *)
Theorem list_detach_correct h l1 x l2 s :
  nodes_apart (h :: l1 ++ x :: l2) -> dll 0 8 (mem s) h (l1 ++ x :: l2) ->
  wp (list_detach x) (fun _ s' => s' = set_mem (mem s') s /\ dll 0 8 (mem s') h (l1 ++ l2) /\
    agree (outside 24 (h :: l1 ++ x :: l2)) (mem s) (mem s')) s.
Proof.
  intros Ha Hd. pose proof (nodes_apart_space _ Ha) as NS. unfold list_detach.
  apply (wp_dl_detach 0 8 (fun y => y ∈ h :: l1 ++ x :: l2) 24 _ h l1 x l2); try done; [apply Ha|by apply Forall_forall].
Qed.

(** The list 0x2000 -> 0x3000 -> 0x4000. *)
Definition sample_list : memory :=
  st64 (st64 (st64 (st64 ∅ 0x2008 0x3000) 0x3000 0x2000) 0x3008 0x4000) 0x4000 0x3000.

Lemma sample_apart : nodes_apart [0x5000; 0x2000; 0x3000; 0x4000].
Proof.
  split_and!.
  - apply (bool_decide_unpack (NoDup _)). vm_compute. done.
  - apply Forall_forall. repeat constructor; vm_compute; congruence.
  - intros x y Hx Hy Hne. unfold disjoint. repeat (apply elem_of_cons in Hx as [->|Hx]; [|]);
      repeat (apply elem_of_cons in Hy as [->|Hy]; [|]); try (by apply elem_of_nil in Hx); try (by apply elem_of_nil in Hy); lia.
Qed.

Lemma list_insert_correct_witness :
  wp (list_insert 0x2000 0x5000) (fun _ s' => s' = set_mem (mem s') (sample_state sample_list) /\
    dll 0 8 (mem s') 0x2000 [0x5000; 0x3000; 0x4000] /\
    agree (outside 24 [0x5000; 0x2000; 0x3000; 0x4000]) sample_list (mem s')) (sample_state sample_list).
Proof.
  apply (list_insert_correct 0x2000 0x5000 [0x3000; 0x4000] (sample_state sample_list)).
  - exact sample_apart.
  - vm_compute. intuition.
Defined.

Lemma list_detach_correct_witness :
  wp (list_detach 0x3000) (fun _ s' => s' = set_mem (mem s') (sample_state sample_list) /\
    dll 0 8 (mem s') 0x2000 [0x4000] /\
    agree (outside 24 [0x2000; 0x3000; 0x4000]) sample_list (mem s')) (sample_state sample_list).
Proof.
  apply (list_detach_correct 0x2000 [] 0x3000 [0x4000] (sample_state sample_list)).
  - destruct sample_apart as (H1 & H2 & H3). split_and!; [by apply NoDup_cons in H1 as [_ ?]|..].
    + intros x Hx. apply H2. by apply list_elem_of_further.
    + intros x y Hx Hy. apply H3; by apply list_elem_of_further.
  - vm_compute. intuition.
Defined.
