(* ===== verification/Strings.v ===== *)
(** * utilities/string.c (and its copy ksdk/lib/string.c)

    The memory and string routines, on the flat memory.  [char] is unsigned
    on RISC-V; a loop of the source is a [while] over the values of its
    pointers and counters.  [cstr m a l]: memory holds the NUL-terminated
    string [l] at [a]. *)

From S2P Require Import Prelude Memory Machine.

Definition memset (dst val siz : Z) : M Z :=
  while (fun '(p, siz) =>
    if 0 <? siz then wr 1 p val;; mret (inl (p + 1, siz - 1)) else mret (inr tt)) (dst, siz);;
  mret dst.

Definition memcpy (dst src siz : Z) : M Z :=
  while (fun '(dst_ptr, src_ptr, siz) =>
    if 0 <? siz then
      c ← rd 1 src_ptr; wr 1 dst_ptr c;; mret (inl (dst_ptr + 1, src_ptr + 1, siz - 1))
    else mret (inr tt)) (dst, src, siz);;
  mret dst.

Definition memmove (dst src siz : Z) : M Z :=
  if dst =? src then mret dst
  else
    (if dst <? src then memcpy dst src siz;; mret tt
     else
       while (fun '(p1, p2, siz) =>
         if 0 <? siz then
           c ← rd 1 p2; wr 1 p1 c;; mret (inl (p1 - 1, p2 - 1, siz - 1))
         else mret (inr tt)) (dst + siz - 1, src + siz - 1, siz));;
    mret dst.

Definition memcmp (lhs rhs siz : Z) : M Z :=
  while (fun i =>
    if negb (i =? siz) then
      l ← rd 1 (lhs + i);
      r ← rd 1 (rhs + i);
      if l <? r then mret (inr (-1))
      else if r <? l then mret (inr 1)
      else mret (inl (i + 1))
    else mret (inr 0)) 0.

Definition memchr (ptr ch siz : Z) : M Z :=
  let c := u8 ch in
  while (fun i =>
    if negb (i =? siz) then
      x ← rd 1 (ptr + i);
      if x =? c then mret (inr (ptr + i)) else mret (inl (i + 1))
    else mret (inr NULL)) 0.

Definition strlen (s : Z) : M Z :=
  if s =? NULL then mret 0
  else while (fun ret =>
    c ← rd 1 (s + ret);
    if negb (c =? 0) then mret (inl (ret + 1)) else mret (inr ret)) 0.

Definition strnlen (str strsz : Z) : M Z :=
  if str =? NULL then mret 0
  else while (fun ret =>
    if ret <? strsz then
      c ← rd 1 (str + ret);
      if negb (c =? 0) then mret (inl (ret + 1)) else mret (inr ret)
    else mret (inr ret)) 0.

Definition strchr (str ch : Z) : M Z :=
  str ← while (fun str =>
    c ← rd 1 str;
    if negb (c =? 0) && negb (c =? u8 ch) then mret (inl (str + 1)) else mret (inr str)) str;
  c ← rd 1 str;
  if c =? 0 then mret NULL else mret str.

Definition strrchr (str ch : Z) : M Z :=
  n ← strlen str;
  tail ← while (fun tail =>
    if str <? tail then
      c ← rd 1 tail;
      if negb (c =? u8 ch) then mret (inl (tail - 1)) else mret (inr tail)
    else mret (inr tail)) (str + n - 1);
  c ← rd 1 tail;
  if negb (c =? u8 ch) then mret NULL else mret tail.

Definition strcpy (dst src : Z) : M Z :=
  d ← while (fun '(dst, src) =>
    c ← rd 1 src;
    if negb (c =? 0) then wr 1 dst c;; mret (inl (dst + 1, src + 1)) else mret (inr dst)) (dst, src);
  wr 1 d 0;;
  mret dst.

Definition strncpy (dst src siz : Z) : M Z :=
  d ← while (fun '(dst, src, siz) =>
    if negb (siz =? 0) then
      c ← rd 1 src;
      if negb (c =? 0) then wr 1 dst c;; mret (inl (dst + 1, src + 1, siz - 1)) else mret (inr dst)
    else mret (inr dst)) (dst, src, siz);
  wr 1 d 0;;
  mret dst.

Definition strcmp (l r : Z) : M Z :=
  '(l, r) ← while (fun '(l, r) =>
    cl ← rd 1 l;
    cr ← rd 1 r;
    if (cl =? cr) && negb (cl =? 0) then mret (inl (l + 1, r + 1)) else mret (inr (l, r))) (l, r);
  cl ← rd 1 l;
  cr ← rd 1 r;
  mret (cl - cr).

Definition strncmp (l r n : Z) : M Z :=
  if n =? 0 then mret 0
  else
    '(l, r) ← while (fun '(l, r, n) =>
      cl ← rd 1 l;
      if negb (cl =? 0) then
        cr ← rd 1 r;
        if negb (cr =? 0) && negb (n =? 0) && (cl =? cr) then mret (inl (l + 1, r + 1, n - 1))
        else mret (inr (l, r))
      else mret (inr (l, r))) (l, r, n - 1);
    cl ← rd 1 l;
    cr ← rd 1 r;
    mret (cl - cr).

(** ** Numbers *)

(** [unsigned char] in and out; [c -= 'A' - 'a'] adds 32. *)
Definition __tolower (c : Z) : Z := if (65 <=? c) && (c <=? 90) then u8 (c + 32) else c.

(** Returns the new value of [s] and of [*basep]. *)
Definition __parse_integer_fixup_radix (s base : Z) : M (Z * Z) :=
  c0 ← rd 1 s;
  '(s, base) ← (if c0 =? 48 then
      c1 ← rd 1 (s + 1);
      let ch := __tolower c1 in
      if ch =? 120 then mret (s + 2, 16)
      else if base =? 0 then mret (s, 8)
      else mret (s, base)
    else mret (s, base));
  mret (s, if base =? 0 then 10 else base).

Definition __decode_digit (ch : Z) : Z :=
  let ch := __tolower (u8 ch) in
  u32 (if ch <=? 57 then ch - 48 else ch - 97 + 10).

Definition strtoul (str endptr base : Z) : M Z :=
  '(str, base) ← __parse_integer_fixup_radix str base;
  '(result, str) ← while (fun '(result, str) =>
    c ← rd 1 str;
    let value := __decode_digit c in
    if value <? base then mret (inl ((result *l base) +l value, str + 1))
    else mret (inr (result, str))) (0, str);
  when (negb (endptr =? NULL)) (wr 8 endptr str);;
  mret result.

(** ** What the routines compute *)

(** Memory after filling and after copying a range. *)
Definition filled (m : memory) (dst n v a : Z) : Z :=
  if (dst <=? a) && (a <? dst + n) then u8 v else ldb m a.
Definition moved (m : memory) (dst src n a : Z) : Z :=
  if (dst <=? a) && (a <? dst + n) then ldb m (src + (a - dst)) else ldb m a.

Fixpoint cstr (m : memory) (a : Z) (l : list Z) : Prop :=
  match l with
  | [] => ldb m a = 0
  | c :: l' => ldb m a = c /\ c <> 0 /\ cstr m (a + 1) l'
  end.

(** [ldb] of an updated byte. *)
Ltac range_cases :=
  repeat match goal with
  | |- context [?a <=? ?b] => destruct (Z.leb_spec a b)
  | |- context [?a <? ?b] => destruct (Z.ltb_spec a b)
  | |- context [?a =? ?b] => destruct (Z.eqb_spec a b)
  end; simpl; try lia.

Lemma wp_memset dst val n (Q : Z -> kst -> Prop) s :
  PAGE_SIZE <= dst -> 0 <= n < 2 ^ 64 ->
  (forall m', (forall a, ldb m' a = filled (mem s) dst n val a) -> Q dst (set_mem m' s)) ->
  wp (memset dst val n) Q s.
Proof.
  intros Hd Hn HQ. unfold memset. wp_step.
  apply (wp_while (fun '(p, k) s' => exists m', s' = set_mem m' s /\ p = dst + (n - k) /\ 0 <= k <= n /\
    forall a, ldb m' a = filled (mem s) dst (n - k) val a) (fun '(_, k) _ => k)).
  - exists (mem s). rewrite set_mem_id. split_and!; try done; try lia. intros a. unfold filled. range_cases; done.
  - lia.
  - intros [p k] s' (m' & -> & -> & Hk & E) _. destruct (Z.ltb_spec 0 k); wp_steps.
    + split; [|lia]. eexists. split_and!; [done|lia..|]. intros a. rewrite ldb_st1, set_mem_mem, E.
      unfold filled, u8. range_cases; done.
    + assert (k = 0) as -> by lia. apply HQ. intros a. by rewrite E, Z.sub_0_r.
Qed.

Lemma wp_memcpy dst src n (Q : Z -> kst -> Prop) s :
  PAGE_SIZE <= dst -> PAGE_SIZE <= src -> 0 <= n < 2 ^ 64 -> dst <= src \/ src + n <= dst ->
  (forall m', (forall a, ldb m' a = moved (mem s) dst src n a) -> Q dst (set_mem m' s)) ->
  wp (memcpy dst src n) Q s.
Proof.
  intros Hd Hs Hn Hov HQ. unfold memcpy. wp_step.
  apply (wp_while (fun '(p, q, k) s' => exists m', s' = set_mem m' s /\ p = dst + (n - k) /\ q = src + (n - k) /\
    0 <= k <= n /\ forall a, ldb m' a = moved (mem s) dst src (n - k) a) (fun '(_, _, k) _ => k)).
  - exists (mem s). rewrite set_mem_id. split_and!; try done; try lia. intros a. unfold moved. range_cases; done.
  - lia.
  - intros [[p q] k] s' (m' & -> & -> & -> & Hk & E) _. destruct (Z.ltb_spec 0 k); wp_steps.
    + split; [|lia]. eexists. split_and!; [done|lia..|]. intros a.
      rewrite set_mem_mem, ldb_st1, ld_1, !E. unfold moved.
      pose proof (ldb_bound (mem s) (src + (n - k))).
      destruct (Z.eqb_spec a (dst + (n - k))) as [->|]; range_cases; try done.
      all: rewrite ?Z.mod_small by apply ldb_bound; try (f_equal; lia).
    + assert (k = 0) as -> by lia. apply HQ. intros a. by rewrite E, Z.sub_0_r.
Qed.

Lemma wp_memmove dst src n (Q : Z -> kst -> Prop) s :
  PAGE_SIZE <= dst -> PAGE_SIZE <= src -> 0 <= n < 2 ^ 64 ->
  (forall m', (forall a, ldb m' a = moved (mem s) dst src n a) -> Q dst (set_mem m' s)) ->
  wp (memmove dst src n) Q s.
Proof.
  intros Hd Hs Hn HQ. unfold memmove. destruct (Z.eqb_spec dst src) as [->|Hne].
  { wp_steps. rewrite <- (set_mem_id s) at 1. apply HQ. intros a. unfold moved. range_cases; try done. f_equal; lia. }
  destruct (Z.ltb_spec dst src) as [Hlt|Hge].
  { do 2 wp_step. apply wp_memcpy; [done|done|done|lia|]. intros m' Hm. wp_steps. by apply HQ. }
  wp_step.
  apply (wp_while (fun '(p, q, k) s' => exists m', s' = set_mem m' s /\ p = dst + k - 1 /\ q = src + k - 1 /\
    0 <= k <= n /\ forall a, ldb m' a = moved (mem s) (dst + k) (src + k) (n - k) a) (fun '(_, _, k) _ => k)).
  - exists (mem s). rewrite set_mem_id. split_and!; try done; try lia. intros a. unfold moved. range_cases; done.
  - lia.
  - intros [[p q] k] s' (m' & -> & -> & -> & Hk & E) _. destruct (Z.ltb_spec 0 k); wp_steps.
    + split; [|lia]. eexists. split_and!; [done|lia..|]. intros a.
      rewrite set_mem_mem, ldb_st1, ld_1, !E. unfold moved.
      destruct (Z.eqb_spec a (dst + k - 1)) as [->|]; range_cases; try done.
      all: rewrite ?Z.mod_small by apply ldb_bound; try (f_equal; lia).
    + assert (k = 0) as -> by lia. apply HQ. intros a. by rewrite E, !Z.add_0_r, Z.sub_0_r.
Qed.

(** ** Strings *)

Lemma wp_strlen a l (Q : Z -> kst -> Prop) s :
  cstr (mem s) a l -> PAGE_SIZE <= a -> Z.of_nat (length l) < 2 ^ 64 ->
  Q (Z.of_nat (length l)) s -> wp (strlen a) Q s.
Proof.
  intros Hc Ha Hl HQ. unfold strlen.
  rewrite (proj2 (Z.eqb_neq a NULL)) by (unfold NULL, PAGE_SIZE in *; lia).
  apply (wp_while (fun ret s' => s' = s /\ 0 <= ret /\ exists l2, cstr (mem s) (a + ret) l2 /\
      ret + Z.of_nat (length l2) = Z.of_nat (length l)) (fun ret _ => Z.of_nat (length l) - ret)).
  - split_and!; [done|lia|]. exists l. by rewrite Z.add_0_r.
  - lia.
  - intros ret s' (-> & Hr & l2 & Hc2 & El) _. wp_steps. rewrite ld_1. destruct l2 as [|c l2]; simpl in Hc2.
    + rewrite Hc2. wp_steps. simpl in El. by replace ret with (Z.of_nat (length l)) by lia.
    + destruct Hc2 as (-> & Hnz & Hc2). rewrite (proj2 (Z.eqb_neq _ _)) by done. wp_steps.
      simpl in El. split; [|lia]. split_and!; [done|lia|]. exists l2. rewrite Z.add_assoc. split; [done|lia].
Qed.

(** Lexicographic comparison: the difference of the first bytes that
    differ, a string ending being a zero byte. *)
Fixpoint cmp_str (l r : list Z) : Z :=
  match l, r with
  | [], [] => 0
  | [], d :: _ => - d
  | c :: _, [] => c
  | c :: l', d :: r' => if c =? d then cmp_str l' r' else c - d
  end.

Lemma wp_strcmp p q l r (Q : Z -> kst -> Prop) s :
  cstr (mem s) p l -> cstr (mem s) q r -> PAGE_SIZE <= p -> PAGE_SIZE <= q -> Z.of_nat (length l) < 2 ^ 64 ->
  Q (cmp_str l r) s -> wp (strcmp p q) Q s.
Proof.
  intros Hp Hq Bp Bq Hl HQ. unfold strcmp. wp_step.
  apply (wp_while (fun '(p', q') s' => s' = s /\ exists l2 r2, cstr (mem s) p' l2 /\ cstr (mem s) q' r2 /\
      PAGE_SIZE <= p' /\ PAGE_SIZE <= q' /\ p' + Z.of_nat (length l2) = p + Z.of_nat (length l) /\
      cmp_str l2 r2 = cmp_str l r) (fun '(p', _) _ => p + Z.of_nat (length l) - p')).
  - split; [done|]. exists l, r. done.
  - lia.
  - intros [p' q'] s' (-> & l2 & r2 & Hp2 & Hq2 & Bp2 & Bq2 & El & Ec) _. wp_steps. rewrite !ld_1.
    rewrite <- Ec in HQ. destruct l2 as [|c l2], r2 as [|d r2]; simpl in Hp2, Hq2, El, Ec, HQ.
    + rewrite Hp2, Hq2. wp_steps. by rewrite !ld_1, Hp2, Hq2.
    + destruct Hq2 as (E2 & Hnz & Hq2). rewrite Hp2, E2, (proj2 (Z.eqb_neq 0 d)) by done. wp_steps.
      by rewrite !ld_1, Hp2, E2, Z.sub_0_l.
    + destruct Hp2 as (E1 & Hnz & Hp2). rewrite Hq2, E1, (proj2 (Z.eqb_neq c 0)) by done. wp_steps.
      by rewrite !ld_1, Hq2, E1, Z.sub_0_r.
    + destruct Hp2 as (E1 & Hn1 & Hp2), Hq2 as (E2 & Hn2 & Hq2). rewrite E1, E2.
      destruct (Z.eqb_spec c d) as [->|Hne].
      * rewrite (proj2 (Z.eqb_neq d 0)) by done. wp_steps. split; [|lia]. split; [done|].
        exists l2, r2. split_and!; try done; lia.
      * wp_steps. rewrite !ld_1, E1, E2. done.
Qed.

Lemma wp_strncmp p q l r n (Q : Z -> kst -> Prop) s :
  cstr (mem s) p l -> cstr (mem s) q r -> PAGE_SIZE <= p -> PAGE_SIZE <= q -> 0 <= n < 2 ^ 64 ->
  Q (cmp_str (take (Z.to_nat n) l) (take (Z.to_nat n) r)) s -> wp (strncmp p q n) Q s.
Proof.
  intros Hp Hq Bp Bq Hn HQ. unfold strncmp. destruct (Z.eqb_spec n 0) as [->|Hn0]; [by wp_steps|]. wp_step.
  apply (wp_while (fun '(p', q', k) s' => s' = s /\ exists l2 r2, cstr (mem s) p' l2 /\ cstr (mem s) q' r2 /\
      PAGE_SIZE <= p' /\ PAGE_SIZE <= q' /\ 0 <= k /\
      cmp_str (take (Z.to_nat (k + 1)) l2) (take (Z.to_nat (k + 1)) r2) =
        cmp_str (take (Z.to_nat n) l) (take (Z.to_nat n) r)) (fun '(_, _, k) _ => k)).
  - split; [done|]. exists l, r. replace (n - 1 + 1) with n by lia. split_and!; try done; lia.
  - lia.
  - intros [[p' q'] k] s' (-> & l2 & r2 & Hp2 & Hq2 & Bp2 & Bq2 & Hk & Ec) _.
    replace (Z.to_nat (k + 1)) with (S (Z.to_nat k)) in Ec by lia.
    assert (Hend : forall x y, ldb (mem s) p' = x -> ldb (mem s) q' = y ->
       x - y = cmp_str (take (Z.to_nat n) l) (take (Z.to_nat n) r) ->
       wp (cl ← rd 1 p'; cr ← rd 1 q'; mret (cl - cr)) Q s).
    { intros x y Ex Ey E. wp_steps. rewrite !ld_1, Ex, Ey. by rewrite E. }
    wp_steps. rewrite !ld_1.
    destruct l2 as [|c l2], r2 as [|d r2]; simpl in Hp2, Hq2, Ec.
    + rewrite Hp2. wp_step. apply (Hend 0 0); done.
    + destruct Hq2 as (E2 & Hnz & Hq2). rewrite Hp2. wp_step. apply (Hend 0 d); try done.
    + destruct Hp2 as (E1 & Hnz & Hp2). rewrite E1, (proj2 (Z.eqb_neq c 0)) by done. wp_steps.
      rewrite ld_1, Hq2. wp_step. apply (Hend c 0); try done. lia.
    + destruct Hp2 as (E1 & Hn1 & Hp2), Hq2 as (E2 & Hn2 & Hq2). rewrite E1, (proj2 (Z.eqb_neq c 0)) by done.
      wp_steps. rewrite ld_1, E2, (proj2 (Z.eqb_neq d 0)) by done.
      destruct (Z.eqb_spec k 0) as [->|Hk0]; [|destruct (Z.eqb_spec c d) as [->|Hne]]; simpl.
      * wp_step. apply (Hend c d); try done. rewrite <- Ec. simpl. destruct (Z.eqb_spec c d); lia.
      * wp_steps. split; [|lia]. split; [done|]. exists l2, r2. replace (k - 1 + 1) with k by lia.
        split_and!; try done; lia.
      * wp_step. apply (Hend c d); try done.
Qed.

Lemma cmp_str_eq l r : Forall (fun c => 0 < c) l -> Forall (fun c => 0 < c) r -> cmp_str l r = 0 <-> l = r.
Proof.
  intros Hl. revert r. induction Hl as [|c l Hc Hl IH]; intros [|d r] Hr; simpl; try done.
  - apply Forall_cons in Hr as [? _]. split; [lia|done].
  - split; [lia|done].
  - apply Forall_cons in Hr as [? Hr]. destruct (Z.eqb_spec c d) as [->|].
    + rewrite IH by done. split; congruence.
    + split; [lia|congruence].
Qed.

(** The bytes of a string are between 1 and 255. *)
Lemma cstr_bytes m a l : cstr m a l -> Forall (fun c => 0 < c < 256) l.
Proof.
  revert a. induction l as [|c l IH]; intros a; simpl; [constructor|]. intros (<- & Hn & H).
  constructor; [|by apply (IH (a + 1))]. pose proof (ldb_bound m a). lia.
Qed.

Lemma cstr_ext m m' a a' l :
  (forall i, 0 <= i <= Z.of_nat (length l) -> ldb m' (a' + i) = ldb m (a + i)) -> cstr m a l -> cstr m' a' l.
Proof.
  revert a a'. induction l as [|c l IH]; intros a a' H; cbn [cstr length] in *.
  - specialize (H 0 ltac:(lia)). rewrite !Z.add_0_r in H. by rewrite H.
  - intros (E & Hn & Hc). pose proof (H 0 ltac:(lia)) as H0. rewrite !Z.add_0_r in H0. rewrite H0.
    split_and!; try done. apply (IH (a + 1)); [|done]. intros i Hi.
    specialize (H (i + 1) ltac:(lia)). by rewrite <- !Z.add_assoc, !(Z.add_comm 1 i).
Qed.

Lemma wp_strcpy dst src l (Q : Z -> kst -> Prop) s :
  cstr (mem s) src l -> PAGE_SIZE <= dst -> PAGE_SIZE <= src -> Z.of_nat (length l) < 2 ^ 64 ->
  disjoint dst (Z.of_nat (length l) + 1) src (Z.of_nat (length l) + 1) ->
  (forall m', (forall a, ldb m' a = moved (mem s) dst src (Z.of_nat (length l) + 1) a) -> Q dst (set_mem m' s)) ->
  wp (strcpy dst src) Q s.
Proof.
  intros Hc Hd Hs Hl Hdis HQ. unfold strcpy. wp_step. set (n := Z.of_nat (length l)) in *.
  apply (wp_while (fun '(p, q) s' => exists m' l2, s' = set_mem m' s /\ cstr (mem s) q l2 /\
      q + Z.of_nat (length l2) = src + n /\ src <= q /\ p - dst = q - src /\
      forall a, ldb m' a = moved (mem s) dst src (q - src) a) (fun '(_, q) _ => src + n - q)).
  - exists (mem s), l. rewrite set_mem_id. split_and!; try done; try lia. intros a. unfold moved. range_cases; done.
  - lia.
  - intros [p q] s' (m' & l2 & -> & Hc2 & El & Hq & Hp & E) _. unfold disjoint in Hdis. wp_steps.
    assert (Er : ldb m' q = ldb (mem s) q) by (rewrite E; unfold moved; range_cases; done).
    rewrite set_mem_mem, ld_1, Er. destruct l2 as [|c l2]; simpl in Hc2, El.
    + rewrite Hc2. wp_steps. apply HQ. intros a. rewrite set_mem_mem, ldb_st1, E. unfold moved.
      destruct (Z.eqb_spec a p) as [->|]; range_cases; try done.
      replace (src + (p - dst)) with q by lia. by rewrite Hc2.
    + destruct Hc2 as (E1 & Hn & Hc2). rewrite E1, (proj2 (Z.eqb_neq c 0)) by done. wp_steps.
      split; [|lia]. eexists _, l2. split_and!; [done|done|lia..|]. intros a.
      rewrite set_mem_mem, ldb_st1, E. unfold moved.
      destruct (Z.eqb_spec a p) as [->|]; range_cases; try done.
      replace (src + (p - dst)) with q by lia. rewrite <- E1. apply Z.mod_small, ldb_bound.
Qed.

(** The first position of [c] in a string. *)
Fixpoint find_char (c : Z) (l : list Z) : option Z :=
  match l with
  | [] => None
  | d :: l' => if d =? c then Some 0 else Z.succ <$> find_char c l'
  end.

Lemma wp_strchr a ch l (Q : Z -> kst -> Prop) s :
  cstr (mem s) a l -> PAGE_SIZE <= a -> Z.of_nat (length l) < 2 ^ 64 ->
  Q (match find_char (u8 ch) l with Some i => a + i | None => NULL end) s -> wp (strchr a ch) Q s.
Proof.
  intros Hc Ha Hl HQ. unfold strchr. wp_step.
  apply (wp_while (fun p s' => s' = s /\ a <= p /\ exists l2, cstr (mem s) p l2 /\
      p + Z.of_nat (length l2) = a + Z.of_nat (length l) /\
      match find_char (u8 ch) l2 with Some i => p + i | None => NULL end =
      match find_char (u8 ch) l with Some i => a + i | None => NULL end)
    (fun p _ => a + Z.of_nat (length l) - p)).
  - split_and!; [done|lia|]. by exists l.
  - lia.
  - intros p s' (-> & Hp & l2 & Hc2 & El & Ef) _. rewrite <- Ef in HQ. wp_steps. rewrite ld_1.
    destruct l2 as [|c l2]; simpl in Hc2, El, HQ, Ef.
    + rewrite Hc2. simpl negb. rewrite andb_false_l. wp_steps. rewrite ld_1, Hc2. by wp_steps.
    + destruct Hc2 as (E1 & Hn & Hc2). rewrite E1, (proj2 (Z.eqb_neq c 0)) by done.
      destruct (Z.eqb_spec c (u8 ch)) as [->|Hne]; simpl.
      * wp_steps. rewrite ld_1, E1, (proj2 (Z.eqb_neq _ 0)) by done. wp_steps. by rewrite Z.add_0_r in HQ.
      * wp_steps. split; [|lia]. split_and!; [done|lia|]. exists l2. split_and!; [done|lia|].
        rewrite <- Ef. destruct (find_char _ l2); simpl; [lia|done].
Qed.

(** What [memcmp] returns on two ranges of [n] bytes. *)
Definition memcmp_spec (m : memory) (p q n r : Z) : Prop :=
  (r = 0 /\ forall i, 0 <= i < n -> ldb m (p + i) = ldb m (q + i)) \/
  (exists i, 0 <= i < n /\ (forall j, 0 <= j < i -> ldb m (p + j) = ldb m (q + j)) /\
     ((r = -1 /\ ldb m (p + i) < ldb m (q + i)) \/ (r = 1 /\ ldb m (q + i) < ldb m (p + i)))).

Lemma wp_memcmp p q n (Q : Z -> kst -> Prop) s :
  PAGE_SIZE <= p -> PAGE_SIZE <= q -> 0 <= n < 2 ^ 64 ->
  (forall r, memcmp_spec (mem s) p q n r -> Q r s) -> wp (memcmp p q n) Q s.
Proof.
  intros Hp Hq Hn HQ. unfold memcmp.
  apply (wp_while (fun i s' => s' = s /\ 0 <= i <= n /\
     forall j, 0 <= j < i -> ldb (mem s) (p + j) = ldb (mem s) (q + j)) (fun i _ => n - i)).
  - split_and!; try done; lia.
  - lia.
  - intros i s' (-> & Hi & E) _. destruct (Z.eqb_spec i n) as [->|Hne]; simpl negb.
    { wp_steps. apply HQ. by left. }
    wp_steps. rewrite !ld_1.
    destruct (Z.ltb_spec (ldb (mem s) (p + i)) (ldb (mem s) (q + i))) as [?|?]; [wp_steps; apply HQ; right; exists i; auto with lia|].
    destruct (Z.ltb_spec (ldb (mem s) (q + i)) (ldb (mem s) (p + i))) as [?|?]; [wp_steps; apply HQ; right; exists i; auto with lia|].
    wp_steps. split_and!; try done; try lia. intros j Hj. destruct (Z.eq_dec j i) as [->|]; [lia|]. apply E. lia.
Qed.

(** ** Parsing numbers *)

Fixpoint digits_prefix (base : Z) (l : list Z) : list Z :=
  match l with
  | [] => []
  | c :: l' => if __decode_digit c <? base then c :: digits_prefix base l' else []
  end.

Definition eval_digits (base : Z) (l : list Z) (acc : Z) : Z :=
  fold_left (fun r c => (r *l base) +l __decode_digit c) l acc.

(** The radix prefix: the number of bytes it takes, and the base. *)
Definition fixup_radix (l : list Z) (base : Z) : nat * Z :=
  match l with
  | 48 :: l' =>
      if __tolower (hd 0 l') =? 120 then (2%nat, 16) else (0%nat, if base =? 0 then 8 else base)
  | _ => (0%nat, if base =? 0 then 10 else base)
  end.

Lemma cstr_drop m a l k : cstr m a l -> (k <= length l)%nat -> cstr m (a + Z.of_nat k) (drop k l).
Proof.
  revert a l. induction k as [|k IH]; intros a l Hc Hk; [by rewrite Z.add_0_r|].
  destruct l as [|c l]; cbn [cstr length drop] in *; [lia|].
  replace (a + Z.of_nat (S k)) with (a + 1 + Z.of_nat k) by lia. apply IH; [tauto|lia].
Qed.

Lemma cstr_hd m a l : cstr m a l -> ldb m a = hd 0 l.
Proof. destruct l; simpl; tauto. Qed.
Lemma cstr_tl m a l : cstr m a l -> l <> [] -> cstr m (a + 1) (tl l).
Proof. destruct l; simpl; tauto. Qed.

Lemma fixup_radix_other l base :
  hd 0 l <> 48 -> fixup_radix l base = (0%nat, if base =? 0 then 10 else base).
Proof.
  unfold fixup_radix. destruct l as [|c l]; [done|]. simpl. intros E. destruct c as [|p|p]; try done.
  do 6 (destruct p as [p|p|]; try done).
Qed.

Lemma wp_fixup_radix a l base (Q : Z * Z -> kst -> Prop) s :
  cstr (mem s) a l -> PAGE_SIZE <= a ->
  Q (let '(k, b) := fixup_radix l base in (a + Z.of_nat k, b)) s ->
  wp (__parse_integer_fixup_radix a base) Q s.
Proof.
  intros Hc Ha HQ. unfold __parse_integer_fixup_radix. wp_steps. rewrite ld_1, (cstr_hd _ _ _ Hc).
  destruct (Z.eqb_spec (hd 0 l) 48) as [E|E].
  - destruct l as [|c l]; simpl in E; [lia|]. subst c. wp_steps. rewrite ld_1.
    pose proof (cstr_tl _ _ _ Hc ltac:(done)) as Ht. simpl in Ht. rewrite (cstr_hd _ _ _ Ht).
    unfold fixup_radix in HQ. destruct (_ =? 120); [by wp_steps|].
    destruct (Z.eqb_spec base 0) as [->|Hb]; wp_steps; rewrite Z.add_0_r in HQ; [done|].
    by rewrite (proj2 (Z.eqb_neq base 0)) by done.
  - wp_steps. rewrite fixup_radix_other, Z.add_0_r in HQ by done. exact HQ.
Qed.

(** Where [strtoul] stops and what it returns. *)
Lemma wp_strtoul a endptr l base (Q : Z -> kst -> Prop) s :
  cstr (mem s) a l -> PAGE_SIZE <= a -> Z.of_nat (length l) < 2 ^ 64 -> base <= 36 ->
  (endptr = NULL \/ PAGE_SIZE <= endptr) ->
  (let '(k, b) := fixup_radix l base in
   let ds := digits_prefix b (drop k l) in
   Q (eval_digits b ds 0)
     (if endptr =? NULL then s else set_mem (st64 (mem s) endptr (a + Z.of_nat k + Z.of_nat (length ds))) s)) ->
  wp (strtoul a endptr base) Q s.
Proof.
  intros Hc Ha Hl Hb He HQ. unfold strtoul. wp_step. apply (wp_fixup_radix a l); try done.
  destruct (fixup_radix l base) as [k b] eqn:Ef.
  assert (Hk : (k <= length l)%nat /\ b <= 36).
  { destruct (Z.eq_dec (hd 0 l) 48) as [E|E].
    - destruct l as [|c l]; [done|]. simpl in E. subst c. unfold fixup_radix in Ef.
      destruct (Z.eqb_spec (__tolower (hd 0 l)) 120) as [E|E]; injection Ef as <- <-.
      + destruct l as [|d l]; [done|]. simpl. lia.
      + split; [lia|]. destruct (base =? 0); lia.
    - rewrite fixup_radix_other in Ef by done. injection Ef as <- <-. split; [lia|]. destruct (base =? 0); lia. }
  destruct Hk as [Hk Hb']. pose proof (cstr_drop _ _ _ k Hc Hk) as Hd. set (l0 := drop k l) in *.
  assert (Hl0 : Z.of_nat (length l0) < 2 ^ 64) by (unfold l0; rewrite length_drop; lia).
  set (a0 := a + Z.of_nat k) in *. wp_step.
  apply (wp_while (fun '(r, p) s' => s' = s /\ a0 <= p /\ exists l2, cstr (mem s) p l2 /\
      p + Z.of_nat (length l2) = a0 + Z.of_nat (length l0) /\
      p + Z.of_nat (length (digits_prefix b l2)) = a0 + Z.of_nat (length (digits_prefix b l0)) /\
      eval_digits b (digits_prefix b l2) r = eval_digits b (digits_prefix b l0) 0)
    (fun '(_, p) _ => a0 + Z.of_nat (length l0) - p)).
  - split_and!; [done|lia|]. by exists l0.
  - lia.
  - intros [r p] s' (-> & Hp & l2 & Hc2 & El & Ed & Ev) _. wp_steps. rewrite ld_1, (cstr_hd _ _ _ Hc2).
    assert (Hend : digits_prefix b l2 = [] -> wp (when (negb (endptr =? NULL)) (wr 8 endptr p);; mret r) Q s).
    { intros E0. rewrite E0 in Ed, Ev. cbn in Ed, Ev. rewrite Z.add_0_r in Ed. subst p r. wp_step.
      destruct (Z.eqb_spec endptr NULL) as [E|E]; simpl negb; wp_steps; exact HQ. }
    destruct l2 as [|c l2]; simpl in El, Ed, Ev |- *.
    + change (__decode_digit 0) with (2 ^ 32 - 48). rewrite (proj2 (Z.ltb_ge _ b)) by lia. wp_step. by apply Hend.
    + destruct (Z.ltb_spec (__decode_digit c) b) as [Hlt|Hge]; simpl in Ed, Ev.
      * wp_steps. split; [|lia]. split_and!; [done|lia|]. exists l2.
        split_and!; [by apply (cstr_tl _ _ _ Hc2)|lia|lia|done].
      * wp_step. apply Hend. simpl. by rewrite (proj2 (Z.ltb_ge _ _)) by lia.
Qed.

(** ** The theorems *)

(** [memmove] copies correctly however its two ranges overlap: every
    destination byte becomes the byte the source held before the call, and
    no other byte changes. *)
Theorem memmove_correct dst src n s :
  PAGE_SIZE <= dst -> PAGE_SIZE <= src -> 0 <= n < 2 ^ 64 ->
  wp (memmove dst src n) (fun r s' => r = dst /\ s' = set_mem (mem s') s /\
    (forall i, 0 <= i < n -> ldb (mem s') (dst + i) = ldb (mem s) (src + i)) /\
    agree (fun a => ~ in_range dst n a) (mem s) (mem s')) s.
Proof.
  intros. apply wp_memmove; try done. intros m' Hm. split_and!; try done.
  - intros i Hi. simpl. rewrite Hm. unfold moved. range_cases. f_equal. lia.
  - intros a Ha. simpl. rewrite Hm. unfold moved, in_range in *. range_cases; done.
Qed.

Lemma memmove_correct_witness :
  wp (memmove 0x5002 0x5000 100) (fun r s' => r = 0x5002 /\ s' = set_mem (mem s') (sample_state ∅) /\
    (forall i, 0 <= i < 100 -> ldb (mem s') (0x5002 + i) = ldb (mem (sample_state ∅)) (0x5000 + i)) /\
    agree (fun a => ~ in_range 0x5002 100 a) (mem (sample_state ∅)) (mem s')) (sample_state ∅).
Proof. apply (memmove_correct 0x5002 0x5000 100 (sample_state ∅)); unfold PAGE_SIZE; lia. Defined.

(** [strcmp] and [strncmp] terminate on C strings and return the
    difference of the first bytes that differ; [strcmp] returns zero exactly
    for equal strings, and [strncmp] looks at the first [n] bytes only. *)
Theorem strcmp_correct p q l r n s :
  cstr (mem s) p l -> cstr (mem s) q r -> PAGE_SIZE <= p -> PAGE_SIZE <= q ->
  Z.of_nat (length l) < 2 ^ 64 -> 0 <= n < 2 ^ 64 ->
  wp (strcmp p q) (fun c s' => c = cmp_str l r /\ (c = 0 <-> l = r) /\ s' = s) s /\
  wp (strncmp p q n) (fun c s' => c = cmp_str (take (Z.to_nat n) l) (take (Z.to_nat n) r) /\ s' = s) s.
Proof.
  intros Hl Hr Hp Hq Hlen Hn. split; [|by apply (wp_strncmp p q l r)].
  apply (wp_strcmp p q l r); try done. split_and!; try done.
  apply cmp_str_eq; (eapply Forall_impl; [by eapply cstr_bytes|]); simpl; lia.
Qed.

(** "ab" at 0x5000 and "abc" at 0x6000. *)
Definition sample_strings : memory := st 2 (st 3 ∅ 0x6000 0x636261) 0x5000 0x6261.

Lemma strcmp_correct_witness :
  wp (strcmp 0x5000 0x6000) (fun c s' => c = cmp_str [97; 98] [97; 98; 99] /\ (c = 0 <-> [97; 98] = [97; 98; 99]) /\
    s' = sample_state sample_strings) (sample_state sample_strings).
Proof.
  destruct (strcmp_correct 0x5000 0x6000 [97; 98] [97; 98; 99] 2 (sample_state sample_strings)) as [H _].
  - vm_compute. intuition congruence.
  - vm_compute. intuition congruence.
  - unfold PAGE_SIZE. lia.
  - unfold PAGE_SIZE. lia.
  - simpl. lia.
  - lia.
  - exact H.
Defined.
