(* ===== verification/ReadOnly.v ===== *)
(** * Computations that only read, and where

    [ro P c Q s]: run from [s], the computation [c] returns a value
    satisfying [Q] and leaves the state as it is; and it does so, with the
    same value, from every state that differs from [s] only in the memory
    outside [P].  So [c] is total, writes nothing and looks at no byte outside
    [P]. *)

From S2P Require Import Prelude Memory Machine Strings.

Definition ro (P : Z -> Prop) {A} (c : M A) (Q : A -> Prop) (s : kst) : Prop :=
  exists a, Q a /\ forall m, agree P (mem s) m -> c (set_mem m s) = Ok a (set_mem m s).

Section ro.
Variable P : Z -> Prop.
Variable s : kst.

Lemma ro_wp {A} (c : M A) (Q : A -> Prop) : ro P c Q s -> wp c (fun a s' => s' = s /\ Q a) s.
Proof.
  intros (a & HQ & H). specialize (H (mem s) (agree_refl P (mem s))). rewrite set_mem_id in H. unfold wp. by rewrite H.
Qed.

Lemma ro_mono {A} (c : M A) (Q Q' : A -> Prop) : ro P c Q s -> (forall a, Q a -> Q' a) -> ro P c Q' s.
Proof. intros (a & H & E) HQ. exists a. auto. Qed.

Lemma ro_ret {A} (a : A) (Q : A -> Prop) : Q a -> ro P (mret a) Q s.
Proof. intros H. by exists a. Qed.

Lemma ro_bind {A B} (c : M A) (f : A -> M B) (Q : B -> Prop) :
  ro P c (fun a => ro P (f a) Q s) s -> ro P (c ≫= f) Q s.
Proof.
  intros (a & (b & HQ & Hf) & Hc). exists b. split; [done|]. intros m Hm.
  unfold mbind, M_bind. by rewrite (Hc m Hm), (Hf m Hm).
Qed.

Lemma ro_rd n a (Q : Z -> Prop) :
  PAGE_SIZE <= a -> (forall b, in_range a (Z.of_nat n) b -> P b) -> Q (ld n (mem s) a) -> ro P (rd n a) Q s.
Proof.
  intros Ha HP HQ. exists (ld n (mem s) a). split; [done|]. intros m Hm.
  unfold rd. destruct (Z.ltb_spec a PAGE_SIZE); [lia|]. simpl. rewrite (ld_agree n (mem s) m a); [done|]. by eapply agree_weaken.
Qed.

Lemma ro_rounds {X R} (I : Z -> X -> Prop) (body : X -> M (X + R)) (k : nat) (n : Z) (x : X) (Q : R -> Prop) :
  I n x -> 0 <= n ->
  (forall n x, I n x -> 0 <= n ->
     ro P (body x) (fun r => match r with inl y => exists n', 0 <= n' < n /\ I n' y | inr r => Q r end) s) ->
  ro P (rounds k body x)
    (fun r => match r with inl y => exists n', 0 <= n' <= n - 2 ^ Z.of_nat k /\ I n' y | inr r => Q r end) s.
Proof.
  intros HI Hn Hb. revert n x HI Hn. induction k as [|k IH]; intros n x HI Hn; cbn [rounds].
  - eapply ro_mono; [by apply (Hb n)|]. intros [y|r]; [|done]. intros (n' & Hn' & HI'). exists n'. simpl. split; [lia|done].
  - apply ro_bind. eapply ro_mono; [by apply (IH n)|]. intros [y|r] H; [|by apply ro_ret].
    destruct H as (n' & Hn' & HI'). eapply ro_mono; [apply (IH n'); [done|lia]|]. intros [z|r]; [|done].
    intros (n'' & Hn'' & HI''). exists n''. rewrite Nat2Z.inj_succ, Z.pow_succ_r by lia. split; [lia|done].
Qed.

(** The rule for loops: the invariant carries a bound on the rounds left. *)
Lemma ro_while {X R} (I : Z -> X -> Prop) (body : X -> M (X + R)) (n : Z) (x : X) (Q : R -> Prop) :
  I n x -> 0 <= n < 2 ^ 64 ->
  (forall n x, I n x -> 0 <= n ->
     ro P (body x) (fun r => match r with inl y => exists n', 0 <= n' < n /\ I n' y | inr r => Q r end) s) ->
  ro P (while body x) Q s.
Proof.
  intros HI Hn Hb. unfold while. apply ro_bind. eapply ro_mono; [apply (ro_rounds I body 64 n x Q); [done|lia|done]|].
  intros [y|r]; [|apply ro_ret]. intros (n' & Hn' & _). change (2 ^ Z.of_nat 64) with (2 ^ 64) in Hn'. lia.
Qed.
End ro.

Lemma ro_weaken (P P' : Z -> Prop) {A} (c : M A) (Q : A -> Prop) s :
  (forall a, P a -> P' a) -> ro P c Q s -> ro P' c Q s.
Proof. intros HP (a & HQ & H). exists a. split; [done|]. intros m Hm. apply H. by eapply agree_weaken. Qed.

(** One step at the head of the goal. *)
Ltac ro_step :=
  lazymatch goal with
  | |- ro _ (mbind _ _) _ _ => apply ro_bind
  | |- ro _ (mret _) _ _ => apply ro_ret
  | |- ro ?P (if ?b then ?c else ?d) ?Q ?s =>
      let b' := eval cbn in b in
      lazymatch b' with true => change (ro P c Q s) | false => change (ro P d Q s) end
  end.
Ltac ro_steps := repeat (progress ro_step).

(** Follow a computation into a call whose specification is [H]. *)
Tactic Notation "ro_call" uconstr(H) := eapply ro_mono; [apply H|].

(** ** The string routines *)

Section strings.
Variable P : Z -> Prop.
Variable s : kst.

(** The bytes of a string, its terminator included. *)
Definition reads (a n : Z) : Prop := PAGE_SIZE <= a /\ forall b, in_range a n b -> P b.

Lemma reads_byte a n i : reads a n -> 0 <= i < n -> PAGE_SIZE <= a + i /\ forall b, in_range (a + i) (Z.of_nat 1) b -> P b.
Proof. intros [Ha H] Hi. split; [lia|]. intros b Hb. apply H. unfold in_range in *. lia. Qed.

Lemma cstr_at m a l i : cstr m a l -> 0 <= i <= Z.of_nat (length l) ->
  (ldb m (a + i) = 0 <-> i = Z.of_nat (length l)).
Proof.
  revert a i. induction l as [|c l IH]; intros a i H Hi; simpl in *.
  - replace (a + i) with a by lia. split; [lia|done].
  - destruct H as (Hc & Hz & H). destruct (Z.eq_dec i 0) as [->|].
    + rewrite Z.add_0_r, Hc. split; [done|lia].
    + specialize (IH (a + 1) (i - 1) H ltac:(lia)). replace (a + 1 + (i - 1)) with (a + i) in IH by lia. lia.
Qed.

Lemma ro_strlen a l (Q : Z -> Prop) :
  cstr (mem s) a l -> reads a (Z.of_nat (length l) + 1) -> Z.of_nat (length l) < 2 ^ 63 ->
  Q (Z.of_nat (length l)) -> ro P (strlen a) Q s.
Proof.
  intros Hl HR Hn HQ. unfold strlen. destruct (Z.eqb_spec a NULL) as [E|_].
  { destruct HR. unfold NULL, PAGE_SIZE in *. lia. }
  apply (ro_while P s (fun n i => n = Z.of_nat (length l) - i /\ 0 <= i <= Z.of_nat (length l)) _ (Z.of_nat (length l))); [lia|lia|].
  intros n i [-> Hi] _. apply ro_bind. destruct (reads_byte a _ i HR ltac:(lia)). apply ro_rd; [done..|]. rewrite ld_1.
  pose proof (cstr_at (mem s) a l i Hl Hi) as E. destruct (Z.eqb_spec (ldb (mem s) (a + i)) 0) as [E0|E0]; simpl negb; ro_steps.
  - apply E in E0 as ->. done.
  - exists (Z.of_nat (length l) - (i + 1)). assert (i <> Z.of_nat (length l)) by tauto. lia.
Qed.

Lemma ro_memchr p c n (Q : Z -> Prop) :
  reads p n -> 0 <= n < 2 ^ 64 -> 0 <= c < 256 ->
  (forall r, (r = NULL /\ forall i, 0 <= i < n -> ldb (mem s) (p + i) <> c) \/
     (exists i, 0 <= i < n /\ r = p + i /\ ldb (mem s) (p + i) = c /\ forall j, 0 <= j < i -> ldb (mem s) (p + j) <> c) -> Q r) ->
  ro P (memchr p c n) Q s.
Proof.
  intros HR Hn Hc HQ. unfold memchr. rewrite u8_small by done.
  apply (ro_while P s (fun k i => k = n - i /\ 0 <= i <= n /\ forall j, 0 <= j < i -> ldb (mem s) (p + j) <> c) _ n).
  { split_and!; lia. }
  { done. }
  intros k i (-> & Hi & Hj) _. destruct (Z.eqb_spec i n) as [->|Hne]; simpl negb.
  { ro_steps. apply HQ. left. done. }
  ro_steps. destruct (reads_byte p _ i HR ltac:(lia)). apply ro_rd; [done..|]. rewrite ld_1.
  destruct (Z.eqb_spec (ldb (mem s) (p + i)) c) as [E|E]; ro_steps.
  - apply HQ. right. exists i. split_and!; [lia|lia|done..].
  - exists (n - (i + 1)). split; [lia|]. split_and!; [lia|lia|lia|]. intros j Hj'. destruct (Z.eq_dec j i) as [->|]; [done|]. apply Hj. lia.
Qed.

Lemma ro_memcmp p q n (Q : Z -> Prop) :
  reads p n -> reads q n -> 0 <= n < 2 ^ 64 ->
  (forall r, (r = 0 <-> forall i, 0 <= i < n -> ldb (mem s) (p + i) = ldb (mem s) (q + i)) -> Q r) ->
  ro P (memcmp p q n) Q s.
Proof.
  intros Hp Hq Hn HQ. unfold memcmp.
  apply (ro_while P s (fun k i => k = n - i /\ 0 <= i <= n /\ forall j, 0 <= j < i -> ldb (mem s) (p + j) = ldb (mem s) (q + j)) _ n).
  { split_and!; lia. }
  { done. }
  intros k i (-> & Hi & Hj) _. destruct (Z.eqb_spec i n) as [->|Hne]; simpl negb.
  { ro_steps. apply HQ. done. }
  ro_steps. destruct (reads_byte p _ i Hp ltac:(lia)). apply ro_rd; [done..|].
  ro_steps. destruct (reads_byte q _ i Hq ltac:(lia)). apply ro_rd; [done..|]. rewrite !ld_1.
  destruct (Z.ltb_spec (ldb (mem s) (p + i)) (ldb (mem s) (q + i))).
  { ro_steps. apply HQ. split; [done|]. intros H'. specialize (H' i ltac:(lia)). lia. }
  destruct (Z.ltb_spec (ldb (mem s) (q + i)) (ldb (mem s) (p + i))).
  { ro_steps. apply HQ. split; [done|]. intros H'. specialize (H' i ltac:(lia)). lia. }
  ro_steps. exists (n - (i + 1)). split; [lia|]. split_and!; [lia|lia|lia|]. intros j Hj'.
  destruct (Z.eq_dec j i) as [->|]; [lia|]. apply Hj. lia.
Qed.
End strings.
