(* ===== verification/Fdt.v ===== *)
(** * device/libfdt/fdt.c, libfdt_internal.h: reading a flattened device tree

    A device tree blob is a block of memory the firmware hands to the kernel:
    a header of big-endian 32-bit fields, a structure block of tagged tokens
    and a block of strings.  The functions walk it by [int] offsets into the
    structure block; an offset below zero is an error code.  Nothing of the
    blob is trusted ([FDT_ASSUME_MASK] is 0), so every [can_assume] is false.

    An out-parameter is returned beside the result; [depth] of
    [fdt_next_node], which may be a null pointer, is an option. *)

From S2P Require Import Prelude Memory Machine Strings.

(** Short-circuit conditions. *)
Definition orm (c d : M bool) : M bool := b ← c; if b : bool then mret true else d.
Definition andm (c d : M bool) : M bool := b ← c; if b : bool then d else mret false.
Notation "c ||| d" := (orm c d) : kint_scope.
Notation "c &&& d" := (andm c d) (at level 40, left associativity) : kint_scope.

Definition INT_MAX : Z := 0x7fffffff.

(** ** Error codes and constants of libfdt.h and fdt.h *)

Definition FDT_FIRST_SUPPORTED_VERSION : Z := 0x02.
Definition FDT_LAST_SUPPORTED_VERSION : Z := 0x11.
Definition FDT_ERR_NOTFOUND : Z := 1.
Definition FDT_ERR_NOSPACE : Z := 3.
Definition FDT_ERR_BADOFFSET : Z := 4.
Definition FDT_ERR_BADPATH : Z := 5.
Definition FDT_ERR_BADPHANDLE : Z := 6.
Definition FDT_ERR_BADSTATE : Z := 7.
Definition FDT_ERR_TRUNCATED : Z := 8.
Definition FDT_ERR_BADMAGIC : Z := 9.
Definition FDT_ERR_BADVERSION : Z := 10.
Definition FDT_ERR_BADSTRUCTURE : Z := 11.
Definition FDT_ERR_INTERNAL : Z := 13.
Definition FDT_ERR_BADVALUE : Z := 15.
Definition FDT_ERR_NOPHANDLES : Z := 17.
Definition FDT_ERR_ALIGNMENT : Z := 19.
Definition FDT_MAX_PHANDLE : Z := 0xfffffffe.

Definition FDT_MAGIC : Z := 0xd00dfeed.
Definition FDT_SW_MAGIC : Z := u32 (Z.lnot FDT_MAGIC).
Definition FDT_TAGSIZE : Z := 4.
Definition FDT_BEGIN_NODE : Z := 0x1.
Definition FDT_END_NODE : Z := 0x2.
Definition FDT_PROP : Z := 0x3.
Definition FDT_NOP : Z := 0x4.
Definition FDT_END : Z := 0x9.
Definition FDT_V1_SIZE : Z := 7 * 4.
Definition FDT_V2_SIZE : Z := FDT_V1_SIZE + 4.
Definition FDT_V3_SIZE : Z := FDT_V2_SIZE + 4.
Definition FDT_V16_SIZE : Z := FDT_V3_SIZE.
Definition FDT_V17_SIZE : Z := FDT_V16_SIZE + 4.
Definition sizeof_fdt_property : Z := 12.

Definition FDT_TAGALIGN (x : Z) : Z := (u64 x +l FDT_TAGSIZE -l 1) &l not64 (FDT_TAGSIZE - 1).

(** ** Byte order (libfdt_env.h, libfdt.h) *)

Definition fdt32_to_cpu (x : Z) : Z :=
  Z.shiftl (byte_of x 0) 24 |l Z.shiftl (byte_of x 1) 16 |l Z.shiftl (byte_of x 2) 8 |l byte_of x 3.

Definition fdt64_to_cpu (x : Z) : Z :=
  Z.shiftl (byte_of x 0) 56 |l Z.shiftl (byte_of x 1) 48 |l Z.shiftl (byte_of x 2) 40 |l Z.shiftl (byte_of x 3) 32 |l
  Z.shiftl (byte_of x 4) 24 |l Z.shiftl (byte_of x 5) 16 |l Z.shiftl (byte_of x 6) 8 |l byte_of x 7.

Definition fdt32_ld (p : Z) : M Z :=
  b0 ← rd 1 p; b1 ← rd 1 (p + 1); b2 ← rd 1 (p + 2); b3 ← rd 1 (p + 3);
  mret (Z.shiftl b0 24 |l Z.shiftl b1 16 |l Z.shiftl b2 8 |l b3).

Definition fdt32_ld_ (p : Z) : M Z := x ← rd 4 p; mret (fdt32_to_cpu x).
Definition fdt64_ld_ (p : Z) : M Z := x ← rd 8 p; mret (fdt64_to_cpu x).

(** ** The header *)

Definition fdt_magic (fdt : Z) : M Z := fdt32_ld fdt.
Definition fdt_totalsize (fdt : Z) : M Z := fdt32_ld (fdt + 4).
Definition fdt_off_dt_struct (fdt : Z) : M Z := fdt32_ld (fdt + 8).
Definition fdt_off_dt_strings (fdt : Z) : M Z := fdt32_ld (fdt + 12).
Definition fdt_off_mem_rsvmap (fdt : Z) : M Z := fdt32_ld (fdt + 16).
Definition fdt_version (fdt : Z) : M Z := fdt32_ld (fdt + 20).
Definition fdt_last_comp_version (fdt : Z) : M Z := fdt32_ld (fdt + 24).
Definition fdt_boot_cpuid_phys (fdt : Z) : M Z := fdt32_ld (fdt + 28).
Definition fdt_size_dt_strings (fdt : Z) : M Z := fdt32_ld (fdt + 32).
Definition fdt_size_dt_struct (fdt : Z) : M Z := fdt32_ld (fdt + 36).

Definition fdt_ro_probe_ (fdt : Z) : M Z :=
  totalsize ← fdt_totalsize fdt;
  if negb (fdt &l 7 =? 0) then mret (- FDT_ERR_ALIGNMENT) else
  magic ← fdt_magic fdt;
  err ← (if magic =? FDT_MAGIC then
      version ← fdt_version fdt;
      if version <? FDT_FIRST_SUPPORTED_VERSION then mret (- FDT_ERR_BADVERSION) else
      last ← fdt_last_comp_version fdt;
      if FDT_LAST_SUPPORTED_VERSION <? last then mret (- FDT_ERR_BADVERSION) else mret 0
    else if magic =? FDT_SW_MAGIC then
      size ← fdt_size_dt_struct fdt;
      if size =? 0 then mret (- FDT_ERR_BADSTATE) else mret 0
    else mret (- FDT_ERR_BADMAGIC));
  if err <? 0 then mret err
  else if totalsize <? INT_MAX then mret totalsize
  else mret (- FDT_ERR_TRUNCATED).

Definition check_off_ (hdrsize totalsize off : Z) : bool := (hdrsize <=? off) && (off <=? totalsize).

Definition check_block_ (hdrsize totalsize base size : Z) : bool :=
  if negb (check_off_ hdrsize totalsize base) then false
  else if u32 (base + size) <? base then false
  else if negb (check_off_ hdrsize totalsize (u32 (base + size))) then false
  else true.

Definition fdt_header_size_ (version : Z) : Z :=
  if version <=? 1 then FDT_V1_SIZE
  else if version <=? 2 then FDT_V2_SIZE
  else if version <=? 3 then FDT_V3_SIZE
  else if version <=? 16 then FDT_V16_SIZE
  else FDT_V17_SIZE.

Definition fdt_header_size (fdt : Z) : M Z := version ← fdt_version fdt; mret (fdt_header_size_ version).

Definition fdt_check_header (fdt : Z) : M Z :=
  if negb (fdt &l 7 =? 0) then mret (- FDT_ERR_ALIGNMENT) else
  magic ← fdt_magic fdt;
  if negb (magic =? FDT_MAGIC) then mret (- FDT_ERR_BADMAGIC) else
  version ← fdt_version fdt;
  last ← fdt_last_comp_version fdt;
  if (version <? FDT_FIRST_SUPPORTED_VERSION) || (FDT_LAST_SUPPORTED_VERSION <? last) then mret (- FDT_ERR_BADVERSION) else
  if version <? last then mret (- FDT_ERR_BADVERSION) else
  hdrsize ← fdt_header_size fdt;
  totalsize ← fdt_totalsize fdt;
  if (totalsize <? hdrsize) || (INT_MAX <? totalsize) then mret (- FDT_ERR_TRUNCATED) else
  rsv ← fdt_off_mem_rsvmap fdt;
  if negb (check_off_ hdrsize totalsize rsv) then mret (- FDT_ERR_TRUNCATED) else
  off ← fdt_off_dt_struct fdt;
  struct_ok ← (if version <? 17 then mret (check_off_ hdrsize totalsize off)
               else size ← fdt_size_dt_struct fdt; mret (check_block_ hdrsize totalsize off size));
  if negb struct_ok then mret (- FDT_ERR_TRUNCATED) else
  off ← fdt_off_dt_strings fdt;
  size ← fdt_size_dt_strings fdt;
  if negb (check_block_ hdrsize totalsize off size) then mret (- FDT_ERR_TRUNCATED) else
  mret 0.

(** ** Tokens of the structure block *)

Definition fdt_offset_ptr_ (fdt offset : Z) : M Z := off ← fdt_off_dt_struct fdt; mret (fdt + off + offset).

(** [len] is an [unsigned int]. *)
Definition fdt_offset_ptr (fdt offset len : Z) : M Z :=
  off ← fdt_off_dt_struct fdt;
  let uoffset := u32 offset in
  let absoffset := u32 (offset + off) in
  if offset <? 0 then mret NULL else
  bad ← (mret (absoffset <? uoffset) ||| mret (u32 (absoffset + len) <? absoffset) |||
         (total ← fdt_totalsize fdt; mret (total <? u32 (absoffset + len))));
  if bad : bool then mret NULL else
  version ← fdt_version fdt;
  bad ← (mret (0x11 <=? version) &&& (mret (u32 (uoffset + len) <? uoffset) |||
         (size ← fdt_size_dt_struct fdt; mret (size <? u32 (offset + len)))));
  if bad : bool then mret NULL else
  fdt_offset_ptr_ fdt offset.

(** [do p = fdt_offset_ptr(fdt, offset++, 1); while (p && *p != 0)]: the
    offset after the terminator, or nothing when the block ends first. *)
Definition skip_name (fdt offset : Z) : M (option Z) :=
  while (fun offset =>
    p ← fdt_offset_ptr fdt offset 1;
    let offset := s32 (offset + 1) in
    if p =? NULL then mret (inr None) else
    c ← rd 1 p;
    if negb (c =? 0) then mret (inl offset) else mret (inr (Some offset))) offset.

(** The offset after a property's header and value. *)
Definition skip_prop (fdt offset : Z) : M (option Z) :=
  lenp ← fdt_offset_ptr fdt offset 4;
  if lenp =? NULL then mret None else
  len ← fdt32_ld_ lenp;
  let sum := u32 (len + offset) in
  if (INT_MAX <=? sum) || (sum <? u32 offset) then mret None else
  let offset := s32 (offset + sizeof_fdt_property - FDT_TAGSIZE + len) in
  old ← ((version ← fdt_version fdt; mret (version <? 0x10)) &&& mret (8 <=? len) &&& mret (negb (u32 (offset - len) mod 8 =? 0)));
  mret (Some (if old : bool then s32 (offset + 4) else offset)).

Definition fdt_next_tag (fdt startoffset : Z) : M (Z * Z) :=
  tagp ← fdt_offset_ptr fdt startoffset FDT_TAGSIZE;
  if tagp =? NULL then mret (FDT_END, - FDT_ERR_TRUNCATED) else
  tag ← fdt32_ld_ tagp;
  let offset := s32 (startoffset + FDT_TAGSIZE) in
  offset ← (if tag =? FDT_BEGIN_NODE then skip_name fdt offset
            else if tag =? FDT_PROP then skip_prop fdt offset
            else if (tag =? FDT_END) || (tag =? FDT_END_NODE) || (tag =? FDT_NOP) then mret (Some offset)
            else mret None);
  match offset with
  | None => mret (FDT_END, - FDT_ERR_BADSTRUCTURE)
  | Some offset =>
      p ← fdt_offset_ptr fdt startoffset (u32 (offset - startoffset));
      if p =? NULL then mret (FDT_END, - FDT_ERR_BADSTRUCTURE)
      else mret (tag, s32 (FDT_TAGALIGN offset))
  end.

Definition fdt_check_node_offset_ (fdt offset : Z) : M Z :=
  if (offset <? 0) || negb (u64 offset mod FDT_TAGSIZE =? 0) then mret (- FDT_ERR_BADOFFSET) else
  '(tag, offset) ← fdt_next_tag fdt offset;
  if negb (tag =? FDT_BEGIN_NODE) then mret (- FDT_ERR_BADOFFSET) else mret offset.

Definition fdt_check_prop_offset_ (fdt offset : Z) : M Z :=
  if (offset <? 0) || negb (u64 offset mod FDT_TAGSIZE =? 0) then mret (- FDT_ERR_BADOFFSET) else
  '(tag, offset) ← fdt_next_tag fdt offset;
  if negb (tag =? FDT_PROP) then mret (- FDT_ERR_BADOFFSET) else mret offset.

(** ** Walking the nodes *)

(** The loop of [fdt_next_node]: tokens from [start] on, up to a node. *)
Definition node_loop (fdt start : Z) (depth : option Z) : M (Z * option Z) :=
  while (fun '(offset, depth) =>
    '(tag, next) ← fdt_next_tag fdt offset;
    if tag =? FDT_BEGIN_NODE then mret (inr (offset, option_map (fun d => s32 (d + 1)) depth))
    else if tag =? FDT_END_NODE then
      match depth with
      | Some d => if s32 (d - 1) <? 0 then mret (inr (next, Some (s32 (d - 1)))) else mret (inl (next, Some (s32 (d - 1))))
      | None => mret (inl (next, None))
      end
    else if tag =? FDT_END then
      if (0 <=? next) || ((next =? - FDT_ERR_TRUNCATED) && match depth with None => true | _ => false end)
      then mret (inr (- FDT_ERR_NOTFOUND, depth)) else mret (inr (next, depth))
    else mret (inl (next, depth))) (start, depth).

Definition fdt_next_node (fdt offset : Z) (depth : option Z) : M (Z * option Z) :=
  next ← (if 0 <=? offset then fdt_check_node_offset_ fdt offset else mret 0);
  if next <? 0 then mret (next, depth) else node_loop fdt next depth.

Definition fdt_first_subnode (fdt offset : Z) : M Z :=
  '(offset, depth) ← fdt_next_node fdt offset (Some 0);
  if (offset <? 0) || negb (bool_decide (depth = Some 1)) then mret (- FDT_ERR_NOTFOUND) else mret offset.

Definition fdt_next_subnode (fdt offset : Z) : M Z :=
  while (fun '(offset, depth) =>
    '(offset, depth) ← fdt_next_node fdt offset (Some depth);
    let depth := default 0 depth in
    if (offset <? 0) || (depth <? 1) then mret (inr (- FDT_ERR_NOTFOUND))
    else if 1 <? depth then mret (inl (offset, depth)) else mret (inr offset)) (offset, 1).

Definition fdt_find_string_ (strtab tabsize s : Z) : M Z :=
  n ← strlen s;
  let len := s32 (n + 1) in
  let last := strtab + tabsize - len in
  while (fun p =>
    if p <=? last then
      c ← memcmp p s (u64 len);
      if c =? 0 then mret (inr p) else mret (inl (p + 1))
    else mret (inr NULL)) strtab.

Definition fdt_move (fdt buf bufsize : Z) : M Z :=
  if bufsize <? 0 then mret (- FDT_ERR_NOSPACE) else
  probe ← fdt_ro_probe_ fdt;
  if probe <? 0 then mret probe else
  totalsize ← fdt_totalsize fdt;
  if u32 bufsize <? totalsize then mret (- FDT_ERR_NOSPACE) else
  totalsize ← fdt_totalsize fdt;
  memmove buf fdt totalsize;;
  mret 0.
