(* ===== verification/FdtRo.v ===== *)
(** * device/libfdt/fdt_ro.c: looking things up in a device tree

    Names are pointers to characters; a string literal lies at the address
    [sym_str] gives it.  A nullable [lenp] whose value the caller may leave
    out is returned beside the result (where computing it costs a [strlen],
    the argument [lenp] says whether it is wanted).

    A path that does not start with a slash starts with an alias, whose value
    is again a path: [fdt_path_offset] recurses through aliases with nothing
    to stop it, so it takes fuel, one unit per level. *)

From S2P Require Import Prelude Memory Machine Strings Fdt.

Section fdt_ro.
Context {L : KernelLayout}.

(** [FDT_RO_PROBE(fdt)]: leave with the error of the probe. *)
Definition FDT_RO_PROBE {A} (fdt : Z) (err : Z -> A) (c : M A) : M A :=
  totalsize_ ← fdt_ro_probe_ fdt;
  if totalsize_ <? 0 then mret (err totalsize_) else c.

(** Characters of a path. *)
Definition SLASH : Z := 47.
Definition AT : Z := 64.

(** ** Strings and names *)

(** [fdt_get_string(fdt, stroffset, &len)]: the string and its length, or
    [NULL] and an error. *)
Definition fdt_get_string (fdt stroffset : Z) : M (Z * Z) :=
  let fail (err : Z) : M (Z * Z) := mret (NULL, err) in
  totalsize ← fdt_ro_probe_ fdt;
  if totalsize <? 0 then fail totalsize else
  off ← fdt_off_dt_strings fdt;
  let absoffset := u32 (stroffset + off) in
  if u32 totalsize <=? absoffset then fail (- FDT_ERR_BADOFFSET) else
  let len := u32 (totalsize - absoffset) in
  magic ← fdt_magic fdt;
  len ← (if magic =? FDT_MAGIC then
      if stroffset <? 0 then mret (inl (- FDT_ERR_BADOFFSET)) else
      version ← fdt_version fdt;
      if 17 <=? version then
        size ← fdt_size_dt_strings fdt;
        if size <=? u32 stroffset then mret (inl (- FDT_ERR_BADOFFSET))
        else mret (inr (if u32 (size - stroffset) <? len then u32 (size - stroffset) else len))
      else mret (inr len)
    else if magic =? FDT_SW_MAGIC then
      let sw_stroffset := u32 (- stroffset) in
      size ← fdt_size_dt_strings fdt;
      if (0 <=? stroffset) || (size <? sw_stroffset) then mret (inl (- FDT_ERR_BADOFFSET))
      else mret (inr (if sw_stroffset <? len then sw_stroffset else len))
    else mret (inl (- FDT_ERR_INTERNAL)));
  match len with
  | inl err => fail err
  | inr len =>
      let s := fdt + absoffset in
      n ← memchr s 0 len;
      if n =? NULL then fail (- FDT_ERR_TRUNCATED) else mret (s, s32 (n - s))
  end.

Definition fdt_string (fdt stroffset : Z) : M Z := '(s, _) ← fdt_get_string fdt stroffset; mret s.

Definition fdt_string_eq_ (fdt stroffset s len : Z) : M bool :=
  '(p, slen) ← fdt_get_string fdt stroffset;
  if negb (p =? NULL) && (slen =? len) then c ← memcmp p s (u64 len); mret (c =? 0) else mret false.

Definition fdt_get_name (fdt nodeoffset : Z) (lenp : bool) : M (Z * Z) :=
  nh ← fdt_offset_ptr_ fdt nodeoffset;
  err ← fdt_ro_probe_ fdt;
  if err <? 0 then mret (NULL, err) else
  err ← fdt_check_node_offset_ fdt nodeoffset;
  if err <? 0 then mret (NULL, err) else
  let nameptr := nh + 4 in
  version ← fdt_version fdt;
  nameptr ← (if version <? 0x10 then
      leaf ← strrchr nameptr SLASH;
      mret (if leaf =? NULL then NULL else leaf + 1)
    else mret nameptr);
  if nameptr =? NULL then mret (NULL, - FDT_ERR_BADSTRUCTURE) else
  len ← (if lenp : bool then strlen nameptr else mret 0);
  mret (nameptr, s32 len).

Definition fdt_nodename_eq_ (fdt offset s len : Z) : M bool :=
  '(p, olen) ← fdt_get_name fdt offset true;
  if (p =? NULL) || (olen <? len) then mret false else
  c ← memcmp p s (u64 len);
  if negb (c =? 0) then mret false else
  c ← rd 1 (p + len);
  if c =? 0 then mret true else
  at_ ← memchr s AT (u64 len);
  if (at_ =? NULL) && (c =? AT) then mret true else mret false.

(** ** Memory reservations *)

Definition fdt_mem_rsv_ (fdt n : Z) : M Z := off ← fdt_off_mem_rsvmap fdt; mret (fdt + off + 16 * n).

Definition fdt_mem_rsv (fdt n : Z) : M Z :=
  let offset := u32 (n * 16) in
  off ← fdt_off_mem_rsvmap fdt;
  let absoffset := u32 (off + offset) in
  if absoffset <? off then mret NULL else
  totalsize ← fdt_totalsize fdt;
  if (totalsize -l 16) <? absoffset then mret NULL else
  fdt_mem_rsv_ fdt n.

(** The error, or the reservation's address and size. *)
Definition fdt_get_mem_rsv (fdt n : Z) : M (Z + Z * Z) :=
  FDT_RO_PROBE fdt inl (
  re ← fdt_mem_rsv fdt n;
  if re =? NULL then mret (inl (- FDT_ERR_BADOFFSET)) else
  address ← fdt64_ld_ re;
  size ← fdt64_ld_ (re + 8);
  mret (inr (address, size))).

Definition fdt_num_mem_rsv (fdt : Z) : M Z :=
  while (fun i =>
    re ← fdt_mem_rsv fdt i;
    if re =? NULL then mret (inr (- FDT_ERR_TRUNCATED)) else
    size ← fdt64_ld_ (re + 8);
    if size =? 0 then mret (inr i) else mret (inl (s32 (i + 1)))) 0.

(** ** Properties *)

Definition nextprop_ (fdt offset : Z) : M Z :=
  while (fun offset =>
    '(tag, nextoffset) ← fdt_next_tag fdt offset;
    if tag =? FDT_END then
      mret (inr (if 0 <=? nextoffset then - FDT_ERR_BADSTRUCTURE else nextoffset))
    else if tag =? FDT_PROP then mret (inr offset)
    else if tag =? FDT_NOP then mret (inl nextoffset)
    else mret (inr (- FDT_ERR_NOTFOUND))) offset.

Definition fdt_first_property_offset (fdt nodeoffset : Z) : M Z :=
  offset ← fdt_check_node_offset_ fdt nodeoffset;
  if offset <? 0 then mret offset else nextprop_ fdt offset.

Definition fdt_next_property_offset (fdt offset : Z) : M Z :=
  offset ← fdt_check_prop_offset_ fdt offset;
  if offset <? 0 then mret offset else nextprop_ fdt offset.

(** [struct fdt_property { tag; len; nameoff; data[] }] *)
Definition prop_len (prop : Z) : Z := prop + 4.
Definition prop_nameoff (prop : Z) : Z := prop + 8.
Definition prop_data (prop : Z) : Z := prop + 12.

Definition fdt_get_property_by_offset_ (fdt offset : Z) : M (Z * Z) :=
  err ← fdt_check_prop_offset_ fdt offset;
  if err <? 0 then mret (NULL, err) else
  prop ← fdt_offset_ptr_ fdt offset;
  len ← fdt32_ld_ (prop_len prop);
  mret (prop, s32 len).

Definition fdt_get_property_by_offset (fdt offset : Z) : M (Z * Z) :=
  version ← fdt_version fdt;
  if version <? 0x10 then mret (NULL, - FDT_ERR_BADVERSION) else
  fdt_get_property_by_offset_ fdt offset.

(** The loop of [fdt_get_property_namelen_]: the property, its length (or an
    error) and its offset. *)
Definition find_property (fdt first name namelen : Z) : M (Z * Z * Z) :=
  while (fun offset =>
    if 0 <=? offset then
      '(prop, len) ← fdt_get_property_by_offset_ fdt offset;
      if prop =? NULL then mret (inr (NULL, - FDT_ERR_INTERNAL, 0)) else
      nameoff ← fdt32_ld_ (prop_nameoff prop);
      eq ← fdt_string_eq_ fdt (s32 nameoff) name namelen;
      if eq : bool then mret (inr (prop, len, offset)) else
      next ← fdt_next_property_offset fdt offset;
      mret (inl next)
    else mret (inr (NULL, offset, 0))) first.

Definition fdt_get_property_namelen_ (fdt offset name namelen : Z) : M (Z * Z * Z) :=
  first ← fdt_first_property_offset fdt offset;
  find_property fdt first name namelen.

Definition fdt_get_property_namelen (fdt offset name namelen : Z) : M (Z * Z) :=
  version ← fdt_version fdt;
  if version <? 0x10 then mret (NULL, - FDT_ERR_BADVERSION) else
  '(prop, len, _) ← fdt_get_property_namelen_ fdt offset name namelen;
  mret (prop, len).

Definition fdt_get_property (fdt nodeoffset name : Z) : M (Z * Z) :=
  n ← strlen name;
  fdt_get_property_namelen fdt nodeoffset name (s32 n).

(** The value of a property: before version 16 long values are aligned. *)
Definition prop_value (fdt offset prop : Z) : M Z :=
  b ← ((version ← fdt_version fdt; mret (version <? 0x10)) &&&
       mret (negb (u64 (offset + sizeof_fdt_property) mod 8 =? 0)) &&&
       (len ← fdt32_ld_ (prop_len prop); mret (8 <=? len)));
  mret (if b : bool then prop_data prop + 4 else prop_data prop).

Definition fdt_getprop_namelen (fdt nodeoffset name namelen : Z) : M (Z * Z) :=
  '(prop, len, poffset) ← fdt_get_property_namelen_ fdt nodeoffset name namelen;
  if prop =? NULL then mret (NULL, len) else
  v ← prop_value fdt poffset prop;
  mret (v, len).

(** With [namep] not null: the value, the name and the length. *)
Definition fdt_getprop_by_offset (fdt offset : Z) : M (Z * Z * Z) :=
  '(prop, len) ← fdt_get_property_by_offset_ fdt offset;
  if prop =? NULL then mret (NULL, NULL, len) else
  nameoff ← fdt32_ld_ (prop_nameoff prop);
  '(name, namelen) ← fdt_get_string fdt (s32 nameoff);
  if name =? NULL then mret (NULL, NULL, namelen) else
  v ← prop_value fdt offset prop;
  mret (v, name, len).

Definition fdt_getprop (fdt nodeoffset name : Z) : M (Z * Z) :=
  n ← strlen name;
  fdt_getprop_namelen fdt nodeoffset name (s32 n).

Definition fdt_get_phandle (fdt nodeoffset : Z) : M Z :=
  '(php, len) ← fdt_getprop fdt nodeoffset (sym_str "phandle");
  if (php =? NULL) || negb (len =? 4) then
    '(php, len) ← fdt_getprop fdt nodeoffset (sym_str "linux,phandle");
    if (php =? NULL) || negb (len =? 4) then mret 0 else fdt32_ld_ php
  else fdt32_ld_ php.

(** The error code and, when it is zero, the largest phandle. *)
Definition fdt_find_max_phandle (fdt : Z) : M (Z * Z) :=
  while (fun '(max, offset) =>
    '(offset, _) ← fdt_next_node fdt offset None;
    if offset <? 0 then
      mret (inr (if offset =? - FDT_ERR_NOTFOUND then (0, max) else (offset, 0)))
    else
      value ← fdt_get_phandle fdt offset;
      mret (inl (if max <? value then value else max, offset))) (0, -1).

Definition fdt_generate_phandle (fdt : Z) : M (Z * Z) :=
  '(err, max) ← fdt_find_max_phandle fdt;
  if err <? 0 then mret (err, 0) else
  if max =? FDT_MAX_PHANDLE then mret (- FDT_ERR_NOPHANDLES, 0) else
  mret (0, u32 (max + 1)).

(** ** Nodes by name and path *)

Definition fdt_subnode_offset_namelen (fdt offset name namelen : Z) : M Z :=
  FDT_RO_PROBE fdt id (
  while (fun '(offset, depth) =>
    if (0 <=? offset) && (0 <=? depth) then
      found ← (mret (depth =? 1) &&& fdt_nodename_eq_ fdt offset name namelen);
      if found : bool then mret (inr offset) else
      '(offset, d) ← fdt_next_node fdt offset (Some depth);
      mret (inl (offset, default 0 d))
    else mret (inr (if depth <? 0 then - FDT_ERR_NOTFOUND else offset))) (offset, 0)).

Definition fdt_subnode_offset (fdt parentoffset name : Z) : M Z :=
  n ← strlen name;
  fdt_subnode_offset_namelen fdt parentoffset name (s32 n).

(** [while ( *p == '/') { p++; if (p == end) return offset; }]: nothing when
    the path ends, else the first character of the next component. *)
Definition skip_slashes (p end_ : Z) : M (option Z) :=
  while (fun p =>
    c ← rd 1 p;
    if c =? SLASH then
      if p + 1 =? end_ then mret (inr None) else mret (inl (p + 1))
    else mret (inr (Some p))) p.

(** The components of a path below [offset]. *)
Definition walk_path (fdt p end_ offset : Z) : M Z :=
  while (fun '(p, offset) =>
    if p <? end_ then
      r ← skip_slashes p end_;
      match r with
      | None => mret (inr offset)
      | Some p =>
          q ← memchr p SLASH (end_ - p);
          let q := if q =? NULL then end_ else q in
          offset ← fdt_subnode_offset_namelen fdt offset p (s32 (q - p));
          if offset <? 0 then mret (inr offset) else mret (inl (q, offset))
      end
    else mret (inr offset)) (p, offset).

(** [fdt_get_alias_namelen], and [fdt_path_offset_namelen] with the calls of
    [fdt_path_offset] it makes one level down. *)
Definition alias_namelen_via (path_offset : Z -> M Z) (fdt name namelen : Z) : M Z :=
  aliasoffset ← path_offset (sym_str "/aliases");
  if aliasoffset <? 0 then mret NULL
  else '(p, _) ← fdt_getprop_namelen fdt aliasoffset name namelen; mret p.

Definition path_offset_via (path_offset : Z -> M Z) (fdt path namelen : Z) : M Z :=
  let end_ := path + namelen in
  FDT_RO_PROBE fdt id (
  c ← rd 1 path;
  if negb (c =? SLASH) then
    q ← memchr path SLASH (u64 (end_ - path));
    let q := if q =? NULL then end_ else q in
    p ← alias_namelen_via path_offset fdt path (s32 (q - path));
    if p =? NULL then mret (- FDT_ERR_BADPATH) else
    offset ← path_offset p;
    walk_path fdt q end_ offset
  else walk_path fdt path end_ 0).

Fixpoint fdt_path_offset (fuel : nat) (fdt path : Z) : M Z :=
  match fuel with
  | O => hang
  | S fuel' => n ← strlen path; path_offset_via (fdt_path_offset fuel' fdt) fdt path (s32 n)
  end.

Definition fdt_path_offset_namelen (fuel : nat) (fdt path namelen : Z) : M Z :=
  path_offset_via (fdt_path_offset fuel fdt) fdt path namelen.

Definition fdt_get_alias_namelen (fuel : nat) (fdt name namelen : Z) : M Z :=
  alias_namelen_via (fdt_path_offset fuel fdt) fdt name namelen.

Definition fdt_get_alias (fuel : nat) (fdt name : Z) : M Z :=
  n ← strlen name; fdt_get_alias_namelen fuel fdt name (s32 n).

(** ** Paths and ancestors of a node *)

(** [do p--; while (buf[p-1] != '/');], once for each level left. *)
Definition drop_components (buf depth pdepth p : Z) : M (Z * Z) :=
  while (fun '(pdepth, p) =>
    if depth <? pdepth then
      p ← while (fun p =>
        let p := s32 (p - 1) in
        c ← rd 1 (buf + p - 1);
        if negb (c =? SLASH) then mret (inl p) else mret (inr p)) p;
      mret (inl (pdepth - 1, p))
    else mret (inr (pdepth, p))) (pdepth, p).

Definition walk_error (offset : Z) : Z :=
  if (offset =? - FDT_ERR_NOTFOUND) || (0 <=? offset) then - FDT_ERR_BADOFFSET
  else if offset =? - FDT_ERR_BADOFFSET then - FDT_ERR_BADSTRUCTURE
  else offset.

Definition fdt_get_path (fdt nodeoffset buf buflen : Z) : M Z :=
  FDT_RO_PROBE fdt id (
  if buflen <? 2 then mret (- FDT_ERR_NOSPACE) else
  while (fun '(offset, depth, pdepth, p) =>
    if (0 <=? offset) && (offset <=? nodeoffset) then
      '(pdepth, p) ← drop_components buf depth pdepth p;
      r ← (if depth <=? pdepth then
          '(name, namelen) ← fdt_get_name fdt offset true;
          if name =? NULL then mret (inl namelen) else
          if s32 (p + namelen + 1) <=? buflen then
            memcpy (buf + p) name (u64 namelen);;
            let p := s32 (p + namelen) in
            wr 1 (buf + p) SLASH;;
            mret (inr (pdepth + 1, s32 (p + 1)))
          else mret (inr (pdepth, p))
        else mret (inr (pdepth, p)));
      match r with
      | inl err => mret (inr err)
      | inr (pdepth, p) =>
          if offset =? nodeoffset then
            if pdepth <? depth + 1 then mret (inr (- FDT_ERR_NOSPACE)) else
            let p := if 1 <? p then p - 1 else p in
            wr 1 (buf + p) 0;;
            mret (inr 0)
          else
            '(offset, d) ← fdt_next_node fdt offset (Some depth);
            mret (inl (offset, default 0 d, pdepth, p))
      end
    else mret (inr (walk_error offset))) (0, 0, 0, 0)).

(** The offset of the ancestor at [supernodedepth], and the node's depth
    where the node is found. *)
Definition fdt_supernode_atdepth_offset (fdt nodeoffset supernodedepth : Z) : M (Z * Z) :=
  FDT_RO_PROBE fdt (fun err => (err, 0)) (
  if supernodedepth <? 0 then mret (- FDT_ERR_NOTFOUND, 0) else
  while (fun '(offset, depth, supernodeoffset) =>
    if (0 <=? offset) && (offset <=? nodeoffset) then
      let supernodeoffset := if depth =? supernodedepth then offset else supernodeoffset in
      if offset =? nodeoffset then
        mret (inr (if depth <? supernodedepth then - FDT_ERR_NOTFOUND else supernodeoffset, depth))
      else
        '(offset, d) ← fdt_next_node fdt offset (Some depth);
        mret (inl (offset, default 0 d, supernodeoffset))
    else mret (inr (walk_error offset, 0))) (0, 0, - FDT_ERR_INTERNAL)).

Definition fdt_node_depth (fdt nodeoffset : Z) : M Z :=
  '(err, nodedepth) ← fdt_supernode_atdepth_offset fdt nodeoffset 0;
  mret (if negb (err =? 0) then (if err <? 0 then err else - FDT_ERR_INTERNAL) else nodedepth).

Definition fdt_parent_offset (fdt nodeoffset : Z) : M Z :=
  nodedepth ← fdt_node_depth fdt nodeoffset;
  if nodedepth <? 0 then mret nodedepth else
  '(offset, _) ← fdt_supernode_atdepth_offset fdt nodeoffset (nodedepth - 1);
  mret offset.

(** ** Searching all nodes *)

(** [for (offset = fdt_next_node(fdt, startoffset, NULL); offset >= 0; offset
    = fdt_next_node(fdt, offset, NULL))] with a body that may return. *)
Definition search_nodes (fdt startoffset : Z) (body : Z -> M (option Z)) : M Z :=
  '(first, _) ← fdt_next_node fdt startoffset None;
  while (fun offset =>
    if 0 <=? offset then
      r ← body offset;
      match r with
      | Some r => mret (inr r)
      | None => '(next, _) ← fdt_next_node fdt offset None; mret (inl next)
      end
    else mret (inr offset)) first.

Definition fdt_node_offset_by_prop_value (fdt startoffset propname propval proplen : Z) : M Z :=
  FDT_RO_PROBE fdt id (
  search_nodes fdt startoffset (fun offset =>
    '(val, len) ← fdt_getprop fdt offset propname;
    if negb (val =? NULL) && (len =? proplen) then
      c ← memcmp val propval (u64 len); mret (if c =? 0 then Some offset else None)
    else mret None)).

Definition fdt_node_offset_by_phandle (fdt phandle : Z) : M Z :=
  if (phandle =? 0) || (phandle =? 0xffffffff) then mret (- FDT_ERR_BADPHANDLE) else
  FDT_RO_PROBE fdt id (
  search_nodes fdt (-1) (fun offset =>
    p ← fdt_get_phandle fdt offset; mret (if p =? phandle then Some offset else None))).

(** ** Lists of strings *)

Definition fdt_stringlist_contains (strlist listlen str : Z) : M bool :=
  n ← strlen str;
  let len := s32 n in
  while (fun '(strlist, listlen) =>
    if len <=? listlen then
      c ← memcmp str strlist (u64 (s32 (len + 1)));
      if c =? 0 then mret (inr true) else
      p ← memchr strlist 0 (u64 listlen);
      if p =? NULL then mret (inr false) else
      mret (inl (p + 1, s32 (listlen - (p - strlist + 1))))
    else mret (inr false)) (strlist, listlen).

(** [while (list < end)] over the strings of a list: the body gets a string,
    its length with the terminator and its index. *)
Definition for_strings (list end_ : Z) (body : Z -> Z -> Z -> M (option Z)) : M (Z + Z) :=
  while (fun '(list, idx) =>
    if list <? end_ then
      n ← strnlen list (u64 (end_ - list));
      let length := s32 (n + 1) in
      if end_ <? list + length then mret (inr (inl (- FDT_ERR_BADVALUE))) else
      r ← body list length idx;
      match r with
      | Some r => mret (inr (inl r))
      | None => mret (inl (list + length, s32 (idx + 1)))
      end
    else mret (inr (inr idx))) (list, 0).

Definition fdt_stringlist_count (fdt nodeoffset property : Z) : M Z :=
  '(list, length) ← fdt_getprop fdt nodeoffset property;
  if list =? NULL then mret length else
  r ← for_strings list (list + length) (fun _ _ _ => mret None);
  mret (match r with inl err => err | inr count => count end).

Definition fdt_stringlist_search (fdt nodeoffset property string : Z) : M Z :=
  '(list, length) ← fdt_getprop fdt nodeoffset property;
  if list =? NULL then mret length else
  n ← strlen string;
  let len := s32 (n + 1) in
  r ← for_strings list (list + length) (fun list length idx =>
    if length =? len then c ← memcmp list string (u64 length); mret (if c =? 0 then Some idx else None)
    else mret None);
  mret (match r with inl r => r | inr _ => - FDT_ERR_NOTFOUND end).

(** The string with index [idx] and its length, or [NULL] and an error. *)
Definition fdt_stringlist_get (fdt nodeoffset property idx : Z) : M (Z * Z) :=
  '(list, length) ← fdt_getprop fdt nodeoffset property;
  if list =? NULL then mret (NULL, length) else
  let end_ := list + length in
  while (fun '(list, idx) =>
    if list <? end_ then
      n ← strnlen list (u64 (end_ - list));
      let length := s32 (n + 1) in
      if end_ <? list + length then mret (inr (NULL, - FDT_ERR_BADVALUE)) else
      if idx =? 0 then mret (inr (list, length - 1)) else mret (inl (list + length, s32 (idx - 1)))
    else mret (inr (NULL, - FDT_ERR_NOTFOUND))) (list, idx).

Definition fdt_node_check_compatible (fdt nodeoffset compatible : Z) : M Z :=
  '(prop, len) ← fdt_getprop fdt nodeoffset (sym_str "compatible");
  if prop =? NULL then mret len else
  b ← fdt_stringlist_contains prop len compatible;
  mret (if b : bool then 0 else 1).

Definition fdt_node_offset_by_compatible (fdt startoffset compatible : Z) : M Z :=
  FDT_RO_PROBE fdt id (
  search_nodes fdt startoffset (fun offset =>
    err ← fdt_node_check_compatible fdt offset compatible;
    mret (if (err <? 0) && negb (err =? - FDT_ERR_NOTFOUND) then Some err
          else if err =? 0 then Some offset else None))).
End fdt_ro.
