(* ===== verification/FdtRw.v ===== *)
(** * device/libfdt/fdt_wip.c, fdt_rw.c, fdt_addresses.c: changing a device tree

    The functions of fdt_wip.c change a tree in place; those of fdt_rw.c make
    room for new data or close gaps ([fdt_splice_]) and adjust the header.  A
    local variable whose address is passed on lies in the stack frame, at an
    address the caller of the definition chooses ([tmp], [data]).

    The kernel only reads its tree: it links these functions and never calls
    them. *)

From S2P Require Import Prelude Memory Machine Strings Fdt FdtRo.

Definition FDT_ERR_EXISTS : Z := 2.
Definition FDT_ERR_BADLAYOUT : Z := 12.
Definition FDT_ERR_BADNCELLS : Z := 14.
Definition FDT_MAX_NCELLS : Z := 4.
Definition UINT32_MAX : Z := 0xffffffff.

Definition FDT_ALIGN (x a : Z) : Z := (u64 x +l a -l 1) &l not64 (a - 1).
Definition sizeof_fdt_header : Z := 40.
Definition sizeof_fdt_reserve_entry : Z := 16.

(** [if ((err = c) != 0) return err; k] *)
Definition unless_err (c k : M Z) : M Z := err ← c; if negb (err =? 0) then mret err else k.

(** ** Stores in the byte order of the tree (libfdt_env.h, libfdt.h) *)

Definition cpu_to_fdt32 (x : Z) : Z := fdt32_to_cpu x.
Definition cpu_to_fdt64 (x : Z) : Z := fdt64_to_cpu x.

Definition fdt16_ld (p : Z) : M Z := b0 ← rd 1 p; b1 ← rd 1 (p + 1); mret (Z.shiftl b0 8 |l b1).

Definition fdt64_ld (p : Z) : M Z :=
  b0 ← rd 1 p; b1 ← rd 1 (p + 1); b2 ← rd 1 (p + 2); b3 ← rd 1 (p + 3);
  b4 ← rd 1 (p + 4); b5 ← rd 1 (p + 5); b6 ← rd 1 (p + 6); b7 ← rd 1 (p + 7);
  mret (Z.shiftl b0 56 |l Z.shiftl b1 48 |l Z.shiftl b2 40 |l Z.shiftl b3 32 |l
        Z.shiftl b4 24 |l Z.shiftl b5 16 |l Z.shiftl b6 8 |l b7).

Definition fdt32_st (property value : Z) : M unit :=
  wr 1 property (u8 (value >>l 24));; wr 1 (property + 1) ((value >>l 16) &l 0xff);;
  wr 1 (property + 2) ((value >>l 8) &l 0xff);; wr 1 (property + 3) (value &l 0xff).

Definition fdt64_st (property value : Z) : M unit :=
  wr 1 property (u8 (value >>l 56));; wr 1 (property + 1) ((value >>l 48) &l 0xff);;
  wr 1 (property + 2) ((value >>l 40) &l 0xff);; wr 1 (property + 3) ((value >>l 32) &l 0xff);;
  wr 1 (property + 4) ((value >>l 24) &l 0xff);; wr 1 (property + 5) ((value >>l 16) &l 0xff);;
  wr 1 (property + 6) ((value >>l 8) &l 0xff);; wr 1 (property + 7) (value &l 0xff).

(** [fdt_set_hdr_]: the field at an offset of the header; the value is a
    [uint32_t]. *)
Definition fdt_set_hdr_ (off fdt val : Z) : M unit := wr 4 (fdt + off) (cpu_to_fdt32 (u32 val)).
Definition fdt_set_magic := fdt_set_hdr_ 0.
Definition fdt_set_totalsize := fdt_set_hdr_ 4.
Definition fdt_set_off_dt_struct := fdt_set_hdr_ 8.
Definition fdt_set_off_dt_strings := fdt_set_hdr_ 12.
Definition fdt_set_off_mem_rsvmap := fdt_set_hdr_ 16.
Definition fdt_set_version := fdt_set_hdr_ 20.
Definition fdt_set_last_comp_version := fdt_set_hdr_ 24.
Definition fdt_set_boot_cpuid_phys := fdt_set_hdr_ 28.
Definition fdt_set_size_dt_strings := fdt_set_hdr_ 32.
Definition fdt_set_size_dt_struct := fdt_set_hdr_ 36.

(** ** fdt_wip.c *)

Definition fdt_setprop_inplace_namelen_partial (fdt nodeoffset name namelen idx val len : Z) : M Z :=
  '(propval, proplen) ← fdt_getprop_namelen fdt nodeoffset name namelen;
  if propval =? NULL then mret proplen else
  if u32 proplen <? u32 (len + idx) then mret (- FDT_ERR_NOSPACE) else
  memcpy (propval + idx) val (u64 len);;
  mret 0.

Definition fdt_setprop_inplace (fdt nodeoffset name val len : Z) : M Z :=
  '(propval, proplen) ← fdt_getprop fdt nodeoffset name;
  if propval =? NULL then mret proplen else
  if negb (proplen =? len) then mret (- FDT_ERR_NOSPACE) else
  n ← strlen name;
  fdt_setprop_inplace_namelen_partial fdt nodeoffset name (s32 n) 0 val len.

Definition fdt_nop_region_ (start len : Z) : M unit :=
  while (fun p => if p <? start + len then wr 4 p (cpu_to_fdt32 FDT_NOP);; mret (inl (p + 4)) else mret (inr tt)) start.

Definition fdt_nop_property (fdt nodeoffset name : Z) : M Z :=
  '(prop, len) ← fdt_get_property fdt nodeoffset name;
  if prop =? NULL then mret len else
  fdt_nop_region_ prop (s32 (len + sizeof_fdt_property));;
  mret 0.

Definition fdt_node_end_offset_ (fdt offset : Z) : M Z :=
  while (fun '(offset, depth) =>
    if (0 <=? offset) && (0 <=? depth) then
      '(offset, d) ← fdt_next_node fdt offset (Some depth);
      mret (inl (offset, default 0 d))
    else mret (inr offset)) (offset, 0).

Definition fdt_nop_node (fdt nodeoffset : Z) : M Z :=
  endoffset ← fdt_node_end_offset_ fdt nodeoffset;
  if endoffset <? 0 then mret endoffset else
  start ← fdt_offset_ptr fdt nodeoffset 0;
  fdt_nop_region_ start (s32 (endoffset - nodeoffset));;
  mret 0.

(** libfdt.h *)
Definition fdt_setprop_inplace_u32 (tmp fdt nodeoffset name val : Z) : M Z :=
  wr 4 tmp (cpu_to_fdt32 val);; fdt_setprop_inplace fdt nodeoffset name tmp 4.
Definition fdt_setprop_inplace_u64 (tmp fdt nodeoffset name val : Z) : M Z :=
  wr 8 tmp (cpu_to_fdt64 val);; fdt_setprop_inplace fdt nodeoffset name tmp 8.
Definition fdt_setprop_inplace_cell := fdt_setprop_inplace_u32.

(** ** fdt_rw.c: layout and splicing *)

Definition fdt_blocks_misordered_ (fdt mem_rsv_size struct_size : Z) : M bool :=
  (rsv ← fdt_off_mem_rsvmap fdt; mret (rsv <? FDT_ALIGN sizeof_fdt_header 8)) |||
  (off ← fdt_off_dt_struct fdt; rsv ← fdt_off_mem_rsvmap fdt; mret (off <? u32 (rsv + mem_rsv_size))) |||
  (str ← fdt_off_dt_strings fdt; off ← fdt_off_dt_struct fdt; mret (str <? u32 (off + struct_size))) |||
  (total ← fdt_totalsize fdt; str ← fdt_off_dt_strings fdt; size ← fdt_size_dt_strings fdt; mret (total <? u32 (str + size))).

Definition fdt_rw_probe_ (fdt : Z) : M Z :=
  FDT_RO_PROBE fdt id (
  version ← fdt_version fdt;
  if version <? 17 then mret (- FDT_ERR_BADVERSION) else
  size ← fdt_size_dt_struct fdt;
  bad ← fdt_blocks_misordered_ fdt sizeof_fdt_reserve_entry (s32 size);
  if bad : bool then mret (- FDT_ERR_BADLAYOUT) else
  version ← fdt_version fdt;
  when (17 <? version) (fdt_set_version fdt 17);;
  mret 0).

Definition FDT_RW_PROBE (fdt : Z) (k : M Z) : M Z := unless_err (fdt_rw_probe_ fdt) k.

Definition fdt_data_size_ (fdt : Z) : M Z :=
  off ← fdt_off_dt_strings fdt; size ← fdt_size_dt_strings fdt; mret (u32 (off + size)).

Definition fdt_splice_ (fdt splicepoint oldlen newlen : Z) : M Z :=
  let p := splicepoint in
  dsize ← fdt_data_size_ fdt;
  let soff := u64 (p - fdt) in
  if (oldlen <? 0) || (u64 (soff + oldlen) <? soff) || (dsize <? u64 (soff + oldlen)) then mret (- FDT_ERR_BADOFFSET) else
  if (p <? fdt) || (u32 (dsize + newlen) <? u32 oldlen) then mret (- FDT_ERR_BADOFFSET) else
  total ← fdt_totalsize fdt;
  if total <? u32 (dsize - oldlen + newlen) then mret (- FDT_ERR_NOSPACE) else
  memmove (p + newlen) (p + oldlen) (u64 (fdt + dsize - (p + oldlen)));;
  mret 0.

Definition fdt_splice_mem_rsv_ (fdt p oldn newn : Z) : M Z :=
  let delta := s32 ((newn - oldn) * sizeof_fdt_reserve_entry) in
  unless_err (fdt_splice_ fdt p (s32 (oldn * sizeof_fdt_reserve_entry)) (s32 (newn * sizeof_fdt_reserve_entry))) (
  off ← fdt_off_dt_struct fdt; fdt_set_off_dt_struct fdt (off + delta);;
  off ← fdt_off_dt_strings fdt; fdt_set_off_dt_strings fdt (off + delta);;
  mret 0).

Definition fdt_splice_struct_ (fdt p oldlen newlen : Z) : M Z :=
  let delta := s32 (newlen - oldlen) in
  unless_err (fdt_splice_ fdt p oldlen newlen) (
  size ← fdt_size_dt_struct fdt; fdt_set_size_dt_struct fdt (size + delta);;
  off ← fdt_off_dt_strings fdt; fdt_set_off_dt_strings fdt (off + delta);;
  mret 0).

Definition fdt_del_last_string_ (fdt s : Z) : M unit :=
  n ← strlen s;
  size ← fdt_size_dt_strings fdt;
  fdt_set_size_dt_strings fdt (size - s32 (n + 1)).

Definition fdt_splice_string_ (fdt newlen : Z) : M Z :=
  off ← fdt_off_dt_strings fdt; size ← fdt_size_dt_strings fdt;
  unless_err (fdt_splice_ fdt (fdt + off + size) 0 newlen) (
  size ← fdt_size_dt_strings fdt; fdt_set_size_dt_strings fdt (size + newlen);;
  mret 0).

(** The string's offset, or an error, and [*allocated]. *)
Definition fdt_find_add_string_ (fdt s : Z) : M (Z * bool) :=
  off ← fdt_off_dt_strings fdt;
  let strtab := fdt + off in
  n ← strlen s;
  let len := s32 (n + 1) in
  size ← fdt_size_dt_strings fdt;
  p ← fdt_find_string_ strtab (s32 size) s;
  if negb (p =? NULL) then mret (s32 (p - strtab), false) else
  size ← fdt_size_dt_strings fdt;
  let new := strtab + size in
  err ← fdt_splice_string_ fdt len;
  if negb (err =? 0) then mret (err, false) else
  memcpy new s (u64 len);;
  mret (s32 (new - strtab), true).

(** ** fdt_rw.c: memory reservations *)

Definition fdt_add_mem_rsv (fdt address size : Z) : M Z :=
  FDT_RW_PROBE fdt (
  n ← fdt_num_mem_rsv fdt;
  re ← fdt_mem_rsv_ fdt n;
  unless_err (fdt_splice_mem_rsv_ fdt re 0 1) (
  wr 8 re (cpu_to_fdt64 address);;
  wr 8 (re + 8) (cpu_to_fdt64 size);;
  mret 0)).

Definition fdt_del_mem_rsv (fdt n : Z) : M Z :=
  re ← fdt_mem_rsv_ fdt n;
  FDT_RW_PROBE fdt (
  num ← fdt_num_mem_rsv fdt;
  if num <=? n then mret (- FDT_ERR_NOTFOUND) else
  fdt_splice_mem_rsv_ fdt re 1 0).

(** ** fdt_rw.c: properties *)

Section fdt_rw.
Context {L : KernelLayout}.

(** libfdt.h *)
Definition fdt_get_max_phandle (fdt : Z) : M Z :=
  '(err, phandle) ← fdt_find_max_phandle fdt;
  mret (if err <? 0 then u32 (-1) else phandle).

(** The error and [*prop]. *)
Definition fdt_resize_property_ (fdt nodeoffset name len : Z) : M (Z * Z) :=
  '(prop, oldlen) ← fdt_get_property fdt nodeoffset name;
  if prop =? NULL then mret (oldlen, prop) else
  err ← fdt_splice_struct_ fdt (prop_data prop) (s32 (FDT_TAGALIGN oldlen)) (s32 (FDT_TAGALIGN len));
  if negb (err =? 0) then mret (err, prop) else
  wr 4 (prop_len prop) (cpu_to_fdt32 (u32 len));;
  mret (0, prop).

Definition fdt_add_property_ (fdt nodeoffset name len : Z) : M (Z * Z) :=
  nextoffset ← fdt_check_node_offset_ fdt nodeoffset;
  if nextoffset <? 0 then mret (nextoffset, NULL) else
  '(namestroff, allocated) ← fdt_find_add_string_ fdt name;
  if namestroff <? 0 then mret (namestroff, NULL) else
  prop ← fdt_offset_ptr_ fdt nextoffset;
  let proplen := s32 (sizeof_fdt_property + FDT_TAGALIGN len) in
  err ← fdt_splice_struct_ fdt prop 0 proplen;
  if negb (err =? 0) then
    when allocated (fdt_del_last_string_ fdt name);;
    mret (err, prop)
  else
  wr 4 prop (cpu_to_fdt32 FDT_PROP);;
  wr 4 (prop_nameoff prop) (cpu_to_fdt32 (u32 namestroff));;
  wr 4 (prop_len prop) (cpu_to_fdt32 (u32 len));;
  mret (0, prop).

Definition fdt_set_name (fdt nodeoffset name : Z) : M Z :=
  FDT_RW_PROBE fdt (
  '(namep, oldlen) ← fdt_get_name fdt nodeoffset true;
  if namep =? NULL then mret oldlen else
  n ← strlen name;
  let newlen := s32 n in
  unless_err (fdt_splice_struct_ fdt namep (s32 (FDT_TAGALIGN (oldlen + 1))) (s32 (FDT_TAGALIGN (newlen + 1)))) (
  memcpy namep name (u64 (newlen + 1));;
  mret 0)).

(** The error and [*prop_data]. *)
Definition fdt_setprop_placeholder (fdt nodeoffset name len : Z) : M (Z * Z) :=
  err ← fdt_rw_probe_ fdt;
  if negb (err =? 0) then mret (err, NULL) else
  '(err, prop) ← fdt_resize_property_ fdt nodeoffset name len;
  '(err, prop) ← (if err =? - FDT_ERR_NOTFOUND then fdt_add_property_ fdt nodeoffset name len else mret (err, prop));
  if negb (err =? 0) then mret (err, NULL) else
  mret (0, prop_data prop).

Definition fdt_setprop (fdt nodeoffset name val len : Z) : M Z :=
  '(err, prop_data) ← fdt_setprop_placeholder fdt nodeoffset name len;
  if negb (err =? 0) then mret err else
  when (negb (len =? 0)) (memcpy prop_data val (u64 len);; mret tt);;
  mret 0.

Definition fdt_appendprop (fdt nodeoffset name val len : Z) : M Z :=
  FDT_RW_PROBE fdt (
  '(prop, oldlen) ← fdt_get_property fdt nodeoffset name;
  if negb (prop =? NULL) then
    let newlen := s32 (len + oldlen) in
    unless_err (fdt_splice_struct_ fdt (prop_data prop) (s32 (FDT_TAGALIGN oldlen)) (s32 (FDT_TAGALIGN newlen))) (
    wr 4 (prop_len prop) (cpu_to_fdt32 (u32 newlen));;
    memcpy (prop_data prop + oldlen) val (u64 len);;
    mret 0)
  else
    '(err, prop) ← fdt_add_property_ fdt nodeoffset name len;
    if negb (err =? 0) then mret err else
    memcpy (prop_data prop) val (u64 len);;
    mret 0).

Definition fdt_delprop (fdt nodeoffset name : Z) : M Z :=
  FDT_RW_PROBE fdt (
  '(prop, len) ← fdt_get_property fdt nodeoffset name;
  if prop =? NULL then mret len else
  fdt_splice_struct_ fdt prop (s32 (sizeof_fdt_property + FDT_TAGALIGN len)) 0).

(** libfdt.h *)
Definition fdt_setprop_u32 (tmp fdt nodeoffset name val : Z) : M Z :=
  wr 4 tmp (cpu_to_fdt32 val);; fdt_setprop fdt nodeoffset name tmp 4.
Definition fdt_setprop_u64 (tmp fdt nodeoffset name val : Z) : M Z :=
  wr 8 tmp (cpu_to_fdt64 val);; fdt_setprop fdt nodeoffset name tmp 8.
Definition fdt_setprop_cell := fdt_setprop_u32.
Definition fdt_setprop_string (fdt nodeoffset name str : Z) : M Z :=
  n ← strlen str; fdt_setprop fdt nodeoffset name str (s32 (n + 1)).
Definition fdt_setprop_empty (fdt nodeoffset name : Z) : M Z := fdt_setprop fdt nodeoffset name NULL 0.
Definition fdt_appendprop_u32 (tmp fdt nodeoffset name val : Z) : M Z :=
  wr 4 tmp (cpu_to_fdt32 val);; fdt_appendprop fdt nodeoffset name tmp 4.
Definition fdt_appendprop_u64 (tmp fdt nodeoffset name val : Z) : M Z :=
  wr 8 tmp (cpu_to_fdt64 val);; fdt_appendprop fdt nodeoffset name tmp 8.
Definition fdt_appendprop_cell := fdt_appendprop_u32.
Definition fdt_appendprop_string (fdt nodeoffset name str : Z) : M Z :=
  n ← strlen str; fdt_appendprop fdt nodeoffset name str (s32 (n + 1)).

(** ** fdt_rw.c: nodes *)

(** [do { offset = nextoffset; tag = fdt_next_tag(fdt, offset, &nextoffset);
    } while ((tag == FDT_PROP) || (tag == FDT_NOP))] *)
Definition after_properties (fdt nextoffset : Z) : M Z :=
  while (fun offset =>
    '(tag, nextoffset) ← fdt_next_tag fdt offset;
    if (tag =? FDT_PROP) || (tag =? FDT_NOP) then mret (inl nextoffset) else mret (inr offset)) nextoffset.

Definition fdt_add_subnode_namelen (fdt parentoffset name namelen : Z) : M Z :=
  FDT_RW_PROBE fdt (
  offset ← fdt_subnode_offset_namelen fdt parentoffset name namelen;
  if 0 <=? offset then mret (- FDT_ERR_EXISTS)
  else if negb (offset =? - FDT_ERR_NOTFOUND) then mret offset else
  '(tag, nextoffset) ← fdt_next_tag fdt parentoffset;
  if negb (tag =? FDT_BEGIN_NODE) then mret (- FDT_ERR_INTERNAL) else
  offset ← after_properties fdt nextoffset;
  nh ← fdt_offset_ptr_ fdt offset;
  let nodelen := s32 (4 + FDT_TAGALIGN (s32 (namelen + 1)) + FDT_TAGSIZE) in
  unless_err (fdt_splice_struct_ fdt nh 0 nodelen) (
  wr 4 nh (cpu_to_fdt32 FDT_BEGIN_NODE);;
  memset (nh + 4) 0 (FDT_TAGALIGN (s32 (namelen + 1)));;
  memcpy (nh + 4) name (u64 namelen);;
  wr 4 (nh + nodelen - FDT_TAGSIZE) (cpu_to_fdt32 FDT_END_NODE);;
  mret offset)).

Definition fdt_add_subnode (fdt parentoffset name : Z) : M Z :=
  n ← strlen name; fdt_add_subnode_namelen fdt parentoffset name (s32 n).

Definition fdt_del_node (fdt nodeoffset : Z) : M Z :=
  FDT_RW_PROBE fdt (
  endoffset ← fdt_node_end_offset_ fdt nodeoffset;
  if endoffset <? 0 then mret endoffset else
  p ← fdt_offset_ptr_ fdt nodeoffset;
  fdt_splice_struct_ fdt p (s32 (endoffset - nodeoffset)) 0).

(** ** fdt_rw.c: whole trees *)

Definition fdt_packblocks_ (old new mem_rsv_size struct_size strings_size : Z) : M unit :=
  let mem_rsv_off := s32 (FDT_ALIGN sizeof_fdt_header 8) in
  let struct_off := s32 (mem_rsv_off + mem_rsv_size) in
  let strings_off := s32 (struct_off + struct_size) in
  off ← fdt_off_mem_rsvmap old;
  memmove (new + mem_rsv_off) (old + off) (u64 mem_rsv_size);;
  fdt_set_off_mem_rsvmap new mem_rsv_off;;
  off ← fdt_off_dt_struct old;
  memmove (new + struct_off) (old + off) (u64 struct_size);;
  fdt_set_off_dt_struct new struct_off;;
  fdt_set_size_dt_struct new struct_size;;
  off ← fdt_off_dt_strings old;
  memmove (new + strings_off) (old + off) (u64 strings_size);;
  fdt_set_off_dt_strings new strings_off;;
  size ← fdt_size_dt_strings old;
  fdt_set_size_dt_strings new size.

(** The size of the structure block of a version 16 tree, which its header
    does not give: [while (fdt_next_tag(fdt, struct_size, &struct_size) !=
    FDT_END);]. *)
Definition measure_struct (fdt : Z) : M Z :=
  while (fun struct_size =>
    '(tag, struct_size) ← fdt_next_tag fdt struct_size;
    if negb (tag =? FDT_END) then mret (inl struct_size) else mret (inr struct_size)) 0.

Definition fdt_open_into (fdt buf bufsize : Z) : M Z :=
  totalsize ← fdt_totalsize fdt;
  let fdtend := fdt + totalsize in
  FDT_RO_PROBE fdt id (
  num ← fdt_num_mem_rsv fdt;
  let mem_rsv_size := s32 (s32 (num + 1) * sizeof_fdt_reserve_entry) in
  version ← fdt_version fdt;
  struct_size ← (if 17 <=? version then size ← fdt_size_dt_struct fdt; mret (inr (s32 size))
    else
      version ← fdt_version fdt;
      if version =? 16 then
        size ← measure_struct fdt; mret (if size <? 0 then inl size else inr size)
      else mret (inl (- FDT_ERR_BADVERSION)));
  match struct_size with
  | inl err => mret err
  | inr struct_size =>
      misordered ← fdt_blocks_misordered_ fdt mem_rsv_size struct_size;
      if negb misordered then
        unless_err (fdt_move fdt buf bufsize) (
        fdt_set_version buf 17;;
        fdt_set_size_dt_struct buf struct_size;;
        fdt_set_totalsize buf bufsize;;
        mret 0)
      else
      size ← fdt_size_dt_strings fdt;
      let newsize := s32 (FDT_ALIGN sizeof_fdt_header 8 + mem_rsv_size + struct_size + size) in
      if bufsize <? newsize then mret (- FDT_ERR_NOSPACE) else
      let overlaps := (fdt <? buf + newsize) && (buf <? fdtend) in
      if overlaps && (buf + bufsize <? fdtend + newsize) then mret (- FDT_ERR_NOSPACE) else
      let tmp := if overlaps then fdtend else buf in
      size ← fdt_size_dt_strings fdt;
      fdt_packblocks_ fdt tmp mem_rsv_size struct_size (s32 size);;
      memmove buf tmp (u64 newsize);;
      fdt_set_magic buf FDT_MAGIC;;
      fdt_set_totalsize buf bufsize;;
      fdt_set_version buf 17;;
      fdt_set_last_comp_version buf 16;;
      cpuid ← fdt_boot_cpuid_phys fdt;
      fdt_set_boot_cpuid_phys buf cpuid;;
      mret 0
  end).

Definition fdt_pack (fdt : Z) : M Z :=
  FDT_RW_PROBE fdt (
  num ← fdt_num_mem_rsv fdt;
  let mem_rsv_size := s32 (s32 (num + 1) * sizeof_fdt_reserve_entry) in
  struct_size ← fdt_size_dt_struct fdt;
  strings_size ← fdt_size_dt_strings fdt;
  fdt_packblocks_ fdt fdt mem_rsv_size (s32 struct_size) (s32 strings_size);;
  size ← fdt_data_size_ fdt;
  fdt_set_totalsize fdt size;;
  mret 0).

(** ** fdt_addresses.c *)

Definition fdt_cells (fdt nodeoffset name : Z) : M Z :=
  '(c, len) ← fdt_getprop fdt nodeoffset name;
  if c =? NULL then mret len else
  if negb (len =? 4) then mret (- FDT_ERR_BADNCELLS) else
  val ← fdt32_ld_ c;
  if FDT_MAX_NCELLS <? val then mret (- FDT_ERR_BADNCELLS) else
  mret (s32 val).

Definition fdt_address_cells (fdt nodeoffset : Z) : M Z :=
  val ← fdt_cells fdt nodeoffset (sym_str "#address-cells");
  mret (if val =? 0 then - FDT_ERR_BADNCELLS else if val =? - FDT_ERR_NOTFOUND then 2 else val).

Definition fdt_size_cells (fdt nodeoffset : Z) : M Z :=
  val ← fdt_cells fdt nodeoffset (sym_str "#size-cells");
  mret (if val =? - FDT_ERR_NOTFOUND then 1 else val).

(** A value of one or two cells at [prop], [fits] saying whether one cell can
    hold it: the error code. *)
Definition store_cells (prop cells v : Z) (fits : bool) : M Z :=
  if cells =? 1 then
    if negb fits then mret (- FDT_ERR_BADVALUE) else fdt32_st prop (u32 v);; mret 0
  else if cells =? 2 then fdt64_st prop v;; mret 0
  else mret (- FDT_ERR_BADNCELLS).

Definition fdt_appendprop_addrrange (data fdt parent nodeoffset name addr size : Z) : M Z :=
  addr_cells ← fdt_address_cells fdt parent;
  if addr_cells <? 0 then mret addr_cells else
  size_cells ← fdt_size_cells fdt parent;
  if size_cells <? 0 then mret size_cells else
  unless_err (store_cells data addr_cells addr
    (negb ((UINT32_MAX <? addr) || ((UINT32_MAX +l 1 -l addr) <? size)))) (
  unless_err (store_cells (data + addr_cells * 4) size_cells size (negb (UINT32_MAX <? size))) (
  fdt_appendprop fdt nodeoffset name data (s32 ((addr_cells + size_cells) * 4)))).
End fdt_rw.
