(* ===== verification/FdtSw.v ===== *)
(** * device/libfdt/fdt_sw.c, fdt_empty_tree.c, fdt_check.c, fdt_strerror.c

    fdt_sw.c writes a new tree from front to back: the memory reservations,
    then the structure block, with the strings growing down from the end of
    the buffer; [fdt_finish] moves the strings behind the structure block.
    While it is being written, the tree's header carries [FDT_SW_MAGIC], and
    [fdt_last_comp_version] holds the creation flags.  An out-parameter is
    returned beside the result. *)

From S2P Require Import Prelude Memory Machine Strings Fdt FdtRo FdtRw.

Definition FDT_ERR_BADFLAGS : Z := 18.
Definition FDT_LAST_COMPATIBLE_VERSION : Z := 0x10.
Definition FDT_CREATE_FLAG_NO_NAME_DEDUP : Z := 0x1.
Definition FDT_CREATE_FLAGS_ALL : Z := FDT_CREATE_FLAG_NO_NAME_DEDUP.

(** ** States *)

Definition fdt_sw_probe_ (fdt : Z) : M Z :=
  magic ← fdt_magic fdt;
  if magic =? FDT_MAGIC then mret (- FDT_ERR_BADSTATE) else
  magic ← fdt_magic fdt;
  if negb (magic =? FDT_SW_MAGIC) then mret (- FDT_ERR_BADMAGIC) else mret 0.

Definition fdt_sw_probe_memrsv_ (fdt : Z) : M Z :=
  unless_err (fdt_sw_probe_ fdt) (
  off ← fdt_off_dt_strings fdt;
  if negb (off =? 0) then mret (- FDT_ERR_BADSTATE) else mret 0).

Definition fdt_sw_probe_struct_ (fdt : Z) : M Z :=
  unless_err (fdt_sw_probe_ fdt) (
  off ← fdt_off_dt_strings fdt; total ← fdt_totalsize fdt;
  if negb (off =? total) then mret (- FDT_ERR_BADSTATE) else mret 0).

Definition sw_flags (fdt : Z) : M Z := fdt_last_comp_version fdt.

Definition fdt_grab_space_ (fdt len : Z) : M Z :=
  offset ← fdt_size_dt_struct fdt;
  total ← fdt_totalsize fdt; off ← fdt_off_dt_struct fdt; size ← fdt_size_dt_strings fdt;
  let spaceleft := u32 (total - off - size) in
  if ((offset +l len) <? offset) || (spaceleft <? (offset +l len)) then mret NULL else
  fdt_set_size_dt_struct fdt (offset +l len);;
  fdt_offset_ptr_ fdt (s32 offset).

(** ** Creation and memory reservations *)

Definition fdt_create_with_flags (buf bufsize flags : Z) : M Z :=
  let hdrsize := s32 (FDT_ALIGN sizeof_fdt_header sizeof_fdt_reserve_entry) in
  let fdt := buf in
  if bufsize <? hdrsize then mret (- FDT_ERR_NOSPACE) else
  if negb (flags &l u32 (Z.lnot FDT_CREATE_FLAGS_ALL) =? 0) then mret (- FDT_ERR_BADFLAGS) else
  memset buf 0 (u64 bufsize);;
  fdt_set_magic fdt FDT_SW_MAGIC;;
  fdt_set_version fdt FDT_LAST_SUPPORTED_VERSION;;
  fdt_set_last_comp_version fdt flags;;
  fdt_set_totalsize fdt bufsize;;
  fdt_set_off_mem_rsvmap fdt hdrsize;;
  off ← fdt_off_mem_rsvmap fdt;
  fdt_set_off_dt_struct fdt off;;
  fdt_set_off_dt_strings fdt 0;;
  mret 0.

Definition fdt_create (buf bufsize : Z) : M Z := fdt_create_with_flags buf bufsize 0.

Definition fdt_resize (fdt buf bufsize : Z) : M Z :=
  unless_err (fdt_sw_probe_ fdt) (
  if bufsize <? 0 then mret (- FDT_ERR_NOSPACE) else
  off ← fdt_off_dt_struct fdt; size ← fdt_size_dt_struct fdt;
  let headsize := u32 (off + size) in
  tailsize ← fdt_size_dt_strings fdt;
  total ← fdt_totalsize fdt;
  if total <? (headsize +l tailsize) then mret (- FDT_ERR_INTERNAL) else
  if u32 bufsize <? (headsize +l tailsize) then mret (- FDT_ERR_NOSPACE) else
  total ← fdt_totalsize fdt;
  let oldtail := fdt + total - tailsize in
  let newtail := buf + bufsize - tailsize in
  (if buf <=? fdt then memmove buf fdt headsize;; memmove newtail oldtail tailsize
   else memmove newtail oldtail tailsize;; memmove buf fdt headsize);;
  fdt_set_totalsize buf bufsize;;
  off ← fdt_off_dt_strings buf;
  when (negb (off =? 0)) (fdt_set_off_dt_strings buf bufsize);;
  mret 0).

Definition fdt_add_reservemap_entry (fdt addr size : Z) : M Z :=
  unless_err (fdt_sw_probe_memrsv_ fdt) (
  off ← fdt_off_dt_struct fdt;
  let offset := s32 off in
  total ← fdt_totalsize fdt;
  if total <? (u64 offset +l sizeof_fdt_reserve_entry) then mret (- FDT_ERR_NOSPACE) else
  let re := fdt + offset in
  wr 8 re (cpu_to_fdt64 addr);;
  wr 8 (re + 8) (cpu_to_fdt64 size);;
  fdt_set_off_dt_struct fdt (offset + sizeof_fdt_reserve_entry);;
  mret 0).

Definition fdt_finish_reservemap (fdt : Z) : M Z :=
  unless_err (fdt_add_reservemap_entry fdt 0 0) (
  total ← fdt_totalsize fdt;
  fdt_set_off_dt_strings fdt total;;
  mret 0).

(** ** Nodes *)

Definition fdt_begin_node (fdt name : Z) : M Z :=
  unless_err (fdt_sw_probe_struct_ fdt) (
  n ← strlen name;
  let namelen := s32 (n + 1) in
  nh ← fdt_grab_space_ fdt (4 +l FDT_TAGALIGN namelen);
  if nh =? NULL then mret (- FDT_ERR_NOSPACE) else
  wr 4 nh (cpu_to_fdt32 FDT_BEGIN_NODE);;
  memcpy (nh + 4) name (u64 namelen);;
  mret 0).

Definition fdt_end_node (fdt : Z) : M Z :=
  unless_err (fdt_sw_probe_struct_ fdt) (
  en ← fdt_grab_space_ fdt FDT_TAGSIZE;
  if en =? NULL then mret (- FDT_ERR_NOSPACE) else
  wr 4 en (cpu_to_fdt32 FDT_END_NODE);;
  mret 0).

(** ** Properties *)

Definition fdt_add_string_ (fdt s : Z) : M Z :=
  total ← fdt_totalsize fdt;
  let strtab := fdt + total in
  strtabsize ← fdt_size_dt_strings fdt;
  n ← strlen s;
  let len := u32 (n + 1) in
  let offset := u32 (strtabsize + len) in
  off ← fdt_off_dt_struct fdt; size ← fdt_size_dt_struct fdt;
  let struct_top := u32 (off + size) in
  total ← fdt_totalsize fdt;
  if u32 (total - offset) <? struct_top then mret 0 else
  memcpy (strtab - offset) s len;;
  fdt_set_size_dt_strings fdt (strtabsize + len);;
  mret (s32 (- offset)).

Definition fdt_del_last_string_ (fdt s : Z) : M unit :=
  strtabsize ← fdt_size_dt_strings fdt;
  n ← strlen s;
  let len := s32 (n + 1) in
  fdt_set_size_dt_strings fdt (s32 strtabsize - len).

(** The string's offset and [*allocated]. *)
Definition fdt_find_add_string_ (fdt s : Z) : M (Z * bool) :=
  total ← fdt_totalsize fdt;
  let strtab := fdt + total in
  size ← fdt_size_dt_strings fdt;
  let strtabsize := s32 size in
  p ← fdt_find_string_ (strtab - strtabsize) strtabsize s;
  if negb (p =? NULL) then mret (s32 (p - strtab), false) else
  nameoff ← fdt_add_string_ fdt s;
  mret (nameoff, true).

(** The error and [*valp]. *)
Definition fdt_property_placeholder (fdt name len : Z) : M (Z * Z) :=
  err ← fdt_sw_probe_struct_ fdt;
  if negb (err =? 0) then mret (err, NULL) else
  flags ← sw_flags fdt;
  '(nameoff, allocated) ← (if negb (flags &l FDT_CREATE_FLAG_NO_NAME_DEDUP =? 0)
     then nameoff ← fdt_add_string_ fdt name; mret (nameoff, true)
     else fdt_find_add_string_ fdt name);
  if nameoff =? 0 then mret (- FDT_ERR_NOSPACE, NULL) else
  prop ← fdt_grab_space_ fdt (sizeof_fdt_property +l FDT_TAGALIGN len);
  if prop =? NULL then
    when allocated (fdt_del_last_string_ fdt name);;
    mret (- FDT_ERR_NOSPACE, NULL)
  else
  wr 4 prop (cpu_to_fdt32 FDT_PROP);;
  wr 4 (prop_nameoff prop) (cpu_to_fdt32 (u32 nameoff));;
  wr 4 (prop_len prop) (cpu_to_fdt32 (u32 len));;
  mret (0, prop_data prop).

Definition fdt_property (fdt name val len : Z) : M Z :=
  '(ret, ptr) ← fdt_property_placeholder fdt name len;
  if negb (ret =? 0) then mret ret else
  memcpy ptr val (u64 len);;
  mret 0.

(** libfdt.h *)
Definition fdt_property_u32 (tmp fdt name val : Z) : M Z := wr 4 tmp (cpu_to_fdt32 val);; fdt_property fdt name tmp 4.
Definition fdt_property_u64 (tmp fdt name val : Z) : M Z := wr 8 tmp (cpu_to_fdt64 val);; fdt_property fdt name tmp 8.
Definition fdt_property_cell := fdt_property_u32.
Definition fdt_property_string (fdt name str : Z) : M Z := n ← strlen str; fdt_property fdt name str (s32 (n + 1)).

(** ** The end *)

(** "Walk the structure, correcting string offsets": the offset the last
    token left in [nextoffset]. *)
Definition fix_nameoffs (fdt : Z) : M Z :=
  while (fun offset =>
    '(tag, nextoffset) ← fdt_next_tag fdt offset;
    if negb (tag =? FDT_END) then
      (if tag =? FDT_PROP then
        prop ← fdt_offset_ptr_ fdt offset;
        nameoff ← rd 4 (prop_nameoff prop);
        size ← fdt_size_dt_strings fdt;
        wr 4 (prop_nameoff prop) (cpu_to_fdt32 (u32 (fdt32_to_cpu nameoff + size)))
      else mret tt);;
      mret (inl nextoffset)
    else mret (inr nextoffset)) 0.

Definition fdt_finish (fdt : Z) : M Z :=
  let p := fdt in
  unless_err (fdt_sw_probe_struct_ fdt) (
  end_ ← fdt_grab_space_ fdt 4;
  if end_ =? NULL then mret (- FDT_ERR_NOSPACE) else
  wr 4 end_ (cpu_to_fdt32 FDT_END);;
  total ← fdt_totalsize fdt; strsize ← fdt_size_dt_strings fdt;
  let oldstroffset := s32 (total - strsize) in
  off ← fdt_off_dt_struct fdt; size ← fdt_size_dt_struct fdt;
  let newstroffset := s32 (off + size) in
  strsize ← fdt_size_dt_strings fdt;
  memmove (p + newstroffset) (p + oldstroffset) strsize;;
  fdt_set_off_dt_strings fdt newstroffset;;
  nextoffset ← fix_nameoffs fdt;
  if nextoffset <? 0 then mret nextoffset else
  strsize ← fdt_size_dt_strings fdt;
  fdt_set_totalsize fdt (newstroffset + strsize);;
  fdt_set_last_comp_version fdt FDT_LAST_COMPATIBLE_VERSION;;
  fdt_set_magic fdt FDT_MAGIC;;
  mret 0).

(** ** fdt_empty_tree.c *)

Definition fdt_create_empty_tree {L : KernelLayout} (buf bufsize : Z) : M Z :=
  unless_err (fdt_create buf bufsize) (
  unless_err (fdt_finish_reservemap buf) (
  unless_err (fdt_begin_node buf (sym_str EmptyString)) (
  unless_err (fdt_end_node buf) (
  unless_err (fdt_finish buf) (
  fdt_open_into buf buf bufsize))))).

(** ** fdt_check.c

    The loop over the tokens keeps the next offset, the depth and whether the
    root node has ended. *)

Definition check_tokens (fdt : Z) : M Z :=
  while (fun '(offset, depth, expect_end) =>
    '(tag, nextoffset) ← fdt_next_tag fdt offset;
    if nextoffset <? 0 then mret (inr nextoffset) else
    if (expect_end : bool) && negb (tag =? FDT_END) then mret (inr (- FDT_ERR_BADSTRUCTURE)) else
    if tag =? FDT_NOP then mret (inl (nextoffset, depth, expect_end))
    else if tag =? FDT_END then mret (inr (if negb (depth =? 0) then - FDT_ERR_BADSTRUCTURE else 0))
    else if tag =? FDT_BEGIN_NODE then
      let depth := u32 (depth + 1) in
      if INT_MAX <? depth then mret (inr (- FDT_ERR_BADSTRUCTURE)) else
      if depth =? 1 then
        '(name, len) ← fdt_get_name fdt offset true;
        if name =? NULL then mret (inr len) else
        bad ← ((c ← rd 1 name; mret (negb (c =? 0))) ||| mret (negb (len =? 0)));
        if bad : bool then mret (inr (- FDT_ERR_BADSTRUCTURE)) else mret (inl (nextoffset, depth, expect_end))
      else mret (inl (nextoffset, depth, expect_end))
    else if tag =? FDT_END_NODE then
      if depth =? 0 then mret (inr (- FDT_ERR_BADSTRUCTURE)) else
      let depth := depth - 1 in
      mret (inl (nextoffset, depth, if depth =? 0 then true else expect_end))
    else if tag =? FDT_PROP then
      '(prop, _, err) ← fdt_getprop_by_offset fdt offset;
      if prop =? NULL then mret (inr err) else mret (inl (nextoffset, depth, expect_end))
    else mret (inr (- FDT_ERR_INTERNAL))) (0, 0, false).

Definition fdt_check_full (fdt bufsize : Z) : M Z :=
  if bufsize <? FDT_V1_SIZE then mret (- FDT_ERR_TRUNCATED) else
  hdrsize ← fdt_header_size fdt;
  if bufsize <? hdrsize then mret (- FDT_ERR_TRUNCATED) else
  unless_err (fdt_check_header fdt) (
  totalsize ← fdt_totalsize fdt;
  if bufsize <? totalsize then mret (- FDT_ERR_TRUNCATED) else
  num_memrsv ← fdt_num_mem_rsv fdt;
  if num_memrsv <? 0 then mret num_memrsv else
  check_tokens fdt).

(** ** fdt_strerror.c *)

Definition fdt_errtable : list (option string) :=
  [None; Some "FDT_ERR_NOTFOUND"; Some "FDT_ERR_EXISTS"; Some "FDT_ERR_NOSPACE"; Some "FDT_ERR_BADOFFSET";
   Some "FDT_ERR_BADPATH"; Some "FDT_ERR_BADPHANDLE"; Some "FDT_ERR_BADSTATE"; Some "FDT_ERR_TRUNCATED";
   Some "FDT_ERR_BADMAGIC"; Some "FDT_ERR_BADVERSION"; Some "FDT_ERR_BADSTRUCTURE"; Some "FDT_ERR_BADLAYOUT";
   Some "FDT_ERR_INTERNAL"; Some "FDT_ERR_BADNCELLS"; Some "FDT_ERR_BADVALUE"; Some "FDT_ERR_BADOVERLAY";
   Some "FDT_ERR_NOPHANDLES"; Some "FDT_ERR_BADFLAGS"; Some "FDT_ERR_ALIGNMENT"]%string.

(** [-errval] overflows for the least [int]; every other value is looked up
    as the code does. *)
Definition fdt_strerror (errval : Z) : string :=
  if 0 <? errval then "<valid offset/length>"%string
  else if errval =? 0 then "<no error>"%string
  else match (if (- errval) <? Z.of_nat (length fdt_errtable) then fdt_errtable !! Z.to_nat (- errval) else None) with
       | Some (Some s) => s
       | _ => "<unknown error>"%string
       end.
