(* ===== verification/FdtOverlay.v ===== *)
(** * device/libfdt/fdt_overlay.c: merging one device tree into another

    An overlay [fdto] is a tree whose fragments name nodes of a base tree
    [fdt].  Applying it renumbers its phandles above those of the base,
    resolves its references to the base, copies its nodes into the base and
    adds its symbols.

    The local variables whose address is passed on lie at [tmp], and
    [endptr] of [overlay_fixup_phandle] at [endp].  The recursive
    functions, whose depth is that of the overlay's nodes, take the levels the
    stack has room for as [depth], which also bounds the chains of aliases. *)

From S2P Require Import Prelude Memory Machine Strings Fdt FdtRo FdtRw.

Definition FDT_ERR_BADOVERLAY : Z := 16.
Definition COLON : Z := 58.

(** [fdt_for_each_property_offset], [fdt_for_each_subnode]: a body that
    returns leaves the loop with its value. *)
Definition for_each (first : M Z) (next : Z -> M Z) (body : Z -> M (option Z)) : M (option Z) :=
  offset ← first;
  while (fun offset =>
    if 0 <=? offset then
      r ← body offset;
      match r with
      | Some r => mret (inr (Some r))
      | None => offset ← next offset; mret (inl offset)
      end
    else mret (inr None)) offset.
Definition fdt_for_each_property_offset (fdt node : Z) := for_each (fdt_first_property_offset fdt node) (fdt_next_property_offset fdt).
Definition fdt_for_each_subnode (fdt parent : Z) := for_each (fdt_first_subnode fdt parent) (fdt_next_subnode fdt).

(** [ret = c; if (ret) return ret;] as the end of a loop body. *)
Definition stop_on_error (c : M Z) : M (option Z) := ret ← c; mret (if negb (ret =? 0) then Some ret else None).

Section fdt_overlay.
Context {L : KernelLayout}.
Variables (depth : nat) (tmp endp : Z).

(** ** Fragments *)

Definition overlay_get_target_phandle (fdto fragment : Z) : M Z :=
  '(val, len) ← fdt_getprop fdto fragment (sym_str "target");
  if val =? NULL then mret 0 else
  bad ← (mret (negb (len =? 4)) ||| (v ← fdt32_ld_ val; mret (v =? u32 (-1))));
  if bad : bool then mret (u32 (-1)) else fdt32_ld_ val.

(** The target's offset or an error; in the first case also what is stored in
    [*pathp]. *)
Definition fdt_overlay_target_offset (fdt fdto fragment_offset : Z) : M (Z * Z) :=
  phandle ← overlay_get_target_phandle fdto fragment_offset;
  if phandle =? u32 (-1) then mret (- FDT_ERR_BADPHANDLE, NULL) else
  '(ret, path, path_len) ← (if phandle =? 0 then
      '(path, path_len) ← fdt_getprop fdto fragment_offset (sym_str "target-path");
      if negb (path =? NULL) then ret ← fdt_path_offset depth fdt path; mret (ret, path, path_len)
      else mret (path_len, path, path_len)
    else ret ← fdt_node_offset_by_phandle fdt phandle; mret (ret, NULL, 0));
  let ret := if (ret <? 0) && (path_len =? - FDT_ERR_NOTFOUND) then - FDT_ERR_BADOVERLAY else ret in
  mret (ret, path).

(** ** Renumbering the overlay's phandles *)

Definition overlay_phandle_add_offset (fdt node name delta : Z) : M Z :=
  '(val, len) ← fdt_getprop fdt node name;
  if val =? NULL then mret len else
  if negb (len =? 4) then mret (- FDT_ERR_BADPHANDLE) else
  adj_val ← fdt32_ld_ val;
  if u32 (adj_val + delta) <? adj_val then mret (- FDT_ERR_NOPHANDLES) else
  let adj_val := u32 (adj_val + delta) in
  if adj_val =? u32 (-1) then mret (- FDT_ERR_NOPHANDLES) else
  fdt_setprop_inplace_u32 tmp fdt node name adj_val.

Fixpoint overlay_adjust_node_phandles (depth : nat) (fdto node delta : Z) : M Z :=
  match depth with
  | O => hang
  | S depth =>
      ret ← overlay_phandle_add_offset fdto node (sym_str "phandle") delta;
      if negb (ret =? 0) && negb (ret =? - FDT_ERR_NOTFOUND) then mret ret else
      ret ← overlay_phandle_add_offset fdto node (sym_str "linux,phandle") delta;
      if negb (ret =? 0) && negb (ret =? - FDT_ERR_NOTFOUND) then mret ret else
      r ← fdt_for_each_subnode fdto node (fun child =>
        stop_on_error (overlay_adjust_node_phandles depth fdto child delta));
      mret (default 0 r)
  end.

Definition overlay_adjust_local_phandles (fdto delta : Z) : M Z := overlay_adjust_node_phandles depth fdto 0 delta.

(** The references that one property of the fixup node lists. *)
Definition update_references (fdto tree_node fixup_val fixup_len tree_val name delta : Z) : M (option Z) :=
  while (fun i =>
    if i <? fixup_len then
      poffset ← fdt32_ld_ (fixup_val + 4 * i);
      memcpy tmp (tree_val + poffset) 4;;
      adj_val ← fdt32_ld_ tmp;
      wr 4 tmp (cpu_to_fdt32 (u32 (adj_val + delta)));;
      n ← strlen name;
      ret ← fdt_setprop_inplace_namelen_partial fdto tree_node name (s32 n) poffset tmp 4;
      if ret =? - FDT_ERR_NOSPACE then mret (inr (Some (- FDT_ERR_BADOVERLAY)))
      else if negb (ret =? 0) then mret (inr (Some ret)) else mret (inl (i + 1))
    else mret (inr None)) 0.

Fixpoint overlay_update_local_node_references (depth : nat) (fdto tree_node fixup_node delta : Z) : M Z :=
  match depth with
  | O => hang
  | S depth =>
      r ← fdt_for_each_property_offset fdto fixup_node (fun fixup_prop =>
        '(fixup_val, name, fixup_len) ← fdt_getprop_by_offset fdto fixup_prop;
        if fixup_val =? NULL then mret (Some fixup_len) else
        if negb (u64 fixup_len mod 4 =? 0) then mret (Some (- FDT_ERR_BADOVERLAY)) else
        let fixup_len := s32 (u64 fixup_len / 4) in
        '(tree_val, tree_len) ← fdt_getprop fdto tree_node name;
        if tree_val =? NULL then
          mret (Some (if tree_len =? - FDT_ERR_NOTFOUND then - FDT_ERR_BADOVERLAY else tree_len))
        else update_references fdto tree_node fixup_val fixup_len tree_val name delta);
      match r with
      | Some err => mret err
      | None =>
          r ← fdt_for_each_subnode fdto fixup_node (fun fixup_child =>
            '(fixup_child_name, _) ← fdt_get_name fdto fixup_child false;
            tree_child ← fdt_subnode_offset fdto tree_node fixup_child_name;
            if tree_child =? - FDT_ERR_NOTFOUND then mret (Some (- FDT_ERR_BADOVERLAY))
            else if tree_child <? 0 then mret (Some tree_child) else
            stop_on_error (overlay_update_local_node_references depth fdto tree_child fixup_child delta));
          mret (default 0 r)
      end
  end.

Definition overlay_update_local_references (fdto delta : Z) : M Z :=
  fixups ← fdt_path_offset depth fdto (sym_str "/__local_fixups__");
  if fixups <? 0 then mret (if fixups =? - FDT_ERR_NOTFOUND then 0 else fixups)
  else overlay_update_local_node_references depth fdto 0 fixups delta.

(** ** References to the base tree *)

Definition overlay_fixup_one_phandle (fdt fdto symbols_off path path_len name name_len poffset label : Z) : M Z :=
  if symbols_off <? 0 then mret symbols_off else
  '(symbol_path, prop_len) ← fdt_getprop fdt symbols_off label;
  if symbol_path =? NULL then mret prop_len else
  symbol_off ← fdt_path_offset depth fdt symbol_path;
  if symbol_off <? 0 then mret symbol_off else
  phandle ← fdt_get_phandle fdt symbol_off;
  if phandle =? 0 then mret (- FDT_ERR_NOTFOUND) else
  fixup_off ← fdt_path_offset_namelen depth fdto path (s32 path_len);
  if fixup_off =? - FDT_ERR_NOTFOUND then mret (- FDT_ERR_BADOVERLAY)
  else if fixup_off <? 0 then mret fixup_off else
  wr 4 tmp (cpu_to_fdt32 phandle);;
  fdt_setprop_inplace_namelen_partial fdto fixup_off name (s32 name_len) (u32 poffset) tmp 4.

(** One string "path:name:offset" of [len] bytes at most: an error, or the
    length of the string and the result of resolving it. *)
Definition fixup_string (fdt fdto symbols_off label fixup_str len : Z) : M (Z + Z * Z) :=
  fixup_end ← memchr fixup_str 0 (u64 len);
  if fixup_end =? NULL then mret (inl (- FDT_ERR_BADOVERLAY)) else
  let whole_len := u32 (fixup_end - fixup_str) in
  let path := fixup_str in
  sep ← memchr fixup_str COLON whole_len;
  bad ← (mret (sep =? NULL) ||| (c ← rd 1 sep; mret (negb (c =? COLON))));
  if bad : bool then mret (inl (- FDT_ERR_BADOVERLAY)) else
  let path_len := u32 (sep - path) in
  if path_len =? u32 (whole_len - 1) then mret (inl (- FDT_ERR_BADOVERLAY)) else
  let fixup_len := u32 (whole_len - (path_len + 1)) in
  let name := sep + 1 in
  sep ← memchr name COLON fixup_len;
  bad ← (mret (sep =? NULL) ||| (c ← rd 1 sep; mret (negb (c =? COLON))));
  if bad : bool then mret (inl (- FDT_ERR_BADOVERLAY)) else
  let name_len := u32 (sep - name) in
  if name_len =? 0 then mret (inl (- FDT_ERR_BADOVERLAY)) else
  poffset ← strtoul (sep + 1) endp 10;
  endptr ← rd 8 endp;
  c ← rd 1 endptr;
  if negb (c =? 0) || (endptr <=? sep + 1) then mret (inl (- FDT_ERR_BADOVERLAY)) else
  ret ← overlay_fixup_one_phandle fdt fdto symbols_off path path_len name name_len (s32 poffset) label;
  mret (inr (whole_len, ret)).

Definition overlay_fixup_phandle (fdt fdto symbols_off property : Z) : M Z :=
  '(value, label, len) ← fdt_getprop_by_offset fdto property;
  if value =? NULL then mret (if len =? - FDT_ERR_NOTFOUND then - FDT_ERR_INTERNAL else len) else
  while (fun '(value, len) =>
    r ← fixup_string fdt fdto symbols_off label value len;
    match r with
    | inl err => mret (inr err)
    | inr (fixup_len, ret) =>
        if negb (ret =? 0) then mret (inr ret) else
        let len := s32 (len - (fixup_len + 1)) in
        if 0 <? len then mret (inl (value + u32 (fixup_len + 1), len)) else mret (inr 0)
    end) (value, len).

Definition overlay_fixup_phandles (fdt fdto : Z) : M Z :=
  fixups_off ← fdt_path_offset depth fdto (sym_str "/__fixups__");
  if fixups_off =? - FDT_ERR_NOTFOUND then mret 0
  else if fixups_off <? 0 then mret fixups_off else
  symbols_off ← fdt_path_offset depth fdt (sym_str "/__symbols__");
  if (symbols_off <? 0) && negb (symbols_off =? - FDT_ERR_NOTFOUND) then mret symbols_off else
  r ← fdt_for_each_property_offset fdto fixups_off (fun property =>
    stop_on_error (overlay_fixup_phandle fdt fdto symbols_off property));
  mret (default 0 r).

(** ** Merging *)

Fixpoint overlay_apply_node (depth : nat) (fdt target fdto node : Z) : M Z :=
  match depth with
  | O => hang
  | S depth =>
      r ← fdt_for_each_property_offset fdto node (fun property =>
        '(prop, name, prop_len) ← fdt_getprop_by_offset fdto property;
        if prop_len =? - FDT_ERR_NOTFOUND then mret (Some (- FDT_ERR_INTERNAL))
        else if prop_len <? 0 then mret (Some prop_len) else
        stop_on_error (fdt_setprop fdt target name prop prop_len));
      match r with
      | Some err => mret err
      | None =>
          r ← fdt_for_each_subnode fdto node (fun subnode =>
            '(name, _) ← fdt_get_name fdto subnode false;
            nnode ← fdt_add_subnode fdt target name;
            nnode ← (if nnode =? - FDT_ERR_EXISTS then
                nnode ← fdt_subnode_offset fdt target name;
                mret (if nnode =? - FDT_ERR_NOTFOUND then - FDT_ERR_INTERNAL else nnode)
              else mret nnode);
            if nnode <? 0 then mret (Some nnode) else
            stop_on_error (overlay_apply_node depth fdt nnode fdto subnode));
          mret (default 0 r)
      end
  end.

Definition overlay_merge (fdt fdto : Z) : M Z :=
  r ← fdt_for_each_subnode fdto 0 (fun fragment =>
    overlay ← fdt_subnode_offset fdto fragment (sym_str "__overlay__");
    if overlay =? - FDT_ERR_NOTFOUND then mret None
    else if overlay <? 0 then mret (Some overlay) else
    '(target, _) ← fdt_overlay_target_offset fdt fdto fragment;
    if target <? 0 then mret (Some target) else
    stop_on_error (overlay_apply_node depth fdt target fdto overlay));
  mret (default 0 r).

(** ** Symbols *)

Definition get_path_len (fdt nodeoffset : Z) : M Z :=
  FDT_RO_PROBE fdt id (
  while (fun '(nodeoffset, len) =>
    '(name, namelen) ← fdt_get_name fdt nodeoffset true;
    if name =? NULL then mret (inr namelen)
    else if namelen =? 0 then mret (inr (if len =? 0 then 1 else len)) else
    nodeoffset ← fdt_parent_offset fdt nodeoffset;
    if nodeoffset <? 0 then mret (inr nodeoffset) else mret (inl (nodeoffset, s32 (len + namelen + 1)))) (nodeoffset, 0)).

(** What follows "/<fragment>/__overlay__" from [s] to the end [e] of the
    symbol's path, if that is what it is: the relative path and its length. *)
Definition relative_path (s e : Z) : M (option (Z * Z)) :=
  b ← (mret (13 <? e - s) &&& (c ← memcmp s (sym_str "/__overlay__/") 13; mret (c =? 0)));
  if b : bool then mret (Some (s + 13, s32 (e - (s + 13) - 1))) else
  b ← (mret (e - s =? 13) &&& (c ← memcmp s (sym_str "/__overlay__") 12; mret (c =? 0)));
  if b : bool then mret (Some (sym_str EmptyString, 0)) else mret None.

(** The symbol [name] of the target's path followed by [rel_path]. *)
Definition add_symbol (fdt fdto root_sym name fragment rel_path rel_path_len : Z) : M (option Z) :=
  '(target, target_path) ← fdt_overlay_target_offset fdt fdto fragment;
  if target <? 0 then mret (Some target) else
  len ← (if target_path =? NULL then get_path_len fdt target else n ← strlen target_path; mret (s32 n));
  if (target_path =? NULL) && (len <? 0) then mret (Some len) else
  '(ret, p) ← fdt_setprop_placeholder fdt root_sym name (s32 (len + (if 1 <? len then 1 else 0) + rel_path_len + 1));
  if ret <? 0 then mret (Some ret) else
  '(ret, target_path) ← (if target_path =? NULL then fdt_overlay_target_offset fdt fdto fragment else mret (target, target_path));
  if ret <? 0 then mret (Some ret) else
  let target := ret in
  let buf := p in
  ret ← (if 1 <? len then
      if target_path =? NULL then fdt_get_path fdt target buf (s32 (len + 1))
      else memcpy buf target_path (u64 (len + 1));; mret 0
    else mret 0);
  if ret <? 0 then mret (Some ret) else
  let len := if 1 <? len then len else len - 1 in
  wr 1 (buf + len) SLASH;;
  memcpy (buf + len + 1) rel_path (u64 rel_path_len);;
  wr 1 (buf + len + 1 + rel_path_len) 0;;
  mret None.

Definition overlay_symbol (fdt fdto root_sym prop : Z) : M (option Z) :=
  '(path, name, path_len) ← fdt_getprop_by_offset fdto prop;
  if path =? NULL then mret (Some path_len) else
  bad ← (mret (path_len <? 1) ||| (z ← memchr path 0 (u64 path_len); mret (negb (z =? path + path_len - 1))));
  if bad : bool then mret (Some (- FDT_ERR_BADVALUE)) else
  let e := path + path_len in
  c ← rd 1 path;
  if negb (c =? SLASH) then mret (Some (- FDT_ERR_BADVALUE)) else
  s ← strchr (path + 1) SLASH;
  if s =? NULL then mret None else
  let frag_name := path + 1 in
  let frag_name_len := s32 (s - path - 1) in
  rel ← relative_path s e;
  match rel with
  | None => mret None
  | Some (rel_path, rel_path_len) =>
      fragment ← fdt_subnode_offset_namelen fdto 0 frag_name frag_name_len;
      if fragment <? 0 then mret (Some (- FDT_ERR_BADOVERLAY)) else
      ret ← fdt_subnode_offset fdto fragment (sym_str "__overlay__");
      if ret <? 0 then mret (Some (- FDT_ERR_BADOVERLAY)) else
      add_symbol fdt fdto root_sym name fragment rel_path rel_path_len
  end.

Definition overlay_symbol_update (fdt fdto : Z) : M Z :=
  ov_sym ← fdt_subnode_offset fdto 0 (sym_str "__symbols__");
  if ov_sym <? 0 then mret 0 else
  root_sym ← fdt_subnode_offset fdt 0 (sym_str "__symbols__");
  root_sym ← (if root_sym =? - FDT_ERR_NOTFOUND then fdt_add_subnode fdt 0 (sym_str "__symbols__") else mret root_sym);
  if root_sym <? 0 then mret root_sym else
  r ← fdt_for_each_property_offset fdto ov_sym (overlay_symbol fdt fdto root_sym);
  mret (default 0 r).

(** ** All steps *)

Definition apply_steps (fdt fdto : Z) : M Z :=
  '(ret, delta) ← fdt_find_max_phandle fdt;
  if negb (ret =? 0) then mret ret else
  unless_err (overlay_adjust_local_phandles fdto delta) (
  unless_err (overlay_update_local_references fdto delta) (
  unless_err (overlay_fixup_phandles fdt fdto) (
  unless_err (overlay_merge fdt fdto) (
  overlay_symbol_update fdt fdto)))).

Definition fdt_overlay_apply (fdt fdto : Z) : M Z :=
  FDT_RO_PROBE fdt id (FDT_RO_PROBE fdto id (
  ret ← apply_steps fdt fdto;
  if ret =? 0 then
    fdt_set_magic fdto (u32 (Z.lnot 0));; mret 0
  else
    fdt_set_magic fdto (u32 (Z.lnot 0));;
    fdt_set_magic fdt (u32 (Z.lnot 0));;
    mret ret)).
End fdt_overlay.
