(* ===== verification/FdtProofs.v ===== *)
(** * Walking an untrusted device tree

    [header_ok]: what [fdt_check_header] has checked when it returns zero.
    From it alone follows that the token reader and the walks over it
    terminate, read only inside the blob, and return offsets of tokens that
    lie inside it. *)

From S2P Require Import Prelude Memory Machine Strings ReadOnly Fdt.

(** ** Big-endian words *)

Definition be32 (m : memory) (p : Z) : Z :=
  ldb m p * 2 ^ 24 + ldb m (p + 1) * 2 ^ 16 + ldb m (p + 2) * 2 ^ 8 + ldb m (p + 3).

Lemma be32_bound m p : 0 <= be32 m p < 2 ^ 32.
Proof. unfold be32. pose proof (ldb_bound m p). pose proof (ldb_bound m (p + 1)). pose proof (ldb_bound m (p + 2)). pose proof (ldb_bound m (p + 3)). lia. Qed.
#[export] Hint Resolve be32_bound : kmem.

Lemma be_word b0 b1 b2 b3 : 0 <= b0 < 256 -> 0 <= b1 < 256 -> 0 <= b2 < 256 -> 0 <= b3 < 256 ->
  Z.shiftl b0 24 |l Z.shiftl b1 16 |l Z.shiftl b2 8 |l b3 = b0 * 2 ^ 24 + b1 * 2 ^ 16 + b2 * 2 ^ 8 + b3.
Proof.
  intros. rewrite !Z.shiftl_mul_pow2 by lia.
  rewrite (lor_add_disjoint (b0 * 2 ^ 24) (b1 * 2 ^ 16) 24) by zdm.
  rewrite (lor_add_disjoint _ (b2 * 2 ^ 8) 16) by zdm. by rewrite (lor_add_disjoint _ b3 8) by zdm.
Qed.

Lemma fdt32_to_cpu_be m p : fdt32_to_cpu (ld 4 m p) = be32 m p.
Proof.
  unfold fdt32_to_cpu. rewrite !byte_of_ld by lia. rewrite Z.add_0_r.
  rewrite be_word by apply ldb_bound. done.
Qed.

Lemma fdt32_ld_eq p s : PAGE_SIZE <= p -> fdt32_ld p s = Ok (be32 (mem s) p) s.
Proof.
  intros Hp. enough (wp (fdt32_ld p) (fun x s' => x = be32 (mem s) p /\ s' = s) s) as (x & s' & -> & -> & ->)%wp_iff by done.
  unfold fdt32_ld. wp_steps. rewrite !ld_1, be_word by apply ldb_bound. done.
Qed.

Lemma ro_fdt32_ld P s p (Q : Z -> Prop) : reads P p 4 -> Q (be32 (mem s) p) -> ro P (fdt32_ld p) Q s.
Proof.
  intros HR HQ. pose proof HR as [Hp _]. unfold fdt32_ld.
  destruct (reads_byte P p 4 0 HR ltac:(lia)) as [_ H0]. rewrite Z.add_0_r in H0.
  apply ro_bind, ro_rd; [done..|]. apply ro_bind, ro_rd; [by apply (reads_byte P p 4 1 HR)..|].
  apply ro_bind, ro_rd; [by apply (reads_byte P p 4 2 HR)..|]. apply ro_bind, ro_rd; [by apply (reads_byte P p 4 3 HR)..|].
  apply ro_ret. rewrite !ld_1, be_word by apply ldb_bound. done.
Qed.

Lemma ro_fdt32_ld_ P s p (Q : Z -> Prop) : reads P p 4 -> Q (be32 (mem s) p) -> ro P (fdt32_ld_ p) Q s.
Proof. intros [Hp HR] HQ. unfold fdt32_ld_. apply ro_bind, ro_rd; [done..|]. apply ro_ret. by rewrite fdt32_to_cpu_be. Qed.

Lemma bind_eq {A B} (c : M A) (f : A -> M B) a s s1 : c s = Ok a s1 -> (c ≫= f) s = f a s1.
Proof. intros H. unfold mbind, M_bind. by rewrite H. Qed.

Lemma ro_orm P s (c d : M bool) (Q : bool -> Prop) :
  ro P c (fun b => if b : bool then Q true else ro P d Q s) s -> ro P (c ||| d) Q s.
Proof. intros H. unfold orm. apply ro_bind. eapply ro_mono; [done|]. intros [|]; [apply ro_ret|done]. Qed.

Lemma ro_andm P s (c d : M bool) (Q : bool -> Prop) :
  ro P c (fun b => if b : bool then ro P d Q s else Q false) s -> ro P (c &&& d) Q s.
Proof. intros H. unfold andm. apply ro_bind. eapply ro_mono; [done|]. intros [|]; [done|apply ro_ret]. Qed.

(** ** Signed and unsigned words *)

Lemma s32_high z : 2 ^ 31 <= z < 2 ^ 32 + 2 ^ 31 -> s32 z = z - 2 ^ 32.
Proof.
  intros. unfold s32, swrap. zdm.
Qed.

Lemma s32_add a b : s32 (s32 a + b) = s32 (a + b).
Proof. unfold s32, swrap. zdm. Qed.

Lemma u32_s32_sub x a : 0 <= a -> 0 <= x - a < 2 ^ 32 -> x < 2 ^ 32 + 2 ^ 31 -> u32 (s32 x - a) = x - a.
Proof.
  intros Ha Hx Hb. destruct (Z.lt_ge_cases x (2 ^ 31)); [rewrite s32_small by lia; by apply u32_small|].
  rewrite s32_high by lia. unfold u32. zdm.
Qed.

Lemma u32_add a b : 0 <= a < 2 ^ 32 -> 0 <= b < 2 ^ 32 ->
  u32 (a + b) = a + b /\ a + b < 2 ^ 32 \/ u32 (a + b) = a + b - 2 ^ 32 /\ 2 ^ 32 <= a + b.
Proof.
  intros. destruct (Z.lt_ge_cases (a + b) (2 ^ 32)); [left; by rewrite u32_small by lia|right].
  split; [|done]. unfold u32. zdm.
Qed.

Lemma FDT_TAGALIGN_spec x : 0 <= x < 2 ^ 32 -> FDT_TAGALIGN x = x + (- x) mod 4.
Proof.
  intros. unfold FDT_TAGALIGN, FDT_TAGSIZE. rewrite (u64_small x) by lia. rewrite add64_small, sub64_small by lia.
  change (4 - 1) with (2 ^ 2 - 1). rewrite land_not_mask by lia. zdm.
Qed.

(** ** The header *)

Section blob.
Variable fdt : Z.
Variable s : kst.

Abbreviation be := (be32 (mem s)).
Definition total : Z := be32 (mem s) (fdt + 4).
Definition off_struct : Z := be32 (mem s) (fdt + 8).
Definition off_strings : Z := be32 (mem s) (fdt + 12).
Definition version : Z := be32 (mem s) (fdt + 20).
Definition size_strings : Z := be32 (mem s) (fdt + 32).
Definition size_struct : Z := be32 (mem s) (fdt + 36).

Record header_ok : Prop := {
  hd_addr : PAGE_SIZE <= fdt;
  hd_align : fdt &l 7 = 0;
  hd_magic : be fdt = FDT_MAGIC;
  hd_version : 2 <= version;
  hd_last : be (fdt + 24) <= 17;
  hd_total : fdt_header_size_ version <= total <= INT_MAX;
  hd_struct : fdt_header_size_ version <= off_struct <= total;
  hd_strings : fdt_header_size_ version <= off_strings /\ off_strings + size_strings <= total;
}.

Definition in_blob (a : Z) : Prop := in_range fdt total a.

Lemma check_off_spec h t o : check_off_ h t o = true -> h <= o <= t.
Proof. unfold check_off_. rewrite andb_true_iff, !Z.leb_le. done. Qed.

Lemma check_block_spec h t b n : 0 <= b < 2 ^ 32 -> 0 <= n < 2 ^ 32 -> check_block_ h t b n = true -> h <= b <= t /\ b + n <= t.
Proof.
  intros Hb Hn. unfold check_block_. destruct (check_off_ h t b) eqn:E1; [|done]. simpl.
  destruct (Z.ltb_spec (u32 (b + n)) b); [done|]. destruct (check_off_ h t (u32 (b + n))) eqn:E2; [|done]. simpl. intros _.
  apply check_off_spec in E1, E2. destruct (u32_add b n Hb Hn); lia.
Qed.

Lemma check_header_ok : PAGE_SIZE <= fdt -> fdt_check_header fdt s = Ok 0 s -> header_ok.
Proof.
  intros Ha H. unfold fdt_check_header in H.
  assert (Hrd : forall k, 0 <= k -> fdt32_ld (fdt + k) s = Ok (be (fdt + k)) s) by (intros k Hk; apply fdt32_ld_eq; lia).
  destruct (Z.eqb_spec (fdt &l 7) 0) as [A|]; [|done]. cbn [negb] in H.
  erewrite bind_eq in H by (apply fdt32_ld_eq; done). destruct (Z.eqb_spec (be fdt) FDT_MAGIC) as [B|]; [|done]. cbn [negb] in H.
  do 2 erewrite bind_eq in H by (apply Hrd; lia). fold version in H.
  destruct (Z.ltb_spec version FDT_FIRST_SUPPORTED_VERSION) as [|C]; [done|].
  destruct (Z.ltb_spec FDT_LAST_SUPPORTED_VERSION (be (fdt + 24))) as [|D]; [done|]. cbn [orb] in H.
  destruct (Z.ltb_spec version (be (fdt + 24))) as [|_]; [done|].
  erewrite bind_eq in H by (unfold fdt_header_size; erewrite bind_eq by (apply Hrd; lia); reflexivity). fold version in H.
  erewrite bind_eq in H by (apply Hrd; lia). fold total in H.
  destruct (Z.ltb_spec total (fdt_header_size_ version)) as [|E]; [done|]. destruct (Z.ltb_spec INT_MAX total) as [|F]; [done|]. cbn [orb] in H.
  erewrite bind_eq in H by (apply Hrd; lia).
  destruct (check_off_ _ _ (be (fdt + 16))); [|done]. cbn [negb] in H.
  erewrite bind_eq in H by (apply Hrd; lia). fold off_struct in H.
  assert (G : exists b, (b = true -> fdt_header_size_ version <= off_struct <= total) /\
    (if version <? 17 then mret (check_off_ (fdt_header_size_ version) total off_struct)
     else size ← fdt_size_dt_struct fdt; mret (check_block_ (fdt_header_size_ version) total off_struct size)) s = Ok b s).
  { destruct (Z.ltb_spec version 17).
    - eexists. split; [|reflexivity]. apply check_off_spec.
    - eexists. split; [|erewrite bind_eq by (apply Hrd; lia); reflexivity]. intros K.
      exact (proj1 (check_block_spec _ _ _ _ (be32_bound _ _) (be32_bound _ _) K)). }
  destruct G as (b & G & Eb). erewrite bind_eq in H by apply Eb. destruct b; [|done]. cbn [negb] in H.
  do 2 erewrite bind_eq in H by (apply Hrd; lia). fold off_strings size_strings in H.
  destruct (check_block_ _ _ off_strings size_strings) eqn:K; [|done]. apply (check_block_spec _ _ _ _ (be32_bound _ _) (be32_bound _ _)) in K.
  specialize (G eq_refl). unfold FDT_FIRST_SUPPORTED_VERSION, FDT_LAST_SUPPORTED_VERSION in *.
  constructor; try done; unfold off_strings, size_strings; lia.
Qed.

(** ** Reading inside the blob *)

Hypothesis Hh : header_ok.
Variable P : Z -> Prop.
Hypothesis HP : forall a, in_blob a -> P a.

Lemma header_size : 32 <= fdt_header_size_ version /\ (17 <= version -> fdt_header_size_ version = 40).
Proof.
  pose proof (hd_version Hh). unfold fdt_header_size_, FDT_V17_SIZE, FDT_V16_SIZE, FDT_V3_SIZE, FDT_V2_SIZE, FDT_V1_SIZE. zcases; lia.
Qed.

Lemma reads_blob off n : 0 <= off -> off + n <= total -> reads P (fdt + off) n.
Proof.
  intros Ho Hn. pose proof (hd_addr Hh). split; [lia|]. intros b Hb. apply HP. unfold in_blob, in_range in *. lia.
Qed.

Lemma ro_header off (Q : Z -> Prop) :
  0 <= off -> off + 4 <= 32 -> Q (be (fdt + off)) -> ro P (fdt32_ld (fdt + off)) Q s.
Proof.
  intros Ho Hn HQ. apply ro_fdt32_ld; [|done]. pose proof (hd_total Hh). pose proof header_size. apply reads_blob; lia.
Qed.

Lemma ro_magic (Q : Z -> Prop) : Q FDT_MAGIC -> ro P (fdt_magic fdt) Q s.
Proof. intros HQ. unfold fdt_magic. replace fdt with (fdt + 0) by lia. apply ro_header; [lia..|]. by rewrite Z.add_0_r, (hd_magic Hh). Qed.
Lemma ro_totalsize (Q : Z -> Prop) : Q total -> ro P (fdt_totalsize fdt) Q s.
Proof. intros HQ. by apply ro_header. Qed.
Lemma ro_off_struct (Q : Z -> Prop) : Q off_struct -> ro P (fdt_off_dt_struct fdt) Q s.
Proof. intros HQ. by apply ro_header. Qed.
Lemma ro_off_strings (Q : Z -> Prop) : Q off_strings -> ro P (fdt_off_dt_strings fdt) Q s.
Proof. intros HQ. by apply ro_header. Qed.
Lemma ro_version (Q : Z -> Prop) : Q version -> ro P (fdt_version fdt) Q s.
Proof. intros HQ. by apply ro_header. Qed.
Lemma ro_size_strings (Q : Z -> Prop) : 17 <= version -> Q size_strings -> ro P (fdt_size_dt_strings fdt) Q s.
Proof.
  intros Hv HQ. apply ro_fdt32_ld; [|done]. pose proof (hd_total Hh). pose proof header_size. apply reads_blob; lia.
Qed.
Lemma ro_size_struct (Q : Z -> Prop) : 17 <= version -> Q size_struct -> ro P (fdt_size_dt_struct fdt) Q s.
Proof.
  intros Hv HQ. apply ro_fdt32_ld; [|done]. pose proof (hd_total Hh). pose proof header_size. apply reads_blob; lia.
Qed.

Lemma total_bound : 32 <= total < 2 ^ 31.
Proof. pose proof (hd_total Hh). pose proof header_size. unfold INT_MAX in *. lia. Qed.
Lemma struct_bound : 32 <= off_struct <= total.
Proof. pose proof (hd_struct Hh). pose proof header_size. lia. Qed.

(** The address of offset [off] of the structure block. *)
Definition at_struct (off : Z) : Z := fdt + off_struct + off.

Lemma reads_struct off n : 0 <= off -> off_struct + off + n <= total -> reads P (at_struct off) n.
Proof.
  intros Ho Hn. unfold at_struct. rewrite <- Z.add_assoc. pose proof struct_bound. apply reads_blob; lia.
Qed.

Lemma ro_offset_ptr_ off (Q : Z -> Prop) : Q (at_struct off) -> ro P (fdt_offset_ptr_ fdt off) Q s.
Proof. intros HQ. apply ro_bind, ro_off_struct, ro_ret, HQ. Qed.

Lemma ro_offset_ptr off len (Q : Z -> Prop) :
  - 2 ^ 31 <= off < 2 ^ 31 -> 0 <= len < 2 ^ 32 ->
  Q NULL -> (0 <= off -> off_struct + off + len <= total -> Q (at_struct off)) ->
  ro P (fdt_offset_ptr fdt off len) Q s.
Proof.
  intros Ho Hl H0 H1. unfold fdt_offset_ptr. apply ro_bind, ro_off_struct.
  destruct (Z.ltb_spec off 0) as [|Hnn]; [by apply ro_ret|]. rewrite (u32_small off) by lia.
  pose proof struct_bound. pose proof total_bound. rewrite (u32_small (off + off_struct)) by lia.
  pose proof (u32_add (off + off_struct) len ltac:(lia) Hl) as E.
  apply ro_bind, ro_orm, ro_orm, ro_ret. destruct (Z.ltb_spec (off + off_struct) off); [lia|].
  apply ro_ret. destruct (Z.ltb_spec (u32 (off + off_struct + len)) (off + off_struct)); [by apply ro_ret|].
  apply ro_bind, ro_totalsize, ro_ret. destruct (Z.ltb_spec total (u32 (off + off_struct + len))); [by apply ro_ret|].
  apply ro_bind, ro_version. apply ro_bind, ro_andm, ro_ret. destruct (Z.leb_spec 0x11 version) as [Hv|Hv].
  - apply ro_orm, ro_ret. destruct (u32 (off + len) <? off); [by apply ro_ret|].
    apply ro_bind, ro_size_struct; [done|]. apply ro_ret. destruct (size_struct <? u32 (off + len)); [by apply ro_ret|].
    apply ro_offset_ptr_, H1; lia.
  - apply ro_offset_ptr_, H1; lia.
Qed.

(** ** Tokens

    [tok off tag stop]: at offset [off] lies a token [tag] that ends at
    [stop]: the name of a node with its terminator, the header and value of a
    property (with the padding of old versions), nothing else. *)

Definition old_pad (off len : Z) : Z :=
  if (version <? 0x10) && (8 <=? len) && negb ((off + sizeof_fdt_property) mod 8 =? 0) then 4 else 0.

Definition node_name (off : Z) (l : list Z) : Prop :=
  cstr (mem s) (at_struct (off + 4)) l.

Inductive tok (off : Z) : Z -> Z -> Prop :=
| tok_node l : node_name off l -> tok off FDT_BEGIN_NODE (off + 4 + (Z.of_nat (length l) + 1))
| tok_prop len : len = be (at_struct (off + 4)) -> tok off FDT_PROP (off + sizeof_fdt_property + len + old_pad off len)
| tok_end_node : tok off FDT_END_NODE (off + 4)
| tok_nop : tok off FDT_NOP (off + 4)
| tok_end : tok off FDT_END (off + 4).

(** A token of the blob and the aligned offset after it. *)
Definition token (off tag next : Z) : Prop :=
  0 <= off /\ be (at_struct off) = tag /\
  exists stop, tok off tag stop /\ off_struct + stop <= total /\ next = stop + (- stop) mod 4.

Lemma tok_stop off tag stop : tok off tag stop -> off + 4 <= stop.
Proof.
  destruct 1 as [l _|len ->| | |]; try lia. pose proof (be32_bound (mem s) (at_struct (off + 4))).
  unfold sizeof_fdt_property, old_pad. case_match; lia.
Qed.

Lemma token_next off tag next : token off tag next ->
  off + 4 <= next /\ next mod 4 = 0 /\ off_struct + off + 4 <= total /\ next < 2 ^ 31.
Proof.
  intros (Ho & _ & stop & Ht & Hs & ->). apply tok_stop in Ht. pose proof struct_bound. pose proof total_bound. zdm.
Qed.

Lemma at_struct_S off k : at_struct off + k = at_struct (off + k).
Proof. unfold at_struct. lia. Qed.

Lemma ro_skip_name off (Q : option Z -> Prop) :
  0 <= off < 2 ^ 31 -> Q None ->
  (forall l, cstr (mem s) (at_struct off) l -> off_struct + (off + (Z.of_nat (length l) + 1)) <= total ->
     Q (Some (off + (Z.of_nat (length l) + 1)))) ->
  ro P (skip_name fdt off) Q s.
Proof.
  intros Ho H0 H1. pose proof struct_bound. pose proof total_bound. unfold skip_name.
  apply (ro_while P s (fun n o => n = 2 ^ 31 - o /\ exists l0, off <= o < 2 ^ 31 /\ o = off + Z.of_nat (length l0) /\
      forall l, cstr (mem s) (at_struct o) l -> cstr (mem s) (at_struct off) (l0 ++ l)) _ (2 ^ 31 - off)).
  { split; [done|]. exists []. simpl. split_and!; [lia|lia|lia|done]. }
  { lia. }
  intros n o (-> & l0 & Hor & -> & Hl) _. apply ro_bind, ro_offset_ptr; [lia|lia|by apply ro_ret|].
  intros _ Hb. destruct (Z.eqb_spec (at_struct (off + Z.of_nat (length l0))) NULL) as [E|_]; [by apply ro_ret|].
  destruct (reads_struct (off + Z.of_nat (length l0)) 1 ltac:(lia) ltac:(lia)).
  apply ro_bind, ro_rd; [done..|]. rewrite ld_1, s32_small by lia.
  destruct (Z.eqb_spec (ldb (mem s) (at_struct (off + Z.of_nat (length l0)))) 0) as [E|E]; simpl negb; apply ro_ret.
  - specialize (Hl [] E). specialize (H1 _ Hl). rewrite app_nil_r in H1.
    replace (off + Z.of_nat (length l0) + 1) with (off + (Z.of_nat (length l0) + 1)) by lia. apply H1. lia.
  - exists (2 ^ 31 - (off + Z.of_nat (length l0) + 1)). split; [lia|]. split; [done|].
    exists (l0 ++ [ldb (mem s) (at_struct (off + Z.of_nat (length l0)))]). rewrite length_app. simpl. split_and!; [lia|lia|lia|].
    intros l Hc. rewrite <- app_assoc. apply Hl. split_and!; [done..|]. by rewrite at_struct_S.
Qed.

Lemma ro_skip_prop start (Q : option Z -> Prop) :
  0 <= start < 2 ^ 31 - 4 -> Q None ->
  (forall len, len = be (at_struct (start + 4)) -> len + start + 4 < 2 ^ 31 ->
     Q (Some (s32 (start + sizeof_fdt_property + len + old_pad start len)))) ->
  ro P (skip_prop fdt (start + 4)) Q s.
Proof.
  intros Ho H0 H1. unfold skip_prop. apply ro_bind, ro_offset_ptr; [lia|lia|by apply ro_ret|]. intros _ Hb.
  destruct (Z.eqb_spec (at_struct (start + 4)) NULL) as [E|_]; [by apply ro_ret|].
  apply ro_bind, ro_fdt32_ld_; [by apply reads_struct; lia|]. specialize (H1 _ eq_refl).
  pose proof (be32_bound (mem s) (at_struct (start + 4))) as Hl. set (len := be (at_struct (start + 4))) in *.
  rewrite (u32_small (start + 4)) by lia. pose proof (u32_add len (start + 4) Hl ltac:(lia)) as E. unfold INT_MAX.
  destruct (Z.leb_spec 0x7fffffff (u32 (len + (start + 4)))); [by apply ro_ret|].
  destruct (Z.ltb_spec (u32 (len + (start + 4))) (start + 4)); [by apply ro_ret|]. simpl orb. cbv iota.
  specialize (H1 ltac:(lia)). unfold FDT_TAGSIZE, sizeof_fdt_property in *.
  replace (start + 4 + 12 - 4 + len) with (start + 12 + len) by lia. rewrite u32_s32_sub by lia.
  replace (start + 12 + len - len) with (start + 12) by lia. rewrite s32_add.
  apply ro_bind. unfold old_pad, sizeof_fdt_property in H1. apply ro_andm, ro_andm, ro_bind, ro_version, ro_ret.
  destruct (version <? 16); [|apply ro_ret; by rewrite Z.add_0_r in H1]. apply ro_ret.
  destruct (8 <=? len); [|apply ro_ret; by rewrite Z.add_0_r in H1]. apply ro_ret, ro_ret. simpl in H1.
  destruct (negb _); [done|by rewrite Z.add_0_r in H1].
Qed.

(** The end of [fdt_next_tag]: the whole token must lie inside the blob. *)
Definition finish_tag (start tag offset : Z) : M (Z * Z) :=
  p ← fdt_offset_ptr fdt start (u32 (offset - start));
  if p =? NULL then mret (FDT_END, - FDT_ERR_BADSTRUCTURE) else mret (tag, s32 (FDT_TAGALIGN offset)).

Lemma ro_finish_tag start stop (Q : Z * Z -> Prop) :
  0 <= start -> off_struct + start + 4 <= total -> start + 4 <= stop < 2 ^ 31 + 16 -> tok start (be (at_struct start)) stop ->
  (forall e, e < 0 -> Q (FDT_END, e)) ->
  (forall next, token start (be (at_struct start)) next -> Q (be (at_struct start), next)) ->
  ro P (finish_tag start (be (at_struct start)) (s32 stop)) Q s.
Proof.
  intros Ho Hs Hb Ht H0 H1. unfold finish_tag. pose proof struct_bound. pose proof total_bound.
  rewrite u32_s32_sub by lia. apply ro_bind, ro_offset_ptr; [lia|lia|by apply ro_ret, H0|]. intros _ Hin.
  destruct (Z.eqb_spec (at_struct start) NULL) as [E|_]; [by apply ro_ret, H0|]. apply ro_ret, H1.
  rewrite (s32_small stop), FDT_TAGALIGN_spec, s32_small by zdm. split_and!; [done..|]. exists stop. split_and!; [done|lia|done].
Qed.

Lemma ro_next_tag start (Q : Z * Z -> Prop) :
  - 2 ^ 31 <= start < 2 ^ 31 -> (forall e, e < 0 -> Q (FDT_END, e)) -> (forall tag next, token start tag next -> Q (tag, next)) ->
  ro P (fdt_next_tag fdt start) Q s.
Proof.
  intros Hi H0 H1. pose proof struct_bound. pose proof total_bound.
  unfold fdt_next_tag. apply ro_bind, ro_offset_ptr; [lia|done|by apply ro_ret, H0|]. unfold FDT_TAGSIZE. intros Ho Hb.
  destruct (Z.eqb_spec (at_struct start) NULL) as [E|_]; [by apply ro_ret, H0|].
  apply ro_bind, ro_fdt32_ld_; [by apply reads_struct; lia|]. rewrite (s32_small (start + 4)) by lia.
  assert (F : forall stop, tok start (be (at_struct start)) stop -> start + 4 <= stop < 2 ^ 31 + 16 ->
    ro P (finish_tag start (be (at_struct start)) (s32 stop)) Q s) by (intros; apply ro_finish_tag; auto with lia).
  apply ro_bind. destruct (Z.eqb_spec (be (at_struct start)) FDT_BEGIN_NODE) as [E|_].
  { apply ro_skip_name; [lia|by apply ro_ret, H0|]. intros l Hl Hin.
    rewrite <- (s32_small (start + 4 + _)) by lia. apply F; [rewrite E; by apply tok_node|lia]. }
  destruct (Z.eqb_spec (be (at_struct start)) FDT_PROP) as [E|_].
  { apply ro_skip_prop; [lia|by apply ro_ret, H0|]. intros len El Hlen. apply F; [rewrite E; by apply tok_prop|].
    pose proof (be32_bound (mem s) (at_struct (start + 4))). unfold sizeof_fdt_property, old_pad. case_match; lia. }
  destruct (Z.eqb_spec (be (at_struct start)) FDT_END) as [E|_].
  { apply ro_ret. rewrite <- (s32_small (start + 4)) by lia. apply F; [rewrite E; by apply tok_end|lia]. }
  destruct (Z.eqb_spec (be (at_struct start)) FDT_END_NODE) as [E|_].
  { apply ro_ret. rewrite <- (s32_small (start + 4)) by lia. apply F; [rewrite E; by apply tok_end_node|lia]. }
  destruct (Z.eqb_spec (be (at_struct start)) FDT_NOP) as [E|_].
  { apply ro_ret. rewrite <- (s32_small (start + 4)) by lia. apply F; [rewrite E; by apply tok_nop|lia]. }
  by apply ro_ret, ro_ret, H0.
Qed.

(** ** Nodes *)

(** The offset just after the header of the node at [off]. *)
Lemma ro_check_node_offset_ off (Q : Z -> Prop) :
  - 2 ^ 31 <= off < 2 ^ 31 -> (forall e, e < 0 -> Q e) ->
  (forall next, off mod 4 = 0 -> token off FDT_BEGIN_NODE next -> Q next) ->
  ro P (fdt_check_node_offset_ fdt off) Q s.
Proof.
  intros Hi H0 H1. unfold fdt_check_node_offset_. destruct (Z.ltb_spec off 0) as [|Ho]; [by apply ro_ret, H0|]. simpl orb.
  rewrite u64_small by lia. unfold FDT_TAGSIZE. destruct (Z.eqb_spec (off mod 4) 0) as [A|]; [|by apply ro_ret, H0]. simpl negb.
  apply ro_bind, ro_next_tag; [done| |].
  - intros e _. by apply ro_ret, H0.
  - intros tag next Ht. destruct (Z.eqb_spec tag FDT_BEGIN_NODE) as [->|]; [by apply ro_ret, H1|by apply ro_ret, H0].
Qed.

Lemma ro_check_prop_offset_ off (Q : Z -> Prop) :
  - 2 ^ 31 <= off < 2 ^ 31 -> (forall e, e < 0 -> Q e) ->
  (forall next, off mod 4 = 0 -> token off FDT_PROP next -> Q next) ->
  ro P (fdt_check_prop_offset_ fdt off) Q s.
Proof.
  intros Hi H0 H1. unfold fdt_check_prop_offset_. destruct (Z.ltb_spec off 0) as [|Ho]; [by apply ro_ret, H0|]. simpl orb.
  rewrite u64_small by lia. unfold FDT_TAGSIZE. destruct (Z.eqb_spec (off mod 4) 0) as [A|]; [|by apply ro_ret, H0]. simpl negb.
  apply ro_bind, ro_next_tag; [done| |].
  - intros e _. by apply ro_ret, H0.
  - intros tag next Ht. destruct (Z.eqb_spec tag FDT_PROP) as [->|]; [by apply ro_ret, H1|by apply ro_ret, H0].
Qed.

(** [next_node off r k]: from the token at [off] on, the first node is at
    [r], and [k] nodes end on the way. *)
Inductive next_node : Z -> Z -> Z -> Prop :=
| nn_here off next : token off FDT_BEGIN_NODE next -> next_node off off 0
| nn_end off next r k : token off FDT_END_NODE next -> next_node next r k -> next_node off r (k + 1)
| nn_skip off tag next r k : tag = FDT_PROP \/ tag = FDT_NOP -> token off tag next -> next_node next r k -> next_node off r k.

Lemma next_node_at off r k : off mod 4 = 0 -> next_node off r k ->
  off <= r /\ r mod 4 = 0 /\ exists next, token r FDT_BEGIN_NODE next.
Proof.
  intros Ho H. induction H as [off next Ht|off next r k Ht H IH|off tag next r k _ Ht H IH]; [eauto with lia|..];
    apply token_next in Ht; destruct IH as (? & ? & ?); try tauto; split_and!; auto; lia.
Qed.

(** The token a walk from the node at [off] starts with; from before the tree
    when [off] is negative. *)
Definition walk_start (off start : Z) : Prop :=
  if off <? 0 then start = 0 else off mod 4 = 0 /\ token off FDT_BEGIN_NODE start.

Lemma walk_start_next off start : walk_start off start -> 0 <= start < 2 ^ 31 /\ off < start /\ start mod 4 = 0.
Proof.
  unfold walk_start. destruct (Z.ltb_spec off 0) as [|Ho]; [intros ->; split_and!; [lia..|done]|].
  intros [_ Ht]. apply token_next in Ht. split_and!; [lia..|tauto].
Qed.

(** What [fdt_next_node] may return: an error; the next node, with the depth
    adjusted by the nodes that ended; or, when more nodes ended than the depth
    allows, a depth of -1. *)
Inductive node_result (start : Z) (depth : option Z) : Z * option Z -> Prop :=
| nr_error r d : r < 0 -> node_result start depth (r, d)
| nr_node r k : next_node start r k -> (forall d, depth = Some d -> k <= d) ->
    node_result start depth (r, option_map (fun d => d + 1 - k) depth)
| nr_left r : depth <> None -> node_result start depth (r, Some (-1)).

Lemma ro_node_loop start depth (Q : Z * option Z -> Prop) :
  0 <= start < 2 ^ 31 -> (forall d, depth = Some d -> 0 <= d < 2 ^ 31 - 1) ->
  (forall r d, r < 0 -> Q (r, d)) -> (forall x, node_result start depth x -> Q x) ->
  ro P (node_loop fdt start depth) Q s.
Proof.
  intros Hst Hd H0 H1.
  apply (ro_while P s (fun n '(o, d) => n = 2 ^ 31 - o /\ 0 <= o < 2 ^ 31 /\ exists k, 0 <= k /\
    (forall r j, next_node o r j -> next_node start r (j + k)) /\ d = option_map (fun d => d - k) depth /\
    (forall d, depth = Some d -> k <= d)) _ (2 ^ 31 - start)).
  { split_and!; [done|lia|lia|]. exists 0. split_and!; [lia| | |intros d E; apply Hd in E; lia].
    - intros r j H. by rewrite Z.add_0_r.
    - destruct depth; simpl; [|done]. by rewrite Z.sub_0_r. }
  { lia. }
  intros n [o d] (-> & Ho & k & Hk & Hn & -> & Hdk) _. apply ro_bind, ro_next_tag; [lia| |].
  { intros e He. rewrite (proj2 (Z.eqb_neq FDT_END FDT_BEGIN_NODE)), (proj2 (Z.eqb_neq FDT_END FDT_END_NODE)), Z.eqb_refl by done.
    destruct (_ || _); apply ro_ret; apply H0; [done|lia]. }
  intros tag next Ht. pose proof (token_next _ _ _ Ht) as Hnx. destruct (Z.eqb_spec tag FDT_BEGIN_NODE) as [->|Hb].
  { apply ro_ret, H1. specialize (Hn o 0 ltac:(by eapply nn_here)).
    replace (option_map _ (option_map _ depth)) with (option_map (fun d => d + 1 - k) depth) by
      (destruct depth as [d|]; simpl; [|done]; specialize (Hd d eq_refl); specialize (Hdk d eq_refl); rewrite s32_small by lia; f_equal; lia).
    by apply nr_node. }
  destruct (Z.eqb_spec tag FDT_END_NODE) as [->|He].
  { destruct depth as [d|]; simpl.
    - specialize (Hd d eq_refl). specialize (Hdk d eq_refl). rewrite s32_small by lia. destruct (Z.ltb_spec (d - k - 1) 0).
      + apply ro_ret, H1. replace (d - k - 1) with (-1) by lia. by apply nr_left.
      + apply ro_ret. exists (2 ^ 31 - next). split; [lia|]. split_and!; [done|lia|lia|]. exists (k + 1). split_and!; [lia| |f_equal; lia|].
        * intros r j H'. replace (j + (k + 1)) with (j + 1 + k) by lia. apply Hn. by eapply nn_end.
        * intros d' [= <-]. lia.
    - apply ro_ret. exists (2 ^ 31 - next). split; [lia|]. split_and!; [done|lia|lia|]. exists (k + 1). split_and!; [lia| |done|done].
      intros r j H'. replace (j + (k + 1)) with (j + 1 + k) by lia. apply Hn. by eapply nn_end. }
  destruct (Z.eqb_spec tag FDT_END) as [->|Hx].
  { rewrite (proj2 (Z.leb_le 0 next)) by lia. simpl orb. apply ro_ret. by apply H0. }
  apply ro_ret. exists (2 ^ 31 - next). split; [lia|]. split_and!; [done|lia|lia|]. exists k. split_and!; [done| |done|done].
  intros r j H'. apply Hn. eapply nn_skip; [|done..]. destruct Ht as (_ & _ & stop & Ht & _). destruct Ht; auto; done.
Qed.

Lemma ro_next_node off depth (Q : Z * option Z -> Prop) :
  - 2 ^ 31 <= off < 2 ^ 31 -> (forall d, depth = Some d -> 0 <= d < 2 ^ 31 - 1) ->
  (forall r d, r < 0 -> Q (r, d)) -> (forall start x, walk_start off start -> node_result start depth x -> Q x) ->
  ro P (fdt_next_node fdt off depth) Q s.
Proof.
  intros Hi Hd H0 H1. unfold fdt_next_node.
  assert (W : forall start, walk_start off start -> ro P (node_loop fdt start depth) Q s).
  { intros start Hw. apply ro_node_loop; [apply (walk_start_next off start Hw)|done|done|]. intros x Hx. by apply (H1 start). }
  apply ro_bind. destruct (Z.leb_spec 0 off) as [Ho|Ho].
  - apply ro_check_node_offset_; [done| |].
    + intros e He. rewrite (proj2 (Z.ltb_lt e 0) He). apply ro_ret. by apply H0.
    + intros next Ha Ht. pose proof (token_next _ _ _ Ht). rewrite (proj2 (Z.ltb_ge next 0)) by lia.
      apply W. unfold walk_start. by rewrite (proj2 (Z.ltb_ge off 0)).
  - apply ro_ret. rewrite (proj2 (Z.ltb_ge 0 0)) by lia. apply W. unfold walk_start. by rewrite (proj2 (Z.ltb_lt off 0)).
Qed.
End blob.
