(* ===== verification/FdtLookup.v ===== *)
(** * Looking up a property in an untrusted device tree

    The lookup of fdt_ro.c stays inside the blob and the name it is given,
    and what it finds is a property of the node whose name is the one asked
    for. *)

From S2P Require Import Prelude Memory Machine Strings ReadOnly Fdt FdtRo FdtProofs.

(** The string a terminator ends. *)
Lemma cstr_until m a n : 0 <= n -> ldb m (a + n) = 0 -> (forall i, 0 <= i < n -> ldb m (a + i) <> 0) ->
  exists l, cstr m a l /\ Z.of_nat (length l) = n.
Proof.
  intros Hn. revert a. pattern n. apply natlike_ind; [..|done]; clear n Hn.
  - intros a H _. exists []. rewrite Z.add_0_r in H. done.
  - intros n Hn IH a H Hz. destruct (IH (a + 1)) as (l & Hl & El).
    + by replace (a + 1 + n) with (a + Z.succ n) by lia.
    + intros i Hi. replace (a + 1 + i) with (a + (1 + i)) by lia. apply Hz. lia.
    + exists (ldb m a :: l). simpl. split_and!; [done| |done|lia]. specialize (Hz 0 ltac:(lia)). by rewrite Z.add_0_r in Hz.
Qed.

Lemma cstr_eq m a b l : cstr m b l -> (forall i, 0 <= i < Z.of_nat (length l) -> ldb m (a + i) = ldb m (b + i)) ->
  ldb m (a + Z.of_nat (length l)) = 0 -> cstr m a l.
Proof.
  revert a b. induction l as [|c l IH]; intros a b H E E0; simpl in *.
  - by rewrite Z.add_0_r in E0.
  - destruct H as (Hc & Hz & H). split_and!; [|done|].
    + specialize (E 0 ltac:(lia)). rewrite !Z.add_0_r in E. by rewrite E.
    + apply (IH (a + 1) (b + 1)); [done| |by rewrite <- Z.add_assoc; replace (1 + Z.of_nat (length l)) with (Z.of_nat (S (length l))) by lia].
      intros i Hi. rewrite <- !Z.add_assoc. apply E. lia.
Qed.

Section lookup.
Variable fdt : Z.
Variable s : kst.
Hypothesis Hh : header_ok fdt s.
Variable P : Z -> Prop.
Hypothesis HP : forall a, in_blob fdt s a -> P a.

Abbreviation be := (be32 (mem s)).
Abbreviation at_struct := (at_struct fdt s).
Abbreviation token := (token fdt s).
Abbreviation total := (total fdt s).
Abbreviation off_struct := (off_struct fdt s).
Abbreviation off_strings := (off_strings fdt s).

Lemma ro_probe (Q : Z -> Prop) : (forall e, e < 0 -> Q e) -> Q total -> ro P (fdt_ro_probe_ fdt) Q s.
Proof.
  intros H0 H1. unfold fdt_ro_probe_. apply ro_bind, (ro_totalsize fdt s Hh P HP). rewrite (hd_align fdt s Hh). simpl negb.
  apply ro_bind, (ro_magic fdt s Hh P HP), ro_bind. rewrite Z.eqb_refl. apply ro_bind, (ro_version fdt s Hh P HP).
  pose proof (hd_version fdt s Hh). pose proof (hd_last fdt s Hh). unfold FDT_FIRST_SUPPORTED_VERSION, FDT_LAST_SUPPORTED_VERSION.
  destruct (Z.ltb_spec (version fdt s) 2); [lia|].
  apply ro_bind, (ro_header fdt s Hh P HP); [lia..|]. destruct (Z.ltb_spec 17 (be (fdt + 24))); [lia|]. apply ro_ret.
  simpl. destruct (total <? INT_MAX); apply ro_ret; [done|by apply H0].
Qed.

(** ** Strings *)

(** At offset [so] of the strings block lies the string [l], with its
    terminator, inside the blob. *)
Definition string_at (so : Z) (l : list Z) : Prop :=
  0 <= so /\ cstr (mem s) (fdt + off_strings + so) l /\ off_strings + so + Z.of_nat (length l) + 1 <= total.

Lemma ro_string_in so len (Q : Z * Z -> Prop) :
  0 <= so -> 0 <= len -> off_strings + so + len <= total -> (forall e, e < 0 -> Q (NULL, e)) ->
  (forall l, string_at so l -> Q (fdt + off_strings + so, Z.of_nat (length l))) ->
  ro P (n ← memchr (fdt + (so + off_strings)) 0 len;
        if n =? NULL then mret (NULL, - FDT_ERR_TRUNCATED)
        else mret (fdt + (so + off_strings), s32 (n - (fdt + (so + off_strings))))) Q s.
Proof.
  intros Hso Hlen Hin H0 H1. pose proof (total_bound fdt s Hh). pose proof (hd_addr fdt s Hh) as Ha. pose proof (hd_strings fdt s Hh).
  pose proof (header_size fdt s Hh). replace (so + off_strings) with (off_strings + so) by lia. rewrite Z.add_assoc.
  apply ro_bind, ro_memchr; [|lia|lia|].
  { rewrite <- Z.add_assoc. apply (reads_blob fdt s Hh P HP); lia. }
  intros r [[-> _]|(i & Hi & -> & E & Hz)]; [by apply ro_ret, H0|].
  destruct (Z.eqb_spec (fdt + off_strings + so + i) NULL) as [E'|_]; [unfold NULL, PAGE_SIZE in *; lia|].
  apply ro_ret. destruct (cstr_until (mem s) (fdt + off_strings + so) i ltac:(lia) E Hz) as (l & Hl & El).
  replace (fdt + off_strings + so + i - _) with i by lia. rewrite s32_small by lia. rewrite <- El. apply H1. split_and!; [done..|lia].
Qed.

Lemma ro_get_string so (Q : Z * Z -> Prop) :
  - 2 ^ 31 <= so < 2 ^ 31 -> (forall e, e < 0 -> Q (NULL, e)) ->
  (forall l, string_at so l -> Q (fdt + off_strings + so, Z.of_nat (length l))) -> ro P (fdt_get_string fdt so) Q s.
Proof.
  intros Hi H0 H1. unfold fdt_get_string. pose proof (total_bound fdt s Hh) as Hb. pose proof (hd_strings fdt s Hh) as Hs.
  pose proof (header_size fdt s Hh). pose proof (be32_bound (mem s) (fdt + 32)).
  apply ro_bind, ro_probe. { intros e He. rewrite (proj2 (Z.ltb_lt e 0) He). by apply ro_ret, H0. }
  rewrite (proj2 (Z.ltb_ge total 0)) by lia. apply ro_bind, (ro_off_strings fdt s Hh P HP). rewrite (u32_small total) by lia.
  destruct (Z.leb_spec total (u32 (so + off_strings))) as [|Habs]; [by apply ro_ret, H0|].
  apply ro_bind, (ro_magic fdt s Hh P HP). apply ro_bind. rewrite Z.eqb_refl.
  destruct (Z.ltb_spec so 0); [by apply ro_ret, ro_ret, H0|].
  rewrite (u32_small (so + off_strings)) in * by (unfold off_strings, size_strings in *; lia).
  rewrite (u32_small (total - _)) by (unfold off_strings, size_strings in *; lia).
  apply ro_bind, (ro_version fdt s Hh P HP). destruct (Z.leb_spec 17 (version fdt s)) as [Hv|Hv].
  - apply ro_bind, (ro_size_strings fdt s Hh P HP); [done|]. rewrite (u32_small so) by lia.
    destruct (Z.leb_spec (size_strings fdt s) so); [by apply ro_ret, ro_ret, H0|].
    rewrite (u32_small (size_strings fdt s - so)) by (unfold size_strings in *; lia). apply ro_ret.
    destruct (Z.ltb_spec (size_strings fdt s - so) (total - (so + off_strings))); apply ro_string_in; auto; lia.
  - apply ro_ret. apply ro_string_in; auto; lia.
Qed.

Lemma ro_string_eq_ so name l (Q : bool -> Prop) :
  - 2 ^ 31 <= so < 2 ^ 31 -> cstr (mem s) name l -> reads P name (Z.of_nat (length l) + 1) ->
  Q false -> (string_at so l -> Q true) -> ro P (fdt_string_eq_ fdt so name (Z.of_nat (length l))) Q s.
Proof.
  intros Hi Hl Hr H0 H1. unfold fdt_string_eq_. pose proof (total_bound fdt s Hh) as Hb. pose proof (hd_strings fdt s Hh).
  pose proof (header_size fdt s Hh).
  apply ro_bind, ro_get_string; [done|by intros; apply ro_ret|]. intros l' (Hso & Hl' & Hin).
  destruct (negb _ && (Z.of_nat (length l') =? Z.of_nat (length l))) eqn:E; [|by apply ro_ret].
  apply andb_true_iff in E as [_ E%Z.eqb_eq]. apply ro_bind. rewrite u64_small by lia. apply ro_memcmp; [| |lia|].
  { rewrite <- Z.add_assoc. apply (reads_blob fdt s Hh P HP); lia. }
  { destruct Hr as [? Hr]. split; [done|]. intros b Hin'. apply Hr. unfold in_range in *. lia. }
  intros r Hr'. apply ro_ret. destruct (Z.eqb_spec r 0) as [Ez|]; [|done]. apply H1. split_and!; [done| |lia].
  apply (cstr_eq (mem s) _ name); [done|by apply Hr'|]. rewrite <- E. by apply (cstr_at (mem s) _ l' (Z.of_nat (length l')) Hl'); [lia|].
Qed.

(** ** Properties of a node *)

(** [prop_of start off]: from the token at [start] on, past other properties
    and fillers only, lies a property at [off]. *)
Inductive prop_of : Z -> Z -> Prop :=
| po_here off next : token off FDT_PROP next -> prop_of off off
| po_skip off tag next r : tag = FDT_PROP \/ tag = FDT_NOP -> token off tag next -> prop_of next r -> prop_of off r.

Lemma prop_of_next start off next r : prop_of start off -> token off FDT_PROP next -> prop_of next r -> prop_of start r.
Proof. intros H Ht Hr. induction H as [o n _|o t n r' E T _ IH]; [by apply (po_skip o FDT_PROP next r); [left|..]|]. by apply (po_skip o t n r); auto. Qed.

Lemma ro_nextprop_ start (Q : Z -> Prop) :
  0 <= start < 2 ^ 31 -> (forall e, e < 0 -> Q e) -> (forall off, prop_of start off -> start <= off < 2 ^ 31 -> Q off) ->
  ro P (nextprop_ fdt start) Q s.
Proof.
  intros Hs H0 H1. unfold nextprop_.
  apply (ro_while P s (fun n o => n = 2 ^ 31 - o /\ start <= o < 2 ^ 31 /\ forall r, prop_of o r -> prop_of start r) _ (2 ^ 31 - start)); [by split_and!; [|lia|lia|]|lia|].
  intros n o (-> & Ho & Hp) _. apply ro_bind, (ro_next_tag fdt s Hh P HP); [lia| |].
  { intros e He. apply ro_ret, H0. rewrite (proj2 (Z.leb_gt 0 e)) by lia. done. }
  intros tag next Ht. pose proof (token_next fdt s Hh _ _ _ Ht) as Hn.
  destruct (Z.eqb_spec tag FDT_END); [apply ro_ret, H0; by rewrite (proj2 (Z.leb_le 0 next)) by lia|].
  destruct (Z.eqb_spec tag FDT_PROP) as [->|]; [by apply ro_ret, H1; [eapply Hp, po_here|lia]|].
  destruct (Z.eqb_spec tag FDT_NOP) as [->|]; [|by apply ro_ret, H0].
  apply ro_ret. exists (2 ^ 31 - next). split; [lia|]. split_and!; [done|lia|lia|]. intros r Hr. apply Hp. by apply (po_skip o FDT_NOP next r); [right|..].
Qed.

(** A found property: its header and value lie inside the blob. *)
Lemma prop_in off next : token off FDT_PROP next ->
  0 <= off /\ off_struct + off + sizeof_fdt_property + be (at_struct (off + 4)) <= total.
Proof.
  intros (Ho & _ & stop & Ht & Hin & _). split; [done|]. inversion Ht; subst. unfold old_pad in *. case_match; lia.
Qed.

Lemma ro_get_property_by_offset_ off (Q : Z * Z -> Prop) :
  - 2 ^ 31 <= off < 2 ^ 31 -> (forall e, e < 0 -> Q (NULL, e)) ->
  (forall next, token off FDT_PROP next -> Q (at_struct off, be (at_struct (off + 4)))) ->
  ro P (fdt_get_property_by_offset_ fdt off) Q s.
Proof.
  intros Hi H0 H1. unfold fdt_get_property_by_offset_. pose proof (total_bound fdt s Hh). pose proof (struct_bound fdt s Hh).
  apply ro_bind, (ro_check_prop_offset_ fdt s Hh P HP); [done| |].
  { intros e He. rewrite (proj2 (Z.ltb_lt e 0) He). by apply ro_ret, H0. }
  intros next _ Ht. pose proof (token_next fdt s Hh _ _ _ Ht). pose proof (prop_in _ _ Ht). unfold sizeof_fdt_property in *.
  pose proof (be32_bound (mem s) (at_struct (off + 4))).
  rewrite (proj2 (Z.ltb_ge next 0)) by lia. apply ro_bind, (ro_offset_ptr_ fdt s Hh P HP). unfold prop_len. rewrite at_struct_S.
  apply ro_bind, ro_fdt32_ld_; [by apply (reads_struct fdt s Hh P HP); lia|]. apply ro_ret. rewrite s32_small by lia. eauto.
Qed.

(** The property [off] of the node whose tokens begin at [start], named [l]. *)
Definition named_prop (start off : Z) (l : list Z) : Prop :=
  prop_of start off /\ string_at (be (at_struct (off + 8))) l /\
  off_struct + off + sizeof_fdt_property + be (at_struct (off + 4)) <= total.

Lemma ro_first_property_offset node (Q : Z -> Prop) :
  - 2 ^ 31 <= node < 2 ^ 31 -> (forall e, e < 0 -> Q e) ->
  (forall start off, node mod 4 = 0 -> token node FDT_BEGIN_NODE start -> prop_of start off -> off < 2 ^ 31 -> Q off) ->
  ro P (fdt_first_property_offset fdt node) Q s.
Proof.
  intros Hi H0 H1. apply ro_bind, (ro_check_node_offset_ fdt s Hh P HP); [done| |].
  { intros e He. rewrite (proj2 (Z.ltb_lt e 0) He). by apply ro_ret, H0. }
  intros start Ha Ht. pose proof (token_next fdt s Hh _ _ _ Ht) as Hn. destruct Ht as [Hz Ht].
  rewrite (proj2 (Z.ltb_ge start 0)) by lia. apply ro_nextprop_; [lia|done|]. intros off Hp Ho. by apply (H1 start); [| |done|lia].
Qed.

Lemma ro_next_property_offset start off (Q : Z -> Prop) :
  prop_of start off -> - 2 ^ 31 <= off < 2 ^ 31 -> (forall e, e < 0 -> Q e) ->
  (forall r, prop_of start r -> off < r < 2 ^ 31 -> Q r) -> ro P (fdt_next_property_offset fdt off) Q s.
Proof.
  intros Hp Hi H0 H1. apply ro_bind, (ro_check_prop_offset_ fdt s Hh P HP); [done| |].
  { intros e He. rewrite (proj2 (Z.ltb_lt e 0) He). by apply ro_ret, H0. }
  intros next _ Ht. pose proof (token_next fdt s Hh _ _ _ Ht) as Hn. pose proof (proj1 Ht).
  rewrite (proj2 (Z.ltb_ge next 0)) by lia. apply ro_nextprop_; [lia|done|]. intros r Hr Hir. apply H1; [|lia].
  by eapply prop_of_next.
Qed.

Lemma s32_nameoff x : 0 <= x < 2 ^ 32 -> - 2 ^ 31 <= s32 x < 2 ^ 31 /\ (0 <= s32 x -> s32 x = x).
Proof.
  intros. destruct (Z.lt_ge_cases x (2 ^ 31)); [rewrite s32_small by lia|rewrite s32_high by lia]; lia.
Qed.

Lemma ro_find_property_error first name namelen (Q : Z * Z * Z -> Prop) :
  first < 0 -> Q (NULL, first, 0) -> ro P (find_property fdt first name namelen) Q s.
Proof.
  intros Hf HQ. apply (ro_while P s (fun n o => n = 0 /\ o = first) _ 0); [done|done|]. intros n o [-> ->] _.
  rewrite (proj2 (Z.leb_gt 0 first)) by done. by apply ro_ret.
Qed.

Lemma ro_find_property start first name l (Q : Z * Z * Z -> Prop) :
  cstr (mem s) name l -> reads P name (Z.of_nat (length l) + 1) ->
  prop_of start first -> first < 2 ^ 31 -> (forall e o, e < 0 -> Q (NULL, e, o)) ->
  (forall off, named_prop start off l -> Q (at_struct off, be (at_struct (off + 4)), off)) ->
  ro P (find_property fdt first name (Z.of_nat (length l))) Q s.
Proof.
  intros Hl Hr Hf Hf' H0 H1. unfold find_property. pose proof (total_bound fdt s Hh). pose proof (struct_bound fdt s Hh).
  apply (ro_while P s (fun n o => n = (if o <? 0 then 0 else 2 ^ 31 - o) /\ (o < 0 \/ prop_of start o /\ o < 2 ^ 31)) _
    (if first <? 0 then 0 else 2 ^ 31 - first)); [by auto|destruct (Z.ltb_spec first 0); lia|].
  intros n o [-> Ho] _. destruct (Z.leb_spec 0 o) as [Hz|Hz]; [|by apply ro_ret, H0]. rewrite (proj2 (Z.ltb_ge o 0)) by done.
  destruct Ho as [|[Hp Hlt]]; [lia|]. apply ro_bind, ro_get_property_by_offset_; [lia|by intros; apply ro_ret, H0|].
  intros next Ht. pose proof (prop_in _ _ Ht) as Hin. pose proof (be32_bound (mem s) (at_struct (o + 4))). unfold sizeof_fdt_property in *.
  destruct (Z.eqb_spec (at_struct o) NULL) as [E|_]; [by apply ro_ret, H0|].
  unfold prop_nameoff. rewrite at_struct_S. apply ro_bind, ro_fdt32_ld_; [by apply (reads_struct fdt s Hh P HP); lia|].
  destruct (s32_nameoff (be (at_struct (o + 8))) (be32_bound _ _)) as [Hs Hs']. apply ro_bind, ro_string_eq_; [done..| |].
  - apply ro_bind, (ro_next_property_offset start o); [done|lia| |].
    + intros e He. apply ro_ret. exists 0. rewrite (proj2 (Z.ltb_lt e 0) He). split; [lia|]. split; [done|by left].
    + intros r Hpr Hir. apply ro_ret. exists (2 ^ 31 - r). rewrite (proj2 (Z.ltb_ge r 0)) by lia. split; [lia|]. split; [done|]. right. split; [done|lia].
  - intros Hstr. apply ro_ret, H1. split_and!; [done| |unfold sizeof_fdt_property; lia]. rewrite <- Hs'; [done|apply Hstr].
Qed.

(** The node's property named [l] that [prop] points to, of length [len]. *)
Definition found_prop (node : Z) (l : list Z) (prop len : Z) : Prop :=
  exists start off, node mod 4 = 0 /\ token node FDT_BEGIN_NODE start /\ named_prop start off l /\
    prop = at_struct off /\ len = be (at_struct (off + 4)).

Lemma ro_get_property node name l (Q : Z * Z -> Prop) :
  - 2 ^ 31 <= node < 2 ^ 31 -> cstr (mem s) name l -> reads P name (Z.of_nat (length l) + 1) -> Z.of_nat (length l) < 2 ^ 31 ->
  (forall e, e < 0 -> Q (NULL, e)) -> (forall prop len, found_prop node l prop len -> Q (prop, len)) ->
  ro P (fdt_get_property fdt node name) Q s.
Proof.
  intros Hi Hl Hr Hn H0 H1. unfold fdt_get_property. apply ro_bind, (ro_strlen P s name l); [done|done|lia|].
  rewrite s32_small by lia. apply ro_bind, (ro_version fdt s Hh P HP).
  destruct (version fdt s <? 0x10); [by apply ro_ret, H0|]. apply ro_bind, ro_bind.
  apply ro_first_property_offset; [done| |].
  - intros e He. apply ro_find_property_error; [done|]. by apply ro_ret, H0.
  - intros start off Ha Ht Hp Ho. apply (ro_find_property start); [done..| |].
    + intros e o He. by apply ro_ret, H0.
    + intros off' Hp'. apply ro_ret, H1. by exists start, off'.
Qed.
End lookup.
