(* ===== verification/FdtPath.v ===== *)
(** * Looking up nodes by name and path in an untrusted device tree

    On a blob the header check accepts, [fdt_subnode_offset] and
    [fdt_path_offset] return for every name and every absolute path, read
    only the blob and their argument, and yield an error or the offset of a
    node. *)

From S2P Require Import Prelude Memory Machine Strings ReadOnly Fdt FdtRo FdtProofs FdtLookup.

Section path.
Context {L : KernelLayout}.
Variable fdt : Z.
Variable s : kst.
Hypothesis Hh : header_ok fdt s.
Hypothesis Hv : 16 <= version fdt s.
Variable P : Z -> Prop.
Hypothesis HP : forall a, in_blob fdt s a -> P a.

Abbreviation at_struct := (at_struct fdt s).
Abbreviation token := (token fdt s).
Abbreviation total := (total fdt s).
Abbreviation off_struct := (off_struct fdt s).

(** The offset of a node. *)
Definition node_at (off : Z) : Prop := 0 <= off < 2 ^ 31 /\ off mod 4 = 0 /\ exists next, token off FDT_BEGIN_NODE next.

(** What a search for a node may return. *)
Definition node_or_error (r : Z) : Prop := r < 0 \/ node_at r.

Lemma ro_get_name off (Q : Z * Z -> Prop) :
  - 2 ^ 31 <= off < 2 ^ 31 -> (forall e, Q (NULL, e)) ->
  (forall l, 0 <= off -> cstr (mem s) (at_struct (off + 4)) l -> off_struct + off + 4 + Z.of_nat (length l) + 1 <= total ->
     Q (at_struct (off + 4), Z.of_nat (length l))) ->
  ro P (fdt_get_name fdt off true) Q s.
Proof.
  intros Hi H0 H1. pose proof (struct_bound fdt s Hh). pose proof (total_bound fdt s Hh). pose proof (hd_addr fdt s Hh).
  unfold fdt_get_name. apply ro_bind, (ro_offset_ptr_ fdt s Hh P HP). apply ro_bind, (ro_probe fdt s Hh P HP).
  { intros e He. rewrite (proj2 (Z.ltb_lt e 0) He). by apply ro_ret. }
  rewrite (proj2 (Z.ltb_ge total 0)) by lia. apply ro_bind, (ro_check_node_offset_ fdt s Hh P HP); [done| |].
  { intros e He. rewrite (proj2 (Z.ltb_lt e 0) He). by apply ro_ret. }
  intros next _ Ht. pose proof (token_next fdt s Hh _ _ _ Ht). destruct Ht as (Ho & _ & stop & Ht & Hs & _). rewrite (proj2 (Z.ltb_ge next 0)) by lia.
  inversion Ht as [l Hl| | | |]; subst. unfold node_name in Hl.
  apply ro_bind, (ro_version fdt s Hh P HP). rewrite (proj2 (Z.ltb_ge _ 0x10)) by lia. apply ro_bind, ro_ret.
  rewrite at_struct_S, (proj2 (Z.eqb_neq _ NULL)) by (unfold FdtProofs.at_struct, NULL, PAGE_SIZE in *; lia).
  apply ro_bind, (ro_strlen P s _ l); [done|apply (reads_struct fdt s Hh P HP); lia|lia|]. apply ro_ret. rewrite s32_small by lia. apply H1; [done|done|lia].
Qed.

Lemma ro_nodename_eq off name n (Q : bool -> Prop) :
  - 2 ^ 31 <= off < 2 ^ 31 -> reads P name n -> 0 <= n < 2 ^ 31 -> Q true -> Q false -> ro P (fdt_nodename_eq_ fdt off name n) Q s.
Proof.
  intros Hi Hn Hl H1 H0. pose proof (struct_bound fdt s Hh). unfold fdt_nodename_eq_. apply ro_bind, ro_get_name; [done|intros e; by apply ro_ret|].
  intros l Ho Hc Hin. pose proof (reads_struct fdt s Hh P HP (off + 4) (Z.of_nat (length l) + 1) ltac:(lia) ltac:(lia)) as HR.
  destruct (_ || (Z.of_nat (length l) <? n)) eqn:E; [by apply ro_ret|]. apply orb_false_iff in E as [_ E%Z.ltb_ge].
  apply ro_bind. rewrite u64_small by lia. apply ro_memcmp; [|done|lia|].
  { destruct HR as [HR1 HR2]. split; [done|]. intros b Hb. apply HR2. unfold in_range in *. lia. }
  intros r _. destruct (negb (r =? 0)); [by apply ro_ret|]. destruct (reads_byte P _ _ n HR ltac:(lia)) as [R1 R2].
  apply ro_bind, ro_rd; [done..|]. destruct (_ =? 0); [by apply ro_ret|]. apply ro_bind, ro_memchr; [done|lia|done|].
  intros r' _. destruct (_ && _); by apply ro_ret.
Qed.

(** ** Children of a node *)

(** The search's loop: where it is, and the rounds it has left. *)
Definition search_at (off o d : Z) : Prop := o < 0 \/ d < 0 \/ (d = 0 /\ o = off) \/ (node_at o /\ d <= o).
Definition rounds_left (o d : Z) : Z := if (0 <=? o) && (0 <=? d) then 2 ^ 31 - o else 0.

Lemma rounds_left_over o d : o < 0 \/ d < 0 -> rounds_left o d = 0.
Proof. unfold rounds_left. intros [H|H]; apply Z.leb_gt in H; rewrite H; [done|by rewrite andb_false_r]. Qed.
Lemma rounds_left_in o d : 0 <= o -> 0 <= d -> rounds_left o d = 2 ^ 31 - o.
Proof. unfold rounds_left. intros H1 H2. apply Z.leb_le in H1, H2. by rewrite H1, H2. Qed.

Lemma search_in off o d : - 2 ^ 31 <= off < 2 ^ 31 -> 0 <= o -> 0 <= d -> search_at off o d -> o < 2 ^ 31 /\ 0 <= d < 2 ^ 31 - 1 /\ (d = 1 -> node_at o) /\ (d = 0 \/ d <= o).
Proof. intros Hi Ho Hd [?|[?|[[-> ->]|[Hn ?]]]]; [lia|lia|lia|]. pose proof Hn as (? & ? & _). split_and!; [lia|lia|zdm|done|auto]. Qed.

Lemma ro_search_next off o d (R : (Z * Z) + Z -> Prop) :
  - 2 ^ 31 <= off < 2 ^ 31 -> 0 <= o -> 0 <= d -> search_at off o d ->
  (forall o' d', search_at off o' d' -> 0 <= rounds_left o' d' < rounds_left o d -> R (inl (o', d'))) ->
  ro P ('(offset, d') ← fdt_next_node fdt o (Some d); mret (inl (offset, default 0 d'))) R s.
Proof.
  intros Hi Ho Hd Hs HR. destruct (search_in _ _ _ Hi Ho Hd Hs) as (Hob & Hdb & _ & Hdo). assert (Hk : 0 < rounds_left o d).
  { rewrite rounds_left_in by done. lia. }
  apply ro_bind, (ro_next_node fdt s Hh P HP); [lia|by intros d0 [= <-]| |].
  - intros r d' Hr. apply ro_ret, HR; [by left|]. rewrite (rounds_left_over r) by auto. lia.
  - intros start x Hw Hx. pose proof (walk_start_next fdt s Hh _ _ Hw) as Hst. destruct Hx as [r d' Hr|r k Hn Hkd|r _]; apply ro_ret, HR.
    + by left.
    + rewrite (rounds_left_over r) by auto. lia.
    + destruct (next_node_at fdt s Hh start r k ltac:(tauto) Hn) as (Hr1 & Hr2 & next & Ht). pose proof (token_next fdt s Hh _ _ _ Ht).
      assert (0 <= k) by (clear -Hn; induction Hn; lia). specialize (Hkd d eq_refl). right; right; right. simpl.
      split; [|lia]. unfold node_at. split_and!; [lia|lia|done|by exists next].
    + destruct (next_node_at fdt s Hh start r k ltac:(tauto) Hn) as (Hr1 & Hr2 & next & Ht). pose proof (token_next fdt s Hh _ _ _ Ht).
      specialize (Hkd d eq_refl). simpl. rewrite !rounds_left_in by lia. lia.
    + right. by left.
    + simpl. rewrite (rounds_left_over r) by lia. lia.
Qed.

Lemma ro_subnode_offset off name n (Q : Z -> Prop) :
  - 2 ^ 31 <= off < 2 ^ 31 -> reads P name n -> 0 <= n < 2 ^ 31 -> (forall r, node_or_error r -> Q r) ->
  ro P (fdt_subnode_offset_namelen fdt off name n) Q s.
Proof.
  intros Hi Hn Hl HQ. pose proof (total_bound fdt s Hh). unfold fdt_subnode_offset_namelen, FDT_RO_PROBE.
  apply ro_bind, (ro_probe fdt s Hh P HP). { intros e He. rewrite (proj2 (Z.ltb_lt e 0) He). apply ro_ret, HQ. by left. }
  rewrite (proj2 (Z.ltb_ge total 0)) by lia.
  apply (ro_while P s (fun k '(o, d) => k = rounds_left o d /\ search_at off o d) _ (rounds_left off 0)).
  { split; [done|]. right; right; left. done. }
  { destruct (Z.lt_ge_cases off 0); [rewrite rounds_left_over by auto; lia|]. rewrite rounds_left_in by lia. lia. }
  intros k [o d] (-> & Hs) _. destruct (Z.leb_spec 0 o) as [Ho|Ho]; cbn [andb].
  2:{ apply ro_ret, HQ. left. destruct (d <? 0); [done|lia]. }
  destruct (Z.leb_spec 0 d) as [Hd|Hd].
  2:{ apply ro_ret, HQ. left. destruct (Z.ltb_spec d 0); [done|lia]. }
  destruct (search_in _ _ _ Hi Ho Hd Hs) as (Hob & _ & Hnode & _). apply ro_bind, ro_andm, ro_ret.
  assert (Hnext : ro P ('(offset, d') ← fdt_next_node fdt o (Some d); mret (inl (offset, default 0 d')))
    (fun r => match r with inl y => exists k', 0 <= k' < rounds_left o d /\ (let '(o', d') := y in k' = rounds_left o' d' /\ search_at off o' d') | inr r => Q r end) s).
  { apply (ro_search_next off); [done..|]. intros o' d' Hs' Hr'. by exists (rounds_left o' d'). }
  destruct (d =? 1) eqn:Ed; [|done]. apply Z.eqb_eq in Ed. apply ro_nodename_eq; [lia|done|done| |done].
  apply ro_ret, HQ. right. by apply Hnode.
Qed.

(** ** Paths *)

Lemma ro_skip_slashes p n end_ (Q : option Z -> Prop) :
  reads P p n -> end_ = p + n -> 0 < n < 2 ^ 31 -> Q None -> (forall p', p <= p' < end_ -> ldb (mem s) p' <> SLASH -> Q (Some p')) ->
  ro P (skip_slashes p end_) Q s.
Proof.
  intros HR -> Hn H0 H1. unfold skip_slashes. apply (ro_while P s (fun k p' => k = p + n - p' /\ p <= p' < p + n) _ n); [lia|lia|].
  intros k p' (-> & Hp) _. destruct (reads_byte P p n (p' - p) HR ltac:(lia)) as [R1 R2]. replace (p + (p' - p)) with p' in * by lia.
  apply ro_bind, ro_rd; [done..|]. rewrite ld_1. destruct (Z.eqb_spec (ldb (mem s) p') SLASH) as [E|E]; [|by apply ro_ret, H1].
  destruct (Z.eqb_spec (p' + 1) (p + n)); apply ro_ret; [done|]. exists (p + n - (p' + 1)). lia.
Qed.

(** A path names the root, without a look at it, or what the search found. *)
Definition path_result (r : Z) : Prop := r = 0 \/ node_or_error r.

Lemma ro_walk_path path n p off (Q : Z -> Prop) :
  reads P path n -> 0 <= n < 2 ^ 31 -> path <= p <= path + n -> path_result off -> - 2 ^ 31 <= off ->
  (forall r, path_result r -> Q r) -> ro P (walk_path fdt p (path + n) off) Q s.
Proof.
  intros HR Hn Hp Hoff Hlow HQ. unfold walk_path. destruct HR as [HR1 HR2].
  assert (Hsub : forall q k, path <= q -> q + k <= path + n -> reads P q k).
  { intros q k Hq Hk. split; [lia|]. intros b Hb. apply HR2. unfold in_range in *. lia. }
  apply (ro_while P s (fun k '(p, off) => k = path + n - p /\ path <= p <= path + n /\ path_result off /\ - 2 ^ 31 <= off) _ (path + n - p)); [done|lia|].
  clear p off Hp Hoff Hlow. intros k [p off] (-> & Hp & Hoff & Hlow) _. destruct (Z.ltb_spec p (path + n)); [|by apply ro_ret, HQ].
  apply ro_bind, (ro_skip_slashes p (path + n - p)); [apply Hsub; lia|lia|lia|by apply ro_ret, HQ|]. intros p' Hp' Hs.
  assert (Hob : off < 2 ^ 31) by (destruct Hoff as [?|[?|[? _]]]; lia).
  apply ro_bind, ro_memchr; [apply Hsub; lia|lia|done|]. intros q Hq.
  set (q' := if q =? NULL then path + n else q). assert (Hq' : p' < q' <= path + n).
  { unfold q'. destruct Hq as [[-> _]|(i & Hi & -> & E & _)]; [simpl; lia|].
    rewrite (proj2 (Z.eqb_neq _ NULL)) by (unfold NULL, PAGE_SIZE in *; lia). destruct (Z.eq_dec i 0) as [->|]; [by rewrite Z.add_0_r in E|lia]. }
  apply ro_bind. rewrite s32_small by lia. apply ro_subnode_offset; [lia|apply Hsub; lia|lia|]. intros r Hr.
  destruct (Z.ltb_spec r 0); apply ro_ret; [by apply HQ; right|]. exists (path + n - q'). split; [lia|]. split_and!; [done|lia|lia|by right|lia].
Qed.

Lemma ro_path_offset fuel path l (Q : Z -> Prop) :
  (0 < fuel)%nat -> cstr (mem s) path l -> reads P path (Z.of_nat (length l) + 1) -> Z.of_nat (length l) < 2 ^ 31 - 1 -> hd 0 l = SLASH ->
  (forall r, path_result r -> Q r) -> ro P (fdt_path_offset fuel fdt path) Q s.
Proof.
  intros Hf Hc HR Hl Hs HQ. destruct fuel as [|fuel]; [lia|]. pose proof (total_bound fdt s Hh). cbn [fdt_path_offset]. unfold path_offset_via, FDT_RO_PROBE.
  apply ro_bind, (ro_strlen P s path l); [done|done|lia|]. rewrite s32_small by lia. apply ro_bind, (ro_probe fdt s Hh P HP).
  { intros e He. rewrite (proj2 (Z.ltb_lt e 0) He). apply ro_ret, HQ. right. by left. }
  rewrite (proj2 (Z.ltb_ge total 0)) by lia. destruct (reads_byte P path _ 0 HR ltac:(lia)) as [R1 R2]. rewrite Z.add_0_r in *.
  apply ro_bind, ro_rd; [done..|]. rewrite ld_1, (cstr_hd _ _ _ Hc), Hs, Z.eqb_refl. simpl negb. cbn match.
  apply (ro_walk_path path (Z.of_nat (length l))); [|lia|lia|by left|lia|done]. destruct HR as [HR1 HR2]. split; [done|]. intros b Hb. apply HR2. unfold in_range in *. lia.
Qed.
End path.
