(* ===== verification/FdtSpec.v ===== *)
(** * The device tree reader's contract

    After [fdt_check_header] has accepted a blob, walking it and looking up
    properties is safe whatever the blob holds. *)

From S2P Require Import Prelude Memory Machine Strings ReadOnly Fdt FdtRo FdtProofs FdtLookup FdtPath.

(** C39: on a blob [fdt_check_header] accepts, whatever its bytes are,
    [fdt_next_node] returns, writes nothing and reads no byte outside the
    blob.  It returns an error, or the offset of the next node, which comes
    after the node it started from, is aligned and lies inside the blob; the
    depth is adjusted by one for the node entered and by the nodes that ended
    on the way; or, when the walk leaves the subtree it was asked to stay in,
    the depth becomes -1. *)
Theorem fdt_next_node_walks fdt off depth s :
  PAGE_SIZE <= fdt -> fdt_check_header fdt s = Ok 0 s -> - 2 ^ 31 <= off < 2 ^ 31 ->
  (forall d, depth = Some d -> 0 <= d < 2 ^ 31 - 1) ->
  ro (in_blob fdt s) (fdt_next_node fdt off depth) (fun '(r, depth') =>
    r < 0 \/ depth' = Some (-1) \/
    exists start k, walk_start fdt s off start /\ next_node fdt s start r k /\
      depth' = option_map (fun d => d + 1 - k) depth /\
      off < r /\ r mod 4 = 0 /\ off_struct fdt s + r + 4 <= total fdt s) s.
Proof.
  intros Ha Hc Ho Hd. pose proof (check_header_ok fdt s Ha Hc) as Hh. apply (ro_next_node fdt s Hh _ (fun a H => H)); [done..|by left|].
  intros start x Hw Hx. pose proof (walk_start_next fdt s Hh _ _ Hw) as Hst. destruct Hx as [r d Hr|r k Hn _|r _]; [by left| |by right; left].
  right; right. destruct (next_node_at fdt s Hh start r k ltac:(tauto) Hn) as (? & ? & next & Ht).
  apply (token_next fdt s Hh) in Ht. exists start, k. split_and!; [done..|lia|done|tauto].
Qed.

(** C40: on such a blob [fdt_get_property] returns, writes nothing and reads
    no byte outside the blob and the name it is given.  It returns a null
    pointer with an error, or a property of the given node, in the order of
    its tokens, whose name in the strings block is the name asked for; the
    property's header and its value, of the returned length, lie inside the
    blob. *)
Theorem fdt_get_property_sound fdt node name l s :
  PAGE_SIZE <= fdt -> fdt_check_header fdt s = Ok 0 s -> - 2 ^ 31 <= node < 2 ^ 31 ->
  PAGE_SIZE <= name -> cstr (mem s) name l -> Z.of_nat (length l) < 2 ^ 31 ->
  ro (fun a => in_blob fdt s a \/ in_range name (Z.of_nat (length l) + 1) a) (fdt_get_property fdt node name)
    (fun '(prop, len) => prop = NULL /\ len < 0 \/ found_prop fdt s node l prop len) s.
Proof.
  intros Ha Hc Hi Hn Hl Hlen. pose proof (check_header_ok fdt s Ha Hc) as Hh.
  apply (ro_get_property fdt s Hh _ (fun a H => or_introl H) node name l); [done..| |done| |].
  - split; [done|]. by right.
  - intros e He. by left.
  - intros prop len Hp. by right.
Qed.

(** C17: for an absolute path, shorter than 2^31 - 1 bytes,
    [fdt_path_offset] returns on such a blob if its version is 16 or later
    ([fdt_check_header] also accepts older ones), writes nothing and reads no
    byte outside the blob and the path.  What it returns has the type of a node's offset or of an
    error: it is negative, the root's 0, or the aligned offset, inside the
    blob, of a token that begins a node. *)
Theorem fdt_path_offset_typed {L : KernelLayout} fuel fdt path l s :
  PAGE_SIZE <= fdt -> fdt_check_header fdt s = Ok 0 s -> 16 <= version fdt s -> (0 < fuel)%nat ->
  PAGE_SIZE <= path -> cstr (mem s) path l -> Z.of_nat (length l) < 2 ^ 31 - 1 -> hd 0 l = SLASH ->
  ro (fun a => in_blob fdt s a \/ in_range path (Z.of_nat (length l) + 1) a) (fdt_path_offset fuel fdt path)
    (fun r => r < 0 \/ r = 0 \/ (r mod 4 = 0 /\ 0 <= r /\ off_struct fdt s + r + 4 <= total fdt s /\
       exists next, token fdt s r FDT_BEGIN_NODE next)) s.
Proof.
  intros Ha Hc Hv Hf Hp Hl Hlen Hs. pose proof (check_header_ok fdt s Ha Hc) as Hh.
  apply (ro_path_offset fdt s Hh Hv _ (fun a H => or_introl H) fuel path l); [done|done| |done|done|].
  - split; [done|]. by right.
  - intros r [->|[Hr|(Hr1 & Hr2 & next & Ht)]]; [by right; left|by left|]. right; right.
    pose proof (token_next fdt s Hh _ _ _ Ht). split_and!; [done|lia|tauto|by exists next].
Qed.

(** ** A small device tree: one node with a property "reg" *)

Definition be_bytes (x : Z) : list Z := [x / 2 ^ 24; x / 2 ^ 16 mod 256; x / 2 ^ 8 mod 256; x mod 256].

Definition sample_blob : list Z :=
  concat (map be_bytes [FDT_MAGIC; 92; 56; 88; 40; 17; 16; 0; 4; 32; 0; 0; 0; 0;
                        FDT_BEGIN_NODE; 0; FDT_PROP; 4; 0; 42; FDT_END_NODE; FDT_END]) ++ [114; 101; 103; 0].

Fixpoint poke (m : memory) (a : Z) (l : list Z) : memory :=
  match l with [] => m | x :: l' => poke (<[a := x]> m) (a + 1) l' end.

Definition sample_fdt : kst := sample_state (poke (poke (poke ∅ 0x10000 sample_blob) 0x20000 [114; 101; 103; 0]) 0x20010 [47; 97; 0]).

Lemma sample_fdt_header : fdt_check_header 0x10000 sample_fdt = Ok 0 sample_fdt.
Proof. reflexivity. Qed.

Lemma sample_fdt_name : cstr (mem sample_fdt) 0x20000 [114; 101; 103].
Proof. vm_compute. intuition congruence. Qed.

(** The walk enters the only node; the lookup finds its property. *)
Example sample_fdt_walk : fdt_next_node 0x10000 (-1) (Some 0) sample_fdt = Ok (0, Some 1) sample_fdt.
Proof. reflexivity. Qed.

Example sample_fdt_lookup : fdt_get_property 0x10000 0 0x20000 sample_fdt = Ok (0x10000 + 56 + 8, 4) sample_fdt.
Proof. reflexivity. Qed.

Lemma fdt_next_node_walks_witness : exists r d, fdt_next_node 0x10000 (-1) (Some 0) sample_fdt = Ok (r, d) sample_fdt.
Proof.
  destruct (fdt_next_node_walks 0x10000 (-1) (Some 0) sample_fdt) as ([r d] & _ & H).
  - vm_compute. congruence.
  - exact sample_fdt_header.
  - lia.
  - intros d [= <-]. lia.
  - exists r, d. exact (H (mem sample_fdt) (agree_refl _ _)).
Defined.

Lemma fdt_get_property_sound_witness :
  exists prop len, fdt_get_property 0x10000 0 0x20000 sample_fdt = Ok (prop, len) sample_fdt.
Proof.
  destruct (fdt_get_property_sound 0x10000 0 0x20000 [114; 101; 103] sample_fdt) as ([prop len] & _ & H).
  - vm_compute. congruence.
  - exact sample_fdt_header.
  - lia.
  - vm_compute. congruence.
  - exact sample_fdt_name.
  - simpl. lia.
  - exists prop, len. exact (H (mem sample_fdt) (agree_refl _ _)).
Defined.

#[local] Existing Instance sample_layout.

Lemma fdt_path_offset_typed_witness : exists r, fdt_path_offset 1 0x10000 0x20010 sample_fdt = Ok r sample_fdt.
Proof.
  destruct (fdt_path_offset_typed 1 0x10000 0x20010 [47; 97] sample_fdt) as (r & _ & H).
  - vm_compute. congruence.
  - exact sample_fdt_header.
  - vm_compute. congruence.
  - lia.
  - vm_compute. congruence.
  - vm_compute. repeat (split; [reflexivity|]; split; [congruence|]). reflexivity.
  - simpl. lia.
  - reflexivity.
  - exists r. exact (H (mem sample_fdt) (agree_refl _ _)).
Defined.
