(* ===== verification/FdtSwProofs.v ===== *)
(** * A device tree under construction

    The structure block of a tree that fdt_sw.c is writing, as the list of
    the tokens written so far ([writing]).  The rules for
    [fdt_begin_node], [fdt_end_node] and [fdt_property] say which token each
    of them appends, and [ro_next_tag_written] that reading finds the tokens
    again. *)

From S2P Require Import Prelude Memory Machine Strings ReadOnly Fdt FdtRo FdtRw FdtSw FdtProofs FdtLookup.

(** ** Writing big-endian words *)

Lemma byte_of_bound x i : 0 <= byte_of x i < 256.
Proof. apply Z.mod_pos_bound. lia. Qed.

Lemma be_bytes_of b0 b1 b2 b3 : 0 <= b0 < 256 -> 0 <= b1 < 256 -> 0 <= b2 < 256 -> 0 <= b3 < 256 ->
  let w := b0 * 2 ^ 24 + b1 * 2 ^ 16 + b2 * 2 ^ 8 + b3 in
  byte_of w 0 = b3 /\ byte_of w 1 = b2 /\ byte_of w 2 = b1 /\ byte_of w 3 = b0.
Proof.
  intros. unfold w, byte_of. change (256 ^ 0) with 1; change (256 ^ 1) with 256; change (256 ^ 2) with 65536; change (256 ^ 3) with 16777216.
  rewrite Z.div_1_r. split_and!; zdm.
Qed.

Lemma word_bytes x : 0 <= x < 2 ^ 32 -> byte_of x 3 * 2 ^ 24 + byte_of x 2 * 2 ^ 16 + byte_of x 1 * 2 ^ 8 + byte_of x 0 = x.
Proof.
  intros Hx. apply (byte_of_ext 4).
  - pose proof (byte_of_bound x 0). pose proof (byte_of_bound x 1). pose proof (byte_of_bound x 2). pose proof (byte_of_bound x 3). simpl. lia.
  - simpl. lia.
  - intros k Hk. destruct (be_bytes_of (byte_of x 3) (byte_of x 2) (byte_of x 1) (byte_of x 0)) as (E0 & E1 & E2 & E3); try apply byte_of_bound.
    simpl in Hk. assert (k = 0 \/ k = 1 \/ k = 2 \/ k = 3) as [-> | [-> | [-> | ->]]] by lia; done.
Qed.

Lemma fdt32_twice x : 0 <= x < 2 ^ 32 -> fdt32_to_cpu (fdt32_to_cpu x) = x.
Proof.
  intros Hx. rewrite <- (word_bytes x Hx) at 2. unfold fdt32_to_cpu at 2. rewrite be_word by apply byte_of_bound.
  destruct (be_bytes_of (byte_of x 0) (byte_of x 1) (byte_of x 2) (byte_of x 3)) as (E0 & E1 & E2 & E3); try apply byte_of_bound.
  unfold fdt32_to_cpu. rewrite E0, E1, E2, E3, be_word by apply byte_of_bound. done.
Qed.

Lemma fdt32_range x : 0 <= fdt32_to_cpu x < 2 ^ 32.
Proof.
  assert (B : forall j, 0 <= byte_of x j < 256) by (intros; unfold byte_of; apply Z.mod_pos_bound; lia).
  pose proof (B 0). pose proof (B 1). pose proof (B 2). pose proof (B 3). unfold fdt32_to_cpu. rewrite be_word by done. lia.
Qed.

Definition put32 (m : memory) (p v : Z) : memory := st 4 m p (cpu_to_fdt32 v).

Lemma be32_put m p v : 0 <= v < 2 ^ 32 -> be32 (put32 m p v) p = v.
Proof.
  intros Hv. rewrite <- fdt32_to_cpu_be. unfold put32. rewrite ld_st_same. change (256 ^ Z.of_nat 4) with (2 ^ 32).
  rewrite Z.mod_small by apply fdt32_range. by apply fdt32_twice.
Qed.

Lemma be32_agree m m' p : agree (in_range p 4) m m' -> be32 m' p = be32 m p.
Proof. intros H. unfold be32. rewrite !H by (unfold in_range; lia). done. Qed.

Lemma put32_agree (P : Z -> Prop) m p v : (forall a, P a -> ~ in_range p 4 a) -> agree P m (put32 m p v).
Proof. intros H. apply agree_st. intros b Hb Hn. by apply (H b). Qed.

Lemma be32_put_ne m p q v : disjoint p 4 q 4 -> be32 (put32 m p v) q = be32 m q.
Proof. intros H. apply be32_agree, put32_agree. unfold in_range, disjoint in *. lia. Qed.

Lemma wp_be32 p (Q : Z -> kst -> Prop) s : PAGE_SIZE <= p -> Q (be32 (mem s) p) s -> wp (fdt32_ld p) Q s.
Proof. intros Hp HQ. unfold wp. by rewrite fdt32_ld_eq. Qed.

Lemma wp_put32 p v (Q : unit -> kst -> Prop) s : PAGE_SIZE <= p -> Q tt (set_mem (put32 (mem s) p v) s) -> wp (wr 4 p (cpu_to_fdt32 v)) Q s.
Proof. intros Hp HQ. by apply wp_wr. Qed.

(** What copying changes, and what it puts there. *)
Lemma moved_agree m m' dst src n : (forall a, ldb m' a = moved m dst src n a) -> agree (fun a => ~ in_range dst n a) m m'.
Proof. intros E a Ha. rewrite E. unfold moved, in_range in *. by range_cases. Qed.
Lemma moved_in m m' dst src n i : (forall a, ldb m' a = moved m dst src n a) -> 0 <= i < n -> ldb m' (dst + i) = ldb m (src + i).
Proof. intros E Hi. rewrite E. unfold moved. range_cases. f_equal. lia. Qed.

(** ** Tokens *)

Inductive swtok :=
| SwBegin (name : list Z)
| SwProp (name val : list Z)
| SwEnd
| SwStop.

#[export] Instance swtok_eq : EqDecision swtok.
Proof. solve_decision. Defined.

Definition tok_tag (t : swtok) : Z := match t with SwBegin _ => FDT_BEGIN_NODE | SwProp _ _ => FDT_PROP | SwEnd => FDT_END_NODE | SwStop => FDT_END end.

(** Lengths rounded up to a tag's alignment. *)
Definition align4 (n : Z) : Z := n + (- n) mod 4.
Lemma align4_spec n : align4 n mod 4 = 0 /\ n <= align4 n < n + 4.
Proof. unfold align4. zdm. Qed.

Abbreviation len l := (Z.of_nat (length l)).
Definition tok_size (t : swtok) : Z :=
  match t with SwBegin name => 4 + align4 (len name + 1) | SwProp _ val => 12 + align4 (len val) | SwEnd | SwStop => 4 end.
Definition toks_size (l : list swtok) : Z := foldr (fun t n => tok_size t + n) 0 l.

Lemma tok_size_spec t : 4 <= tok_size t /\ tok_size t mod 4 = 0.
Proof. destruct t; simpl; unfold align4; zdm. Qed.
Lemma toks_size_app l l' : toks_size (l ++ l') = toks_size l + toks_size l'.
Proof. induction l as [|t l IH]; simpl; [lia|]. rewrite IH. lia. Qed.
Lemma toks_size_spec l : 0 <= toks_size l /\ toks_size l mod 4 = 0.
Proof. induction l as [|t l IH]; simpl; [done|]. pose proof (tok_size_spec t). zdm. Qed.

(** ** Trees under construction *)

Definition bytes_at (m : memory) (a : Z) (l : list Z) : Prop := forall i c, l !! i = Some c -> ldb m (a + Z.of_nat i) = c.

Lemma bytes_at_ext m m' a a' l : (forall i, 0 <= i < len l -> ldb m' (a' + i) = ldb m (a + i)) -> bytes_at m a l -> bytes_at m' a' l.
Proof. intros H Hb i c Hi. rewrite H; [by apply Hb|]. apply lookup_lt_Some in Hi. lia. Qed.

Section tree.
Variable fdt : Z.

(** The fields of the header. *)
Definition hdr (m : memory) (i : Z) : Z := be32 m (fdt + i).
Abbreviation h_total m := (hdr m 4).
Abbreviation h_struct m := (hdr m 8).
Abbreviation h_strings m := (hdr m 12).
Abbreviation h_rsv m := (hdr m 16).
Abbreviation h_flags m := (hdr m 24).
Abbreviation h_nstrings m := (hdr m 32).
Abbreviation h_nstruct m := (hdr m 36).

(** Offset [off] of the structure block. *)
Definition sp (m : memory) (off : Z) : Z := fdt + h_struct m + off.

(** A property's name lies [p] bytes before the end of the buffer, and the
    word that refers to it is [- p]. *)
Definition sw_string (m : memory) (p : Z) (name : list Z) : Prop :=
  0 < p <= h_nstrings m /\ len name + 1 <= p /\ cstr m (fdt + h_total m - p) name.
Definition sw_name (m : memory) (x : Z) (name : list Z) : Prop := exists p, x = 2 ^ 32 - p /\ sw_string m p name.

(** A token at [off]; [R] is what a name word [x] refers to. *)
Definition holds_tok (R : Z -> list Z -> Prop) (m : memory) (off : Z) (t : swtok) : Prop :=
  be32 m (sp m off) = tok_tag t /\
  match t with
  | SwBegin name => cstr m (sp m (off + 4)) name
  | SwProp name val => be32 m (sp m (off + 4)) = len val /\ bytes_at m (sp m (off + 12)) val /\ R (be32 m (sp m (off + 8))) name
  | SwEnd | SwStop => True
  end.

Fixpoint holds (R : Z -> list Z -> Prop) (m : memory) (off : Z) (l : list swtok) : Prop :=
  match l with [] => True | t :: l' => holds_tok R m off t /\ holds R m (off + tok_size t) l' end.

(** What [fdt_create] and [fdt_finish_reservemap] set up: a header whose
    strings end the buffer, with room between the blocks. *)
Record sw_header (m : memory) : Prop := {
  sw_addr : PAGE_SIZE <= fdt;
  sw_align : fdt &l 7 = 0;
  sw_magic : hdr m 0 = FDT_SW_MAGIC;
  sw_version : hdr m 20 = 17;
  sw_strings : h_strings m = h_total m;
  sw_rsv : 40 <= h_rsv m <= h_struct m;
  sw_aligned : h_struct m mod 4 = 0;
  sw_room : h_struct m + h_nstruct m + h_nstrings m <= h_total m;
  sw_total : h_total m < INT_MAX;
}.

Record writing (m : memory) (l : list swtok) : Prop := {
  wg_header : sw_header m;
  wg_size : h_nstruct m = toks_size l;
  wg_toks : holds (sw_name m) m 0 l;
}.

Definition room (m : memory) : Z := h_total m - h_struct m - h_nstruct m - h_nstrings m.

Lemma hdr_bound m i : 0 <= hdr m i < 2 ^ 32.
Proof. apply be32_bound. Qed.

(** ** Frames *)

Definition in_hdr (a : Z) : Prop := in_range fdt 40 a.

Lemma hdr_agree m m' i : 0 <= i <= 36 -> agree in_hdr m m' -> hdr m' i = hdr m i.
Proof. intros Hi H. apply be32_agree. eapply agree_weaken; [|exact H]. unfold in_hdr, in_range. lia. Qed.

(** A token reads its own bytes and the strings. *)
Definition tok_bytes (m : memory) (off : Z) (t : swtok) (a : Z) : Prop := in_range (sp m off) (tok_size t) a.
Definition str_bytes (m : memory) (a : Z) : Prop := in_range (fdt + h_total m - h_nstrings m) (h_nstrings m) a.

Lemma sw_string_frame m m' p name :
  hdr m' 4 = hdr m 4 -> hdr m 32 <= hdr m' 32 -> agree (str_bytes m) m m' -> sw_string m p name -> sw_string m' p name.
Proof.
  intros Et Es Ha (Hp & Hl & Hc). split; [lia|]. split; [done|]. rewrite Et. eapply cstr_ext; [|exact Hc].
  intros i Hi. apply Ha. unfold str_bytes, in_range. lia.
Qed.

Lemma sw_name_frame m m' : hdr m' 4 = hdr m 4 -> hdr m 32 <= hdr m' 32 -> agree (str_bytes m) m m' -> forall x name, sw_name m x name -> sw_name m' x name.
Proof. intros Et Es Ha x name (p & -> & H). exists p. split; [done|]. by apply (sw_string_frame m). Qed.

Lemma holds_tok_frame (R R' : Z -> list Z -> Prop) m m' off t :
  (forall x name, R x name -> R' x name) -> hdr m' 8 = hdr m 8 ->
  agree (tok_bytes m off t) m m' -> holds_tok R m off t -> holds_tok R' m' off t.
Proof.
  intros HR Eo Ha [H1 H2]. assert (Esp : forall x, sp m' x = sp m x) by (intros; unfold sp; by rewrite Eo).
  assert (Hin : forall x n, off <= x -> x + n <= off + tok_size t -> agree (in_range (sp m x) n) m m').
  { intros x n H3 H4. eapply agree_weaken; [|exact Ha]. unfold tok_bytes, in_range, sp in *. intros. lia. }
  pose proof (tok_size_spec t). split.
  { rewrite Esp, <- H1. apply be32_agree, Hin; lia. }
  destruct t as [name|name val| |]; simpl tok_size in *; [| |done|done].
  - rewrite Esp. eapply cstr_ext; [|exact H2]. intros i Hi. apply (Hin (off + 4) (len name + 1)); [lia| |unfold in_range; lia].
    pose proof (align4_spec (len name + 1)). lia.
  - destruct H2 as (E1 & Hb & Hn). rewrite !Esp. pose proof (align4_spec (len val)). split_and!.
    + rewrite <- E1. apply be32_agree, Hin; lia.
    + eapply bytes_at_ext; [|exact Hb]. intros i Hi. apply (Hin (off + 12) (len val)); [lia|lia|unfold in_range; lia].
    + rewrite (be32_agree m m') by (apply Hin; lia). by apply HR.
Qed.

Lemma holds_frame (R R' : Z -> list Z -> Prop) m m' off l :
  (forall x name, R x name -> R' x name) -> hdr m' 8 = hdr m 8 ->
  agree (in_range (sp m off) (toks_size l)) m m' -> holds R m off l -> holds R' m' off l.
Proof.
  intros HR Eo. revert off. induction l as [|t l IH]; intros off Ha H; simpl in *; [done|]. destruct H as [H1 H2].
  pose proof (tok_size_spec t). pose proof (toks_size_spec l). split.
  - apply (holds_tok_frame R R' m); try done. eapply agree_weaken; [|exact Ha]. unfold tok_bytes, in_range. intros. lia.
  - apply IH; [|done]. eapply agree_weaken; [|exact Ha]. unfold in_range, sp. intros. lia.
Qed.

Lemma holds_app R m off l l' : holds R m off (l ++ l') <-> holds R m off l /\ holds R m (off + toks_size l) l'.
Proof.
  revert off. induction l as [|t l IH]; intros off; simpl.
  - rewrite Z.add_0_r. tauto.
  - rewrite IH, Z.add_assoc. tauto.
Qed.

(** ** The operations' parts *)

Lemma header_frame m m' : sw_header m -> (forall i, i <> 32 -> i <> 36 -> 0 <= i <= 36 -> i mod 4 = 0 -> hdr m' i = hdr m i) ->
  h_struct m + hdr m' 36 + hdr m' 32 <= h_total m -> sw_header m'.
Proof. intros [] H Hr. split; rewrite ?(H 0), ?(H 4), ?(H 8), ?(H 12), ?(H 16), ?(H 20) by (lia || done); done. Qed.

Lemma wp_hdr i (Q : Z -> kst -> Prop) s : PAGE_SIZE <= fdt -> 0 <= i -> Q (hdr (mem s) i) s -> wp (fdt32_ld (fdt + i)) Q s.
Proof. intros Ha Hi HQ. apply wp_be32; [lia|done]. Qed.

Lemma wp_sw_probe_struct (Q : Z -> kst -> Prop) s : sw_header (mem s) -> Q 0 s -> wp (fdt_sw_probe_struct_ fdt) Q s.
Proof.
  intros H HQ. pose proof (sw_addr _ H). assert (Em : be32 (mem s) fdt = FDT_SW_MAGIC) by (rewrite <- (sw_magic _ H); unfold hdr; by rewrite Z.add_0_r).
  unfold fdt_sw_probe_struct_, fdt_sw_probe_, unless_err, fdt_magic, fdt_off_dt_strings, fdt_totalsize.
  do 2 wp_step. apply wp_be32; [done|]. rewrite Em. simpl. wp_step. apply wp_be32; [done|]. rewrite Em. simpl. wp_steps.
  apply wp_hdr; [lia|lia|]. wp_step. apply wp_hdr; [lia|lia|]. rewrite (sw_strings _ H), Z.eqb_refl. by wp_steps.
Qed.

Lemma wp_grab_space n (Q : Z -> kst -> Prop) s :
  sw_header (mem s) -> 0 <= n < 2 ^ 31 ->
  (room (mem s) < n -> Q NULL s) ->
  (n <= room (mem s) -> Q (sp (mem s) (h_nstruct (mem s))) (set_mem (put32 (mem s) (fdt + 36) (h_nstruct (mem s) + n)) s)) ->
  wp (fdt_grab_space_ fdt n) Q s.
Proof.
  intros H Hn H0 H1. pose proof (sw_addr _ H). pose proof (sw_room _ H). pose proof (sw_total _ H). unfold INT_MAX in *.
  pose proof (hdr_bound (mem s) 36). pose proof (hdr_bound (mem s) 8). pose proof (hdr_bound (mem s) 32).
  unfold fdt_grab_space_, fdt_size_dt_struct, fdt_totalsize, fdt_off_dt_struct, fdt_size_dt_strings, room in *.
  do 4 (wp_step; apply wp_hdr; [lia|lia|]). rewrite u32_small, add64_small by lia.
  rewrite (proj2 (Z.ltb_ge (_ + n) _)) by lia. simpl orb.
  destruct (Z.ltb_spec (h_total (mem s) - h_struct (mem s) - h_nstrings (mem s)) (h_nstruct (mem s) + n)).
  { wp_step. apply H0. lia. }
  wp_step. unfold fdt_set_size_dt_struct, fdt_set_hdr_. rewrite u32_small by lia. apply wp_put32; [lia|].
  unfold fdt_offset_ptr_, fdt_off_dt_struct. wp_step. apply wp_hdr; [lia|lia|]. wp_step. rewrite s32_small by lia.
  rewrite set_mem_mem. assert (E : hdr (put32 (mem s) (fdt + 36) (h_nstruct (mem s) + n)) 8 = h_struct (mem s)) by (apply be32_put_ne; unfold disjoint; lia).
  rewrite E. apply H1. lia.
Qed.

(** What appending a token keeps. *)
Definition used (m : memory) (a : Z) : Prop :=
  in_hdr a /\ ~ in_range (fdt + 36) 4 a \/ in_range (sp m 0) (h_nstruct m) a \/ str_bytes m a.

Lemma writing_append m m' l t : writing m l -> tok_size t <= room m ->
  agree (used m) m m' -> hdr m' 36 = h_nstruct m + tok_size t -> holds_tok (sw_name m') m' (h_nstruct m) t -> writing m' (l ++ [t]).
Proof.
  intros [H1 H2 H3] Hr Ha E36 Ht.
  assert (Eh : forall i, i <> 36 -> 0 <= i <= 36 -> i mod 4 = 0 -> hdr m' i = hdr m i).
  { intros i Hi Hb Hm. apply be32_agree. eapply agree_weaken; [|exact Ha]. intros a Hin. left. unfold in_hdr, in_range in *. zdm. }
  split.
  - apply (header_frame m); [done|by intros; apply Eh|]. rewrite E36, Eh by done. unfold room in Hr. lia.
  - rewrite E36, toks_size_app, H2. simpl. lia.
  - apply holds_app. simpl. rewrite Z.add_0_l, <- H2. split; [|done].
    apply (holds_frame (sw_name m) _ m); [apply sw_name_frame; [by apply Eh|by rewrite Eh|]|by apply Eh| |done];
      (eapply agree_weaken; [|exact Ha]); intros a Hin; right; [by right|]. left. by rewrite H2.
Qed.

(** Memory outside the buffer. *)
Definition outside (m : memory) (a n : Z) : Prop := PAGE_SIZE <= a /\ (a + n <= fdt \/ fdt + h_total m <= a).

(** Only the buffer changes. *)
Definition only_buf (m m' : memory) : Prop := agree (fun a => ~ in_range fdt (h_total m) a) m m'.

Lemma FDT_TAGALIGN_align n : 0 <= n < 2 ^ 32 -> FDT_TAGALIGN n = align4 n.
Proof. apply FDT_TAGALIGN_spec. Qed.

(** A step of the construction: the tokens are now [l], and at most [n] bytes
    of room are gone. *)
Record step_to (m m' : memory) (l : list swtok) (n : Z) : Prop := {
  st_writing : writing m' l;
  st_buf : only_buf m m';
  st_total : hdr m' 4 = hdr m 4;
  st_room : room m - n <= room m';
}.

(** The memory after [fdt_grab_space_]. *)
Definition grabbed (m : memory) (n : Z) : memory := put32 m (fdt + 36) (h_nstruct m + n).

(** Writing a token into the space grabbed for it. *)
Lemma emit m m' l t : writing m l -> tok_size t <= room m ->
  agree (fun a => ~ in_range (sp m (h_nstruct m)) (tok_size t) a) (grabbed m (tok_size t)) m' ->
  (sp m' = sp m -> hdr m' 4 = hdr m 4 -> hdr m' 32 = hdr m 32 -> agree (str_bytes m) m m' -> holds_tok (sw_name m') m' (h_nstruct m) t) ->
  step_to m m' (l ++ [t]) (tok_size t).
Proof.
  intros H Hr Ha Ht. pose proof (wg_header _ _ H) as Hh. pose proof (sw_room _ Hh). pose proof (sw_rsv _ Hh). pose proof (sw_total _ Hh).
  pose proof (hdr_bound m 36). pose proof (hdr_bound m 32). pose proof (tok_size_spec t). unfold room, INT_MAX in *.
  assert (A1 : agree (fun a => ~ in_range (fdt + 36) 4 a) m (grabbed m (tok_size t))) by (apply put32_agree; auto).
  assert (A : agree (fun a => ~ in_range (fdt + 36) 4 a /\ ~ in_range (sp m (h_nstruct m)) (tok_size t) a) m m').
  { etrans; [eapply agree_weaken; [|exact A1]|eapply agree_weaken; [|exact Ha]]; tauto. }
  assert (Au : agree (used m) m m').
  { eapply agree_weaken; [|exact A]. unfold used, in_hdr, str_bytes, in_range, sp. intros a Hu. lia. }
  assert (Eh : forall i, i <> 36 -> 0 <= i <= 36 -> i mod 4 = 0 -> hdr m' i = hdr m i).
  { intros i Hi Hb Hm. apply be32_agree. eapply agree_weaken; [|exact Au]. intros a Hin. left. unfold in_hdr, in_range in *. zdm. }
  assert (E36 : hdr m' 36 = h_nstruct m + tok_size t).
  { transitivity (hdr (grabbed m (tok_size t)) 36); [|apply be32_put; lia]. apply be32_agree. eapply agree_weaken; [|exact Ha].
    unfold in_range, sp. intros a Hin. lia. }
  split.
  - apply (writing_append m); [done|exact Hr|done|done|].
    apply Ht; [|by apply Eh|by apply Eh|]; [unfold sp; by rewrite Eh|]. eapply agree_weaken; [|exact Au]. unfold used. auto.
  - eapply agree_weaken; [|exact A]. unfold in_range, sp. intros a Hn. lia.
  - by apply Eh.
  - unfold room. rewrite E36, !Eh by done. lia.
Qed.

(** Tokens that are a tag and nothing else. *)
Lemma emit_tag m l t : t = SwEnd \/ t = SwStop -> writing m l -> 4 <= room m ->
  let m' := put32 (grabbed m 4) (sp m (h_nstruct m)) (tok_tag t) in step_to m m' (l ++ [t]) 4.
Proof.
  intros Ht H Hr m'. assert (Es : tok_size t = 4) by (by destruct Ht as [-> | ->]). rewrite <- Es. apply emit; rewrite ?Es; [done|done|by apply put32_agree|].
  intros E _ _ _. unfold holds_tok. rewrite E. split; [|by destruct Ht as [-> | ->]]. apply be32_put. by destruct Ht as [-> | ->].
Qed.

Lemma wp_end_node l (Q : Z -> kst -> Prop) s :
  writing (mem s) l ->
  (room (mem s) < tok_size SwEnd -> Q (- FDT_ERR_NOSPACE) s) ->
  (forall m', step_to (mem s) m' (l ++ [SwEnd]) 4 -> Q 0 (set_mem m' s)) ->
  wp (fdt_end_node fdt) Q s.
Proof.
  intros H H0 H1. pose proof (wg_header _ _ H) as Hh. pose proof (sw_addr _ Hh). pose proof (hdr_bound (mem s) 8). pose proof (hdr_bound (mem s) 36).
  unfold fdt_end_node, unless_err. wp_step. apply wp_sw_probe_struct; [done|].
  simpl. wp_step. apply wp_grab_space; [done|unfold FDT_TAGSIZE; lia| |].
  { intros Hr. simpl. wp_step. by apply H0. }
  intros Hr. rewrite (proj2 (Z.eqb_neq _ _)) by (unfold sp, NULL, PAGE_SIZE in *; lia). wp_step. apply wp_put32; [unfold sp; lia|].
  wp_step. rewrite set_mem_mem, set_mem_twice. apply H1, (emit_tag (mem s) l SwEnd); [auto|done|exact Hr].
Qed.

Lemma wp_begin_node name nm l (Q : Z -> kst -> Prop) s :
  writing (mem s) l -> cstr (mem s) name nm -> outside (mem s) name (len nm + 1) -> len nm < 2 ^ 31 - 8 ->
  (room (mem s) < tok_size (SwBegin nm) -> Q (- FDT_ERR_NOSPACE) s) ->
  (forall m', step_to (mem s) m' (l ++ [SwBegin nm]) (tok_size (SwBegin nm)) -> Q 0 (set_mem m' s)) ->
  wp (fdt_begin_node fdt name) Q s.
Proof.
  intros H Hc [Hp Ho] Hl H0 H1. pose proof (wg_header _ _ H) as Hh. pose proof (sw_addr _ Hh). pose proof (hdr_bound (mem s) 8). pose proof (hdr_bound (mem s) 36).
  pose proof (align4_spec (len nm + 1)) as [_ Hal]. pose proof (sw_room _ Hh). pose proof (sw_rsv _ Hh). pose proof (hdr_bound (mem s) 32).
  unfold fdt_begin_node, unless_err. wp_step. apply wp_sw_probe_struct; [done|].
  simpl. wp_step. apply (wp_strlen name nm); [done|done|lia|]. rewrite s32_small, FDT_TAGALIGN_align, add64_small by lia. wp_step.
  apply wp_grab_space; [done|lia| |].
  { intros Hr. simpl. wp_step. by apply H0. }
  intros Hr. rewrite (proj2 (Z.eqb_neq _ _)) by (unfold sp, NULL, PAGE_SIZE in *; lia). wp_step. apply wp_put32; [unfold sp; lia|].
  rewrite set_mem_mem, set_mem_twice. wp_step. set (m1 := put32 _ _ FDT_BEGIN_NODE). unfold room, sp in *.
  rewrite u64_small by lia. apply wp_memcpy; [lia|lia|lia|lia|]. rewrite set_mem_mem. intros m' Em. rewrite set_mem_twice. wp_step.
  apply H1, emit; [done|done| |].
  - etrans; [eapply agree_weaken; [|apply (put32_agree (fun a => ~ in_range (sp (mem s) (hdr (mem s) 36)) 4 a)); auto]|eapply agree_weaken; [|exact (moved_agree _ _ _ _ _ Em)]];
      unfold in_range, sp; simpl tok_size; intros a Ha; lia.
  - intros Es _ _ _. unfold holds_tok. rewrite !Es. split.
    + transitivity (be32 m1 (sp (mem s) (hdr (mem s) 36))); [|by apply be32_put]. apply be32_agree. eapply agree_weaken; [|exact (moved_agree _ _ _ _ _ Em)].
      unfold in_range, sp. intros a Ha. lia.
    + eapply cstr_ext; [|exact Hc]. intros i Hi. unfold sp. rewrite Z.add_assoc, (moved_in _ _ _ _ _ i Em) by lia.
      assert (A : agree (fun a => ~ in_range fdt (h_total (mem s)) a) (mem s) m1); [|apply A; unfold in_range; lia].
      etrans; apply put32_agree; unfold in_range; intros a Ha; lia.
Qed.

(** ** Names of properties *)

Lemma only_buf_outside m m' a n b : only_buf m m' -> outside m a n -> in_range a n b -> ldb m' b = ldb m b.
Proof. intros H [_ Ho] Hb. apply H. unfold in_range in *. lia. Qed.

Lemma only_buf_cstr m m' a nm : only_buf m m' -> outside m a (len nm + 1) -> cstr m a nm -> cstr m' a nm.
Proof. intros H Ho. apply cstr_ext. intros i Hi. apply (only_buf_outside m m' a (len nm + 1)); [done|done|]. unfold in_range. lia. Qed.

(** Changes to the strings that keep those there are. *)
Lemma writing_strings m m' l : writing m l ->
  (forall i, i <> 32 -> 0 <= i <= 36 -> i mod 4 = 0 -> hdr m' i = hdr m i) ->
  h_nstrings m <= h_nstrings m' -> h_struct m + h_nstruct m + h_nstrings m' <= h_total m ->
  agree (fun a => in_range (sp m 0) (h_nstruct m) a \/ str_bytes m a) m m' -> writing m' l.
Proof.
  intros [H1 H2 H3] Eh Hs Hr Ha. split.
  - apply (header_frame m); [done|intros; by apply Eh|]. by rewrite (Eh 36).
  - by rewrite (Eh 36).
  - apply (holds_frame (sw_name m) _ m); [apply sw_name_frame; [by apply Eh|done|]|by apply Eh| |done];
      (eapply agree_weaken; [|exact Ha]); intros a Hin; [by right|left; by rewrite H2].
Qed.

(** The name [nm] lies [p] bytes before the end, in strings that have grown by
    [k] bytes. *)
Record named (m m' : memory) (l : list swtok) (nm : list Z) (p k : Z) : Prop := {
  nd_writing : writing m' l;
  nd_string : sw_string m' p nm;
  nd_buf : only_buf m m';
  nd_hdr i : i <> 32 -> 0 <= i <= 36 -> i mod 4 = 0 -> hdr m' i = hdr m i;
  nd_grown : h_nstrings m' = h_nstrings m + k;
  nd_kept : agree (fun a => in_range (sp m 0) (h_nstruct m) a \/ str_bytes m a) m m';
}.

Lemma wp_add_string l name nm (Q : Z -> kst -> Prop) s :
  writing (mem s) l -> cstr (mem s) name nm -> outside (mem s) name (len nm + 1) -> h_nstrings (mem s) + len nm + 1 <= h_total (mem s) ->
  (room (mem s) < len nm + 1 -> Q 0 s) ->
  (forall p m', named (mem s) m' l nm p (len nm + 1) -> Q (- p) (set_mem m' s)) ->
  wp (fdt_add_string_ fdt name) Q s.
Proof.
  intros H Hc [Hp Ho] Hl H0 H1. pose proof (wg_header _ _ H) as Hh. pose proof (sw_addr _ Hh). pose proof (sw_room _ Hh). pose proof (sw_rsv _ Hh).
  pose proof (sw_total _ Hh). unfold INT_MAX in *. pose proof (hdr_bound (mem s) 8). pose proof (hdr_bound (mem s) 36). pose proof (hdr_bound (mem s) 32).
  unfold fdt_add_string_, fdt_totalsize, fdt_size_dt_strings, fdt_off_dt_struct, fdt_size_dt_struct.
  do 2 (wp_step; apply wp_hdr; [lia|lia|]). wp_step. apply (wp_strlen name nm); [done|done|lia|].
  do 3 (wp_step; apply wp_hdr; [lia|lia|]). rewrite (u32_small (len nm + 1)), (u32_small (_ + (len nm + 1))), !u32_small by lia. unfold room in *.
  destruct (Z.ltb_spec (h_total (mem s) - (h_nstrings (mem s) + (len nm + 1))) (h_struct (mem s) + h_nstruct (mem s))) as [Hr|Hr].
  { wp_step. apply H0. lia. }
  set (p := h_nstrings (mem s) + (len nm + 1)) in *. wp_step. apply wp_memcpy; [lia|lia|lia|lia|]. intros m1 Em.
  wp_step. unfold fdt_set_size_dt_strings, fdt_set_hdr_. rewrite u32_small by lia. apply wp_put32; [lia|]. rewrite set_mem_mem, set_mem_twice.
  wp_step. rewrite s32_small by lia. set (m' := put32 _ _ _). pose proof (moved_agree _ _ _ _ _ Em) as A1.
  assert (A : agree (fun a => ~ in_range (fdt + h_total (mem s) - p) (len nm + 1) a /\ ~ in_range (fdt + 32) 4 a) (mem s) m').
  { etrans; [eapply agree_weaken; [|exact A1]|apply put32_agree]; tauto. }
  assert (Eh : forall i, i <> 32 -> 0 <= i <= 36 -> i mod 4 = 0 -> hdr m' i = hdr (mem s) i).
  { intros i Hi Hb Hm. apply be32_agree. eapply agree_weaken; [|exact A]. unfold in_range. intros a Ha. zdm. }
  assert (E32 : hdr m' 32 = p) by (apply be32_put; lia).
  assert (Ak : agree (fun a => in_range (sp (mem s) 0) (h_nstruct (mem s)) a \/ str_bytes (mem s) a) (mem s) m').
  { eapply agree_weaken; [|exact A]. unfold str_bytes, in_range, sp. intros a Ha. lia. }
  apply H1. split; [| | |done|lia|done].
  - apply (writing_strings (mem s)); [done|done|lia|lia|done].
  - unfold sw_string. rewrite E32, (Eh 4) by done. split; [lia|]. split; [lia|]. eapply cstr_ext; [|exact Hc]. intros i Hi.
    rewrite <- (moved_in _ _ _ _ _ i Em) by lia. apply put32_agree with (P := fun a => ~ in_range (fdt + 32) 4 a); [auto|]. unfold in_range. lia.
  - eapply agree_weaken; [|exact A]. unfold in_range. intros a Ha. lia.
Qed.

Lemma wp_find_string a k name nm (Q : Z -> kst -> Prop) s :
  cstr (mem s) name nm -> PAGE_SIZE <= name -> PAGE_SIZE <= a -> 0 <= k < 2 ^ 31 -> len nm < 2 ^ 31 - 1 ->
  Q NULL s -> (forall p, a <= p -> p + len nm + 1 <= a + k -> cstr (mem s) p nm -> Q p s) ->
  wp (fdt_find_string_ a k name) Q s.
Proof.
  intros Hc Hn Ha Hk Hl H0 H1. unfold fdt_find_string_. wp_step. apply (wp_strlen name nm); [done|done|lia|]. rewrite s32_small by lia.
  apply (wp_while (fun p s' => s' = s /\ a <= p <= a + k) (fun p _ => a + k - p)).
  - split; [done|lia].
  - lia.
  - intros p s' [-> Hp] _. destruct (Z.leb_spec p (a + k - (len nm + 1))) as [Hle|]; [|by wp_step].
    rewrite u64_small by lia. wp_step. apply wp_memcmp; [lia|done|lia|]. intros r Hr.
    destruct (Z.eqb_spec r 0) as [->|Hne]; wp_step; [|split; [split; [done|lia]|lia]].
    destruct Hr as [[_ E]|(i & _ & _ & [[? _]|[? _]])]; [|lia|lia]. apply H1; [lia|lia|]. eapply cstr_ext; [|exact Hc].
    intros i Hi. apply E. lia.
Qed.

Lemma wp_find_add_string l name nm (Q : Z * bool -> kst -> Prop) s :
  writing (mem s) l -> cstr (mem s) name nm -> outside (mem s) name (len nm + 1) -> h_nstrings (mem s) + len nm + 1 <= h_total (mem s) ->
  (forall b, room (mem s) < len nm + 1 -> Q (0, b) s) ->
  (forall p (b : bool) m', named (mem s) m' l nm p (if b then len nm + 1 else 0) -> Q (- p, b) (set_mem m' s)) ->
  wp (fdt_find_add_string_ fdt name) Q s.
Proof.
  intros H Hc Ho Hl H0 H1. pose proof (wg_header _ _ H) as Hh. pose proof (sw_addr _ Hh). pose proof (sw_room _ Hh). pose proof (sw_rsv _ Hh).
  pose proof (sw_total _ Hh). unfold INT_MAX in *. pose proof (hdr_bound (mem s) 36). pose proof (hdr_bound (mem s) 32).
  unfold fdt_find_add_string_, fdt_totalsize, fdt_size_dt_strings. do 2 (wp_step; apply wp_hdr; [lia|lia|]). wp_step. rewrite s32_small by lia.
  set (strtab := fdt + h_total (mem s)). set (k := hdr (mem s) 32) in *.
  assert (Hadd : wp (nameoff ← fdt_add_string_ fdt name; mret (nameoff, true)) Q s).
  { wp_step. apply (wp_add_string l name nm); try done; intros; wp_step; [by apply H0|by apply (H1 _ true)]. }
  apply (wp_find_string _ _ name nm); [done|apply Ho|unfold strtab; lia|lia|lia|exact Hadd|].
  intros p Hp Hpe Hcp. rewrite (proj2 (Z.eqb_neq p NULL)) by (unfold NULL, PAGE_SIZE, strtab in *; lia). simpl negb. wp_step.
  rewrite s32_small by lia. specialize (H1 (strtab - p) false (mem s)). rewrite set_mem_id in H1.
  replace (p - strtab) with (- (strtab - p)) by lia. apply H1.
  split; try done; [|lia]. unfold sw_string. fold k strtab. split; [lia|]. split; [lia|]. by replace (strtab - (strtab - p)) with p by lia.
Qed.

(** Taking the last string back. *)
Lemma wp_del_last_string m0 l name nm p (Q : unit -> kst -> Prop) s :
  writing m0 l -> named m0 (mem s) l nm p (len nm + 1) -> cstr (mem s) name nm -> PAGE_SIZE <= name -> len nm < 2 ^ 31 - 1 ->
  (forall m', writing m' l -> only_buf (mem s) m' -> Q tt (set_mem m' s)) ->
  wp (fdt_del_last_string_ fdt name) Q s.
Proof.
  intros H N Hc Hp Hl HQ. pose proof (wg_header _ _ H) as Hh. pose proof (sw_addr _ Hh). pose proof (sw_room _ Hh). pose proof (sw_rsv _ Hh).
  pose proof (sw_total _ Hh). unfold INT_MAX in *. pose proof (hdr_bound m0 36). pose proof (hdr_bound m0 32). pose proof (nd_grown _ _ _ _ _ _ N) as Eg.
  pose proof (sw_room _ (wg_header _ _ (nd_writing _ _ _ _ _ _ N))) as Hr. rewrite (nd_hdr _ _ _ _ _ _ N 8), (nd_hdr _ _ _ _ _ _ N 36), (nd_hdr _ _ _ _ _ _ N 4), Eg in Hr by done.
  unfold fdt_del_last_string_, fdt_size_dt_strings. wp_step. apply wp_hdr; [lia|lia|]. wp_step. apply (wp_strlen name nm); [done|done|lia|].
  unfold fdt_set_size_dt_strings, fdt_set_hdr_. rewrite Eg, !s32_small by lia. replace (_ + (len nm + 1) - (len nm + 1)) with (hdr m0 32) by lia.
  rewrite u32_small by lia. apply wp_put32; [lia|]. set (m' := put32 _ _ _).
  assert (A : agree (fun a => ~ in_range (fdt + 32) 4 a) (mem s) m') by (apply put32_agree; auto).
  apply HQ; [|eapply agree_weaken; [|exact A]; rewrite (nd_hdr _ _ _ _ _ _ N 4) by done; unfold in_range; lia].
  assert (E32 : hdr m' 32 = hdr m0 32) by (apply be32_put; lia). apply (writing_strings m0); [done| |lia|lia|].
  - intros i Hi Hb Hm. rewrite <- (nd_hdr _ _ _ _ _ _ N i) by done. apply be32_agree. eapply agree_weaken; [|exact A]. unfold in_range. intros a Ha. zdm.
  - etrans; [apply N|]. eapply agree_weaken; [|exact A]. unfold str_bytes, in_range, sp. lia.
Qed.

(** ** Properties *)

(** The name of a new property, with or without looking for an old one. *)
Lemma wp_new_name l name nm flags (Q : Z * bool -> kst -> Prop) s :
  writing (mem s) l -> cstr (mem s) name nm -> outside (mem s) name (len nm + 1) -> h_nstrings (mem s) + len nm + 1 <= h_total (mem s) ->
  (forall b, room (mem s) < len nm + 1 -> Q (0, b) s) ->
  (forall p (b : bool) m', named (mem s) m' l nm p (if b then len nm + 1 else 0) -> Q (- p, b) (set_mem m' s)) ->
  wp (if negb (flags &l FDT_CREATE_FLAG_NO_NAME_DEDUP =? 0) then nameoff ← fdt_add_string_ fdt name; mret (nameoff, true)
      else fdt_find_add_string_ fdt name) Q s.
Proof.
  intros H Hc Ho Hl H0 H1. destruct (_ =? 0); simpl negb; cbn match; [by apply (wp_find_add_string l name nm)|].
  wp_step. apply (wp_add_string l name nm); try done; intros; wp_step; [by apply H0|by apply (H1 _ true)].
Qed.

(** The header of a property's token, written into the space grabbed. *)
Definition prop_header (m : memory) (prop p n : Z) : memory :=
  put32 (put32 (put32 m prop FDT_PROP) (prop_nameoff prop) (2 ^ 32 - p)) (prop_len prop) n.

Lemma prop_header_spec m prop p n : 0 < p < 2 ^ 32 -> 0 <= n < 2 ^ 32 ->
  be32 (prop_header m prop p n) prop = FDT_PROP /\ be32 (prop_header m prop p n) (prop + 4) = n /\ be32 (prop_header m prop p n) (prop + 8) = 2 ^ 32 - p /\
  agree (fun a => ~ in_range prop 12 a) m (prop_header m prop p n).
Proof.
  intros Hp Hn. unfold prop_header, prop_nameoff, prop_len. split_and!.
  - rewrite !be32_put_ne by (unfold disjoint; lia). by apply be32_put.
  - by apply be32_put.
  - rewrite be32_put_ne by (unfold disjoint; lia). apply be32_put. lia.
  - etrans; [apply put32_agree|etrans; apply put32_agree]; unfold in_range; lia.
Qed.

Lemma wp_property_placeholder l name nm n (Q : Z * Z -> kst -> Prop) s :
  writing (mem s) l -> cstr (mem s) name nm -> outside (mem s) name (len nm + 1) -> h_nstrings (mem s) + len nm + 1 <= h_total (mem s) ->
  0 <= n < 2 ^ 31 - 16 ->
  (forall m', writing m' l -> only_buf (mem s) m' -> room (mem s) < 12 + align4 n + (len nm + 1) -> Q (- FDT_ERR_NOSPACE, NULL) (set_mem m' s)) ->
  (forall m1 p k, named (mem s) m1 l nm p k -> k <= len nm + 1 -> 12 + align4 n <= room m1 -> 0 < p < 2 ^ 31 ->
     Q (0, sp m1 (h_nstruct m1 + 12)) (set_mem (prop_header (grabbed m1 (12 + align4 n)) (sp m1 (h_nstruct m1)) p n) s)) ->
  wp (fdt_property_placeholder fdt name n) Q s.
Proof.
  intros H Hc Ho Hl Hn H0 H1. pose proof (wg_header _ _ H) as Hh. pose proof (sw_addr _ Hh). pose proof (sw_room _ Hh). pose proof (sw_rsv _ Hh).
  pose proof (sw_total _ Hh). unfold INT_MAX in *. pose proof (hdr_bound (mem s) 36). pose proof (hdr_bound (mem s) 32). pose proof (align4_spec n) as [_ Hal].
  unfold fdt_property_placeholder. wp_step. apply wp_sw_probe_struct; [done|]. simpl negb. cbn match. unfold sw_flags, fdt_last_comp_version.
  wp_step. apply wp_hdr; [lia|lia|]. wp_step. apply (wp_new_name l name nm); [done..| |].
  { intros b Hr. wp_step. specialize (H0 (mem s)). rewrite set_mem_id in H0. apply H0; [done|done|lia]. }
  intros p b m1 N. pose proof (nd_writing _ _ _ _ _ _ N) as H'. pose proof (wg_header _ _ H') as Hh1. pose proof (nd_grown _ _ _ _ _ _ N) as Eg.
  pose proof (nd_hdr _ _ _ _ _ _ N 8 ltac:(done) ltac:(lia) ltac:(done)) as E8. pose proof (nd_hdr _ _ _ _ _ _ N 36 ltac:(done) ltac:(lia) ltac:(done)) as E36.
  pose proof (nd_hdr _ _ _ _ _ _ N 4 ltac:(done) ltac:(lia) ltac:(done)) as E4.
  destruct (nd_string _ _ _ _ _ _ N) as (Hp & _). pose proof (sw_room _ Hh1). pose proof (hdr_bound m1 8).
  assert (Hpb : 0 < p < 2 ^ 31) by lia. rewrite (proj2 (Z.eqb_neq (- p) 0)) by lia. wp_step.
  change sizeof_fdt_property with 12. rewrite FDT_TAGALIGN_align, add64_small by lia. apply wp_grab_space; rewrite ?set_mem_mem; [done|lia| |].
  - intros Hr. simpl (NULL =? NULL). cbn match. assert (Hr' : room (mem s) < 12 + align4 n + (len nm + 1)) by (unfold room in *; destruct b; lia).
    wp_step. destruct b; cbn [when]; [|wp_step; wp_step; apply H0; [done|apply N|done]].
    apply (wp_del_last_string (mem s) l name nm p); [done|done|rewrite set_mem_mem; apply (only_buf_cstr (mem s)); [apply N|done|done]|apply Ho|lia|].
    rewrite set_mem_mem. intros m2 W2 B2. rewrite set_mem_twice. wp_step. apply H0; [done| |done].
    unfold only_buf in B2 |- *. rewrite E4 in B2. etrans; [apply (nd_buf _ _ _ _ _ _ N)|exact B2].
  - intros Hr. rewrite (proj2 (Z.eqb_neq _ _)) by (unfold sp, NULL, PAGE_SIZE in *; lia).
    assert (Hsp : PAGE_SIZE <= sp m1 (hdr m1 36)) by (unfold sp; lia). rewrite set_mem_twice.
    wp_step. apply wp_put32; [done|]. wp_step. apply wp_put32; [unfold prop_nameoff; lia|]. wp_step. apply wp_put32; [unfold prop_len; lia|].
    wp_step. rewrite !set_mem_mem, !set_mem_twice.
    replace (u32 (- p)) with (2 ^ 32 - p) by (unfold u32; zdm). rewrite u32_small by lia.
    replace (prop_data (sp m1 (hdr m1 36))) with (sp m1 (hdr m1 36 + 12)) by (unfold prop_data, sp; lia).
    refine (H1 m1 p _ N _ Hr Hpb). destruct b; lia.
Qed.

Lemma wp_property l name nm val v (Q : Z -> kst -> Prop) s :
  writing (mem s) l -> cstr (mem s) name nm -> outside (mem s) name (len nm + 1) -> h_nstrings (mem s) + len nm + 1 <= h_total (mem s) ->
  bytes_at (mem s) val v -> outside (mem s) val (len v) -> len v < 2 ^ 31 - 16 ->
  (forall m', writing m' l -> only_buf (mem s) m' -> room (mem s) < tok_size (SwProp nm v) + (len nm + 1) -> Q (- FDT_ERR_NOSPACE) (set_mem m' s)) ->
  (forall m', step_to (mem s) m' (l ++ [SwProp nm v]) (tok_size (SwProp nm v) + (len nm + 1)) -> Q 0 (set_mem m' s)) ->
  wp (fdt_property fdt name val (len v)) Q s.
Proof.
  intros H Hc Ho Hl Hb Hov Hn H0 H1. pose proof (sw_addr _ (wg_header _ _ H)). pose proof (sw_rsv _ (wg_header _ _ H)).
  unfold fdt_property. wp_step. apply (wp_property_placeholder l name nm (len v)); [done..|lia| |].
  { intros m' W B Hr. simpl. wp_step. by apply H0. }
  intros m1 p k N Hk Hr Hp. pose proof (nd_writing _ _ _ _ _ _ N) as W1. pose proof (align4_spec (len v)) as [_ Hal].
  pose proof (sw_room _ (wg_header _ _ W1)) as Hrm. pose proof (hdr_bound m1 36). pose proof (hdr_bound m1 32). unfold room in Hr.
  pose proof (nd_hdr _ _ _ _ _ _ N 8 ltac:(done) ltac:(lia) ltac:(done)) as E8. pose proof (nd_hdr _ _ _ _ _ _ N 4 ltac:(done) ltac:(lia) ltac:(done)) as E4.
  set (prop := sp m1 (hdr m1 36)). destruct (prop_header_spec (grabbed m1 (12 + align4 (len v))) prop p (len v)) as (P1 & P2 & P3 & P4); [lia|lia|].
  set (m2 := prop_header _ prop _ _) in *. destruct Hov as [Hv Hov]. simpl. wp_step. rewrite u64_small by lia.
  apply wp_memcpy; [unfold sp; lia|done|lia|unfold sp; lia|]. rewrite set_mem_mem. intros m' Em. rewrite set_mem_twice. wp_step.
  pose proof (moved_agree _ _ _ _ _ Em) as A1.
  assert (B2 : only_buf (mem s) m2).
  { unfold only_buf. etrans; [apply (nd_buf _ _ _ _ _ _ N)|]. etrans; [apply put32_agree|eapply agree_weaken; [|exact P4]]; unfold prop, sp, in_range; lia. }
  assert (A12 : agree (in_range prop 12) m2 m') by (eapply agree_weaken; [|exact A1]; unfold prop, sp, in_range; lia).
  assert (S : step_to m1 m' (l ++ [SwProp nm v]) (tok_size (SwProp nm v))).
  { apply emit; [done|done| |].
    { etrans; [eapply agree_weaken; [|exact P4]|eapply agree_weaken; [|exact A1]]; unfold prop, in_range, sp; simpl tok_size; intros a Ha; lia. }
    intros Es E4' E32 As. unfold holds_tok. rewrite !Es. fold prop.
    replace (sp m1 (hdr m1 36 + 4)) with (prop + 4) by (unfold prop, sp; lia). replace (sp m1 (hdr m1 36 + 8)) with (prop + 8) by (unfold prop, sp; lia).
    assert (Ew : forall i, 0 <= i <= 8 -> be32 m' (prop + i) = be32 m2 (prop + i)).
    { intros i Hi. apply be32_agree. eapply agree_weaken; [|exact A12]. unfold in_range. lia. }
    change (tok_tag (SwProp nm v)) with FDT_PROP. split_and!; [rewrite <- P1, <- (Z.add_0_r prop); by apply Ew|by rewrite Ew| |exists p; split; [by rewrite Ew|]].
    - intros i c Hi. rewrite (moved_in _ _ _ _ _ (Z.of_nat i) Em) by (apply lookup_lt_Some in Hi; lia). rewrite <- (Hb i c Hi).
      apply B2. apply lookup_lt_Some in Hi. unfold in_range. lia.
    - apply (sw_string_frame m1); [done|lia|done|apply N]. }
  destruct S as [S1 S2 S3 S4]. apply H1. split; [done| |by rewrite S3|].
  - unfold only_buf in *. rewrite E4 in S2. etrans; [apply (nd_buf _ _ _ _ _ _ N)|exact S2].
  - pose proof (nd_hdr _ _ _ _ _ _ N 36 ltac:(done) ltac:(lia) ltac:(done)) as E36. pose proof (nd_grown _ _ _ _ _ _ N) as Eg. unfold room in *. lia.
Qed.

(** ** Reading tokens *)

(** A structure block of version 17 inside its buffer. *)
Record scan_ok (m : memory) : Prop := {
  sc_addr : PAGE_SIZE <= fdt;
  sc_version : hdr m 20 = 17;
  sc_struct : h_struct m + h_nstruct m <= h_total m;
  sc_total : h_total m < INT_MAX;
}.

Lemma sw_scan m : sw_header m -> scan_ok m.
Proof. intros []. pose proof (hdr_bound m 32). split; try done. lia. Qed.

Lemma wp_offset_ptr off n (Q : Z -> kst -> Prop) s :
  scan_ok (mem s) -> 0 <= off -> 0 <= n -> off + n <= h_nstruct (mem s) -> Q (sp (mem s) off) s -> wp (fdt_offset_ptr fdt off n) Q s.
Proof.
  intros H Ho Hn Hs HQ. pose proof (sc_addr _ H). pose proof (sc_struct _ H). pose proof (sc_total _ H). unfold INT_MAX in *.
  pose proof (hdr_bound (mem s) 8). unfold fdt_offset_ptr, fdt_off_dt_struct, fdt_totalsize, fdt_version, fdt_size_dt_struct, orm, andm.
  wp_steps. apply wp_hdr; [lia|lia|]. rewrite (proj2 (Z.ltb_ge off 0)) by lia. rewrite (u32_small off), (u32_small (off + hdr (mem s) 8)), !u32_small by lia.
  rewrite !(proj2 (Z.ltb_ge _ _)) by lia. wp_steps. apply wp_hdr; [lia|lia|]. rewrite (proj2 (Z.ltb_ge _ _)) by lia.
  wp_steps. apply wp_hdr; [lia|lia|]. rewrite (sc_version _ H). simpl Z.leb. wp_steps. apply wp_hdr; [lia|lia|].
  rewrite (proj2 (Z.ltb_ge _ _)) by lia. wp_steps. unfold fdt_offset_ptr_, fdt_off_dt_struct. wp_steps. apply wp_hdr; [lia|lia|]. by wp_steps.
Qed.

Lemma wp_skip_name off nm (Q : option Z -> kst -> Prop) s :
  scan_ok (mem s) -> 0 <= off -> cstr (mem s) (sp (mem s) off) nm -> off + len nm + 1 <= h_nstruct (mem s) ->
  Q (Some (off + len nm + 1)) s -> wp (skip_name fdt off) Q s.
Proof.
  intros H Ho Hc Hs HQ. pose proof (sc_addr _ H). pose proof (sc_struct _ H). pose proof (sc_total _ H). unfold INT_MAX in *.
  pose proof (hdr_bound (mem s) 8). unfold skip_name.
  apply (wp_while (fun o s' => s' = s /\ off <= o <= off + len nm) (fun o _ => off + len nm - o)); [split; [done|lia]|lia|].
  intros o s' [-> Hor] _. wp_step. apply wp_offset_ptr; [done|lia|lia|lia|].
  rewrite (proj2 (Z.eqb_neq _ _)) by (unfold sp, NULL, PAGE_SIZE in *; lia). wp_steps; [unfold sp; lia|]. rewrite ld_1, s32_small by lia.
  replace (sp (mem s) o) with (sp (mem s) off + (o - off)) by (unfold sp; lia). pose proof (cstr_at (mem s) _ nm (o - off) Hc ltac:(lia)) as E.
  destruct (Z.eqb_spec (ldb (mem s) (sp (mem s) off + (o - off))) 0) as [E0|E0]; simpl negb; wp_step.
  - apply E in E0. by replace (o + 1) with (off + len nm + 1) by lia.
  - assert (o - off <> len nm) by tauto. split; [split; [done|]|]; lia.
Qed.

Lemma wp_skip_prop off n (Q : option Z -> kst -> Prop) s :
  scan_ok (mem s) -> 0 <= off -> be32 (mem s) (sp (mem s) off) = n -> off + 8 + n <= h_nstruct (mem s) ->
  Q (Some (off + 8 + n)) s -> wp (skip_prop fdt off) Q s.
Proof.
  intros H Ho En Hs HQ. pose proof (sc_addr _ H). pose proof (sc_struct _ H). pose proof (sc_total _ H). unfold INT_MAX in *.
  pose proof (hdr_bound (mem s) 8). pose proof (be32_bound (mem s) (sp (mem s) off)). rewrite En in *.
  unfold skip_prop, fdt32_ld_, fdt_version, andm. wp_step. apply wp_offset_ptr; [done|lia|lia|lia|].
  rewrite (proj2 (Z.eqb_neq _ _)) by (unfold sp, NULL, PAGE_SIZE in *; lia). wp_steps; [unfold sp; lia|]. rewrite fdt32_to_cpu_be, En.
  rewrite !u32_small by lia. rewrite (proj2 (Z.leb_gt _ _)), (proj2 (Z.ltb_ge _ _)) by (unfold INT_MAX; lia). wp_steps. apply wp_hdr; [lia|lia|].
  rewrite (sc_version _ H). simpl Z.ltb. wp_steps. rewrite s32_small by (unfold sizeof_fdt_property, FDT_TAGSIZE; lia).
  unfold sizeof_fdt_property, FDT_TAGSIZE. by replace (off + 12 - 4 + n) with (off + 8 + n) by lia.
Qed.

(** What [fdt_next_tag] does of a token. *)
Definition tok_at (m : memory) (off : Z) (t : swtok) : Prop := holds_tok (fun _ _ => True) m off t.

Lemma wp_next_tag off t (Q : Z * Z -> kst -> Prop) s :
  scan_ok (mem s) -> tok_at (mem s) off t -> 0 <= off -> off mod 4 = 0 -> off + tok_size t <= h_nstruct (mem s) ->
  Q (tok_tag t, off + tok_size t) s -> wp (fdt_next_tag fdt off) Q s.
Proof.
  intros H [Et Hd] Ho Hm Hs HQ. pose proof (sc_addr _ H). pose proof (sc_struct _ H). pose proof (sc_total _ H). unfold INT_MAX in *.
  pose proof (hdr_bound (mem s) 8). pose proof (tok_size_spec t) as [Hts _]. unfold fdt_next_tag, fdt32_ld_. wp_step.
  apply wp_offset_ptr; [done|lia|done|unfold FDT_TAGSIZE; lia|]. rewrite (proj2 (Z.eqb_neq _ _)) by (unfold sp, NULL, PAGE_SIZE in *; lia).
  wp_steps; [unfold sp; lia|]. rewrite fdt32_to_cpu_be, Et. unfold FDT_TAGSIZE. rewrite s32_small by lia.
  assert (Hfin : forall stop, off + 4 <= stop -> align4 stop = off + tok_size t ->
    wp (p ← fdt_offset_ptr fdt off (u32 (stop - off)); if p =? NULL then mret (FDT_END, - FDT_ERR_BADSTRUCTURE) else mret (tok_tag t, s32 (FDT_TAGALIGN stop))) Q s).
  { intros stop Hb1 Hb2. pose proof (align4_spec stop) as [_ Hb3]. wp_step. rewrite u32_small by lia. apply wp_offset_ptr; [done|lia|lia|lia|].
    rewrite (proj2 (Z.eqb_neq _ _)) by (unfold sp, NULL, PAGE_SIZE in *; lia). wp_step. by rewrite FDT_TAGALIGN_align, Hb2, s32_small by lia. }
  destruct t as [nm|nm v| |]; simpl tok_tag in *; simpl tok_size in *; cbn [FDT_BEGIN_NODE FDT_PROP FDT_END_NODE FDT_END Z.eqb Pos.eqb orb].
  - pose proof (align4_spec (len nm + 1)). apply (wp_skip_name _ nm); [done|lia|done|lia|]. apply Hfin; unfold align4 in *; zdm.
  - destruct Hd as (En & _). pose proof (align4_spec (len v)). apply (wp_skip_prop _ (len v)); [done|lia|done|lia|]. apply Hfin; unfold align4 in *; zdm.
  - wp_step. apply Hfin; unfold align4; zdm.
  - wp_step. apply Hfin; unfold align4; zdm.
Qed.
End tree.
