(* ===== verification/FdtFinish.v ===== *)
(** * Finishing a device tree

    [fdt_finish] moves the strings behind the structure block and rewrites
    the name of every property.  [unfixed] is the state of the tree while the
    loop runs, [finished] the tree it leaves, [finished_*] what reading it
    finds. *)

From S2P Require Import Prelude Memory Machine Strings ReadOnly Fdt FdtRo FdtRw FdtSw FdtProofs FdtLookup FdtSwProofs.

Abbreviation len l := (Z.of_nat (length l)).

Section finish.
Variable fdt : Z.

Abbreviation hdr := (hdr fdt).
Abbreviation sp := (sp fdt).
Abbreviation h_total m := (hdr m 4).
Abbreviation h_struct m := (hdr m 8).
Abbreviation h_strings m := (hdr m 12).
Abbreviation h_rsv m := (hdr m 16).
Abbreviation h_nstrings m := (hdr m 32).
Abbreviation h_nstruct m := (hdr m 36).

(** A name in the strings after they have moved: before and after its word
    has been rewritten. *)
Definition string_at (m : memory) (x : Z) (name : list Z) : Prop :=
  0 <= x /\ x + len name + 1 <= h_nstrings m /\ cstr m (fdt + h_strings m + x) name.
Definition moved_name (m : memory) (x : Z) (name : list Z) : Prop :=
  exists p, x = 2 ^ 32 - p /\ 0 < p <= h_nstrings m /\ string_at m (h_nstrings m - p) name.

Lemma string_at_frame m m' : hdr m' 12 = hdr m 12 -> hdr m' 32 = hdr m 32 -> agree (in_range (fdt + h_strings m) (h_nstrings m)) m m' ->
  forall x name, string_at m x name -> string_at m' x name.
Proof.
  intros E12 E32 Ha x name (H1 & H2 & H3). unfold string_at. rewrite E12, E32. split_and!; [done|done|]. eapply cstr_ext; [|exact H3].
  intros i Hi. apply Ha. unfold in_range. lia.
Qed.

Lemma moved_name_frame m m' : hdr m' 12 = hdr m 12 -> hdr m' 32 = hdr m 32 -> agree (in_range (fdt + h_strings m) (h_nstrings m)) m m' ->
  forall x name, moved_name m x name -> moved_name m' x name.
Proof.
  intros E12 E32 Ha x name (p & -> & Hp & H). exists p. rewrite E32. split_and!; [done|lia|lia|]. by apply (string_at_frame m).
Qed.

(** The tokens of [l1] have been rewritten, those of [l2] have not. *)
Record unfixed (m : memory) (l1 l2 : list swtok) : Prop := {
  uf_scan : scan_ok fdt m;
  uf_rsv : 40 <= h_rsv m <= h_struct m;
  uf_strings : h_strings m = h_struct m + h_nstruct m;
  uf_total : h_strings m + h_nstrings m <= h_total m;
  uf_size : h_nstruct m = toks_size (l1 ++ l2);
  uf_done : holds fdt (string_at m) m 0 l1;
  uf_todo : holds fdt (moved_name m) m (toks_size l1) l2;
}.

Lemma holds_tok_weaken (R R' : Z -> list Z -> Prop) m off t : (forall x name, R x name -> R' x name) -> holds_tok fdt R m off t -> holds_tok fdt R' m off t.
Proof. intros HR [H1 H2]. split; [done|]. destruct t; try done. destruct H2 as (? & ? & ?). auto. Qed.

(** One token further: a property's name word is rewritten. *)
Lemma fix_other m l1 t l2 : (forall nm v, t <> SwProp nm v) -> unfixed m l1 (t :: l2) -> unfixed m (l1 ++ [t]) l2.
Proof.
  intros Ht [H1 H2 H3 H4 H5 H6 [H7 H8]]. split; try done; [by rewrite <- app_assoc| |].
  - apply holds_app. simpl. split_and!; [done| |done]. destruct H7 as [E Hd]. split; [done|]. destruct t as [nm|nm v| |]; try done. by destruct (Ht nm v).
  - rewrite toks_size_app. simpl. by rewrite Z.add_0_r.
Qed.

Lemma fix_prop m l1 nm v l2 : unfixed m l1 (SwProp nm v :: l2) ->
  let a := sp m (toks_size l1 + 8) in
  be32 m a + h_nstrings m < 2 ^ 33 /\ unfixed (put32 m a (u32 (be32 m a + h_nstrings m))) (l1 ++ [SwProp nm v]) l2.
Proof.
  intros [H1 H2 H3 H4 H5 H6 [H7 H8]] a. pose proof (hdr_bound fdt m 32) as Bk. pose proof (be32_bound m a) as Ba. split; [lia|].
  rewrite toks_size_app in H5. simpl in H5. pose proof (toks_size_spec l1) as [Hs1 _]. pose proof (toks_size_spec l2) as [Hs2 _].
  pose proof (sc_addr _ _ H1). pose proof (align4_spec (len v)) as [_ Hal]. set (m' := put32 _ _ _).
  assert (A : agree (fun b => ~ in_range a 4 b) m m') by (apply put32_agree; auto).
  assert (Eh : forall i, 0 <= i <= 36 -> hdr m' i = hdr m i).
  { intros i Hi. apply be32_agree. eapply agree_weaken; [|exact A]. unfold a, sp, in_range. intros b Hb. lia. }
  assert (Ea : be32 m' a = u32 (be32 m a + h_nstrings m)) by (apply be32_put; apply Z.mod_pos_bound; lia).
  assert (As : agree (in_range (fdt + h_strings m) (h_nstrings m)) m m').
  { eapply agree_weaken; [|exact A]. unfold a, sp, in_range. intros b Hb. lia. }
  assert (Esp : forall x, sp m' x = sp m x) by (intros; unfold sp; by rewrite Eh by lia).
  split.
  - destruct H1. split; rewrite ?Eh by lia; done.
  - rewrite !Eh by lia. done.
  - rewrite !Eh by lia. done.
  - rewrite !Eh by lia. done.
  - rewrite Eh, <- app_assoc, toks_size_app by lia. simpl. done.
  - apply holds_app. simpl. split_and!; [|split; [|]|done].
    + apply (holds_frame fdt (string_at m) _ m); [apply string_at_frame; [by apply Eh|by apply Eh|done]|by apply Eh| |done].
      eapply agree_weaken; [|exact A]. unfold a, sp, in_range. intros b Hb. lia.
    + destruct H7 as [E _]. rewrite Esp, <- E. apply be32_agree. eapply agree_weaken; [|exact A]. unfold a, sp, in_range. intros b Hb. lia.
    + destruct H7 as (_ & En & Hv & p & Ex & Hp & Hn). rewrite !Esp. split_and!.
      * rewrite <- En. apply be32_agree. eapply agree_weaken; [|exact A]. unfold a, sp, in_range. intros b Hb. lia.
      * eapply bytes_at_ext; [|exact Hv]. intros i Hi. apply A. unfold a, sp, in_range. lia.
      * rewrite Z.add_0_l. change (sp m (toks_size l1 + 8)) with a in Ex |- *. rewrite Ea, Ex.
        replace (u32 (2 ^ 32 - p + hdr m 32)) with (hdr m 32 - p) by (unfold u32; zdm). apply (string_at_frame m); [by apply Eh|by apply Eh|done|done].
  - rewrite toks_size_app. simpl. rewrite Z.add_0_r. apply (holds_frame fdt (moved_name m) _ m); [apply moved_name_frame; [by apply Eh|by apply Eh|done]|by apply Eh| |done].
    eapply agree_weaken; [|exact A]. unfold a, sp, in_range. intros b Hb. lia.
Qed.

(** The loop, and all of the memory it changes. *)
Abbreviation outside_struct m := (fun a => ~ in_range (sp m 0) (h_nstruct m) a).

Lemma outside_hdr m m' l1 l2 : unfixed m l1 l2 -> agree (outside_struct m) m m' -> (forall i, 0 <= i <= 36 -> hdr m' i = hdr m i) /\ only_buf fdt m m'.
Proof.
  intros U Ha. pose proof (uf_rsv _ _ _ U). pose proof (sc_struct _ _ (uf_scan _ _ _ U)). split.
  - intros i Hi. apply be32_agree. eapply agree_weaken; [|exact Ha]. unfold FdtSwProofs.sp, in_range. intros b Hb. lia.
  - eapply agree_weaken; [|exact Ha]. unfold FdtSwProofs.sp, in_range. intros b Hb. lia.
Qed.

Definition fixing (s : kst) (l : list swtok) (off : Z) (s' : kst) : Prop := exists m l1 l2,
  s' = set_mem m s /\ l ++ [SwStop] = l1 ++ l2 /\ l2 <> [] /\ off = toks_size l1 /\ unfixed m l1 l2 /\ agree (outside_struct (mem s)) (mem s) m.

Lemma fixing_next s l m l1 t l2 : SwStop ∉ l -> l ++ [SwStop] = l1 ++ t :: l2 -> t <> SwStop -> unfixed m (l1 ++ [t]) l2 ->
  agree (outside_struct (mem s)) (mem s) m -> fixing s l (toks_size l1 + tok_size t) (set_mem m s).
Proof.
  intros Hl El Ht U Ag. exists m, (l1 ++ [t]), l2. split_and!; try done.
  - by rewrite <- app_assoc.
  - intros ->. apply (f_equal (fun x => last x)) in El. rewrite !last_snoc in El. injection El as <-. done.
  - rewrite toks_size_app. simpl. lia.
Qed.

Lemma stop_last l l1 l2 : SwStop ∉ l -> l ++ [SwStop] = l1 ++ SwStop :: l2 -> l2 = [] /\ l1 = l.
Proof.
  intros Hl E. destruct l2 as [|x l2 _] using rev_ind.
  - apply app_inj_tail in E as [-> _]. done.
  - rewrite app_comm_cons, app_assoc in E. apply app_inj_tail in E as [-> _]. destruct Hl. apply elem_of_app. right. apply list_elem_of_here.
Qed.

Lemma wp_fix_nameoffs l (Q : Z -> kst -> Prop) s :
  SwStop ∉ l -> unfixed (mem s) [] (l ++ [SwStop]) ->
  (forall m', unfixed m' (l ++ [SwStop]) [] -> agree (outside_struct (mem s)) (mem s) m' -> Q (toks_size (l ++ [SwStop])) (set_mem m' s)) ->
  wp (fix_nameoffs fdt) Q s.
Proof.
  intros Hl HU HQ. unfold fix_nameoffs. pose proof (uf_size _ _ _ HU) as E0. simpl app in E0.
  apply (wp_while (fixing s l) (fun off s' => toks_size (l ++ [SwStop]) - off)).
  { exists (mem s), [], (l ++ [SwStop]). rewrite set_mem_id. split_and!; try done. by destruct l. }
  { pose proof (hdr_bound fdt (mem s) 36). lia. }
  intros off s' (m' & l1 & l2 & -> & El & Hne & -> & U & Ag) _. destruct l2 as [|t l2]; [done|]. pose proof (uf_todo _ _ _ U) as [Ht _].
  pose proof (uf_size _ _ _ U) as Es. rewrite toks_size_app in Es. simpl in Es. pose proof (toks_size_spec l1). pose proof (toks_size_spec l2). pose proof (tok_size_spec t).
  wp_step. apply (wp_next_tag fdt _ t); [apply U|by apply (holds_tok_weaken (moved_name m'))|lia|lia|simpl; lia|].
  pose proof (hdr_bound fdt m' 32) as Bk. pose proof (sc_addr _ _ (uf_scan _ _ _ U)) as Hfdt. pose proof (hdr_bound fdt m' 8).
  destruct (outside_hdr _ _ _ _ HU Ag) as [E8 _].
  assert (Elen : toks_size (l ++ [SwStop]) = toks_size l1 + (tok_size t + toks_size l2)) by (by rewrite El, toks_size_app).
  destruct (decide (t = SwStop)) as [->|Hn].
  { destruct (stop_last _ _ _ Hl El) as [-> ->]. simpl tok_tag. cbn [FDT_END Z.eqb Pos.eqb negb]. wp_step.
    replace (_ + tok_size SwStop) with (toks_size (l ++ [SwStop])) by (rewrite Elen; simpl; lia). apply HQ; [|done]. by apply fix_other. }
  assert (Hnx : forall m2, unfixed m2 (l1 ++ [t]) l2 -> agree (outside_struct (mem s)) (mem s) m2 ->
    fixing s l (toks_size l1 + tok_size t) (set_mem m2 s) /\ 0 <= toks_size (l ++ [SwStop]) - (toks_size l1 + tok_size t) < toks_size (l ++ [SwStop]) - toks_size l1).
  { intros m2 U2 A2. split; [by apply (fixing_next s l m2 l1 t l2)|lia]. }
  destruct t as [nm|nm v| |]; [| | |done]; simpl tok_tag; cbn [FDT_BEGIN_NODE FDT_PROP FDT_END_NODE FDT_END Z.eqb Pos.eqb negb].
  - do 3 wp_step. apply Hnx; [by apply fix_other|done].
  - destruct (fix_prop m' l1 nm v l2 U) as [_ U2]. set (a := sp m' (toks_size l1 + 8)) in *.
    unfold fdt_offset_ptr_, fdt_off_dt_struct, fdt_size_dt_strings. wp_steps. apply wp_hdr; [lia|lia|]. rewrite set_mem_mem. wp_steps; [unfold prop_nameoff; lia|].
    apply wp_hdr; [lia|lia|]. rewrite !set_mem_mem.
    replace (prop_nameoff _) with a by (unfold prop_nameoff, a, sp, FdtSwProofs.sp; lia). rewrite fdt32_to_cpu_be. apply wp_put32; [unfold a, sp, FdtSwProofs.sp; lia|].
    rewrite set_mem_mem, set_mem_twice. wp_step. apply Hnx; [done|].
    etrans; [exact Ag|]. apply put32_agree. simpl in Es. pose proof (align4_spec (len v)).
    unfold a, FdtSwProofs.sp, in_range. rewrite <- (E8 8), <- (E8 36) by lia. intros b Hb Hr. apply Hb. lia.
  - do 3 wp_step. apply Hnx; [by apply fix_other|done].
Qed.

(** ** The finished tree *)

Record finished (m : memory) (l : list swtok) : Prop := {
  fn_addr : PAGE_SIZE <= fdt;
  fn_align : fdt &l 7 = 0;
  fn_magic : hdr m 0 = FDT_MAGIC;
  fn_version : hdr m 20 = 17;
  fn_last : hdr m 24 = 16;
  fn_rsv : 40 <= h_rsv m <= h_struct m;
  fn_strings : h_strings m = h_struct m + h_nstruct m;
  fn_total : h_strings m + h_nstrings m = h_total m;
  fn_max : h_total m < INT_MAX;
  fn_size : h_nstruct m = toks_size (l ++ [SwStop]);
  fn_toks : holds fdt (string_at m) m 0 (l ++ [SwStop]);
}.

(** Moving the strings down to the structure block. *)
Lemma moved_unfixed m l m2 : writing fdt m l ->
  let new := h_struct m + h_nstruct m in
  (forall a, ldb m2 a = moved m (fdt + new) (fdt + (h_total m - h_nstrings m)) (h_nstrings m) a) ->
  let m' := put32 m2 (fdt + 12) new in unfixed m' [] l /\ only_buf fdt m m' /\ (forall i, i <> 12 -> 0 <= i <= 36 -> i mod 4 = 0 -> hdr m' i = hdr m i).
Proof.
  intros [H1 H2 H3] new Em m'. pose proof (hdr_bound fdt m 8). pose proof (hdr_bound fdt m 36). pose proof (hdr_bound fdt m 32). destruct H1. unfold INT_MAX in *.
  pose proof (moved_agree _ _ _ _ _ Em) as A2.
  assert (A : agree (fun a => ~ in_range (fdt + new) (h_nstrings m) a /\ ~ in_range (fdt + 12) 4 a) m m').
  { etrans; [eapply agree_weaken; [|exact A2]|apply put32_agree]; tauto. }
  assert (Eh : forall i, i <> 12 -> 0 <= i <= 36 -> i mod 4 = 0 -> hdr m' i = hdr m i).
  { intros i Hi Hb Hm. apply be32_agree. eapply agree_weaken; [|exact A]. unfold new, in_range. intros a Ha. zdm. }
  assert (E12 : hdr m' 12 = new) by (apply be32_put; unfold new; lia).
  split_and!; [|eapply agree_weaken; [|exact A]; unfold new, in_range; lia|done]. split; rewrite ?E12, ?Eh by done; try done; try (unfold new; lia).
  - split; rewrite ?Eh by done; try done. unfold INT_MAX. lia.
  - apply (holds_frame fdt (sw_name fdt m) _ m); [|by apply Eh| |done].
    + intros x name (p & -> & Hp & Hl & Hc). exists p. unfold string_at. rewrite E12, Eh by done. split_and!; [done|lia|lia|lia|lia|].
      eapply cstr_ext; [|exact Hc]. intros i Hi. transitivity (ldb m2 (fdt + new + (h_nstrings m - p + i))).
      * replace (fdt + new + (h_nstrings m - p) + i) with (fdt + new + (h_nstrings m - p + i)) by lia.
        apply put32_agree with (P := fun a => ~ in_range (fdt + 12) 4 a); [auto|]. unfold new, in_range. lia.
      * rewrite (moved_in _ _ _ _ _ _ Em) by lia. f_equal. lia.
    + eapply agree_weaken; [|exact A]. unfold new, FdtSwProofs.sp, in_range. rewrite <- H2. simpl toks_size. intros a Ha. lia.
Qed.

Lemma hdr_put m i v : 0 <= v < 2 ^ 32 -> hdr (put32 m (fdt + i) v) i = v.
Proof. apply be32_put. Qed.
Lemma hdr_put_ne m i j v : j + 4 <= i \/ i + 4 <= j -> hdr (put32 m (fdt + j) v) i = hdr m i.
Proof. intros H. apply be32_put_ne. unfold disjoint. lia. Qed.
Lemma hdr_put_0 m i v : 4 <= i -> hdr (put32 m fdt v) i = hdr m i.
Proof. intros H. apply be32_put_ne. unfold disjoint. lia. Qed.

(** Completing the header. *)
Definition sealed (m : memory) : memory := put32 (put32 (put32 m (fdt + 4) (h_strings m + h_nstrings m)) (fdt + 24) FDT_LAST_COMPATIBLE_VERSION) fdt FDT_MAGIC.

Lemma sealed_finished m l : fdt &l 7 = 0 -> unfixed m (l ++ [SwStop]) [] -> finished (sealed m) l /\ only_buf fdt m (sealed m).
Proof.
  intros Hal [[] H2 H3 H4 H5 H6 _]. unfold INT_MAX in *. pose proof (hdr_bound fdt m 8). pose proof (hdr_bound fdt m 36). pose proof (hdr_bound fdt m 32).
  assert (A : agree (fun a => ~ in_range fdt 4 a /\ ~ in_range (fdt + 4) 4 a /\ ~ in_range (fdt + 24) 4 a) m (sealed m)).
  { unfold sealed. etrans; [apply put32_agree|etrans; apply put32_agree]; tauto. }
  assert (Eh : forall i, i <> 0 -> i <> 4 -> i <> 24 -> 0 <= i <= 36 -> i mod 4 = 0 -> hdr (sealed m) i = hdr m i).
  { intros i Hi1 Hi2 Hi3 Hb Hm. apply be32_agree. eapply agree_weaken; [|exact A]. unfold in_range. intros a Ha. zdm. }
  assert (E4 : hdr (sealed m) 4 = h_strings m + h_nstrings m) by (unfold sealed; rewrite hdr_put_0, hdr_put_ne, hdr_put by lia; done).
  assert (E24 : hdr (sealed m) 24 = 16) by (unfold sealed; rewrite hdr_put_0, hdr_put by (done || lia); done).
  assert (E0 : hdr (sealed m) 0 = FDT_MAGIC) by (unfold sealed, FdtSwProofs.hdr; rewrite Z.add_0_r; by apply be32_put).
  rewrite app_nil_r in H5. split; [split; rewrite ?E0, ?E4, ?E24, ?Eh by done; try done; unfold INT_MAX; try lia|].
  - apply (holds_frame fdt (string_at m) _ m); [apply string_at_frame; [by apply Eh|by apply Eh|]|by apply Eh| |done];
      (eapply agree_weaken; [|exact A]); unfold FdtSwProofs.sp, in_range; intros a Ha; lia.
  - eapply agree_weaken; [|exact A]. unfold in_range. lia.
Qed.

Lemma only_buf_trans m1 m2 m3 : hdr m2 4 = hdr m1 4 -> only_buf fdt m1 m2 -> only_buf fdt m2 m3 -> only_buf fdt m1 m3.
Proof. unfold only_buf. intros E H1 H2. rewrite E in H2. by etrans. Qed.

Lemma wp_set_hdr i v (Q : unit -> kst -> Prop) s : PAGE_SIZE <= fdt -> 0 <= i -> 0 <= v < 2 ^ 32 ->
  Q tt (set_mem (put32 (mem s) (fdt + i) v) s) -> wp (fdt_set_hdr_ i fdt v) Q s.
Proof. intros Ha Hi Hv HQ. unfold fdt_set_hdr_. rewrite u32_small by lia. apply wp_put32; [lia|done]. Qed.

(** From the end of the loop on. *)
Lemma wp_seal m0 l new (Q : Z -> kst -> Prop) s :
  fdt &l 7 = 0 -> unfixed (mem s) (l ++ [SwStop]) [] -> new = h_strings (mem s) -> only_buf fdt m0 (mem s) -> hdr (mem s) 4 = hdr m0 4 ->
  (forall m', finished m' l -> only_buf fdt m0 m' -> Q 0 (set_mem m' s)) ->
  wp (strsize ← fdt_size_dt_strings fdt; fdt_set_totalsize fdt (new + strsize);;
      fdt_set_last_comp_version fdt FDT_LAST_COMPATIBLE_VERSION;; fdt_set_magic fdt FDT_MAGIC;; mret 0) Q s.
Proof.
  intros Hal HU -> HB E4 HQ. destruct (sealed_finished (mem s) l Hal HU) as [F B]. pose proof (sc_addr _ _ (uf_scan _ _ _ HU)).
  pose proof (uf_total _ _ _ HU). pose proof (sc_total _ _ (uf_scan _ _ _ HU)). unfold INT_MAX in *.
  pose proof (hdr_bound fdt (mem s) 12). pose proof (hdr_bound fdt (mem s) 32).
  wp_step. apply wp_hdr; [lia|lia|]. wp_step. apply wp_set_hdr; [lia|lia|lia|]. wp_step. apply wp_set_hdr; [lia|lia|done|].
  wp_step. apply wp_set_hdr; [lia|lia|done|]. wp_step. rewrite !set_mem_mem, !set_mem_twice, Z.add_0_r.
  apply (HQ (sealed (mem s))); [done|]. by apply (only_buf_trans m0 (mem s)).
Qed.

Lemma wp_finish l (Q : Z -> kst -> Prop) s :
  SwStop ∉ l -> writing fdt (mem s) l -> (room fdt (mem s) < 4 -> Q (- FDT_ERR_NOSPACE) s) ->
  (forall m', finished m' l -> only_buf fdt (mem s) m' -> Q 0 (set_mem m' s)) ->
  wp (fdt_finish fdt) Q s.
Proof.
  intros Hl H H0 H1. pose proof (wg_header _ _ _ H) as Hh. pose proof (sw_addr _ _ Hh). pose proof (hdr_bound fdt (mem s) 8). pose proof (hdr_bound fdt (mem s) 36).
  unfold fdt_finish, unless_err. wp_step. apply wp_sw_probe_struct; [done|]. simpl negb. cbn match. wp_step. apply wp_grab_space; [done|lia| |].
  { intros Hr. simpl. wp_step. by apply H0. }
  intros Hr. rewrite (proj2 (Z.eqb_neq _ _)) by (unfold sp, FdtSwProofs.sp, NULL, PAGE_SIZE in *; lia). wp_step. apply wp_put32; [unfold FdtSwProofs.sp; lia|].
  rewrite set_mem_mem, set_mem_twice. destruct (emit_tag fdt (mem s) l SwStop) as [W B E14 _]; [auto|done|exact Hr|]. unfold grabbed in W, B, E14.
  change (tok_tag SwStop) with FDT_END in W, B, E14. set (m1 := put32 _ _ FDT_END) in *. pose proof (wg_header _ _ _ W) as Hh1.
  pose proof (sw_room _ _ Hh1). pose proof (sw_total _ _ Hh1). pose proof (sw_rsv _ _ Hh1). unfold INT_MAX in *.
  pose proof (hdr_bound fdt m1 8). pose proof (hdr_bound fdt m1 36). pose proof (hdr_bound fdt m1 32).
  do 5 (wp_step; apply wp_hdr; [lia|lia|]). rewrite !set_mem_mem, !s32_small by lia. wp_step.
  apply wp_memmove; [lia|lia|lia|]. rewrite set_mem_mem. intros m2 Em. rewrite set_mem_twice.
  destruct (moved_unfixed m1 _ m2 W Em) as (U & B1 & Eh). wp_step. apply wp_set_hdr; [lia|lia|lia|]. rewrite set_mem_mem, set_mem_twice.
  set (m3 := put32 m2 _ _) in *. wp_step. apply (wp_fix_nameoffs l); [done|by rewrite set_mem_mem|]. rewrite set_mem_mem. intros m4 U4 A4.
  rewrite set_mem_twice. rewrite (proj2 (Z.ltb_ge _ _)) by apply toks_size_spec.
  destruct (outside_hdr _ _ _ _ U A4) as [E34 B4]. apply (wp_seal (mem s) l); rewrite ?set_mem_mem; [apply Hh|done| | | |intros; rewrite set_mem_twice; by apply H1].
  - rewrite (uf_strings _ _ _ U4), !E34, !Eh by (lia || done). done.
  - apply (only_buf_trans (mem s) m1); [done|done|]. apply (only_buf_trans m1 m3); [by apply Eh|done|done].
  - by rewrite E34, Eh by (lia || done).
Qed.
End finish.
