(* ===== verification/FdtCreate.v ===== *)
(** * Starting a device tree

    [fdt_create] clears the buffer and writes a header; memory reservations
    follow, and [fdt_finish_reservemap] opens the structure block. *)

From S2P Require Import Prelude Memory Machine Strings Fdt FdtRo FdtRw FdtSw FdtProofs FdtSwProofs FdtFinish.

Section create.
Variable fdt : Z.

Abbreviation hdr := (hdr fdt).

(** Between [fdt_create] and [fdt_finish_reservemap]: [n] reservations, in a
    buffer of [T] bytes. *)
Record reserving (m : memory) (T n : Z) : Prop := {
  rs_addr : PAGE_SIZE <= fdt;
  rs_align : fdt &l 7 = 0;
  rs_count : 0 <= n;
  rs_magic : hdr m 0 = FDT_SW_MAGIC;
  rs_total : hdr m 4 = T;
  rs_struct : hdr m 8 = 48 + 16 * n;
  rs_strings : hdr m 12 = 0;
  rs_rsv : hdr m 16 = 48;
  rs_version : hdr m 20 = 17;
  rs_nstrings : hdr m 32 = 0;
  rs_nstruct : hdr m 36 = 0;
  rs_room : 48 + 16 * n <= T < INT_MAX;
}.

Lemma ldb_zero_be32 m p : (forall a, in_range p 4 a -> ldb m a = 0) -> be32 m p = 0.
Proof. intros H. unfold be32. rewrite !H by (unfold in_range; lia). done. Qed.

Lemma wp_create T flags (Q : Z -> kst -> Prop) s :
  PAGE_SIZE <= fdt -> fdt &l 7 = 0 -> T < INT_MAX -> flags = 0 \/ flags = 1 ->
  (T < 48 -> Q (- FDT_ERR_NOSPACE) s) ->
  (forall m', reserving m' T 0 -> agree (fun a => ~ in_range fdt T a) (mem s) m' -> Q 0 (set_mem m' s)) ->
  wp (fdt_create_with_flags fdt T flags) Q s.
Proof.
  intros Ha Hal HT Hf H0 H1. unfold fdt_create_with_flags. change (s32 (FDT_ALIGN sizeof_fdt_header sizeof_fdt_reserve_entry)) with 48.
  destruct (Z.ltb_spec T 48) as [Hlt|Hge]; [wp_step; by apply H0|]. unfold INT_MAX in *.
  assert (Ef : negb (flags &l u32 (Z.lnot FDT_CREATE_FLAGS_ALL) =? 0) = false) by (by destruct Hf as [-> | ->]). rewrite Ef.
  wp_step. rewrite u64_small by lia. apply wp_memset; [done|lia|]. intros m0 Em. 
  do 5 (wp_step; apply wp_set_hdr; [lia|lia|first [done|lia]|]; rewrite set_mem_mem, set_mem_twice). set (m1 := put32 _ _ 48).
  unfold fdt_off_mem_rsvmap. wp_step. apply wp_hdr; [lia|lia|]. rewrite set_mem_mem. assert (E16 : hdr m1 16 = 48) by (by apply hdr_put). rewrite E16.
  do 2 (wp_step; apply wp_set_hdr; [lia|lia|done|]; rewrite set_mem_mem, set_mem_twice). wp_step. set (m' := put32 _ _ 0).
  assert (Ez : forall i, 0 <= i <= 36 -> hdr m0 i = 0).
  { intros i Hi. apply ldb_zero_be32. intros a Hr. rewrite Em. unfold filled, in_range in *. range_cases; done. }
  apply H1.
  - split; unfold m', m1; try done; try lia; repeat first [rewrite hdr_put by (done || lia) | rewrite hdr_put_ne by lia]; try done; by apply Ez.
  - unfold m', m1. intros a Hn. unfold in_range in Hn. assert (Hp : forall mm i v, 0 <= i <= 36 -> ldb (put32 mm (fdt + i) v) a = ldb mm a).
    { intros mm i v Hi. apply put32_agree with (P := fun b => ~ in_range fdt T b); unfold in_range; lia. }
    rewrite !Hp, Em by lia. unfold filled. range_cases; done.
Qed.

Lemma reserving_open m T n : reserving m T n -> writing fdt (put32 m (fdt + 12) T) [] /\ room fdt (put32 m (fdt + 12) T) = T - 48 - 16 * n.
Proof.
  intros []. unfold INT_MAX in *. assert (E : forall i, i <> 12 -> 0 <= i -> i mod 4 = 0 -> hdr (put32 m (fdt + 12) T) i = hdr m i) by (intros; apply hdr_put_ne; zdm).
  assert (E12 : hdr (put32 m (fdt + 12) T) 12 = T) by (apply hdr_put; lia).
  split; [|unfold room; rewrite !E by done; lia]. split; [split|simpl; by rewrite E|done]; rewrite ?E12, ?E by done; try done; try lia; [rewrite rs_struct0; zdm|unfold INT_MAX; lia].
Qed.

Lemma wp_add_reservemap_entry T n addr size (Q : Z -> kst -> Prop) s :
  reserving (mem s) T n ->
  (T < 48 + 16 * (n + 1) -> Q (- FDT_ERR_NOSPACE) s) ->
  (forall m', reserving m' T (n + 1) -> agree (fun a => ~ in_range fdt T a) (mem s) m' -> Q 0 (set_mem m' s)) ->
  wp (fdt_add_reservemap_entry fdt addr size) Q s.
Proof.
  intros H H0 H1. pose proof H as []. unfold INT_MAX in *. assert (Em : be32 (mem s) fdt = FDT_SW_MAGIC) by (rewrite <- rs_magic0; unfold FdtSwProofs.hdr; by rewrite Z.add_0_r).
  unfold fdt_add_reservemap_entry, fdt_sw_probe_memrsv_, fdt_sw_probe_, unless_err, fdt_magic, fdt_off_dt_strings, fdt_totalsize, fdt_off_dt_struct.
  wp_steps. apply wp_be32; [done|]. rewrite Em. simpl. wp_steps. apply wp_be32; [done|]. rewrite Em. simpl. wp_steps.
  apply wp_hdr; [lia|lia|]. rewrite rs_strings0. simpl. wp_steps. simpl. wp_steps. apply wp_hdr; [lia|lia|]. wp_steps. apply wp_hdr; [lia|lia|].
  rewrite rs_struct0, rs_total0, s32_small, u64_small by lia. unfold sizeof_fdt_reserve_entry. rewrite add64_small by lia.
  destruct (Z.ltb_spec T (48 + 16 * n + 16)); [wp_step; simpl; apply H0; lia|]. wp_steps. apply wp_set_hdr; [lia|lia|lia|]. wp_steps.
  rewrite !set_mem_mem, !set_mem_twice. set (m1 := st 8 _ _ _). set (m' := put32 _ _ _).
  assert (A1 : agree (fun a => ~ in_range (fdt + (48 + 16 * n)) 16 a) (mem s) m1) by (unfold m1; etrans; apply agree_st; unfold in_range; simpl; lia).
  assert (Eh : forall i, 0 <= i <= 36 -> hdr m1 i = hdr (mem s) i).
  { intros i Hi. apply be32_agree. eapply agree_weaken; [|exact A1]. unfold in_range. intros a Ha. lia. }
  apply H1.
  - split; unfold m', INT_MAX; try done; try lia; rewrite ?hdr_put by lia; try lia; rewrite hdr_put_ne, Eh by lia; done.
  - etrans; [eapply agree_weaken; [|exact A1]|apply put32_agree]; unfold in_range; lia.
Qed.

Lemma wp_finish_reservemap T n (Q : Z -> kst -> Prop) s :
  reserving (mem s) T n ->
  (T < 48 + 16 * (n + 1) -> Q (- FDT_ERR_NOSPACE) s) ->
  (forall m', writing fdt m' [] -> room fdt m' = T - 48 - 16 * (n + 1) -> hdr m' 4 = T -> agree (fun a => ~ in_range fdt T a) (mem s) m' -> Q 0 (set_mem m' s)) ->
  wp (fdt_finish_reservemap fdt) Q s.
Proof.
  intros H H0 H1. unfold fdt_finish_reservemap, unless_err, fdt_totalsize. wp_step. apply (wp_add_reservemap_entry T n); [done| |].
  { intros Ht. simpl. wp_step. by apply H0. }
  intros m1 R A. pose proof R as []. unfold INT_MAX in *. simpl. wp_step. apply wp_hdr; [lia|lia|]. rewrite set_mem_mem, rs_total0. wp_step. apply wp_set_hdr; [lia|lia|lia|].
  rewrite set_mem_mem, set_mem_twice. wp_step. destruct (reserving_open m1 T (n + 1) R) as [W Hr]. apply H1; [done|done|by rewrite hdr_put_ne by lia|].
  etrans; [exact A|]. apply put32_agree. unfold in_range. lia.
Qed.
End create.
