(* ===== verification/FdtReadBack.v ===== *)
(** * Reading a finished device tree

    On a tree [fdt_finish] has left, the functions of fdt_ro.c find exactly
    what the functions of fdt_sw.c were given. *)

From S2P Require Import Prelude Memory Machine Strings ReadOnly Fdt FdtRo FdtRw FdtSw FdtProofs FdtLookup FdtSwProofs FdtFinish.

Section read.
Context {L : KernelLayout}.
Variables (fdt : Z) (l : list swtok) (s : kst).

Abbreviation m := (mem s).
Abbreviation hdr := (hdr fdt m).
Abbreviation sp := (sp fdt m).

Hypothesis F : finished fdt m l.

Lemma finished_scan : scan_ok fdt m.
Proof. destruct F. pose proof (hdr_bound fdt m 32). split; try done. lia. Qed.

Lemma finished_bounds : PAGE_SIZE <= fdt /\ 40 <= hdr 8 /\ 0 <= hdr 36 /\ 0 <= hdr 32 /\ hdr 12 = hdr 8 + hdr 36 /\ hdr 12 + hdr 32 = hdr 4 /\ hdr 4 < 2 ^ 31 - 1.
Proof. destruct F. pose proof (hdr_bound fdt m 32). pose proof (hdr_bound fdt m 36). unfold INT_MAX in *. split_and!; try done; lia. Qed.

Lemma wp_probe (Q : Z -> kst -> Prop) : Q (hdr 4) s -> wp (fdt_ro_probe_ fdt) Q s.
Proof.
  intros HQ. pose proof finished_bounds as (Ha & Hb). pose proof (fn_magic _ _ _ F) as E0. unfold FdtSwProofs.hdr in E0. rewrite Z.add_0_r in E0.
  unfold fdt_ro_probe_, fdt_totalsize, fdt_magic, fdt_version, fdt_last_comp_version. wp_step. apply wp_hdr; [lia|lia|].
  rewrite (fn_align _ _ _ F). simpl. wp_step. apply wp_be32; [done|]. rewrite E0. simpl. wp_steps. apply wp_hdr; [lia|lia|].
  rewrite (fn_version _ _ _ F). simpl. wp_step. apply wp_hdr; [lia|lia|]. rewrite (fn_last _ _ _ F). simpl. wp_step. simpl.
  rewrite (proj2 (Z.ltb_lt _ _)) by (unfold INT_MAX; lia). by wp_step.
Qed.

Lemma check_block_ok h t b n : h <= b -> 0 <= n -> b + n <= t -> t < 2 ^ 32 -> 0 <= b -> check_block_ h t b n = true.
Proof.
  intros. unfold check_block_, check_off_. rewrite (u32_small (b + n)) by lia. rewrite (proj2 (Z.leb_le h b)), (proj2 (Z.leb_le b t)) by lia. simpl.
  rewrite (proj2 (Z.ltb_ge _ _)), (proj2 (Z.leb_le h _)), (proj2 (Z.leb_le _ t)) by lia. done.
Qed.

Lemma wp_check_header (Q : Z -> kst -> Prop) : Q 0 s -> wp (fdt_check_header fdt) Q s.
Proof.
  intros HQ. pose proof finished_bounds as (Ha & Hb). pose proof (fn_magic _ _ _ F) as E0. unfold FdtSwProofs.hdr in E0. rewrite Z.add_0_r in E0.
  pose proof (fn_rsv _ _ _ F). unfold fdt_check_header, fdt_header_size, fdt_totalsize, fdt_magic, fdt_version, fdt_last_comp_version, fdt_off_mem_rsvmap,
    fdt_off_dt_struct, fdt_size_dt_struct, fdt_off_dt_strings, fdt_size_dt_strings.
  rewrite (fn_align _ _ _ F). simpl. wp_step. apply wp_be32; [done|]. rewrite E0. simpl. wp_step. apply wp_hdr; [lia|lia|].
  rewrite (fn_version _ _ _ F). wp_step. apply wp_hdr; [lia|lia|]. rewrite (fn_last _ _ _ F). simpl. wp_steps. apply wp_hdr; [lia|lia|].
  rewrite (fn_version _ _ _ F). wp_steps. change (fdt_header_size_ 17) with 40. apply wp_hdr; [lia|lia|].
  rewrite (proj2 (Z.ltb_ge _ _)), (proj2 (Z.ltb_ge INT_MAX _)) by (unfold INT_MAX; lia). simpl. wp_step. apply wp_hdr; [lia|lia|].
  unfold check_off_. rewrite (proj2 (Z.leb_le 40 _)), (proj2 (Z.leb_le _ (hdr 4))) by lia. simpl. wp_step. apply wp_hdr; [lia|lia|].
  wp_steps. apply wp_hdr; [lia|lia|]. wp_step. rewrite check_block_ok by lia. simpl. wp_step. apply wp_hdr; [lia|lia|].
  wp_step. apply wp_hdr; [lia|lia|]. rewrite check_block_ok by lia. simpl. by wp_step.
Qed.

(** ** Tokens *)

Lemma holds_mid R l1 t l2 off : holds fdt R m off (l1 ++ t :: l2) -> holds_tok fdt R m (off + toks_size l1) t.
Proof. intros H. apply holds_app in H as [_ [H _]]. done. Qed.

(** The token [t] after [l1]. *)
Definition at_tok (l1 : list swtok) (t : swtok) : Prop := exists l2, l ++ [SwStop] = l1 ++ t :: l2.

Lemma at_holds l1 t : at_tok l1 t -> holds_tok fdt (string_at fdt m) m (toks_size l1) t.
Proof. intros (l2 & E). pose proof (fn_toks _ _ _ F) as H. rewrite E in H. by apply holds_mid in H. Qed.

Lemma at_size l1 t : at_tok l1 t -> 0 <= toks_size l1 /\ toks_size l1 mod 4 = 0 /\ 4 <= tok_size t /\ toks_size l1 + tok_size t <= hdr 36.
Proof.
  intros (l2 & E). rewrite (fn_size _ _ _ F), E, toks_size_app. simpl. pose proof (toks_size_spec l1). pose proof (toks_size_spec l2). pose proof (tok_size_spec t). lia.
Qed.

Lemma wp_read_tag l1 t (Q : Z * Z -> kst -> Prop) : at_tok l1 t -> Q (tok_tag t, toks_size l1 + tok_size t) s -> wp (fdt_next_tag fdt (toks_size l1)) Q s.
Proof.
  intros Ht HQ. pose proof (at_size _ _ Ht). apply (wp_next_tag fdt _ t); [apply finished_scan| |lia|lia|lia|done].
  by apply (holds_tok_weaken fdt (string_at fdt m)), at_holds.
Qed.

Lemma mod4_check off : 0 <= off < 2 ^ 31 -> off mod 4 = 0 -> (off <? 0) || negb (u64 off mod FDT_TAGSIZE =? 0) = false.
Proof. intros H E. rewrite u64_small by lia. unfold FDT_TAGSIZE. rewrite (proj2 (Z.ltb_ge _ _)), E by lia. done. Qed.

Lemma wp_check_node l1 nm (Q : Z -> kst -> Prop) : at_tok l1 (SwBegin nm) -> Q (toks_size l1 + tok_size (SwBegin nm)) s ->
  wp (fdt_check_node_offset_ fdt (toks_size l1)) Q s.
Proof.
  intros Ht HQ. pose proof (at_size _ _ Ht). pose proof finished_bounds. unfold fdt_check_node_offset_. rewrite mod4_check by lia.
  wp_step. apply (wp_read_tag _ _ _ Ht). simpl. by wp_step.
Qed.

Lemma wp_check_prop l1 nm v (Q : Z -> kst -> Prop) : at_tok l1 (SwProp nm v) -> Q (toks_size l1 + tok_size (SwProp nm v)) s ->
  wp (fdt_check_prop_offset_ fdt (toks_size l1)) Q s.
Proof.
  intros Ht HQ. pose proof (at_size _ _ Ht). pose proof finished_bounds. unfold fdt_check_prop_offset_. rewrite mod4_check by lia.
  wp_step. apply (wp_read_tag _ _ _ Ht). simpl. by wp_step.
Qed.

(** ** Names *)

Lemma wp_get_name l1 nm (Q : Z * Z -> kst -> Prop) : at_tok l1 (SwBegin nm) ->
  (cstr m (sp (toks_size l1 + 4)) nm -> Q (sp (toks_size l1 + 4), len nm) s) -> wp (fdt_get_name fdt (toks_size l1) true) Q s.
Proof.
  intros Ht HQ. pose proof (at_size _ _ Ht) as (Hs1 & _ & _ & Hs2). pose proof finished_bounds as (Ha & Hb). destruct (at_holds _ _ Ht) as [_ Hn].
  simpl tok_size in Hs2. pose proof (align4_spec (len nm + 1)) as [_ Hal].
  unfold fdt_get_name, fdt_offset_ptr_, fdt_off_dt_struct, fdt_version. wp_steps. apply wp_hdr; [lia|lia|]. wp_steps. apply wp_probe.
  rewrite (proj2 (Z.ltb_ge _ _)) by lia. wp_step. apply (wp_check_node l1 nm); [done|]. rewrite (proj2 (Z.ltb_ge _ _)) by (simpl tok_size; lia).
  wp_step. apply wp_hdr; [lia|lia|]. rewrite (fn_version _ _ _ F). simpl. wp_step. wp_step.
  replace (fdt + hdr 8 + toks_size l1 + 4) with (sp (toks_size l1 + 4)) by (unfold FdtSwProofs.sp; lia).
  rewrite (proj2 (Z.eqb_neq _ _)) by (unfold FdtSwProofs.sp, NULL, PAGE_SIZE in *; lia). wp_step.
  apply (wp_strlen _ nm); [done|unfold FdtSwProofs.sp; lia|lia|]. wp_step. rewrite s32_small by lia. by apply HQ.
Qed.

Lemma wp_get_string x nm (Q : Z * Z -> kst -> Prop) : string_at fdt m x nm -> Q (fdt + hdr 12 + x, len nm) s -> wp (fdt_get_string fdt x) Q s.
Proof.
  intros (Hx & Hxe & Hc) HQ. pose proof finished_bounds as (Ha & Hb). pose proof (fn_magic _ _ _ F) as E0. unfold FdtSwProofs.hdr in E0. rewrite Z.add_0_r in E0.
  unfold fdt_get_string, fdt_off_dt_strings, fdt_magic, fdt_version, fdt_size_dt_strings. wp_step. apply wp_probe. rewrite (proj2 (Z.ltb_ge _ _)) by lia.
  wp_step. apply wp_hdr; [lia|lia|]. rewrite (u32_small (hdr 4)), (u32_small (x + hdr 12)) by lia. rewrite (proj2 (Z.leb_gt _ _)) by lia.
  wp_steps. apply wp_be32; [done|]. rewrite E0. simpl (_ =? _). cbn match. wp_step. rewrite (proj2 (Z.ltb_ge x 0)) by lia. wp_steps. apply wp_hdr; [lia|lia|].
  rewrite (fn_version _ _ _ F). simpl (17 <=? 17). cbn match. wp_steps. apply wp_hdr; [lia|lia|]. rewrite !u32_small by lia. rewrite (proj2 (Z.leb_gt _ _)) by lia.
  wp_step. replace (if _ <? _ then _ else _) with (hdr 32 - x) by (destruct (Z.ltb_spec (hdr 32 - x) (hdr 4 - (x + hdr 12))); lia).
  replace (fdt + (x + hdr 12)) with (fdt + hdr 12 + x) by lia. wp_step.
  eapply wp_mono; [apply (ro_wp (fun _ => True)), (ro_memchr _ _ _ _ _ (fun r => r = fdt + hdr 12 + x + len nm)); [split; [lia|done]|lia|lia|]|].
  - intros r [[_ Hno]|(i & Hi & -> & Ez & Hlt)].
    + exfalso. apply (Hno (len nm)); [lia|]. apply (cstr_at m _ nm (len nm) Hc); lia.
    + f_equal. destruct (Z.lt_trichotomy i (len nm)) as [Hl|[->|Hg]]; [|done|].
      * apply (cstr_at m _ nm i Hc) in Ez; lia.
      * exfalso. apply (Hlt (len nm)); [lia|]. apply (cstr_at m _ nm (len nm) Hc); lia.
  - intros r s' [-> ->]. rewrite (proj2 (Z.eqb_neq _ _)) by (unfold NULL, PAGE_SIZE in *; lia). wp_step.
    replace (_ - _) with (len nm) by lia. by rewrite s32_small by lia.
Qed.

Lemma cstr_inj (mm : memory) a b n1 n2 : cstr mm a n1 -> cstr mm b n2 -> length n1 = length n2 ->
  (forall i, 0 <= i < len n1 -> ldb mm (a + i) = ldb mm (b + i)) -> n1 = n2.
Proof.
  revert a b n2. induction n1 as [|c n1 IH]; intros a b [|d n2] H1 H2 Hl E; try done. simpl in *. destruct H1 as (E1 & _ & H1), H2 as (E2 & _ & H2).
  pose proof (E 0 ltac:(lia)) as E0. rewrite !Z.add_0_r in E0. f_equal; [congruence|]. apply (IH (a + 1) (b + 1)); try done; [congruence|].
  intros i Hi. specialize (E (i + 1) ltac:(lia)). by rewrite <- !Z.add_assoc, !(Z.add_comm 1 i).
Qed.

Lemma wp_string_eq x nm name nm' (Q : bool -> kst -> Prop) :
  string_at fdt m x nm -> cstr m name nm' -> PAGE_SIZE <= name -> len nm' < 2 ^ 31 -> Q (bool_decide (nm = nm')) s ->
  wp (fdt_string_eq_ fdt x name (len nm')) Q s.
Proof.
  intros Hx Hc Hn Hl HQ. pose proof finished_bounds as (Ha & Hb). pose proof Hx as (H0 & H1 & Hcx). unfold fdt_string_eq_. wp_step. apply (wp_get_string x nm); [done|].
  rewrite (proj2 (Z.eqb_neq _ _)) by (unfold NULL, PAGE_SIZE in *; lia). simpl negb. cbn [andb]. destruct (Z.eqb_spec (len nm) (len nm')) as [El|El].
  - wp_step. rewrite u64_small by lia. apply wp_memcmp; [lia|done|lia|]. intros r Hr. wp_step. destruct Hr as [[-> E]|(i & Hi & _ & Hr)].
    + rewrite bool_decide_true in HQ; [done|]. apply (cstr_inj m (fdt + hdr 12 + x) name); [done|done|lia|]. intros i Hi. apply E. lia.
    + rewrite (proj2 (Z.eqb_neq r 0)) by lia. rewrite bool_decide_false in HQ; [done|]. intros ->.
      assert (Eq : forall j, 0 <= j <= len nm' -> ldb m (fdt + hdr 12 + x + j) = ldb m (name + j)); [|rewrite Eq in Hr by lia; lia].
      clear -Hcx Hc. revert Hcx Hc. generalize (fdt + hdr 12 + x) as a. intros a. revert a name. induction nm' as [|c nm' IH]; intros a name H1 H2 j Hj; simpl in *.
      { assert (j = 0) as -> by lia. by rewrite !Z.add_0_r, H1, H2. }
      destruct H1 as (E1 & _ & H1), H2 as (E2 & _ & H2). destruct (Z.eq_dec j 0) as [->|]; [by rewrite !Z.add_0_r, E1, E2|].
      specialize (IH (a + 1) (name + 1) H1 H2 (j - 1) ltac:(lia)). by rewrite <- !Z.add_assoc, !Zplus_minus in IH.
  - wp_step. rewrite bool_decide_false in HQ; [done|]. congruence.
Qed.

(** ** Properties of a node *)

Definition props_toks (ps : list (list Z * list Z)) : list swtok := map (fun p => SwProp p.1 p.2) ps.

(** After [l1] come the properties [ps] and then no further one. *)
Definition at_props (l1 : list swtok) (ps : list (list Z * list Z)) : Prop :=
  exists t l2, l ++ [SwStop] = l1 ++ props_toks ps ++ t :: l2 /\ (t = SwEnd \/ exists nm, t = SwBegin nm).

Lemma at_props_cons l1 p ps : at_props l1 (p :: ps) -> at_tok l1 (SwProp p.1 p.2) /\ at_props (l1 ++ [SwProp p.1 p.2]) ps.
Proof. intros (t & l2 & E & Ht). split; [eexists; exact E|]. exists t, l2. split; [|done]. by rewrite <- app_assoc. Qed.

(** Where the first of the properties is. *)
Definition first_prop (l1 : list swtok) (ps : list (list Z * list Z)) : Z := match ps with [] => - FDT_ERR_NOTFOUND | _ => toks_size l1 end.

Lemma wp_nextprop l1 ps (Q : Z -> kst -> Prop) : at_props l1 ps -> Q (first_prop l1 ps) s -> wp (nextprop_ fdt (toks_size l1)) Q s.
Proof.
  intros H HQ. assert (H' : exists t, at_tok l1 t /\ tok_tag t <> FDT_END /\ tok_tag t <> FDT_NOP /\ first_prop l1 ps = (if tok_tag t =? FDT_PROP then toks_size l1 else - FDT_ERR_NOTFOUND)).
  { destruct H as (t & l2 & E & Ht). destruct ps as [|[n v] ps]; simpl in E.
    - exists t. split; [eexists; exact E|]. destruct Ht as [->|[nm ->]]; done.
    - exists (SwProp n v). split; [eexists; exact E|]. done. }
  destruct H' as (t & Ht & H1 & H2 & E). rewrite E in HQ. unfold nextprop_.
  apply (wp_while (fun o s' => s' = s /\ o = toks_size l1) (fun _ _ => 0)); [done|lia|]. intros o s' [-> ->] _. wp_step.
  apply (wp_read_tag _ _ _ Ht). rewrite (proj2 (Z.eqb_neq _ FDT_END)) by done. destruct (tok_tag t =? FDT_PROP); [by wp_step|].
  rewrite (proj2 (Z.eqb_neq _ FDT_NOP)) by done. by wp_step.
Qed.

Definition lookup_prop (nm : list Z) (ps : list (list Z * list Z)) : option (list Z * list Z) := List.find (fun p => bool_decide (p.1 = nm)) ps.

Lemma lookup_prop_app nm ps1 ps2 : lookup_prop nm ps1 = None -> lookup_prop nm (ps1 ++ ps2) = lookup_prop nm ps2.
Proof. induction ps1 as [|p ps1 IH]; [done|]. simpl. by destruct (bool_decide _). Qed.

Lemma wp_get_property_by_offset l1 nm v (Q : Z * Z -> kst -> Prop) : at_tok l1 (SwProp nm v) -> Q (sp (toks_size l1), len v) s ->
  wp (fdt_get_property_by_offset_ fdt (toks_size l1)) Q s.
Proof.
  intros Ht HQ. pose proof (at_size _ _ Ht) as (Hs1 & _ & _ & Hs2). pose proof finished_bounds as (Ha & Hb). destruct (at_holds _ _ Ht) as (_ & Hn & _ & _).
  simpl tok_size in Hs2. pose proof (align4_spec (len v)) as [_ Hal].
  unfold fdt_get_property_by_offset_, fdt_offset_ptr_, fdt_off_dt_struct, fdt32_ld_. wp_step. apply (wp_check_prop _ _ _ _ Ht).
  rewrite (proj2 (Z.ltb_ge _ _)) by (simpl tok_size; lia). wp_steps. apply wp_hdr; [lia|lia|]. change (fdt + hdr 8 + toks_size l1) with (sp (toks_size l1)).
  wp_steps; [unfold prop_len, FdtSwProofs.sp; lia|]. replace (prop_len (sp (toks_size l1))) with (sp (toks_size l1 + 4)) by (unfold prop_len, FdtSwProofs.sp; lia).
  rewrite fdt32_to_cpu_be, Hn, s32_small by lia. done.
Qed.

Lemma wp_find_property l1 ps name nm (Q : Z * Z * Z -> kst -> Prop) :
  at_props l1 ps -> cstr m name nm -> PAGE_SIZE <= name -> len nm < 2 ^ 31 ->
  match lookup_prop nm ps with
  | Some (_, v) => forall ps1 ps2, ps = ps1 ++ (nm, v) :: ps2 -> lookup_prop nm ps1 = None -> at_tok (l1 ++ props_toks ps1) (SwProp nm v) ->
      Q (sp (toks_size (l1 ++ props_toks ps1)), len v, toks_size (l1 ++ props_toks ps1)) s
  | None => Q (NULL, - FDT_ERR_NOTFOUND, 0) s
  end -> wp (find_property fdt (first_prop l1 ps) name (len nm)) Q s.
Proof.
  intros H Hc Hn Hl HQ. pose proof finished_bounds as (Ha & Hb). unfold find_property.
  apply (wp_while_n (fun n off s' => s' = s /\ exists ps1 ps', ps = ps1 ++ ps' /\ off = first_prop (l1 ++ props_toks ps1) ps' /\
    at_props (l1 ++ props_toks ps1) ps' /\ lookup_prop nm ps1 = None /\ n = len ps') _ (len ps)).
  { split; [done|]. exists [], ps. cbn [props_toks map]. by rewrite app_nil_r. }
  { destruct H as (t & l2 & E & _). pose proof (fn_size _ _ _ F) as Es. rewrite E, !toks_size_app in Es. pose proof (hdr_bound fdt m 36).
    pose proof (toks_size_spec l1). pose proof (toks_size_spec (t :: l2)). assert (len ps <= toks_size (props_toks ps)); [|lia].
    clear. induction ps as [|p ps IH]; [done|]. cbn [props_toks map toks_size foldr] in *. pose proof (tok_size_spec (SwProp p.1 p.2)).
    change (foldr _ 0 (map _ ps)) with (toks_size (props_toks ps)). rewrite length_cons. lia. }
  clear H. intros n off s' (-> & ps1 & [|[n1 v] ps'] & Eps & -> & H & El & ->) _.
  { simpl. rewrite app_nil_r in Eps. subst ps1. rewrite El in HQ. wp_step. done. }
  set (l1' := l1 ++ props_toks ps1) in *. rewrite Eps, lookup_prop_app in HQ by done.
  destruct (at_props_cons _ _ _ H) as [Ht H']. simpl in Ht, H'. pose proof (at_size _ _ Ht) as (Hs1 & _ & _ & Hs2). destruct (at_holds _ _ Ht) as (_ & _ & Hv & Hnm).
  simpl first_prop. rewrite (proj2 (Z.leb_le 0 _)) by lia. wp_step. apply (wp_get_property_by_offset _ _ _ _ Ht).
  rewrite (proj2 (Z.eqb_neq _ _)) by (unfold FdtSwProofs.sp, NULL, PAGE_SIZE in *; lia). unfold fdt32_ld_.
  wp_steps; [unfold prop_nameoff, FdtSwProofs.sp; lia|]. replace (prop_nameoff (sp (toks_size l1'))) with (sp (toks_size l1' + 8)) by (unfold prop_nameoff, FdtSwProofs.sp; lia).
  rewrite fdt32_to_cpu_be. set (x := be32 m _) in *. rewrite s32_small by (destruct Hnm as (? & ? & _); lia). apply (wp_string_eq x n1); [done..|]. simpl in HQ.
  destruct (bool_decide (n1 = nm)) eqn:Eb; wp_step.
  { apply bool_decide_eq_true in Eb as ->. by apply (HQ ps1 ps'). }
  unfold fdt_next_property_offset. wp_step. apply (wp_check_prop _ _ _ _ Ht).
  rewrite (proj2 (Z.ltb_ge _ _)) by (pose proof (tok_size_spec (SwProp n1 v)); lia). replace (toks_size l1' + tok_size (SwProp n1 v)) with (toks_size (l1' ++ [SwProp n1 v])) by (rewrite toks_size_app; simpl; lia).
  apply (wp_nextprop _ ps'); [done|]. wp_step. exists (len ps'). split; [rewrite length_cons; lia|]. split; [done|].
  assert (E1 : l1' ++ [SwProp n1 v] = l1 ++ props_toks (ps1 ++ [(n1, v)])) by (unfold l1', props_toks; by rewrite map_app, <- app_assoc).
  rewrite E1 in *. exists (ps1 ++ [(n1, v)]), ps'. split_and!; try done; [by rewrite <- app_assoc|]. rewrite lookup_prop_app by done. simpl. by rewrite Eb.
Qed.

(** Where the value of the property behind [l1] is. *)
Definition value_addr (l1 : list swtok) : Z := sp (toks_size l1 + 12).

Lemma wp_getprop_namelen l1 nd ps name nm (Q : Z * Z -> kst -> Prop) :
  at_tok l1 (SwBegin nd) -> at_props (l1 ++ [SwBegin nd]) ps -> cstr m name nm -> PAGE_SIZE <= name -> len nm < 2 ^ 31 ->
  match lookup_prop nm ps with
  | Some (_, v) => forall ps1 ps2, ps = ps1 ++ (nm, v) :: ps2 -> lookup_prop nm ps1 = None ->
      at_tok ((l1 ++ [SwBegin nd]) ++ props_toks ps1) (SwProp nm v) -> Q (value_addr ((l1 ++ [SwBegin nd]) ++ props_toks ps1), len v) s
  | None => Q (NULL, - FDT_ERR_NOTFOUND) s
  end -> wp (fdt_getprop_namelen fdt (toks_size l1) name (len nm)) Q s.
Proof.
  intros Ht Hp Hc Hn Hl HQ. pose proof finished_bounds as (Ha & Hb). pose proof (at_size _ _ Ht) as (Hs1 & _ & _ & _).
  unfold fdt_getprop_namelen, fdt_get_property_namelen_, fdt_first_property_offset. do 3 wp_step. apply (wp_check_node _ _ _ Ht).
  rewrite (proj2 (Z.ltb_ge _ _)) by (pose proof (tok_size_spec (SwBegin nd)); lia).
  replace (toks_size l1 + tok_size (SwBegin nd)) with (toks_size (l1 ++ [SwBegin nd])) by (rewrite toks_size_app; simpl; lia).
  apply (wp_nextprop _ ps); [done|]. apply (wp_find_property _ ps name nm); [done..|]. destruct (lookup_prop nm ps) as [[n1 v]|]; [|by wp_step].
  intros ps1 ps2 Eps El Hat. set (lp := (l1 ++ _) ++ _) in *. pose proof (at_size _ _ Hat) as (Ho & _).
  rewrite (proj2 (Z.eqb_neq _ _)) by (unfold FdtSwProofs.sp, NULL, PAGE_SIZE in *; lia). unfold prop_value, andm, fdt_version.
  wp_steps. apply wp_hdr; [lia|lia|]. rewrite (fn_version _ _ _ F). simpl (17 <? 0x10). wp_steps.
  replace (prop_data (sp (toks_size lp))) with (value_addr lp) by (unfold value_addr, prop_data, FdtSwProofs.sp; lia). by apply (HQ ps1 ps2).
Qed.

Lemma wp_getprop l1 nd ps name nm (Q : Z * Z -> kst -> Prop) :
  at_tok l1 (SwBegin nd) -> at_props (l1 ++ [SwBegin nd]) ps -> cstr m name nm -> PAGE_SIZE <= name -> len nm < 2 ^ 31 ->
  match lookup_prop nm ps with
  | Some (_, v) => forall a, bytes_at m a v -> a <> NULL -> Q (a, len v) s
  | None => Q (NULL, - FDT_ERR_NOTFOUND) s
  end -> wp (fdt_getprop fdt (toks_size l1) name) Q s.
Proof.
  intros Ht Hp Hc Hn Hl HQ. pose proof finished_bounds as (Ha & Hb). unfold fdt_getprop. wp_step. apply (wp_strlen name nm); [done|done|lia|]. rewrite s32_small by lia.
  apply (wp_getprop_namelen l1 nd ps name nm); [done..|]. destruct (lookup_prop nm ps) as [[n1 v]|]; [|done].
  intros ps1 ps2 _ _ Hat. apply HQ; [apply (at_holds _ _ Hat)|]. pose proof (at_size _ _ Hat). unfold value_addr, FdtSwProofs.sp, NULL, PAGE_SIZE in *. lia.
Qed.
End read.
