(* ===== verification/FdtSwSpec.v ===== *)
(** * Properties of writing a device tree

    What fdt_sw.c writes is what fdt_ro.c reads. *)

From S2P Require Import Prelude Memory Machine Strings Fdt FdtRo FdtRw FdtSw FdtProofs FdtSwProofs FdtFinish FdtCreate FdtReadBack.

Section spec.
Context {L : KernelLayout}.

(** C12: [fdt_property] appends one property token, with the given name and
    value and nothing else, to a tree under construction, or reports that the
    room does not suffice and leaves the tokens as they were; only the buffer
    changes.  The name must be no longer than the part of the buffer that lies
    before the strings: the guard against a longer one wraps around, as
    [fdt_add_string_overrun] shows.  Name and value lie outside the buffer, and
    the value has less than 2^31 - 16 bytes. *)
Theorem fdt_property_refines fdt name nm val v l s :
  writing fdt (mem s) l -> cstr (mem s) name nm -> outside fdt (mem s) name (len nm + 1) ->
  hdr fdt (mem s) 32 + len nm + 1 <= hdr fdt (mem s) 4 ->
  bytes_at (mem s) val v -> outside fdt (mem s) val (len v) -> len v < 2 ^ 31 - 16 ->
  wp (fdt_property fdt name val (len v)) (fun r s' => s' = set_mem (mem s') s /\ only_buf fdt (mem s) (mem s') /\
    ((r = 0 /\ writing fdt (mem s') (l ++ [SwProp nm v])) \/
     (r = - FDT_ERR_NOSPACE /\ writing fdt (mem s') l /\ room fdt (mem s) < tok_size (SwProp nm v) + (len nm + 1)))) s.
Proof.
  intros H Hc Ho Hl Hb Hov Hn. apply (wp_property fdt l name nm val v); [done..| |].
  - intros m' W B Hr. rewrite set_mem_mem. split_and!; [done|done|]. by right.
  - intros m' [W B _ _]. rewrite set_mem_mem. split_and!; [done|done|]. by left.
Qed.

(** ** Whole trees *)

(** Calls that build a tree: the arguments, and the strings they point to. *)
Inductive sw_call :=
| BeginNode (name : Z) (nm : list Z)
| Property (name : Z) (nm : list Z) (val : Z) (v : list Z)
| EndNode.

Definition run_call (fdt : Z) (c : sw_call) : M Z :=
  match c with
  | BeginNode name _ => fdt_begin_node fdt name
  | Property name _ val v => fdt_property fdt name val (len v)
  | EndNode => fdt_end_node fdt
  end.

Fixpoint run_calls (fdt : Z) (cs : list sw_call) : M Z :=
  match cs with [] => mret 0 | c :: cs' => unless_err (run_call fdt c) (run_calls fdt cs') end.

Definition build (fdt T : Z) (cs : list sw_call) : M Z :=
  unless_err (fdt_create fdt T) (unless_err (fdt_finish_reservemap fdt) (unless_err (run_calls fdt cs) (fdt_finish fdt))).

Definition call_tok (c : sw_call) : swtok :=
  match c with BeginNode _ nm => SwBegin nm | Property _ nm _ v => SwProp nm v | EndNode => SwEnd end.

(** The room a call needs. *)
Definition call_need (c : sw_call) : Z :=
  match c with Property _ nm _ v => tok_size (SwProp nm v) + (len nm + 1) | _ => tok_size (call_tok c) end.
Definition need (cs : list sw_call) : Z := foldr (fun c n => call_need c + n) 0 cs.

(** The arguments lie outside the buffer [fdt, fdt + T). *)
Definition apart (fdt T a n : Z) : Prop := PAGE_SIZE <= a /\ (a + n <= fdt \/ fdt + T <= a).
Definition call_ok (fdt T : Z) (m : memory) (c : sw_call) : Prop :=
  match c with
  | BeginNode name nm => cstr m name nm /\ apart fdt T name (len nm + 1)
  | Property name nm val v => cstr m name nm /\ apart fdt T name (len nm + 1) /\ bytes_at m val v /\ apart fdt T val (len v)
  | EndNode => True
  end.

Lemma call_ok_agree fdt T m m' c : agree (fun a => ~ in_range fdt T a) m m' -> call_ok fdt T m c -> call_ok fdt T m' c.
Proof.
  intros Ha. assert (Hs : forall a nm, apart fdt T a (len nm + 1) -> cstr m a nm -> cstr m' a nm).
  { intros a nm [_ Hd]. apply cstr_ext. intros i Hi. apply Ha. unfold in_range. lia. }
  destruct c as [name nm|name nm val v|]; simpl; [| |done].
  - intros [H1 H2]. auto.
  - intros (H1 & H2 & H3 & H4). split_and!; [by apply Hs|done| |done]. eapply bytes_at_ext; [|exact H3]. intros i Hi. apply Ha. destruct H4. unfold in_range. lia.
Qed.

Lemma wp_run_call fdt T l c (Q : Z -> kst -> Prop) s :
  writing fdt (mem s) l -> hdr fdt (mem s) 4 = T -> call_ok fdt T (mem s) c -> call_need c <= room fdt (mem s) ->
  (forall m', step_to fdt (mem s) m' (l ++ [call_tok c]) (call_need c) -> Q 0 (set_mem m' s)) -> wp (run_call fdt c) Q s.
Proof.
  intros H <- Hc Hn HQ. pose proof (wg_header _ _ _ H) as Hh. pose proof (sw_total _ _ Hh). pose proof (sw_rsv _ _ Hh). unfold room, INT_MAX in Hn, H0.
  pose proof (hdr_bound fdt (mem s) 36). pose proof (hdr_bound fdt (mem s) 32).
  destruct c as [name nm|name nm val v|]; simpl in *.
  - destruct Hc as [Hc Ha]. pose proof (align4_spec (len nm + 1)). apply (wp_begin_node fdt name nm l); [done|done|done|lia| |done]. intros Hr. unfold room in Hr. simpl in Hr. lia.
  - destruct Hc as (Hc & Ha & Hv & Hva). pose proof (align4_spec (len v)). apply (wp_property fdt l name nm val v); [done|done|done|lia|done|done|lia| |done].
    intros m' _ _ Hr. unfold room in Hr. simpl in Hr. lia.
  - apply (wp_end_node fdt l); [done| |done]. intros Hr. unfold room in Hr. simpl in Hr. lia.
Qed.

Lemma need_nonneg cs : 0 <= need cs.
Proof. induction cs as [|c cs IH]; simpl; [done|]. pose proof (tok_size_spec (call_tok c)). destruct c; simpl in *; lia. Qed.

Lemma wp_run_calls fdt T l cs (Q : Z -> kst -> Prop) s :
  writing fdt (mem s) l -> hdr fdt (mem s) 4 = T -> Forall (call_ok fdt T (mem s)) cs -> need cs <= room fdt (mem s) ->
  (forall m', step_to fdt (mem s) m' (l ++ map call_tok cs) (need cs) -> Q 0 (set_mem m' s)) -> wp (run_calls fdt cs) Q s.
Proof.
  revert l s. induction cs as [|c cs IH]; intros l s H HT Hc Hn HQ; simpl in *.
  - wp_step. specialize (HQ (mem s)). rewrite set_mem_id, app_nil_r in HQ. apply HQ. split; try done. lia.
  - apply Forall_cons in Hc as [Hc Hcs]. unfold unless_err. wp_step. pose proof (need_nonneg cs). apply (wp_run_call fdt T l c); [done|done|done|lia|].
    intros m1 [W B E R]. simpl. apply (IH (l ++ [call_tok c])); rewrite ?set_mem_mem; [done|by rewrite E| |lia|].
    + eapply Forall_impl; [exact Hcs|]. intros c'. apply call_ok_agree. rewrite <- HT. exact B.
    + intros m2 [W2 B2 E2 R2]. rewrite set_mem_twice. apply HQ. rewrite <- app_assoc in W2. split; [done| |by rewrite E2|lia].
      unfold only_buf in *. rewrite E in B2. by etrans.
Qed.

(** The whole of [build]. *)
Lemma wp_build fdt T cs (Q : Z -> kst -> Prop) s :
  PAGE_SIZE <= fdt -> fdt &l 7 = 0 -> T < INT_MAX -> Forall (call_ok fdt T (mem s)) cs -> 68 + need cs <= T ->
  (forall m', finished fdt m' (map call_tok cs) -> agree (fun a => ~ in_range fdt T a) (mem s) m' -> Q 0 (set_mem m' s)) ->
  wp (build fdt T cs) Q s.
Proof.
  intros Ha Hal HT Hc Hn HQ. pose proof (need_nonneg cs).
  unfold build, fdt_create, unless_err. wp_step. apply wp_create; [done|done|done|auto|lia|]. intros m1 R1 A1. simpl. wp_step.
  apply (wp_finish_reservemap fdt T 0); rewrite ?set_mem_mem; [done|lia|]. intros m2 W2 Rm2 E2 A2. rewrite set_mem_twice. simpl. wp_step.
  apply (wp_run_calls fdt T [] cs); rewrite ?set_mem_mem; [done|done| |lia|].
  { eapply Forall_impl; [exact Hc|]. intros c. apply call_ok_agree. by etrans. }
  simpl app. intros m3 [W3 B3 E3 R3]. rewrite set_mem_twice. simpl. apply (wp_finish fdt (map call_tok cs)); rewrite ?set_mem_mem; [|done|lia|].
  { intros Hs. apply list_elem_of_In, in_map_iff in Hs as (c & Hc' & _). by destruct c. }
  intros m4 F4 B4. rewrite set_mem_twice. apply HQ; [done|]. unfold only_buf in *. rewrite E2 in B3. rewrite E3, E2 in B4.
  etrans; [exact A1|]. etrans; [exact A2|]. by etrans.
Qed.

(** C13: a tree built in a large enough buffer is read back as it was
    written: [build] returns 0, changes only the buffer, [fdt_check_header]
    accepts the result, and on every node [fdt_getprop] finds the value that
    the first property written there under the name was given, or reports that
    there is none. *)
Theorem fdt_build_reads_back fdt T cs s :
  PAGE_SIZE <= fdt -> fdt &l 7 = 0 -> T < INT_MAX -> Forall (call_ok fdt T (mem s)) cs -> 68 + need cs <= T ->
  wp (build fdt T cs) (fun r s' => r = 0 /\ s' = set_mem (mem s') s /\ agree (fun a => ~ in_range fdt T a) (mem s) (mem s') /\
    wp (fdt_check_header fdt) (fun r s'' => r = 0 /\ s'' = s') s' /\
    forall l1 nd ps t l2 name nm, map call_tok cs = l1 ++ SwBegin nd :: props_toks ps ++ t :: l2 -> (forall n v, t <> SwProp n v) ->
      cstr (mem s') name nm -> PAGE_SIZE <= name -> len nm < 2 ^ 31 ->
      wp (fdt_get_name fdt (toks_size l1) true) (fun r s'' => cstr (mem s') r.1 nd /\ r.2 = len nd /\ s'' = s') s' /\
      wp (fdt_getprop fdt (toks_size l1) name) (fun r s'' => s'' = s' /\
        match lookup_prop nm ps with
        | Some (_, v) => bytes_at (mem s') r.1 v /\ r.2 = len v
        | None => r = (NULL, - FDT_ERR_NOTFOUND)
        end) s') s.
Proof.
  intros Ha Hal HT Hc Hn. apply wp_build; [done..|]. intros m' F A. rewrite set_mem_mem. split_and!; [done|done|done| |].
  - by apply (wp_check_header fdt (map call_tok cs)).
  - intros l1 nd ps t l2 name nm E Ht Hs Hna Hlen.
    assert (Hat : at_tok (map call_tok cs) l1 (SwBegin nd)) by (eexists; rewrite E, <- app_assoc; reflexivity).
    assert (Hps : at_props (map call_tok cs) (l1 ++ [SwBegin nd]) ps).
    { exists t, (l2 ++ [SwStop]). split; [rewrite E; simpl; by rewrite <- !app_assoc; simpl; rewrite <- app_assoc|].
      assert (Hi : In t (map call_tok cs)) by (rewrite E; apply in_or_app; right; right; apply in_or_app; right; by left).
      apply in_map_iff in Hi as ([?|?|] & <- & _); simpl in *; eauto. by destruct (Ht nm0 v). }
    split.
    + by apply (wp_get_name fdt (map call_tok cs) (set_mem m' s) F l1 nd).
    + apply (wp_getprop fdt (map call_tok cs) (set_mem m' s) F l1 nd ps name nm); [done..|]. destruct (lookup_prop nm ps) as [[n v]|]; [|done]. done.
Qed.

(** [fdt_add_string_] guards against a full buffer with an unsigned
    difference.  A name that is longer than what lies before the strings wraps
    it around: the name is then copied to below the buffer, over whatever is
    there. *)
Theorem fdt_add_string_overrun fdt name nm l s :
  writing fdt (mem s) l -> cstr (mem s) name nm -> fdt + hdr fdt (mem s) 4 <= name ->
  hdr fdt (mem s) 4 < hdr fdt (mem s) 32 + len nm + 1 < 2 ^ 31 ->
  let dst := fdt + hdr fdt (mem s) 4 - (hdr fdt (mem s) 32 + len nm + 1) in PAGE_SIZE <= dst ->
  wp (fdt_add_string_ fdt name) (fun r s' => r < 0 /\ dst < fdt /\
    forall i, 0 <= i < len nm + 1 -> dst + i < fdt -> ldb (mem s') (dst + i) = ldb (mem s) (name + i)) s.
Proof.
  intros H Hc Hn Hl dst Hd. pose proof (wg_header _ _ _ H) as Hh. pose proof (sw_addr _ _ Hh). pose proof (sw_room _ _ Hh). pose proof (sw_rsv _ _ Hh).
  pose proof (sw_total _ _ Hh). unfold INT_MAX in *. pose proof (hdr_bound fdt (mem s) 36). pose proof (hdr_bound fdt (mem s) 32).
  unfold fdt_add_string_, fdt_totalsize, fdt_size_dt_strings, fdt_off_dt_struct, fdt_size_dt_struct.
  do 2 (wp_step; apply wp_hdr; [lia|lia|]). wp_step. apply (wp_strlen name nm); [done|lia|lia|]. do 3 (wp_step; apply wp_hdr; [lia|lia|]).
  rewrite (u32_small (len nm + 1)), (u32_small (_ + (len nm + 1))) by lia. rewrite (u32_small (hdr fdt (mem s) 8 + _)) by lia.
  set (off := hdr fdt (mem s) 32 + (len nm + 1)) in *.
  replace (u32 (hdr fdt (mem s) 4 - off)) with (hdr fdt (mem s) 4 - off + 2 ^ 32) by (unfold u32, off; zdm).
  rewrite (proj2 (Z.ltb_ge _ _)) by lia. replace (fdt + hdr fdt (mem s) 4 - off) with dst by lia.
  wp_step. apply wp_memcpy; [done|lia|lia|lia|]. intros m1 Em. wp_step. unfold fdt_set_size_dt_strings. apply wp_set_hdr; [lia|lia|lia|].
  wp_step. rewrite !set_mem_mem, s32_small by lia. split; [lia|]. split; [lia|]. intros i Hi Hb.
  rewrite <- (moved_in _ _ _ _ _ i Em) by lia. apply put32_agree with (P := fun a => a < fdt); [|done]. unfold in_range. lia.
Qed.
End spec.

(** ** A tree with a root, a property and a child *)

#[local] Existing Instance sample_layout.

Definition sw_mem : memory := fold_left (fun m '(n, a, v) => st n m a v) [(4%nat, 0x20000, 0x676572); (4%nat, 0x20010, 0x757063); (8%nat, 0x20020, 0x8070605040302010)] ∅.

Definition sw_calls : list sw_call :=
  [BeginNode 0x20003 []; Property 0x20000 [114; 101; 103] 0x20020 [16; 32; 48; 64; 80; 96; 112; 128];
   BeginNode 0x20010 [99; 112; 117]; EndNode; EndNode].

Lemma sw_calls_ok : Forall (call_ok 0x10000 256 sw_mem) sw_calls.
Proof.
  assert (B : bytes_at sw_mem 0x20020 [16; 32; 48; 64; 80; 96; 112; 128]).
  { intros i c Hi. do 8 (destruct i as [|i]; [injection Hi as <-; vm_compute; reflexivity|]). done. }
  repeat constructor; simpl; try exact B; try (vm_compute; congruence); right; vm_compute; congruence.
Qed.

(** An empty tree in [T] bytes at 0x10000. *)
Lemma sw_open m T : 64 <= T < INT_MAX ->
  exists m', writing 0x10000 m' [] /\ hdr 0x10000 m' 4 = T /\ room 0x10000 m' = T - 64 /\ agree (fun a => ~ in_range 0x10000 T a) m m'.
Proof.
  intros HT. assert (H : wp (fdt_create_with_flags 0x10000 T 0;; fdt_finish_reservemap 0x10000) (fun _ s' => writing 0x10000 (mem s') [] /\
    hdr 0x10000 (mem s') 4 = T /\ room 0x10000 (mem s') = T - 64 /\ agree (fun a => ~ in_range 0x10000 T a) m (mem s')) (sample_state m)).
  { wp_step. apply wp_create; [vm_compute; congruence|done|lia|auto|lia|]. intros m1 R A. apply (wp_finish_reservemap _ T 0); rewrite ?set_mem_mem; [done|lia|].
    intros m2 W Hr E A2. rewrite set_mem_twice, set_mem_mem. split_and!; [done|done|lia|]. by etrans. }
  apply wp_iff in H as (_ & s' & _ & H). by exists (mem s').
Qed.

Lemma fdt_property_refines_witness : exists m r s', writing 0x10000 m [] /\ room 0x10000 m = 192 /\ fdt_property 0x10000 0x20000 0x20020 8 (sample_state m) = Ok r s'.
Proof.
  destruct (sw_open sw_mem 256 ltac:(unfold INT_MAX; lia)) as (m & W & E & R & A).
  pose proof sw_calls_ok as [_ [(Hc & Ha & Hv & Hva) _]%Forall_cons]%Forall_cons.
  assert (H : call_ok 0x10000 256 m (Property 0x20000 [114; 101; 103] 0x20020 [16; 32; 48; 64; 80; 96; 112; 128])) by (apply (call_ok_agree _ _ sw_mem); done).
  destruct H as (Hc' & _ & Hv' & _). pose proof (sw_rsv _ _ (wg_header _ _ _ W)). unfold room in R. pose proof (hdr_bound 0x10000 m 36).
  pose proof (fdt_property_refines 0x10000 0x20000 [114; 101; 103] 0x20020 [16; 32; 48; 64; 80; 96; 112; 128] [] (sample_state m) W Hc'
    ltac:(unfold outside; simpl mem; rewrite E; exact Ha) ltac:(simpl mem; simpl length; lia) Hv' ltac:(unfold outside; simpl mem; rewrite E; exact Hva) ltac:(simpl; lia)) as Hw.
  pose proof (proj1 (wp_iff _ _ _) Hw) as (r & s' & Er & _). exists m, r, s'. split; [exact W|]. split; [unfold room; lia|exact Er].
Defined.

Lemma fdt_build_reads_back_witness : exists s', build 0x10000 256 sw_calls (sample_state sw_mem) = Ok 0 s'.
Proof.
  pose proof (fdt_build_reads_back 0x10000 256 sw_calls (sample_state sw_mem) ltac:(vm_compute; congruence) ltac:(reflexivity) ltac:(vm_compute; congruence)
    sw_calls_ok ltac:(vm_compute; congruence)) as H.
  pose proof (proj1 (wp_iff _ _ _) H) as (r & s' & E & Hr & _). clear H. subst r. exists s'. exact E.
Defined.

Definition long_name : list Z := replicate 64 97.
Definition long_mem : memory := fold_left (fun m i => st 1 m (0x20000 + Z.of_nat i) 97) (seq 0 64) ∅.

Lemma long_name_at : cstr long_mem 0x20000 long_name.
Proof. vm_compute. repeat (split; [reflexivity|]; split; [congruence|]). reflexivity. Qed.

Lemma fdt_add_string_overrun_witness : exists m r s', writing 0x10000 m [] /\ fdt_add_string_ 0x10000 0x20000 (sample_state m) = Ok r s' /\ exists a, a < 0x10000 /\ ldb (mem s') a = 97.
Proof.
  destruct (sw_open long_mem 64 ltac:(unfold INT_MAX; lia)) as (m & W & E & R & A). pose proof (sw_room _ _ (wg_header _ _ _ W)) as Hr. unfold room in R.
  pose proof (sw_rsv _ _ (wg_header _ _ _ W)). pose proof (hdr_bound 0x10000 m 36). pose proof (hdr_bound 0x10000 m 32).
  assert (Hc : cstr m 0x20000 long_name).
  { eapply cstr_ext; [|exact long_name_at]. intros i Hi. apply A. unfold in_range. change (len long_name) with 64 in Hi. lia. }
  pose proof (fdt_add_string_overrun 0x10000 0x20000 long_name [] (sample_state m) W Hc ltac:(simpl mem; lia)
    ltac:(simpl mem; change (len long_name) with 64; lia) ltac:(simpl mem; change (len long_name) with 64; unfold PAGE_SIZE; lia)) as Hw.
  pose proof (proj1 (wp_iff _ _ _) Hw) as (r & s' & Er & _ & Hlt & Hb). exists m, r, s'. split; [exact W|]. split; [exact Er|].
  eexists. split; [exact Hlt|]. rewrite <- (Z.add_0_r (_ - _)), Hb; [|change (len long_name) with 64; lia|rewrite Z.add_0_r; exact Hlt].
  change (mem (sample_state m)) with m. rewrite (A (0x20000 + 0)) by (unfold in_range; lia). reflexivity.
Defined.
