(* ===== verification/FdtEdit.v ===== *)
(** * Changing a value of a finished device tree in place

    [fdt_setprop_inplace] of fdt_wip.c on the trees of FdtFinish: the tree
    afterwards is the tree before with one value replaced. *)

From S2P Require Import Prelude Memory Machine Strings ReadOnly Fdt FdtRo FdtRw FdtSw FdtProofs FdtLookup FdtSwProofs FdtFinish FdtReadBack FdtSwSpec.

(** The first property named [nm] gets the value [v]. *)
Fixpoint set_prop (nm v : list Z) (ps : list (list Z * list Z)) : list (list Z * list Z) :=
  match ps with
  | [] => []
  | (n, w) :: ps' => if bool_decide (n = nm) then (n, v) :: ps' else (n, w) :: set_prop nm v ps'
  end.

Lemma set_prop_mid nm v w ps1 ps2 : lookup_prop nm ps1 = None -> set_prop nm v (ps1 ++ (nm, w) :: ps2) = ps1 ++ (nm, v) :: ps2.
Proof.
  induction ps1 as [|[n u] ps1 IH]; simpl; [by rewrite bool_decide_true|]. destruct (bool_decide (n = nm)); [done|]. intros H. by rewrite IH.
Qed.

Lemma lookup_set_prop nm v ps : match lookup_prop nm ps with Some _ => lookup_prop nm (set_prop nm v ps) = Some (nm, v) | None => set_prop nm v ps = ps end.
Proof.
  induction ps as [|[n w] ps IH]; simpl; [done|]. destruct (bool_decide (n = nm)) eqn:E; simpl.
  - rewrite E. by apply bool_decide_eq_true in E as ->.
  - destruct (lookup_prop nm ps); simpl; rewrite ?E, IH; done.
Qed.

Section edit.
Context {L : KernelLayout}.
Variable fdt : Z.

Abbreviation value_range m l1 v := (in_range (sp fdt m (toks_size l1 + 12)) (len v)).

(** Where a value is, the header, the other tokens and the strings are
    not. *)
Lemma value_bounds m la nm v lb : finished fdt m (la ++ SwProp nm v :: lb) ->
  0 <= toks_size la /\ toks_size la + 12 + len v <= toks_size la + tok_size (SwProp nm v) /\
  toks_size la + tok_size (SwProp nm v) + toks_size (lb ++ [SwStop]) = hdr fdt m 36 /\ 40 <= hdr fdt m 8.
Proof.
  intros F. rewrite (fn_size _ _ _ F), <- app_assoc, (toks_size_app la). pose proof (toks_size_spec la). pose proof (align4_spec (len v)). pose proof (fn_rsv _ _ _ F).
  assert (E : toks_size ((SwProp nm v :: lb) ++ [SwStop]) = tok_size (SwProp nm v) + toks_size (lb ++ [SwStop])) by done.
  rewrite E. split_and!; [lia|simpl tok_size; lia|lia|lia].
Qed.

Lemma finished_value m m' la nm v lb v' : finished fdt m (la ++ SwProp nm v :: lb) -> len v' = len v ->
  bytes_at m' (sp fdt m (toks_size la + 12)) v' -> agree (fun a => ~ value_range m la v a) m m' -> finished fdt m' (la ++ SwProp nm v' :: lb).
Proof.
  intros F El Hv Ha. pose proof (value_bounds _ _ _ _ _ F) as (B1 & B2 & B3 & B4). pose proof (toks_size_spec (lb ++ [SwStop])) as [B5 _].
  assert (Eh : forall i, 0 <= i <= 36 -> hdr fdt m' i = hdr fdt m i).
  { intros i Hi. apply hdr_agree; [done|]. eapply agree_weaken; [|exact Ha]. unfold in_hdr, in_range, sp. lia. }
  assert (Es : forall x, sp fdt m' x = sp fdt m x) by (intros x; unfold sp; by rewrite Eh by lia).
  assert (HR : forall x name, string_at fdt m x name -> string_at fdt m' x name).
  { apply string_at_frame; [apply Eh; lia|apply Eh; lia|]. eapply agree_weaken; [|exact Ha]. rewrite (fn_strings _ _ _ F). unfold in_range, sp. lia. }
  assert (Ets : tok_size (SwProp nm v') = tok_size (SwProp nm v)) by (simpl; by rewrite El).
  pose proof (fn_toks _ _ _ F) as Ht. destruct F. split; rewrite ?Eh by lia; try done.
  - rewrite fn_size, <- !app_assoc, !toks_size_app. simpl. by rewrite El.
  - rewrite <- app_assoc in *. apply holds_app in Ht as [H1 H2]. apply holds_app. simpl app in *. destruct H2 as [[H2 (H3 & _ & H4)] H5].
    assert (E8 : hdr fdt m' 8 = hdr fdt m 8) by (apply Eh; lia). split; [|split].
    + apply (holds_frame fdt (string_at fdt m) _ m); [done|done| |done]. eapply agree_weaken; [|exact Ha]. unfold in_range, sp. lia.
    + assert (Ew : forall i, 0 <= i <= 8 -> be32 m' (sp fdt m (0 + toks_size la + i)) = be32 m (sp fdt m (0 + toks_size la + i))).
      { intros i Hi. apply be32_agree. eapply agree_weaken; [|exact Ha]. unfold in_range, sp. lia. }
      split; rewrite !Es; [|split_and!].
      * change (tok_tag (SwProp nm v')) with (tok_tag (SwProp nm v)). rewrite <- H2. pose proof (Ew 0 ltac:(lia)) as E0. by rewrite Z.add_0_r in E0.
      * rewrite Ew, H3 by lia. done.
      * by rewrite Z.add_0_l.
      * rewrite Ew by lia. by apply HR.
    + rewrite Ets. apply (holds_frame fdt (string_at fdt m) _ m); [done|done| |done]. eapply agree_weaken; [|exact Ha]. unfold in_range, sp. lia.
Qed.

(** The node's properties behind [l1] in a list of tokens. *)
Lemma node_at l1 nd ps t l2 : t = SwEnd \/ (exists n, t = SwBegin n) ->
  let l := l1 ++ SwBegin nd :: props_toks ps ++ t :: l2 in at_tok l l1 (SwBegin nd) /\ at_props l (l1 ++ [SwBegin nd]) ps.
Proof.
  intros Ht l. unfold l. split; [eexists; rewrite <- app_assoc; reflexivity|]. exists t, (l2 ++ [SwStop]). split; [|done].
  rewrite <- !app_assoc. simpl. by rewrite <- app_assoc.
Qed.

Lemma props_toks_app ps1 ps2 : props_toks (ps1 ++ ps2) = props_toks ps1 ++ props_toks ps2.
Proof. apply map_app. Qed.

(** The copy of the new value, and the tree it leaves. *)
Lemma wp_copy_value l1 nd nm w ps1 ps2 t l2 val v (Q : Z -> kst -> Prop) s :
  let l x := l1 ++ SwBegin nd :: props_toks (ps1 ++ (nm, x) :: ps2) ++ t :: l2 in
  finished fdt (mem s) (l w) -> len w = len v -> bytes_at (mem s) val v -> apart fdt (hdr fdt (mem s) 4) val (len v) ->
  (forall m', finished fdt m' (l v) -> agree (fun a => ~ in_range fdt (hdr fdt (mem s) 4) a) (mem s) m' -> Q 0 (set_mem m' s)) ->
  wp (memcpy (value_addr fdt s ((l1 ++ [SwBegin nd]) ++ props_toks ps1) + 0) val (u64 (len v));; mret 0) Q s.
Proof.
  intros l F El Hv [Ha Hd] HQ. set (la := (l1 ++ [SwBegin nd]) ++ props_toks ps1). set (lb := props_toks ps2 ++ t :: l2).
  assert (Ell : forall x, l x = la ++ SwProp nm x :: lb) by (intros x; unfold l, la, lb; rewrite props_toks_app, <- !app_assoc; reflexivity).
  rewrite Ell in F. rewrite Ell in HQ. pose proof (value_bounds _ _ _ _ _ F) as (B1 & B2 & B3 & B4). pose proof (toks_size_spec (lb ++ [SwStop])) as [B5 _].
  pose proof (fn_addr _ _ _ F). pose proof (fn_strings _ _ _ F). pose proof (fn_total _ _ _ F). pose proof (fn_max _ _ _ F). pose proof (hdr_bound fdt (mem s) 32).
  unfold INT_MAX in *. rewrite u64_small, Z.add_0_r by lia. wp_step. apply wp_memcpy; [unfold value_addr, sp; lia|done|lia|unfold value_addr, sp; lia|].
  intros m' Hm. wp_step. apply HQ.
  - apply (finished_value (mem s) m' la nm w lb v F); [done| |].
    + eapply bytes_at_ext; [|exact Hv]. intros i Hi. by apply (moved_in _ _ _ _ _ i Hm).
    + rewrite El. apply (moved_agree _ _ _ _ _ Hm).
  - eapply agree_weaken; [|apply (moved_agree _ _ _ _ _ Hm)]. unfold value_addr, sp, in_range. lia.
Qed.
End edit.

Section spec.
Context {L : KernelLayout}.

(** C15: on a finished tree [fdt_setprop_inplace] refines the replacement of
    the value of a node's first property of the name, which it makes if the new
    value has the old one's length; it then writes nothing but the buffer, the
    tree is again a finished one and [fdt_getprop] finds the new value.
    Without such a property, or with another length, it reports so and writes
    nothing. *)
Theorem fdt_setprop_inplace_refines fdt l1 nd ps t l2 name nm val v s :
  finished fdt (mem s) (l1 ++ SwBegin nd :: props_toks ps ++ t :: l2) -> t = SwEnd \/ (exists n, t = SwBegin n) ->
  cstr (mem s) name nm -> apart fdt (hdr fdt (mem s) 4) name (len nm + 1) -> len nm < 2 ^ 31 ->
  bytes_at (mem s) val v -> apart fdt (hdr fdt (mem s) 4) val (len v) -> len v < 2 ^ 31 ->
  wp (fdt_setprop_inplace fdt (toks_size l1) name val (len v)) (fun r s' => s' = set_mem (mem s') s /\
    match lookup_prop nm ps with
    | None => r = - FDT_ERR_NOTFOUND /\ mem s' = mem s
    | Some (_, w) =>
        if len w =? len v then
          r = 0 /\ agree (fun a => ~ in_range fdt (hdr fdt (mem s) 4) a) (mem s) (mem s') /\
          finished fdt (mem s') (l1 ++ SwBegin nd :: props_toks (set_prop nm v ps) ++ t :: l2) /\
          wp (fdt_getprop fdt (toks_size l1) name) (fun r s'' => s'' = s' /\ bytes_at (mem s') r.1 v /\ r.2 = len v) s'
        else r = - FDT_ERR_NOSPACE /\ mem s' = mem s
    end) s.
Proof.
  intros F Ht Hc [Hna Hnd] Hnl Hv Hva Hvl. set (l := l1 ++ SwBegin nd :: props_toks ps ++ t :: l2) in *. destruct (node_at l1 nd ps t l2 Ht) as [Hat Hps]. fold l in Hat, Hps.
  unfold fdt_setprop_inplace. wp_step. apply (wp_getprop fdt l s F l1 nd ps name nm); [done..|].
  destruct (lookup_prop nm ps) as [[n w]|] eqn:El; [|simpl; wp_step; by rewrite set_mem_id].
  intros a _ Hn. rewrite (proj2 (Z.eqb_neq _ _)) by done. destruct (Z.eqb_spec (len w) (len v)) as [E|E]; simpl negb; cbn match; [|wp_step; by rewrite set_mem_id].
  unfold fdt_setprop_inplace_namelen_partial. wp_step. apply (wp_strlen name nm); [done|done|lia|]. rewrite s32_small by lia. wp_step.
  apply (wp_getprop_namelen fdt l s F l1 nd ps name nm); [done..|]. rewrite El. intros ps1 ps2 Eps El1 Hat1. subst ps.
  pose proof (at_size fdt l s F _ _ Hat1) as (Hs1 & _). pose proof (finished_bounds fdt l s F) as (Hb1 & Hb2).
  rewrite (proj2 (Z.eqb_neq _ _)) by (unfold value_addr, sp, NULL, PAGE_SIZE in *; lia). rewrite Z.add_0_r, E, !u32_small, Z.ltb_irrefl by lia.
  apply (wp_copy_value fdt l1 nd nm w ps1 ps2 t l2 val v); [done..|]. intros m' F' A'. rewrite set_mem_mem, set_prop_mid by done. split_and!; [done|done|done|done|].
  destruct (node_at l1 nd (ps1 ++ (nm, v) :: ps2) t l2 Ht) as [Hat' Hps'].
  apply (wp_getprop fdt _ (set_mem m' s) F' l1 nd (ps1 ++ (nm, v) :: ps2) name nm); [done|done| |done|done|].
  - rewrite set_mem_mem. eapply cstr_ext; [|exact Hc]. intros i Hi. apply A'. unfold in_range. lia.
  - rewrite lookup_prop_app by done. simpl. rewrite bool_decide_true by done. done.
Qed.
End spec.

(** ** The sample tree of FdtSwSpec gets another value *)

#[local] Existing Instance sample_layout.

Definition sw_tree : kst := match build 0x10000 256 sw_calls (sample_state sw_mem) with Ok _ s => s | _ => sample_state ∅ end.

Lemma sw_tree_total : hdr 0x10000 (mem sw_tree) 4 = 116.
Proof. vm_compute. reflexivity. Qed.

Lemma sw_tree_ok : finished 0x10000 (mem sw_tree) (map call_tok sw_calls) /\ agree (fun a => ~ in_range 0x10000 256 a) sw_mem (mem sw_tree).
Proof.
  assert (H : wp (build 0x10000 256 sw_calls) (fun r s' => r = 0 /\ finished 0x10000 (mem s') (map call_tok sw_calls) /\
    agree (fun a => ~ in_range 0x10000 256 a) sw_mem (mem s')) (sample_state sw_mem)).
  { apply wp_build; [vm_compute; congruence|reflexivity|vm_compute; congruence|exact sw_calls_ok|vm_compute; congruence|]. intros m' F A. by rewrite set_mem_mem. }
  pose proof (proj1 (wp_iff _ _ _) H) as (r & s' & E & _ & F & A). clear H.
  assert (Et : sw_tree = s') by (unfold sw_tree; rewrite E; reflexivity). rewrite Et. exact (conj F A).
Qed.

Definition new_value : list Z := [80; 96; 112; 128; 0; 0; 0; 0].

Lemma fdt_setprop_inplace_refines_witness : exists s', fdt_setprop_inplace 0x10000 0 0x20000 0x20024 8 sw_tree = Ok 0 s' /\
  finished 0x10000 (mem s') [SwBegin []; SwProp [114; 101; 103] new_value; SwBegin [99; 112; 117]; SwEnd; SwEnd].
Proof.
  destruct sw_tree_ok as [F A].
  pose proof (fdt_setprop_inplace_refines 0x10000 [] [] [([114; 101; 103], [16; 32; 48; 64; 80; 96; 112; 128])] (SwBegin [99; 112; 117]) [SwEnd; SwEnd]
    0x20000 [114; 101; 103] 0x20024 new_value sw_tree F ltac:(right; eexists; reflexivity)) as H.
  rewrite sw_tree_total in H.
  assert (Hc : cstr (mem sw_tree) 0x20000 [114; 101; 103]).
  { apply (cstr_ext sw_mem _ 0x20000 0x20000); [|vm_compute; repeat split; congruence]. intros i Hi. apply A. unfold in_range. simpl in Hi. lia. }
  assert (Hv : bytes_at (mem sw_tree) 0x20024 new_value).
  { intros i c Hi. rewrite A by (unfold in_range; lia). do 8 (destruct i as [|i]; [injection Hi as <-; vm_compute; reflexivity|]). done. }
  specialize (H Hc ltac:(split; [vm_compute; congruence|right; vm_compute; congruence]) ltac:(vm_compute; reflexivity) Hv
    ltac:(split; [vm_compute; congruence|right; vm_compute; congruence]) ltac:(vm_compute; reflexivity)).
  pose proof (proj1 (wp_iff _ _ _) H) as (r & s' & E & _ & Hr). change (lookup_prop _ _) with (Some ([114; 101; 103], [16; 32; 48; 64; 80; 96; 112; 128])) in Hr.
  cbn match in Hr. change (_ =? _) with true in Hr. cbn match in Hr. destruct Hr as (-> & _ & F' & _). exists s'. split; [exact E|exact F'].
Defined.
