(* ===== verification/Hal.v ===== *)
(** * device/hal/uart_io.c, device/hal/trap.c, device/hal.c

    The registries through which the kernel reaches its drivers: a singly
    linked list of UART devices, the interrupt controller and a list of
    interrupt handlers.  Driver functions are called through pointers. *)

From S2P Require Import Prelude Memory Machine.

Section hal.
Context {L : KernelLayout} {C : Code}.

(** ** uart_io.c: [struct hal_uart_device_struct { dev; write; read; next }],
    8 bytes each; [hal_uart_manager] holds the list head. *)

Definition hal_uart_register_device (dev : Z) : M Z :=
  if dev =? NULL then mret (-1)
  else
    first ← rd 8 (sym_hal_uart + 24);
    wr 8 (dev + 24) first;;
    wr 8 (sym_hal_uart + 24) dev;;
    mret 0.

Definition hal_uart_find_device (dev : Z) : M Z :=
  first ← rd 8 (sym_hal_uart + 24);
  while (fun udev =>
    if negb (udev =? NULL) then
      d ← rd 8 udev;
      if d =? dev then mret (inr udev)
      else nxt ← rd 8 (udev + 24); mret (inl nxt)
    else mret (inr NULL)) first.

Definition hal_uart_write (dev c : Z) : M unit :=
  udev ← hal_uart_find_device dev;
  if udev =? NULL then mret tt
  else f ← rd 8 (udev + 8); call f [dev; u8 c];; mret tt.

Definition hal_uart_read (dev : Z) : M Z :=
  udev ← hal_uart_find_device dev;
  if udev =? NULL then mret (u8 (-1))
  else f ← rd 8 (udev + 16); r ← call f [dev]; mret (u8 r).

(** ** trap.c: [hal_trap_manager] holds the [interruptor] pointer and, at
    offset 8, the head of the list of [struct irq_struct { int
    interrupt_src_id; dev; handler; next }].  [struct interruptor_struct] has
    [dev], [init], [enable_src], [disable_src], [check_src_status], [claim]
    and [complete], 8 bytes each. *)

Definition hal_trap_register_interruptor (dev : Z) : M Z :=
  if dev =? NULL then mret (-1)
  else
    claim ← rd 8 (dev + 40);
    if claim =? NULL then mret (-1)
    else
      complete ← rd 8 (dev + 48);
      if complete =? NULL then mret (-1)
      else wr 8 sym_hal_trap dev;; mret 0.

Definition hal_trap_register_irq (irq : Z) : M Z :=
  if irq =? NULL then mret (-1)
  else
    handler ← rd 8 (irq + 16);
    if handler =? NULL then mret (-1)
    else
      id ← rd 4 irq;
      if (s32 id <=? 0) || (1023 <? s32 id) then mret (-1)
      else
        first ← rd 8 (sym_hal_trap + 32);
        wr 8 (irq + 24) first;;
        wr 8 (sym_hal_trap + 32) irq;;
        mret 0.

(** [interrupt_src_id] is an [int], the claimed id an [uint64]. *)
Definition hal_trap_handler (cause : Z) : M unit :=
  interruptor ← rd 8 sym_hal_trap;
  if interruptor =? NULL then mret tt
  else
    dev ← rd 8 interruptor;
    claim ← rd 8 (interruptor + 40);
    irq ← call claim [dev];
    if irq =? 0 then mret tt
    else
      first ← rd 8 (sym_hal_trap + 32);
      while (fun i =>
        if negb (i =? NULL) then
          id ← rd 4 i;
          if u64 (s32 id) =? irq then
            handler ← rd 8 (i + 16);
            d ← rd 8 (i + 8);
            call handler [d];;
            mret (inr tt)
          else nxt ← rd 8 (i + 24); mret (inl nxt)
        else mret (inr tt)) first;;
      interruptor ← rd 8 sym_hal_trap;
      complete ← rd 8 (interruptor + 48);
      call complete [dev; u32 irq];;
      mret tt.

Definition hal_trap_init : M unit :=
  interruptor ← rd 8 sym_hal_trap;
  if negb (interruptor =? NULL) then
    init ← rd 8 (interruptor + 8);
    dev ← rd 8 interruptor;
    call init [dev; sym_hal_trap + 8];;
    mret tt
  else mret tt.

Definition hal_init : M unit := hal_trap_init.

(** ** The registry as a list *)

(** [slist m p l]: from [p] the [next] fields run through [l]. *)
Fixpoint slist (m : memory) (p : Z) (l : list Z) : Prop :=
  match l with
  | [] => p = NULL
  | x :: l' => p = x /\ PAGE_SIZE <= x /\ slist m (ld64 m (x + 24)) l'
  end.

(** The registered device whose [dev] field is [d], first registered last. *)
Fixpoint lookup_dev (m : memory) (d : Z) (l : list Z) : Z :=
  match l with
  | [] => NULL
  | x :: l' => if ld64 m x =? d then x else lookup_dev m d l'
  end.

Lemma wp_hal_uart_find_device d l (Q : Z -> kst -> Prop) s :
  slist (mem s) (ld64 (mem s) (sym_hal_uart + 24)) l -> Z.of_nat (length l) < 2 ^ 64 ->
  Q (lookup_dev (mem s) d l) s -> wp (hal_uart_find_device d) Q s.
Proof.
  intros Hl Hn HQ. unfold hal_uart_find_device. pose proof sym_hal_uart_image.
  wp_step. wp_step; [unfold PAGE_SIZE, VA_KERNEL_IMG_BEGIN in *; lia|].
  apply (wp_while_n (fun n p s' => s' = s /\ exists l2, slist (mem s) p l2 /\
      n = Z.of_nat (length l2) /\ lookup_dev (mem s) d l2 = lookup_dev (mem s) d l) _ (Z.of_nat (length l))).
  - split; [done|]. by exists l.
  - lia.
  - intros n p s' (-> & l2 & H2 & -> & E) _. rewrite <- E in HQ. destruct l2 as [|x l2]; simpl in H2.
    + subst p. by wp_steps.
    + destruct H2 as (-> & Hx & H2). rewrite (proj2 (Z.eqb_neq x NULL)) by (unfold NULL, PAGE_SIZE in *; lia).
      simpl negb. wp_steps. simpl in HQ, E. destruct (Z.eqb_spec (ld64 (mem s) x) d) as [Ed|Ed]; [by wp_steps|].
      wp_steps. exists (Z.of_nat (length l2)). split; [simpl; lia|].
      split; [done|]. by exists l2.
Qed.

(** The registry after a registration. *)
Lemma slist_frame m m' p l :
  slist m p l -> (forall x, x ∈ l -> ld64 m' (x + 24) = ld64 m (x + 24)) -> slist m' p l.
Proof.
  revert p. induction l as [|x l IH]; simpl; intros p H Hf; [done|]. destruct H as (-> & Hx & H).
  split_and!; try done. rewrite Hf by apply list_elem_of_here. apply IH; [done|].
  intros y Hy. apply Hf. by apply list_elem_of_further.
Qed.

Lemma lookup_dev_frame m m' d l :
  (forall x, x ∈ l -> ld64 m' x = ld64 m x) -> lookup_dev m' d l = lookup_dev m d l.
Proof.
  induction l as [|x l IH]; simpl; intros Hf; [done|]. rewrite Hf by apply list_elem_of_here.
  rewrite IH; [done|]. intros y Hy. apply Hf. by apply list_elem_of_further.
Qed.

(** A registered entry: four words, apart from the others and from the list
    head. *)
Definition entries_apart (l : list Z) : Prop :=
  NoDup l /\ (forall x, x ∈ l -> PAGE_SIZE <= x < 2 ^ 64 /\ disjoint x 32 sym_hal_uart 32) /\
  (forall x y, x ∈ l -> y ∈ l -> x <> y -> disjoint x 32 y 32).

Lemma wp_hal_uart_register_device x l (Q : Z -> kst -> Prop) s :
  slist (mem s) (ld64 (mem s) (sym_hal_uart + 24)) l -> entries_apart (x :: l) ->
  (forall m', slist m' (ld64 m' (sym_hal_uart + 24)) (x :: l) ->
     (forall d, lookup_dev m' d (x :: l) = lookup_dev (mem s) d (x :: l)) -> Q 0 (set_mem m' s)) ->
  wp (hal_uart_register_device x) Q s.
Proof.
  intros Hl (Hnd & Hx & Hd) HQ. pose proof sym_hal_uart_image. unfold hal_uart_register_device.
  destruct (Hx x (list_elem_of_here _ _)) as [Bx Dx]. unfold disjoint in *.
  apply NoDup_cons in Hnd as [Hnx _].
  assert (Hlx : forall y, y ∈ l -> x + 32 <= y \/ y + 32 <= x).
  { intros y Hy. apply Hd; [apply list_elem_of_here|by apply list_elem_of_further|]. by intros ->. }
  assert (Hly : forall y, y ∈ l -> y + 32 <= sym_hal_uart \/ sym_hal_uart + 32 <= y).
  { intros y Hy. apply Hx. by apply list_elem_of_further. }
  rewrite (proj2 (Z.eqb_neq x NULL)) by (unfold NULL, PAGE_SIZE in *; lia).
  wp_step. wp_step; [unfold PAGE_SIZE, VA_KERNEL_IMG_BEGIN in *; lia|].
  wp_step. wp_step.
  wp_step. wp_step; [unfold PAGE_SIZE, VA_KERNEL_IMG_BEGIN in *; lia|].
  wp_step. rewrite set_mem_mem, set_mem_twice. set (f := ld64 (mem s) (sym_hal_uart + 24)) in *.
  pose proof (ld64_bound (mem s) (sym_hal_uart + 24)) as Hf. fold f in Hf.
  apply HQ.
  - simpl. rewrite ld64_st64 by (unfold PAGE_SIZE in *; lia). split_and!; [done|lia|].
    rewrite ld64_st64_ne, ld64_st64 by (unfold disjoint; lia). apply (slist_frame (mem s)); [done|].
    intros y Hy. pose proof (Hlx y Hy). pose proof (Hly y Hy).
    by rewrite !ld64_st64_ne by (unfold disjoint; lia).
  - intros d. apply lookup_dev_frame. intros y Hy. apply elem_of_cons in Hy as [->|Hy].
    + by rewrite !ld64_st64_ne by (unfold disjoint; lia).
    + pose proof (Hlx y Hy). pose proof (Hly y Hy). by rewrite !ld64_st64_ne by (unfold disjoint; lia).
Qed.

(** After a UART is registered, looking a device up finds the new entry
    if it is that device's, and otherwise the entry the lookup found before;
    registering and looking up terminate. *)
Theorem uart_register_find x d l s :
  slist (mem s) (ld64 (mem s) (sym_hal_uart + 24)) l -> entries_apart (x :: l) -> Z.of_nat (length l) < 2 ^ 63 ->
  wp (hal_uart_register_device x;; hal_uart_find_device d)
    (fun r _ => r = if ld64 (mem s) x =? d then x else lookup_dev (mem s) d l) s /\
  wp (hal_uart_find_device d) (fun r _ => r = lookup_dev (mem s) d l) s.
Proof.
  intros Hl Ha Hn. split; [|by apply (wp_hal_uart_find_device d l); [|lia|]].
  wp_step. apply (wp_hal_uart_register_device x l); try done. intros m' Hl' Hd.
  apply (wp_hal_uart_find_device d (x :: l)); [done|simpl length; lia|].
  rewrite set_mem_mem, Hd. done.
Qed.
End hal.

#[local] Existing Instance sample_layout.
#[local] Instance no_code : Code := fun f _ => fault f.

Lemma uart_register_find_witness :
  wp (hal_uart_register_device 0x5000;; hal_uart_find_device 7)
    (fun r _ => r = if ld64 (st64 ∅ 0x5000 7) 0x5000 =? 7 then 0x5000 else NULL) (sample_state (st64 ∅ 0x5000 7)) /\
  wp (hal_uart_find_device 7) (fun r _ => r = NULL) (sample_state (st64 ∅ 0x5000 7)).
Proof.
  apply (uart_register_find 0x5000 7 [] (sample_state (st64 ∅ 0x5000 7))).
  - reflexivity.
  - split_and!.
    + apply NoDup_singleton.
    + intros x ->%list_elem_of_singleton. unfold PAGE_SIZE, disjoint. simpl. lia.
    + intros x y ->%list_elem_of_singleton ->%list_elem_of_singleton. done.
  - simpl. lia.
Defined.
