(* ===== verification/Qsort.v ===== *)
(** * utilities/algorithm/qsort.c

    The macro [__qsort_impl] is the same Lomuto quicksort for eight element
    types; an array is the list of its (already typed) elements, an index
    outside it makes the access, and so the sort, fail ([None]).  [fuel]
    bounds the depth of the recursion; one more than the length of the range
    is always enough, so [qsort] never runs out of it. *)

From S2P Require Import Prelude.

Definition get (arr : list Z) (i : Z) : option Z := if i <? 0 then None else arr !! Z.to_nat i.
Definition put (arr : list Z) (i v : Z) : option (list Z) :=
  if (i <? 0) || (Z.of_nat (length arr) <=? i) then None else Some (<[Z.to_nat i := v]> arr).

(** [typ tmp = arr[i]; arr[i] = arr[j]; arr[j] = tmp;] *)
Definition swap (arr : list Z) (i j : Z) : option (list Z) :=
  tmp ← get arr i;
  x ← get arr j;
  arr ← put arr i x;
  put arr j tmp.

(** [for (int j = low; j < high; j++) if (arr[j] < pivot) ...], with [n]
    rounds left. *)
Fixpoint partition (n : nat) (j pivot ptr : Z) (arr : list Z) : option (list Z * Z) :=
  match n with
  | O => Some (arr, ptr)
  | S n' =>
      x ← get arr j;
      if x <? pivot then
        arr ← swap arr (ptr + 1) j;
        partition n' (j + 1) pivot (ptr + 1) arr
      else partition n' (j + 1) pivot ptr arr
  end.

Fixpoint __qsort (fuel : nat) (arr : list Z) (low high : Z) : option (list Z) :=
  match fuel with
  | O => None
  | S fuel' =>
      if low <? high then
        pivot ← get arr high;
        '(arr, ptr) ← partition (Z.to_nat (high - low)) low pivot (low - 1) arr;
        let ptr := ptr + 1 in
        arr ← swap arr ptr high;
        arr ← __qsort fuel' arr low (ptr - 1);
        __qsort fuel' arr (ptr + 1) high
      else Some arr
  end.

Definition qsort (arr : list Z) (len : Z) : option (list Z) := __qsort (S (Z.to_nat len)) arr 0 (len - 1).

(** ** Elements *)

Definition at_ (arr : list Z) (i : Z) : Z := default 0 (get arr i).
Definition inb (arr : list Z) (i : Z) : Prop := 0 <= i < Z.of_nat (length arr).

Lemma get_at arr i : inb arr i -> get arr i = Some (at_ arr i).
Proof.
  unfold inb, at_, get. intros Hi. destruct (Z.ltb_spec i 0); [lia|].
  destruct (lookup_lt_is_Some_2 arr (Z.to_nat i)) as [x E]; [lia|]. by rewrite E.
Qed.

Lemma put_ok arr i v :
  inb arr i -> exists arr', put arr i v = Some arr' /\ length arr' = length arr /\
    forall k, inb arr k -> at_ arr' k = if k =? i then v else at_ arr k.
Proof.
  unfold inb, put. intros Hi. destruct (Z.ltb_spec i 0), (Z.leb_spec (Z.of_nat (length arr)) i); try lia. simpl.
  eexists. split; [done|]. split; [by rewrite length_insert|]. intros k Hk. unfold at_, get.
  destruct (Z.ltb_spec k 0); [lia|]. destruct (Z.eqb_spec k i) as [->|Hne].
  - by rewrite list_lookup_insert_eq by lia.
  - by rewrite list_lookup_insert_ne by lia.
Qed.

Lemma swap_ok arr i j :
  inb arr i -> inb arr j -> exists arr', swap arr i j = Some arr' /\ length arr' = length arr /\ Permutation arr' arr /\
    forall k, inb arr k -> at_ arr' k = if k =? j then at_ arr i else if k =? i then at_ arr j else at_ arr k.
Proof.
  intros Hi Hj. unfold swap. rewrite (get_at arr i), (get_at arr j) by done. cbn.
  destruct (put_ok arr i (at_ arr j) Hi) as (a1 & E1 & L1 & A1). rewrite E1. cbn.
  destruct (put_ok a1 j (at_ arr i)) as (a2 & E2 & L2 & A2); [unfold inb in *; by rewrite L1|].
  exists a2. split_and!; [done|congruence| |].
  - unfold put, inb in *. rewrite L1 in *.
    destruct (Z.ltb_spec i 0), (Z.leb_spec (Z.of_nat (length arr)) i); try lia. simpl in E1. injection E1 as <-.
    destruct (Z.ltb_spec j 0), (Z.leb_spec (Z.of_nat (length arr)) j); try lia. simpl in E2. injection E2 as <-.
    pose proof (get_at arr i Hi) as Gi. pose proof (get_at arr j Hj) as Gj. unfold get in Gi, Gj.
    destruct (Z.ltb_spec i 0), (Z.ltb_spec j 0); try lia.
    by apply Permutation_insert_swap.
  - intros k Hk. rewrite A2, A1 by (unfold inb in *; by rewrite ?L1). done.
Qed.

(** ** Partitioning *)

(** [arr'] is [arr] with the elements of positions [lo .. hi] rearranged. *)
Record rearranged (lo hi : Z) (arr arr' : list Z) : Prop := {
  re_len : length arr' = length arr;
  re_perm : Permutation arr' arr;
  re_out : forall i, inb arr i -> i < lo \/ hi < i -> at_ arr' i = at_ arr i;
  re_in : forall i, lo <= i <= hi -> exists k, lo <= k <= hi /\ at_ arr' i = at_ arr k;
}.

Lemma rearranged_refl lo hi arr : rearranged lo hi arr arr.
Proof. split; try done. intros i Hi. by exists i. Qed.

Lemma rearranged_trans lo hi a b c : rearranged lo hi a b -> rearranged lo hi b c -> rearranged lo hi a c.
Proof.
  intros [L1 P1 O1 I1] [L2 P2 O2 I2]. split.
  - congruence.
  - by etrans.
  - intros i Hi Hio. rewrite O2, O1; try done. unfold inb in *. by rewrite L1.
  - intros i Hi. destruct (I2 i Hi) as (k & Hk & ->). by apply I1.
Qed.

(** A rearrangement of a part is one of the whole. *)
Lemma rearranged_widen lo hi lo' hi' a b :
  lo' <= lo -> hi <= hi' -> 0 <= lo' -> hi' < Z.of_nat (length a) -> rearranged lo hi a b -> rearranged lo' hi' a b.
Proof.
  intros Hl Hh H0 Hn [L P O I]. split; try done.
  - intros i Hi Hio. apply O; [done|lia].
  - intros i Hi. destruct (decide (lo <= i <= hi)) as [Hin|Hout].
    + destruct (I i Hin) as (k & ? & ?). exists k. split; [lia|done].
    + exists i. split; [done|]. apply O; [unfold inb; lia|lia].
Qed.

Lemma rearranged_swap lo hi a i j b :
  swap a i j = Some b -> lo <= i <= hi -> lo <= j <= hi -> 0 <= lo -> hi < Z.of_nat (length a) -> rearranged lo hi a b.
Proof.
  intros E Hi Hj H0 Hn. destruct (swap_ok a i j) as (b' & E' & L & P & A); [unfold inb; lia..|].
  rewrite E in E'. injection E' as <-. split; try done.
  - intros k Hk Hko. rewrite A by done. destruct (Z.eqb_spec k j), (Z.eqb_spec k i); try lia; done.
  - intros k Hk. rewrite A by (unfold inb; lia). destruct (Z.eqb_spec k j); [by exists i|]. destruct (Z.eqb_spec k i); [by exists j|].
    by exists k.
Qed.

(** The loop invariant: [low .. ptr] hold elements below the pivot,
    [ptr + 1 .. j - 1] the others. *)
Definition parted (low j pivot ptr : Z) (arr : list Z) : Prop :=
  low - 1 <= ptr < j /\ (forall k, low <= k <= ptr -> at_ arr k < pivot) /\
  (forall k, ptr < k < j -> pivot <= at_ arr k).

Lemma partition_ok n low j high pivot ptr arr :
  0 <= low -> low <= j -> high < Z.of_nat (length arr) -> j + Z.of_nat n = high ->
  at_ arr high = pivot -> parted low j pivot ptr arr ->
  exists arr' ptr', partition n j pivot ptr arr = Some (arr', ptr') /\ rearranged low (high - 1) arr arr' /\
    parted low high pivot ptr' arr' /\ at_ arr' high = pivot.
Proof.
  revert j ptr arr. induction n as [|n IH]; intros j ptr arr H0 Hj Hn Hjn Hp (Hptr & Hlt & Hge).
  - exists arr, ptr. assert (j = high) as -> by lia. split_and!; try done. apply rearranged_refl.
  - cbn [partition]. rewrite get_at by (unfold inb; lia). cbn. destruct (Z.ltb_spec (at_ arr j) pivot) as [Hx|Hx].
    + destruct (swap_ok arr (ptr + 1) j) as (a1 & E1 & L1 & P1 & A1); [unfold inb; lia..|]. rewrite E1. cbn.
      assert (R1 : rearranged low (high - 1) arr a1) by (apply (rearranged_swap _ _ _ _ _ _ E1); lia).
      destruct (IH (j + 1) (ptr + 1) a1) as (a2 & ptr2 & E2 & R2 & P2 & Ep); try lia.
      * rewrite (re_out _ _ _ _ R1); [done|unfold inb; lia|lia].
      * split_and!; [lia|lia| |].
        -- intros k Hk. rewrite A1 by (unfold inb; lia). destruct (Z.eqb_spec k j) as [->|]; [|destruct (Z.eqb_spec k (ptr + 1)) as [->|]].
           ++ assert (j = ptr + 1) as -> by lia. done.
           ++ done.
           ++ apply Hlt. lia.
        -- intros k Hk. rewrite A1 by (unfold inb; lia). destruct (Z.eqb_spec k j) as [->|]; [|destruct (Z.eqb_spec k (ptr + 1)); [lia|]].
           ++ apply Hge. lia.
           ++ apply Hge. lia.
      * exists a2, ptr2. split_and!; try done. by eapply rearranged_trans.
    + destruct (IH (j + 1) ptr arr) as (a2 & ptr2 & E2 & R2 & P2 & Ep); try done; try lia.
      * split_and!; [lia|lia|done|]. intros k Hk. destruct (Z.eq_dec k j) as [->|]; [done|]. apply Hge. lia.
      * by exists a2, ptr2.
Qed.

(** ** The sort *)

Definition ascending (lo hi : Z) (arr : list Z) : Prop := forall i j, lo <= i <= j -> j <= hi -> at_ arr i <= at_ arr j.

(** Two sorted zones with the pivot between them. *)
Lemma ascending_zones low p high pivot arr a3 :
  rearranged (p + 1) high a3 arr -> length a3 = length arr -> 0 <= low -> low <= p <= high -> high < Z.of_nat (length arr) ->
  ascending low (p - 1) a3 -> ascending (p + 1) high arr ->
  (forall k, low <= k < p -> at_ a3 k < pivot) -> at_ a3 p = pivot -> (forall k, p < k <= high -> pivot <= at_ a3 k) ->
  ascending low high arr.
Proof.
  intros R L H0 Hp Hn S3 S4 Zl Zp Zr.
  assert (F : forall i, low <= i <= p -> at_ arr i = at_ a3 i) by (intros; apply (re_out _ _ _ _ R); [unfold inb; lia|lia]).
  assert (Fr : forall i, p < i <= high -> pivot <= at_ arr i).
  { intros i Hi. destruct (re_in _ _ _ _ R i ltac:(lia)) as (k & Hk & ->). apply Zr. lia. }
  intros i j Hi Hj. destruct (Z.lt_ge_cases p i); [apply S4; lia|]. rewrite F by lia. destruct (Z.lt_ge_cases j p).
  - rewrite F by lia. apply S3; lia.
  - assert (at_ a3 i <= pivot) by (destruct (Z.eq_dec i p) as [->|]; [lia|]; specialize (Zl i ltac:(lia)); lia).
    destruct (Z.eq_dec j p) as [->|]; [rewrite F by lia; lia|]. specialize (Fr j ltac:(lia)). lia.
Qed.

Lemma qsort_ok fuel arr low high :
  0 <= low -> high < Z.of_nat (length arr) -> high - low + 1 < Z.of_nat fuel -> (0 < fuel)%nat ->
  exists arr', __qsort fuel arr low high = Some arr' /\ rearranged low high arr arr' /\ ascending low high arr'.
Proof.
  revert arr low high. induction fuel as [|fuel IH]; intros arr low high H0 Hn Hf Hf0; [lia|]. cbn [__qsort].
  destruct (Z.ltb_spec low high) as [Hlt|Hge].
  2:{ exists arr. split_and!; [done|apply rearranged_refl|]. intros i j Hi Hj. by assert (i = j) as -> by lia. }
  rewrite get_at by (unfold inb; lia). cbn.
  destruct (partition_ok (Z.to_nat (high - low)) low low high (at_ arr high) (low - 1) arr)
    as (a1 & ptr & E1 & R1 & (Hptr & Hless & Hmore) & Hpiv); try done; try lia.
  { split_and!; intros; lia. }
  rewrite E1. cbn. pose proof (re_len _ _ _ _ R1) as L1.
  destruct (swap_ok a1 (ptr + 1) high) as (a2 & E2 & L2 & P2 & A2); [unfold inb; lia..|]. rewrite E2. cbn.
  assert (R2 : rearranged low high a1 a2) by (apply (rearranged_swap _ _ _ _ _ _ E2); lia).
  destruct (IH a2 low (ptr + 1 - 1)) as (a3 & E3 & R3 & S3); try lia. rewrite E3. cbn.
  pose proof (re_len _ _ _ _ R3) as L3.
  destruct (IH a3 (ptr + 1 + 1) high) as (a4 & E4 & R4 & S4); try lia.
  exists a4. split; [done|]. pose proof (re_len _ _ _ _ R4) as L4.
  split.
  - eapply rearranged_trans; [apply (rearranged_widen low (high - 1)); [..|exact R1]; lia|].
    eapply rearranged_trans; [exact R2|]. eapply rearranged_trans; [apply (rearranged_widen low (ptr + 1 - 1)); [..|exact R3]; lia|].
    apply (rearranged_widen (ptr + 1 + 1) high); [..|exact R4]; lia.
  - apply (ascending_zones low (ptr + 1) high (at_ arr high) a4 a3); try done; try lia.
    + intros k Hk. destruct (re_in _ _ _ _ R3 k ltac:(lia)) as (i & Hi & ->). rewrite A2 by (unfold inb; lia).
      destruct (Z.eqb_spec i high); [lia|]. destruct (Z.eqb_spec i (ptr + 1)); [lia|]. apply Hless. lia.
    + rewrite (re_out _ _ _ _ R3), A2, Z.eqb_refl by (unfold inb; lia). destruct (Z.eqb_spec (ptr + 1) high) as [E|E]; [by rewrite E|done].
    + intros k Hk. rewrite (re_out _ _ _ _ R3), A2 by (unfold inb; lia). destruct (Z.eqb_spec k high) as [->|]; [apply Hmore; lia|].
      destruct (Z.eqb_spec k (ptr + 1)); [lia|]. apply Hmore. lia.
Qed.

(** ** The theorem *)

Lemma ascending_sorted arr : ascending 0 (Z.of_nat (length arr) - 1) arr -> StronglySorted Z.le arr.
Proof.
  induction arr as [|x arr IH]; intros H; [constructor|].
  assert (Hs : forall i, 0 <= i -> at_ (x :: arr) (i + 1) = at_ arr i).
  { intros i Hi. unfold at_, get. destruct (Z.ltb_spec (i + 1) 0), (Z.ltb_spec i 0); try lia.
    replace (Z.to_nat (i + 1)) with (S (Z.to_nat i)) by lia. done. }
  constructor.
  - apply IH. intros i j Hi Hj. rewrite <- !Hs by lia. apply H; simpl length; lia.
  - apply Forall_lookup. intros i y Hy. pose proof (lookup_lt_Some _ _ _ Hy) as Hl.
    assert (E : at_ (x :: arr) (Z.of_nat i + 1) = y).
    { rewrite Hs by lia. unfold at_, get. destruct (Z.ltb_spec (Z.of_nat i) 0); [lia|]. rewrite Nat2Z.id. by rewrite Hy. }
    rewrite <- E. change x with (at_ (x :: arr) 0). apply H; simpl length; lia.
Qed.

Lemma qsort_sorts arr :
  exists arr', qsort arr (Z.of_nat (length arr)) = Some arr' /\ Permutation arr' arr /\ StronglySorted Z.le arr'.
Proof.
  destruct (qsort_ok (S (Z.to_nat (Z.of_nat (length arr)))) arr 0 (Z.of_nat (length arr) - 1)) as (arr' & E & R & S); try lia.
  exists arr'. split_and!; [done|apply R|]. apply ascending_sorted. by rewrite (re_len _ _ _ _ R).
Qed.

(** C23: [qsort] terminates without touching anything outside the array, and
    leaves in it the same elements in ascending order. *)
Theorem qsort_correct arr :
  exists arr', qsort arr (Z.of_nat (length arr)) = Some arr' /\ Permutation arr' arr /\ StronglySorted Z.le arr'.
Proof. apply qsort_sorts. Qed.
