(* ===== verification/DevMemory.v ===== *)
(** * device/memory.c: which RAM is available

    [device_calc_available_ram]: the reserved regions, the kernel image and
    everything past the end of RAM are sorted by begin and by end, and a sweep
    over both lists emits the gaps.  The static arrays are the lists of their
    first [__sort_seg_num] entries; an entry past [MAX_RAM_SEGMENT] is out of
    bounds ([None]).  Shown: the gaps are exactly the RAM no region covers. *)

From S2P Require Import Prelude Machine Qsort.

Definition MAX_RAM_SEGMENT : Z := 1024.

(** [arr[num] = v; num++] *)
Definition append (arr : list Z) (v : Z) : option (list Z) :=
  if Z.of_nat (length arr) <? MAX_RAM_SEGMENT then Some (arr ++ [v]) else None.

(** [while (ptr < num && arr[ptr] == x) ptr++]: the number of rounds and the
    unread rest. *)
Fixpoint span_eq (x : Z) (l : list Z) : Z * list Z :=
  match l with
  | [] => (0, [])
  | y :: l' => if y =? x then let '(n, r) := span_eq x l' in (n + 1, r) else (0, l)
  end.

(** The body of the sweep: the position of the next event, what it adds to
    the number of open regions, and the unread entries of both arrays
    ([__sort_seg_begin[bptr ..]] and [__sort_seg_end[eptr ..]]). *)
Definition next_event (b e : list Z) : option (Z * Z * list Z * list Z) :=
  match b, e with
  | [], [] => None
  | [], q :: e' => Some (q, -1, [], e')
  | p :: b', [] => Some (p, 1, b', [])
  | p :: b', q :: e' =>
      if p =? q then
        let '(nb, b'') := span_eq p b in
        let '(ne, e'') := span_eq p e in
        Some (p, nb - ne, b'', e'')
      else if p <? q then Some (p, 1, b', e)
      else Some (q, -1, b, e')
  end.

Fixpoint sweep (fuel : nat) (b e : list Z) (acc last_ptr : Z) (out : list ram_segment_descriptor_struct)
    : option (list ram_segment_descriptor_struct) :=
  match next_event b e with
  | None => Some out
  | Some (pos, val, b', e') =>
      match fuel with
      | O => None
      | S fuel' =>
          let new_acc := acc + val in
          if (new_acc =? 0) && (0 <? acc) then sweep fuel' b' e' new_acc pos out
          else if (0 <? new_acc) && (acc =? 0) && (last_ptr <? pos) then
            if Z.of_nat (length out) <? MAX_RAM_SEGMENT then
              sweep fuel' b' e' new_acc last_ptr (out ++ [mk_seg last_ptr (pos -l last_ptr)])
            else None
          else sweep fuel' b' e' new_acc last_ptr out
      end
  end.

(** [img_end] is the linker symbol [KERNEL_IMG_PA_END]; [segs_b] and [segs_e]
    are the reserved regions found in the device tree. *)
Definition device_calc_available_ram (img_end : Z) (segs_b segs_e : list Z) (r : ram_segment_descriptor_struct)
    : option (list ram_segment_descriptor_struct) :=
  b ← append segs_b (pa_begin r);
  e ← append segs_e img_end;
  let b := map (fun x => x &l not64 (PAGE_SIZE - 1)) b in
  let e := map (fun x => (x +l PAGE_SIZE -l 1) &l not64 (PAGE_SIZE - 1)) e in
  b ← append b ((pa_begin r +l pa_len r) &l not64 (PAGE_SIZE - 1));
  e ← append e (u64 (-1));
  b ← qsort b (Z.of_nat (length b));
  e ← qsort e (Z.of_nat (length e));
  sweep (length b + length e) b e 0 (pa_begin r) [].

(** ** Counting regions *)

(** How many entries are at most [x]. *)
Fixpoint cnt (l : list Z) (x : Z) : Z :=
  match l with [] => 0 | y :: l' => (if y <=? x then 1 else 0) + cnt l' x end.

Lemma cnt_nonneg l x : 0 <= cnt l x.
Proof. induction l as [|y l IH]; simpl; [lia|]. destruct (y <=? x); lia. Qed.

Lemma cnt_perm l l' x : Permutation l l' -> cnt l x = cnt l' x.
Proof. induction 1; simpl; lia. Qed.

Lemma cnt_below l x : (forall y, y ∈ l -> x < y) -> cnt l x = 0.
Proof.
  induction l as [|y l IH]; intros H; simpl; [done|]. pose proof (H y (list_elem_of_here _ _)).
  destruct (Z.leb_spec y x); [lia|]. apply IH. intros z Hz. apply H. by apply list_elem_of_further.
Qed.

Lemma cnt_app l l' x : cnt (l ++ l') x = cnt l x + cnt l' x.
Proof. induction l as [|y l IH]; simpl; [done|]. rewrite IH. lia. Qed.

(** Open regions at [x], for regions given as (begin, end) pairs. *)
Definition covered (rs : list (Z * Z)) (x : Z) : Prop := exists b e, (b, e) ∈ rs /\ b <= x < e.

Lemma cover_count rs x :
  (forall b e, (b, e) ∈ rs -> b <= e) ->
  0 <= cnt (map fst rs) x - cnt (map snd rs) x /\ (cnt (map fst rs) x - cnt (map snd rs) x = 0 <-> ~ covered rs x).
Proof.
  induction rs as [|[b e] rs IH]; intros Hle; simpl.
  - split; [lia|]. split; [|done]. intros _ (b & e & H & _). by apply elem_of_nil in H.
  - destruct IH as [IH1 IH2]; [intros; apply Hle; by apply list_elem_of_further|].
    pose proof (Hle b e (list_elem_of_here _ _)) as Hbe.
    assert (Hc : covered ((b, e) :: rs) x <-> b <= x < e \/ covered rs x).
    { unfold covered. split.
      - intros (b' & e' & H & Hx). apply elem_of_cons in H as [[= -> ->]|H]; [auto|right; eauto].
      - intros [Hx|(b' & e' & H & Hx)]; [exists b, e|exists b', e']; (split; [|done]);
          [apply list_elem_of_here|by apply list_elem_of_further]. }
    assert (Hsame : ~ (b <= x < e) -> (cnt (map fst rs) x - cnt (map snd rs) x = 0 <-> ~ covered ((b, e) :: rs) x)).
    { intros Hout. rewrite IH2, Hc. tauto. }
    destruct (Z.leb_spec b x), (Z.leb_spec e x); try lia; (split; [lia|]).
    + rewrite <- Hsame; lia.
    + rewrite Hc. split; [lia|]. intros H'. destruct H'. left. lia.
    + rewrite <- Hsame; lia.
Qed.

(** ** Events *)

Lemma span_eq_spec x l n r :
  span_eq x l = (n, r) -> StronglySorted Z.le l -> (forall y, y ∈ l -> x <= y) ->
  0 <= n /\ StronglySorted Z.le r /\ (forall y, y ∈ r -> x < y) /\ (forall z, x <= z -> cnt l z = n + cnt r z) /\
  (length r + Z.to_nat n = length l)%nat /\ (forall y, y ∈ l -> y = x \/ y ∈ r) /\ (forall y, y ∈ r -> y ∈ l) /\
  (n = 0 -> r = l).
Proof.
  revert n r. induction l as [|y l IH]; intros n r E Hs Hle; simpl in E.
  - injection E as <- <-. split_and!; try done; try lia; intros y H; by apply elem_of_nil in H.
  - apply StronglySorted_inv in Hs as [Hs Hy]. pose proof (Hle y (list_elem_of_here _ _)).
    destruct (Z.eqb_spec y x) as [->|Hne].
    + destruct (span_eq x l) as [n' r'] eqn:E'. injection E as <- <-.
      destruct (IH n' r') as (H1 & H2 & H3 & H4 & H5 & H6 & H7 & H8); try done.
      { intros z Hz. apply Hle. by apply list_elem_of_further. }
      split_and!; try done; try lia.
      * intros z Hz. simpl. rewrite H4 by done. destruct (Z.leb_spec x z); lia.
      * simpl. lia.
      * intros z Hz. apply elem_of_cons in Hz as [->|Hz]; auto.
      * intros z Hz. apply list_elem_of_further. auto.
    + injection E as <- <-. split_and!; try done; try lia.
      * by constructor.
      * intros z Hz. apply elem_of_cons in Hz as [->|Hz]; [lia|]. rewrite Forall_forall in Hy. specialize (Hy z Hz). lia.
      * intros z Hz. auto.
Qed.

(** What one event does. *)
Record event_ok (b e : list Z) (pos val : Z) (b' e' : list Z) : Prop := {
  ev_b : forall y, y ∈ b -> pos <= y;
  ev_e : forall y, y ∈ e -> pos <= y;
  ev_at : pos ∈ b \/ pos ∈ e;
  ev_sb : StronglySorted Z.le b';
  ev_se : StronglySorted Z.le e';
  ev_b' : forall y, y ∈ b' -> y ∈ b;
  ev_e' : forall y, y ∈ e' -> y ∈ e;
  ev_rest : forall y, y ∈ b -> y = pos \/ y ∈ b';
  ev_cnt : forall z, pos <= z -> cnt b z - cnt e z = val + cnt b' z - cnt e' z;
  ev_len : (length b' + length e' < length b + length e)%nat;
  ev_blen : (length b' <= length b)%nat /\ (0 < val -> (length b' < length b)%nat);
  ev_val : val = 1 \/ cnt b pos - cnt e pos <= val;
  ev_pos : 0 < val -> pos ∈ b;
  ev_neg : pos ∈ b \/ val = -1;
}.

Lemma sorted_hd y l : StronglySorted Z.le (y :: l) -> forall z, z ∈ y :: l -> y <= z.
Proof.
  intros [_ H]%StronglySorted_inv z Hz. apply elem_of_cons in Hz as [->|Hz]; [lia|].
  rewrite Forall_forall in H. by apply H.
Qed.

Lemma next_event_ok b e pos val b' e' :
  StronglySorted Z.le b -> StronglySorted Z.le e -> next_event b e = Some (pos, val, b', e') -> event_ok b e pos val b' e'.
Proof.
  intros Sb Se E. unfold next_event in E. destruct b as [|p b], e as [|q e]; try done.
  - injection E as <- <- <- <-. pose proof (sorted_hd q e Se) as Hq. apply StronglySorted_inv in Se as [Se _].
    split; try done; auto using list_elem_of_here, list_elem_of_further, cnt_nonneg; try (simpl; lia).
    + intros y Hy. by apply elem_of_nil in Hy.
    + intros z Hz. simpl. destruct (Z.leb_spec q z); lia.
    + right. simpl. rewrite Z.leb_refl. pose proof (cnt_nonneg e q). lia.
  - injection E as <- <- <- <-. pose proof (sorted_hd p b Sb) as Hp. apply StronglySorted_inv in Sb as [Sb _].
    split; try done; auto using list_elem_of_here, list_elem_of_further; try (simpl; lia).
    + intros y Hy. by apply elem_of_nil in Hy.
    + intros y Hy. apply elem_of_cons in Hy as [?|?]; auto.
    + intros z Hz. simpl. destruct (Z.leb_spec p z); lia.
  - pose proof (sorted_hd p b Sb) as Hp. pose proof (sorted_hd q e Se) as Hq.
    destruct (Z.eqb_spec p q) as [->|Hne]; [|destruct (Z.ltb_spec p q) as [Hlt|Hge]].
    + destruct (span_eq q (q :: b)) as [nb rb] eqn:Eb. destruct (span_eq q (q :: e)) as [ne re] eqn:Ee.
      injection E as <- <- <- <-.
      destruct (span_eq_spec q (q :: b) nb rb Eb Sb Hp) as (Nb & Rb & Lb & Cb & Gb & Ib & Jb & Zb).
      destruct (span_eq_spec q (q :: e) ne re Ee Se Hq) as (Ne & Re & Le & Ce & Ge & Ie & Je & Ze).
      assert (0 < nb).
      { assert (nb <> 0); [|lia]. intros E0. specialize (Lb q ltac:(rewrite (Zb E0); apply list_elem_of_here)). lia. }
      split; auto using list_elem_of_here.
      * intros z Hz. rewrite Cb, Ce by done. lia.
      * lia.
      * lia.
      * right. rewrite Cb, Ce, (cnt_below rb), (cnt_below re) by (done || lia). lia.
    + injection E as <- <- <- <-. apply StronglySorted_inv in Sb as [Sb' _].
      split; auto using list_elem_of_here, list_elem_of_further; try (simpl; lia).
      * intros y Hy. specialize (Hq y Hy). lia.
      * intros y Hy. apply elem_of_cons in Hy as [?|?]; auto.
      * intros z Hz. simpl. destruct (Z.leb_spec p z); lia.
    + injection E as <- <- <- <-. apply StronglySorted_inv in Se as [Se' _].
      assert (Hpq : forall y, y ∈ p :: b -> q < y) by (intros y Hy; specialize (Hp y Hy); lia).
      split; auto using list_elem_of_here, list_elem_of_further; try (simpl; lia).
      * intros y Hy. specialize (Hpq y Hy). lia.
      * intros z Hz. simpl. destruct (Z.leb_spec q z); lia.
      * right. rewrite (cnt_below (p :: b)) by done. simpl. rewrite Z.leb_refl. pose proof (cnt_nonneg e q). lia.
Qed.

Lemma next_event_none b e : next_event b e = None -> b = [] /\ e = [].
Proof.
  unfold next_event. destruct b as [|p b], e as [|q e]; try done. destruct (p =? q); [|by destruct (p <? q)].
  by destruct (span_eq p (p :: b)), (span_eq p (q :: e)).
Qed.

(** ** The sweep *)

Definition in_segs (l : list ram_segment_descriptor_struct) (x : Z) : Prop :=
  exists seg, seg ∈ l /\ pa_begin seg <= x < pa_begin seg + pa_len seg.

Section sweep.
(** [hi]: the end of RAM; the region from there to [top] is always among the
    regions. *)
Context (hi top : Z) (Htop : hi < top) (Htop' : top < 2 ^ 64).

Record sweep_inv (b e : list Z) (acc last cur : Z) : Prop := {
  sw_sb : StronglySorted Z.le b;
  sw_se : StronglySorted Z.le e;
  sw_b : forall y, y ∈ b -> cur <= y < top;
  sw_e : forall y, y ∈ e -> cur <= y <= top;
  sw_acc : 0 <= acc;
  sw_nonneg : forall x, cur <= x -> 0 <= acc + cnt b x - cnt e x;
  sw_tail : forall x, cur <= x -> hi <= x < top -> 1 <= acc + cnt b x - cnt e x;
  sw_hi : cur < hi -> hi ∈ b;
  sw_end : hi <= cur -> 1 <= acc \/ (cur = top /\ hi <= last);
  sw_last : acc = 0 -> last <= cur;
  sw_bound : 0 <= last < 2 ^ 64;
}.

(** The gaps still to be emitted. *)
Definition gap (b e : list Z) (acc last cur x : Z) : Prop :=
  x < hi /\ ((acc = 0 /\ last <= x < cur) \/ (cur <= x /\ acc + cnt b x - cnt e x = 0)).

Lemma event_inv b e acc last cur pos val b' e' :
  sweep_inv b e acc last cur -> event_ok b e pos val b' e' -> 0 <= cur ->
  cur <= pos /\ sweep_inv b' e' (acc + val) (if (acc + val =? 0) && (0 <? acc) then pos else last) pos.
Proof.
  intros [Sb Se Hb He Ha Hnn Ht Hh Hend Hl Hbd] [Eb Ee Eat ESb ESe Eb' Ee' Erest Ecnt Elen Eblen Eval Epos Eneg] Hc.
  assert (Hcp : cur <= pos) by (destruct Eat as [H|H]; [destruct (Hb _ H)|destruct (He _ H)]; lia).
  assert (Hpt : pos <= top) by (destruct Eat as [H|H]; [destruct (Hb _ H)|destruct (He _ H)]; lia).
  pose proof (Hnn pos Hcp) as Hnnp.
  assert (Hna : 0 <= acc + val) by (destruct Eval; lia).
  split; [done|]. split; try done.
  - intros y Hy. split; [by apply Eb, Eb'|]. by apply Hb, Eb'.
  - intros y Hy. split; [by apply Ee, Ee'|]. by apply He, Ee'.
  - intros x Hx. specialize (Ecnt x Hx). specialize (Hnn x ltac:(lia)). lia.
  - intros x Hx Hr. specialize (Ecnt x Hx). specialize (Ht x ltac:(lia) Hr). lia.
  - intros Hlt. destruct (Erest hi (Hh ltac:(lia))); [lia|done].
  - intros Hle. destruct (Z.eq_dec pos top) as [->|Hne].
    + destruct Eneg as [H|Hv]; [destruct (Hb _ H); lia|].
      destruct (Z.eqb_spec (acc + val) 0); [|left; lia]. rewrite (proj2 (Z.ltb_lt 0 acc)) by lia.
      right. split; [done|]. simpl. lia.
    + left. specialize (Ht pos Hcp ltac:(lia)). destruct Eval; lia.
  - intros H0. destruct (Z.eqb_spec (acc + val) 0); [|lia]. destruct (Z.ltb_spec 0 acc); simpl; [lia|].
    specialize (Hl ltac:(lia)). lia.
  - destruct (_ && _); [lia|done].
Qed.

(** Before the next event nothing changes; from it on the counts agree. *)
Lemma gap_event b e acc last cur pos val b' e' x :
  sweep_inv b e acc last cur -> event_ok b e pos val b' e' -> cur <= pos ->
  (x < pos -> (gap b e acc last cur x <-> x < hi /\ acc = 0 /\ last <= x)) /\
  (forall last', pos <= x -> (gap b e acc last cur x <-> gap b' e' (acc + val) last' pos x)) /\
  (forall last', x < pos -> (gap b' e' (acc + val) last' pos x <-> x < hi /\ acc + val = 0 /\ last' <= x)).
Proof.
  intros I E Hcp. pose proof (sw_last _ _ _ _ _ I) as Hl. unfold gap. split_and!.
  - intros Hx. rewrite (cnt_below b), (cnt_below e).
    + split; [intros (? & [?|?]); lia|intros (? & ? & ?)]. split; [done|]. specialize (Hl ltac:(done)). lia.
    + intros y Hy. pose proof (ev_e _ _ _ _ _ _ E y Hy). lia.
    + intros y Hy. pose proof (ev_b _ _ _ _ _ _ E y Hy). lia.
  - intros last' Hx. pose proof (ev_cnt _ _ _ _ _ _ E x Hx). lia.
  - intros last' Hx. lia.
Qed.

Lemma in_segs_app l l' x : in_segs (l ++ l') x <-> in_segs l x \/ in_segs l' x.
Proof.
  unfold in_segs. split.
  - intros (g & Hg & Hx). apply elem_of_app in Hg as [?|?]; [left|right]; eauto.
  - intros [(g & Hg & Hx)|(g & Hg & Hx)]; exists g; (split; [|done]); apply elem_of_app; auto.
Qed.

Lemma in_segs_one g x : in_segs [g] x <-> pa_begin g <= x < pa_begin g + pa_len g.
Proof.
  unfold in_segs. split; [intros (g' & ->%list_elem_of_singleton & Hx); done|].
  intros Hx. exists g. split; [apply list_elem_of_here|done].
Qed.

(** A round that reports nothing leaves the gaps as they are, if what is left
    of [pos] is in no gap before or after it. *)
Lemma gap_pass b e acc last cur pos val b' e' last' x :
  sweep_inv b e acc last cur -> event_ok b e pos val b' e' -> cur <= pos ->
  (x < pos -> x < hi -> acc = 0 /\ last <= x <-> acc + val = 0 /\ last' <= x) ->
  gap b' e' (acc + val) last' pos x <-> gap b e acc last cur x.
Proof.
  intros I E Hcp H. destruct (gap_event b e acc last cur pos val b' e' x I E Hcp) as (G1 & G2 & G3).
  destruct (Z.lt_ge_cases x pos) as [Hx|Hx]; [|by rewrite (G2 last')]. rewrite G1, (G3 last') by done. specialize (H Hx). tauto.
Qed.

(** Without an event left there is no gap left. *)
Lemma gap_none acc last cur x : sweep_inv [] [] acc last cur -> ~ gap [] [] acc last cur x.
Proof.
  intros I. unfold gap. simpl. intros (Hx & Hg).
  destruct (Z.lt_ge_cases cur hi) as [Hlt|Hge]; [apply (sw_hi _ _ _ _ _ I) in Hlt; by apply elem_of_nil in Hlt|].
  destruct (sw_end _ _ _ _ _ I Hge) as [?|[? ?]]; lia.
Qed.

(** Outside every region, the next one begins inside the RAM. *)
Lemma event_below b e last cur pos val b' e' :
  sweep_inv b e 0 last cur -> event_ok b e pos val b' e' -> 0 < val -> pos <= hi.
Proof.
  intros I E Hv. pose proof (ev_pos _ _ _ _ _ _ E Hv) as Hpb. pose proof (sw_b _ _ _ _ _ I pos Hpb).
  destruct (Z.lt_ge_cases cur hi) as [Hlt|Hge].
  - apply (ev_b _ _ _ _ _ _ E). by apply (sw_hi _ _ _ _ _ I).
  - destruct (sw_end _ _ _ _ _ I Hge) as [?|[? ?]]; lia.
Qed.

Lemma sweep_ok fuel b e acc last cur out :
  sweep_inv b e acc last cur -> 0 <= cur -> (length b + length e <= fuel)%nat ->
  Z.of_nat (length out) + Z.of_nat (length b) <= MAX_RAM_SEGMENT ->
  exists new, sweep fuel b e acc last out = Some (out ++ new) /\ forall x, in_segs new x <-> gap b e acc last cur x.
Proof.
  revert b e acc last cur out. induction fuel as [|fuel IH]; intros b e acc last cur out I Hc Hf Ho.
  all: destruct (next_event b e) as [[[[pos val] b'] e']|] eqn:Ev; cbn [sweep]; rewrite Ev.
  2,4: destruct (next_event_none _ _ Ev) as [-> ->]; exists []; rewrite app_nil_r; split; [done|]; intros x;
    split; [intros (g & Hg & _); by apply elem_of_nil in Hg|intros Hg; by apply gap_none in Hg].
  all: pose proof (next_event_ok _ _ _ _ _ _ (sw_sb _ _ _ _ _ I) (sw_se _ _ _ _ _ I) Ev) as E.
  all: pose proof (ev_len _ _ _ _ _ _ E); pose proof (ev_blen _ _ _ _ _ _ E) as [Hbl Hbl'].
  1: lia.
  destruct (event_inv _ _ _ _ _ _ _ _ _ I E Hc) as [Hcp I'].
  assert (P : forall last' x, (x < pos -> x < hi -> acc = 0 /\ last <= x <-> acc + val = 0 /\ last' <= x) ->
    gap b' e' (acc + val) last' pos x <-> gap b e acc last cur x) by (intros; by eapply gap_pass).
  pose proof (sw_acc _ _ _ _ _ I) as Ha. pose proof (sw_acc _ _ _ _ _ I') as Ha'. pose proof (sw_last _ _ _ _ _ I) as Hl.
  destruct (Z.eqb_spec (acc + val) 0) as [E0|E0], (Z.ltb_spec 0 acc) as [L0|L0]; simpl andb in I' |- *; cbv iota.
  - destruct (IH b' e' (acc + val) pos pos out I') as (new & -> & Hnew); try lia. exists new. split; [done|].
    intros x. rewrite Hnew. apply P. lia.
  - rewrite E0. simpl andb. cbv iota.
    destruct (IH b' e' (acc + val) last pos out I') as (new & En & Hnew); try lia. rewrite E0 in En. rewrite En.
    exists new. split; [done|]. intros x. rewrite Hnew. apply P. lia.
  - rewrite (proj2 (Z.eqb_neq acc 0)) by lia. rewrite andb_false_r. simpl andb. cbv iota.
    destruct (IH b' e' (acc + val) last pos out I') as (new & -> & Hnew); try lia. exists new. split; [done|].
    intros x. rewrite Hnew. apply P. lia.
  - assert (acc = 0) as -> by lia. rewrite (proj2 (Z.ltb_lt 0 (0 + val))) by lia. simpl andb. assert (Hv : 0 < val) by lia.
    pose proof (event_below _ _ _ _ _ _ _ _ I E Hv) as Hph. specialize (Hl eq_refl). specialize (Hbl' Hv). pose proof (sw_bound _ _ _ _ _ I) as Hbd.
    destruct (Z.ltb_spec last pos) as [Hlp|Hlp].
    + rewrite (proj2 (Z.ltb_lt _ MAX_RAM_SEGMENT)) by lia. rewrite sub64_small by (pose proof (sw_b _ _ _ _ _ I pos (ev_pos _ _ _ _ _ _ E Hv)); lia).
      destruct (IH b' e' (0 + val) last pos (out ++ [mk_seg last (pos - last)]) I') as (new & -> & Hnew); try lia.
      { rewrite length_app. simpl. lia. }
      exists (mk_seg last (pos - last) :: new). rewrite <- app_assoc. split; [done|].
      intros x. change (mk_seg last (pos - last) :: new) with ([mk_seg last (pos - last)] ++ new).
      rewrite in_segs_app, in_segs_one, Hnew. simpl. destruct (gap_event _ _ _ _ _ _ _ _ _ x I E Hcp) as (G1 & G2 & G3).
      destruct (Z.lt_ge_cases x pos) as [Hx|Hx]; [rewrite G1, (G3 last) by done; lia|].
      rewrite (G2 last) by done. split; [intros [?|?]; [lia|done]|auto].
    + destruct (IH b' e' (0 + val) last pos out I') as (new & -> & Hnew); try lia. exists new. split; [done|].
      intros x. rewrite Hnew. apply P. lia.
Qed.
End sweep.

(** ** The theorem *)

(** A reserved region, widened to whole pages. *)
Definition widen (be : Z * Z) : Z * Z := (PAGE_ROUND_DOWN (fst be), PAGE_ROUND_UP (snd be)).

Lemma round_down_bounds x : 0 <= x < 2 ^ 64 -> PAGE_ROUND_DOWN x <= x < PAGE_ROUND_DOWN x + PAGE_SIZE /\ PAGE_ROUND_DOWN x mod PAGE_SIZE = 0.
Proof.
  intros Hx. rewrite PAGE_ROUND_DOWN_spec by done. pose proof (Z.mod_pos_bound x PAGE_SIZE ltac:(unfold PAGE_SIZE; lia)).
  pose proof (Z.div_mod x PAGE_SIZE ltac:(unfold PAGE_SIZE; lia)). split; [lia|].
  replace (x - x mod PAGE_SIZE) with (x / PAGE_SIZE * PAGE_SIZE) by lia. apply Z.mod_mul. unfold PAGE_SIZE. lia.
Qed.

Lemma round_up_bounds x : 0 <= x -> x + PAGE_SIZE <= 2 ^ 64 -> x <= PAGE_ROUND_UP x < 2 ^ 64.
Proof.
  intros Hx Hx'. rewrite PAGE_ROUND_UP_spec by done.
  pose proof (Z.mod_pos_bound (x + PAGE_SIZE - 1) PAGE_SIZE ltac:(unfold PAGE_SIZE; lia)). lia.
Qed.

(** Rounding down does not cross an aligned address. *)
Lemma round_down_above a x : a mod PAGE_SIZE = 0 -> 0 <= a <= x -> x < 2 ^ 64 -> a <= PAGE_ROUND_DOWN x.
Proof.
  intros Ha Hx Hx'. destruct (round_down_bounds x ltac:(lia)) as [H1 H2]. unfold PAGE_SIZE in *.
  pose proof (Z.div_mod a 4096 ltac:(lia)). pose proof (Z.div_mod (PAGE_ROUND_DOWN x) 4096 ltac:(lia)). lia.
Qed.

Definition region_ok (rb : Z) (be : Z * Z) : Prop := rb <= fst be <= snd be /\ snd be + PAGE_SIZE <= 2 ^ 64.

Lemma append_ok l v : Z.of_nat (length l) < MAX_RAM_SEGMENT -> append l v = Some (l ++ [v]).
Proof. intros H. unfold append. by rewrite (proj2 (Z.ltb_lt _ _)). Qed.

Section calc.
Context (rs : list (Z * Z)) (img_end rb len : Z).
Context (Hn : Z.of_nat (length rs) + 2 <= MAX_RAM_SEGMENT).
Context (Hrb : 0 <= rb) (Hal : rb mod PAGE_SIZE = 0) (Hlen : rb + len < 2 ^ 64 - 1).
Context (Hpos : rb < PAGE_ROUND_DOWN (rb + len)) (Hlen0 : 0 <= len).
Context (Hrs : Forall (region_ok rb) (rs ++ [(rb, img_end)])).

(** All regions the sweep sees: the widened ones, and the end of RAM. *)
#[local] Definition hi : Z := PAGE_ROUND_DOWN (rb + len).
#[local] Definition all_regions : list (Z * Z) := map widen (rs ++ [(rb, img_end)]) ++ [(hi, 2 ^ 64 - 1)].

#[local] Lemma all_ok b e : (b, e) ∈ all_regions -> rb <= b < 2 ^ 64 - 1 /\ b <= e <= 2 ^ 64 - 1.
Proof.
  unfold all_regions. rewrite elem_of_app, list_elem_of_singleton. destruct (round_down_bounds (rb + len) ltac:(lia)) as [H1 _].
  intros [H|[= -> ->]]; [|unfold hi; lia].
  apply list_elem_of_fmap in H as ([b0 e0] & [= -> ->] & H). rewrite Forall_forall in Hrs.
  destruct (Hrs _ H) as [[? ?] ?]. simpl in *. unfold PAGE_SIZE in *.
  pose proof (round_down_above rb b0 Hal ltac:(lia) ltac:(lia)). destruct (round_down_bounds b0 ltac:(lia)) as [? _].
  pose proof (round_up_bounds e0 ltac:(lia) ltac:(unfold PAGE_SIZE; lia)). lia.
Qed.

#[local] Lemma all_covered x : x < hi -> covered all_regions x <-> covered (map widen (rs ++ [(rb, img_end)])) x.
Proof.
  intros Hx. unfold covered, all_regions. split.
  - intros (b & e & H & Hbe). rewrite elem_of_app, list_elem_of_singleton in H. destruct H as [H|[= -> ->]]; [eauto|lia].
  - intros (b & e & H & Hbe). exists b, e. rewrite elem_of_app. auto.
Qed.

#[local] Lemma calc_unfold : exists b e, Permutation b (map fst all_regions) /\ StronglySorted Z.le b /\
  Permutation e (map snd all_regions) /\ StronglySorted Z.le e /\
  device_calc_available_ram img_end (map fst rs) (map snd rs) (mk_seg rb len) = sweep (length b + length e) b e 0 rb [].
Proof.
  unfold device_calc_available_ram. cbn [pa_begin pa_len].
  rewrite !append_ok by (rewrite length_map; lia). cbn -[qsort Z.sub Z.add sweep length].
  rewrite !append_ok by (rewrite !length_map, length_app, length_map; simpl; lia). cbn -[qsort Z.sub Z.add sweep length].
  set (b0 := map (fun x => x &l not64 (PAGE_SIZE - 1)) (map fst rs ++ [rb]) ++ [(rb +l len) &l not64 (PAGE_SIZE - 1)]).
  set (e0 := map (fun x => (x +l PAGE_SIZE -l 1) &l not64 (PAGE_SIZE - 1)) (map snd rs ++ [img_end]) ++ [u64 (-1)]).
  destruct (qsort_sorts b0) as (b & -> & Pb & Sb). cbn -[qsort sweep length].
  destruct (qsort_sorts e0) as (e & -> & Pe & Se). cbn -[sweep length].
  exists b, e. split_and!; try done.
  - rewrite Pb. unfold b0, all_regions, hi. rewrite add64_small by lia. rewrite !map_app, !map_map. done.
  - rewrite Pe. unfold e0, all_regions. rewrite !map_app, !map_map. done.
Qed.

Lemma calc_available_ok :
  exists out, device_calc_available_ram img_end (map fst rs) (map snd rs) (mk_seg rb len) = Some out /\
    forall x, in_segs out x <-> rb <= x < PAGE_ROUND_DOWN (rb + len) /\ ~ covered (map widen (rs ++ [(rb, img_end)])) x.
Proof.
  destruct calc_unfold as (b & e & Pb & Sb & Pe & Se & ->).
  destruct (round_down_bounds (rb + len) ltac:(lia)) as [Hh _].
  assert (Hcov : forall x, 0 <= cnt b x - cnt e x /\ (cnt b x - cnt e x = 0 <-> ~ covered all_regions x)).
  { intros x. rewrite (cnt_perm _ _ x Pb), (cnt_perm _ _ x Pe). apply cover_count. intros b' e' H. destruct (all_ok b' e' H). lia. }
  assert (Hlb : length b = (length rs + 2)%nat).
  { rewrite (Permutation_length Pb). unfold all_regions. rewrite length_map, length_app, length_map, length_app. simpl. lia. }
  destruct (sweep_ok hi (2 ^ 64 - 1) ltac:(unfold hi; lia) ltac:(lia) (length b + length e) b e 0 rb rb []) as (out & -> & Hout).
  - split; try done; try lia.
    + intros y Hy. rewrite Pb in Hy. apply list_elem_of_fmap in Hy as ([b' e'] & -> & H). simpl. destruct (all_ok b' e' H). lia.
    + intros y Hy. rewrite Pe in Hy. apply list_elem_of_fmap in Hy as ([b' e'] & -> & H). simpl. destruct (all_ok b' e' H). lia.
    + intros x _. apply Hcov.
    + intros x _ Hx. destruct (Hcov x) as [H1 H2]. assert (cnt b x - cnt e x <> 0); [|lia]. rewrite H2. intros Hnc. apply Hnc.
      exists hi, (2 ^ 64 - 1). split; [|done]. unfold all_regions. rewrite elem_of_app. right. apply list_elem_of_here.
    + intros _. rewrite Pb. apply list_elem_of_fmap. exists (hi, 2 ^ 64 - 1). split; [done|].
      unfold all_regions. rewrite elem_of_app. right. apply list_elem_of_here.
    + unfold hi. lia.
  - done.
  - done.
  - simpl length. rewrite Hlb. lia.
  - exists out. split; [done|]. intros x. rewrite Hout. unfold gap. destruct (Hcov x) as [_ H2]. rewrite Z.add_0_l, H2. fold hi. split.
    + intros (Hx & [?|[? ?]]); [lia|]. split; [lia|]. by rewrite <- all_covered.
    + intros ([? ?] & Hnc). split; [done|]. right. split; [done|]. by rewrite all_covered.
Qed.
End calc.

(** C24: the available segments are exactly the RAM, up to its last whole
    page, that is covered neither by the kernel image nor by a reserved region
    widened to whole pages; the sort and the sweep terminate and stay inside
    the static arrays.  This holds when the start of RAM is page-aligned, every
    reserved region and the end of the kernel image lie above it (see
    [region_below_ram] for one that does not), and two entries of the arrays
    stay free. *)
Theorem available_ram_exact rs img_end rb len :
  Z.of_nat (length rs) + 2 <= MAX_RAM_SEGMENT -> 0 <= rb -> rb mod PAGE_SIZE = 0 -> 0 <= len -> rb + len < 2 ^ 64 - 1 ->
  rb < PAGE_ROUND_DOWN (rb + len) -> Forall (region_ok rb) (rs ++ [(rb, img_end)]) ->
  exists out, device_calc_available_ram img_end (map fst rs) (map snd rs) (mk_seg rb len) = Some out /\
    forall x, in_segs out x <-> rb <= x < PAGE_ROUND_DOWN (rb + len) /\ ~ covered (map widen (rs ++ [(rb, img_end)])) x.
Proof. intros. by apply calc_available_ok. Qed.

Lemma available_ram_exact_witness :
  exists out, device_calc_available_ram 0x80240010 [0x80500100; 0x80500000] [0x80501000; 0x80500200] (mk_seg 0x80000000 0x8000000) = Some out /\
    forall x, in_segs out x <-> 0x80000000 <= x < PAGE_ROUND_DOWN (0x80000000 + 0x8000000) /\
      ~ covered (map widen [(0x80500100, 0x80501000); (0x80500000, 0x80500200); (0x80000000, 0x80240010)]) x.
Proof.
  apply (available_ram_exact [(0x80500100, 0x80501000); (0x80500000, 0x80500200)] 0x80240010 0x80000000 0x8000000).
  - vm_compute. congruence.
  - lia.
  - reflexivity.
  - lia.
  - lia.
  - vm_compute. congruence.
  - repeat constructor; vm_compute; congruence.
Defined.

Example available_ram_run :
  device_calc_available_ram 0x80240010 [0x80500100; 0x80500000] [0x80501000; 0x80500200] (mk_seg 0x80000000 0x8000000) =
  Some [mk_seg 0x80241000 0x2bf000; mk_seg 0x80501000 0x7aff000].
Proof. vm_compute. reflexivity. Qed.

(** A reserved region below RAM makes the sweep emit a segment that is not
    RAM: everything from its end to the start of RAM. *)
Example region_below_ram :
  device_calc_available_ram 0x80240000 [0x10000] [0x20000] (mk_seg 0x80000000 0x8000000) =
  Some [mk_seg 0x20000 0x7ffe0000; mk_seg 0x80240000 0x7dc0000].
Proof. vm_compute. reflexivity. Qed.
