(* ===== verification/Lock.v ===== *)
(** * asm/hart.c and spinlock.c

    Interrupt nesting of a hart and the spinlocks built on it, for one hart
    running to completion.  A spinlock held by somebody else makes
    [spinlock_acquire] spin for ever ([Hang]); one held by this hart makes it
    panic.  [wp_locked] is the rule every critical section of the kernel is
    verified with: the lock is free again at the end and the interrupt state
    is what it was before. *)

From S2P Require Import Prelude Memory Machine.

Section lock.
Context {L : KernelLayout}.

(** ** asm/csr.h, asm/hart.c *)

Definition SSTATUS_SIE : Z := 2.

Definition read_interrupt : M Z := x ← gets sstatus; mret (x &l SSTATUS_SIE).
Definition enable_interrupt : M unit := x ← gets sstatus; modify (set_sstatus (x |l SSTATUS_SIE)).
Definition disable_interrupt : M unit := x ← gets sstatus; modify (set_sstatus (x &l not64 SSTATUS_SIE)).

Definition current_hart_id : M Z := x ← gets tp; mret (u32 x).

(** [sizeof(struct hart_struct)]: [enabled] and padding, [running_proc], 14
    context registers, two [int]s. *)
Definition sizeof_hart : Z := 136.
Definition hart_zero : hart_struct := mk_hart 0 NULL (replicate 14 0) 0 0.

(** [&harts[id]]; an index past the array is out of bounds. *)
Definition current_hart : M Z :=
  id ← current_hart_id;
  if id <? MAX_CPU then mret (sym_harts + id * sizeof_hart) else fault (sym_harts + id * sizeof_hart).

(** The fields of the executing hart's record. *)
Definition this_hart (s : kst) : hart_struct := default hart_zero (harts s !! u32 (tp s)).
Definition put_hart (h : hart_struct) (s : kst) : kst := set_harts (<[u32 (tp s) := h]> (harts s)) s.
Definition set_dep (d : Z) (h : hart_struct) : hart_struct :=
  mk_hart (enabled h) (running_proc h) (context h) d (trap_enabled h).
Definition set_trap_enabled (e : Z) (h : hart_struct) : hart_struct :=
  mk_hart (enabled h) (running_proc h) (context h) (trap_pushoff_dep h) e.

Definition pushoff_hart : M unit :=
  prev_mode ← read_interrupt;
  disable_interrupt;;
  current_hart;;
  h ← gets this_hart;
  when (trap_pushoff_dep h =? 0) (modify (put_hart (set_trap_enabled prev_mode h)));;
  h ← gets this_hart;
  modify (put_hart (set_dep (s32 (trap_pushoff_dep h + 1)) h)).

Definition popoff_hart : M unit :=
  current_hart;;
  i ← read_interrupt;
  (if negb (i =? 0) then panic "popoff_hart - already enabled;" else mret tt);;
  h ← gets this_hart;
  (if trap_pushoff_dep h <? 1 then panic "popoff_hart - non-matching popoff;" else mret tt);;
  modify (put_hart (set_dep (trap_pushoff_dep h - 1) h));;
  h ← gets this_hart;
  when ((trap_pushoff_dep h =? 0) && negb (trap_enabled h =? 0)) enable_interrupt.

(** ** spinlock.c: [struct spinlock { uint locked; char *description; struct
    hart_struct *hart; }] with fields at offsets 0, 8 and 16 *)

Definition sizeof_spinlock : Z := 24.

Definition spinlock_init (lk description : Z) : M unit :=
  wr 8 (lk + 8) description;;
  wr 4 lk 0;;
  wr 8 (lk + 16) NULL.

Definition is_holding_spinlock (lk : Z) : M bool :=
  h ← rd 8 (lk + 16);
  c ← current_hart;
  if h =? c then l ← rd 4 lk; mret (negb (l =? 0)) else mret false.

(** The busy-wait reads the lock and writes 1 atomically; run alone, a hart
    that finds it taken finds it taken for ever. *)
Definition spinlock_acquire (lk : Z) : M unit :=
  pushoff_hart;;
  b ← is_holding_spinlock lk;
  (if b : bool then panic "spinlock_acquire - spinlock held;" else mret tt);;
  old ← rd 4 lk;
  wr 4 lk 1;;
  (if negb (old =? 0) then hang else mret tt);;
  c ← current_hart;
  wr 8 (lk + 16) c.

Definition spinlock_release (lk : Z) : M unit :=
  b ← is_holding_spinlock lk;
  (if negb b then panic "spinlock_release - spinlock not held;" else mret tt);;
  wr 8 (lk + 16) 0;;
  wr 4 lk 0;;
  popoff_hart.

(** ** Reasoning *)

(** A hart with a valid id, whose interrupts are off while it is inside a
    critical section, and whose nesting counter is not about to overflow. *)
Definition hart_ok (s : kst) : Prop :=
  0 <= tp s < MAX_CPU /\ 0 <= sstatus s < 2 ^ 64 /\ 0 <= trap_pushoff_dep (this_hart s) < 2 ^ 31 - 1 /\
  (trap_pushoff_dep (this_hart s) <> 0 -> sstatus s &l SSTATUS_SIE = 0).

Definition my_hart (s : kst) : Z := sym_harts + tp s * sizeof_hart.
Definition lock_free (m : memory) (lk : Z) : Prop := ld32 m lk = 0.
Definition lock_mine (s : kst) (m : memory) (lk : Z) : Prop :=
  ld32 m lk = 1 /\ ld64 m (lk + 16) = my_hart s.

(** The state a hart is in after [pushoff_hart], and after the matching
    [popoff_hart]. *)
Definition pushed (s : kst) : kst :=
  let h := this_hart s in
  put_hart (mk_hart (enabled h) (running_proc h) (context h) (trap_pushoff_dep h + 1)
              (if trap_pushoff_dep h =? 0 then sstatus s &l SSTATUS_SIE else trap_enabled h))
    (set_sstatus (sstatus s &l not64 SSTATUS_SIE) s).

Definition popped (s : kst) : kst :=
  let h := this_hart s in
  put_hart (if trap_pushoff_dep h =? 0 then set_trap_enabled (sstatus s &l SSTATUS_SIE) h else h) s.

Lemma my_hart_bound s : 0 <= tp s < MAX_CPU -> 0 < my_hart s < 2 ^ 64.
Proof.
  intros. pose proof sym_harts_image. unfold my_hart, sizeof_hart, MAX_CPU, VA_KERNEL_IMG_BEGIN in *. lia.
Qed.

Lemma wp_current_hart (Q : Z -> kst -> Prop) s :
  0 <= tp s < MAX_CPU -> Q (my_hart s) s -> wp current_hart Q s.
Proof.
  intros H HQ. unfold current_hart, current_hart_id. wp_steps.
  rewrite u32_small by (unfold MAX_CPU in *; lia).
  rewrite (proj2 (Z.ltb_lt _ _)) by lia. by wp_steps.
Qed.

Lemma this_put h s : this_hart (put_hart h s) = h.
Proof. unfold this_hart, put_hart. simpl. by rewrite lookup_insert_eq. Qed.
Lemma put_put h h' s : put_hart h (put_hart h' s) = put_hart h s.
Proof. unfold put_hart. simpl. by rewrite insert_insert_eq. Qed.

Lemma wp_pushoff_hart (Q : unit -> kst -> Prop) s :
  hart_ok s -> Q tt (pushed s) -> wp pushoff_hart Q s.
Proof.
  intros (Ht & Hs & Hd & Hn) HQ. unfold pushoff_hart, read_interrupt, disable_interrupt. wp_steps.
  apply wp_current_hart; [done|]. wp_steps.
  change (this_hart (set_sstatus _ s)) with (this_hart s).
  assert (E : s32 (trap_pushoff_dep (this_hart s) + 1) = trap_pushoff_dep (this_hart s) + 1).
  { unfold s32, swrap. rewrite Z.mod_small; lia. }
  unfold pushed in HQ. destruct (Z.eqb_spec (trap_pushoff_dep (this_hart s)) 0); wp_steps.
  - rewrite this_put, put_put. cbn [trap_pushoff_dep set_trap_enabled]. rewrite E. done.
  - change (this_hart (set_sstatus _ s)) with (this_hart s). by rewrite E.
Qed.

(** Clearing and setting the interrupt bit again restores [sstatus]. *)
Lemma sie_restore x : 0 <= x < 2 ^ 64 ->
  (if negb (x &l SSTATUS_SIE =? 0) then x &l not64 SSTATUS_SIE |l SSTATUS_SIE else x &l not64 SSTATUS_SIE) = x.
Proof.
  intros Hx.
  assert (B : forall i, 0 <= i -> Z.testbit (x &l SSTATUS_SIE) i = Z.testbit x i && (1 =? i)).
  { intros. change SSTATUS_SIE with (2 ^ 1). rewrite Z.land_spec, Z.pow2_bits_eqb by lia. done. }
  assert (N : forall i, 0 <= i -> Z.testbit (x &l not64 SSTATUS_SIE) i = Z.testbit x i && negb (1 =? i)).
  { intros i Hi. rewrite Z.land_spec. destruct (Z.testbit x i) eqn:E; [|done]. simpl.
    assert (i < 64).
    { destruct (Z.lt_ge_cases i 64); [done|]. rewrite <- (Z.mod_small x (2 ^ 64)) in E by done.
      rewrite Z.mod_pow2_bits_high in E; [done|lia]. }
    unfold not64, u64. rewrite Z.mod_pow2_bits_low, Z.lnot_spec by lia.
    change SSTATUS_SIE with (2 ^ 1). by rewrite Z.pow2_bits_eqb by lia. }
  destruct (Z.eqb_spec (x &l SSTATUS_SIE) 0) as [E|E]; simpl; apply Z.bits_inj'; intros i Hi.
  - rewrite N by done. destruct (Z.eqb_spec 1 i) as [<-|]; [|by rewrite andb_true_r].
    rewrite andb_false_r. specialize (B 1 Hi). by rewrite E, Z.bits_0, andb_true_r in B.
  - rewrite Z.lor_spec, N by done. change SSTATUS_SIE with (2 ^ 1). rewrite Z.pow2_bits_eqb by lia.
    destruct (Z.eqb_spec 1 i) as [<-|]; [|by rewrite andb_true_r, orb_false_r].
    rewrite orb_true_r. destruct (Z.testbit x 1) eqn:Ex; [done|]. destruct E.
    apply Z.bits_inj'. intros j Hj. rewrite B, Z.bits_0 by done.
    destruct (Z.eqb_spec 1 j) as [<-|]; [by rewrite Ex|by rewrite andb_false_r].
Qed.

Lemma wp_popoff_hart (Q : unit -> kst -> Prop) t :
  0 <= tp t < MAX_CPU -> sstatus t &l SSTATUS_SIE = 0 -> 1 <= trap_pushoff_dep (this_hart t) ->
  (let h := this_hart t in
   let t1 := put_hart (set_dep (trap_pushoff_dep h - 1) h) t in
   Q tt (if (trap_pushoff_dep h - 1 =? 0) && negb (trap_enabled h =? 0)
         then set_sstatus (sstatus t |l SSTATUS_SIE) t1 else t1)) ->
  wp popoff_hart Q t.
Proof.
  intros Ht Hs Hd HQ. unfold popoff_hart, read_interrupt, enable_interrupt. wp_steps.
  apply wp_current_hart; [done|]. wp_steps. rewrite Hs. simpl negb. wp_steps.
  rewrite (proj2 (Z.ltb_ge _ _)) by lia. wp_steps. rewrite this_put.
  cbn [set_dep trap_pushoff_dep trap_enabled]. cbv zeta in HQ.
  destruct (_ && _); wp_steps; exact HQ.
Qed.

(** Leaving a critical section that was entered from [s]. *)
Lemma pop_pushed m s :
  hart_ok s ->
  let t := set_mem m (pushed s) in let h := this_hart t in
  let t1 := put_hart (set_dep (trap_pushoff_dep h - 1) h) t in
  (if (trap_pushoff_dep h - 1 =? 0) && negb (trap_enabled h =? 0)
   then set_sstatus (sstatus t |l SSTATUS_SIE) t1 else t1) = set_mem m (popped s).
Proof.
  intros (Ht & Hs & Hd & Hn) t h t1. pose proof (sie_restore _ Hs) as E.
  assert (Hh : h = mk_hart (enabled (this_hart s)) (running_proc (this_hart s)) (context (this_hart s))
    (trap_pushoff_dep (this_hart s) + 1)
    (if trap_pushoff_dep (this_hart s) =? 0 then sstatus s &l SSTATUS_SIE else trap_enabled (this_hart s)))
    by apply (this_put _ _).
  assert (H1 : t1 = set_mem m (set_sstatus (sstatus s &l not64 SSTATUS_SIE)
     (put_hart (set_dep (trap_pushoff_dep h - 1) h) s))).
  { unfold t1, t, pushed, put_hart. cbn. by rewrite insert_insert_eq. }
  rewrite H1, Hh. unfold popped. cbn [trap_pushoff_dep trap_enabled set_dep enabled running_proc context].
  rewrite Z.add_simpl_r.
  destruct (Z.eqb_spec (trap_pushoff_dep (this_hart s)) 0) as [Ed|Ed]; simpl andb.
  - destruct (negb _); unfold set_mem, put_hart, set_sstatus, set_trap_enabled; cbn; f_equal; done.
  - rewrite (Hn Ed) in E. cbn in E. rewrite E.
    unfold set_mem, put_hart, set_sstatus, set_dep; cbn. by destruct (this_hart s).
Qed.

Lemma popped_fields s :
  tp (popped s) = tp s /\ sstatus (popped s) = sstatus s /\ mem (popped s) = mem s /\
  uma_node (popped s) = uma_node s /\ kmem (popped s) = kmem s /\ ram_descriptor (popped s) = ram_descriptor s /\
  trap_pushoff_dep (this_hart (popped s)) = trap_pushoff_dep (this_hart s).
Proof. split_and!; try done. unfold popped. rewrite this_put. by destruct (_ =? _). Qed.

Lemma popped_hart_ok m s : hart_ok s -> hart_ok (set_mem m (popped s)).
Proof.
  intros (Ht & Hs & Hd & Hn). unfold hart_ok.
  pose proof (popped_fields s) as (E1 & E2 & _ & _ & _ & _ & E3).
  change (tp (set_mem m (popped s))) with (tp (popped s)).
  change (sstatus (set_mem m (popped s))) with (sstatus (popped s)).
  change (this_hart (set_mem m (popped s))) with (this_hart (popped s)).
  rewrite E1, E2, E3. done.
Qed.

(** What code that only enters and leaves critical sections changes of the
    hart records: nothing but [trap_enabled], and that only on a hart that was
    outside all critical sections. *)
Definition hart_at (s : kst) (i : Z) : hart_struct := default hart_zero (harts s !! i).
Definition same_harts (s s' : kst) : Prop := forall i,
  hart_at s' i = hart_at s i \/
  (trap_pushoff_dep (hart_at s i) = 0 /\ set_trap_enabled 0 (hart_at s' i) = set_trap_enabled 0 (hart_at s i)).

Lemma same_harts_fields s s' i : same_harts s s' ->
  trap_pushoff_dep (hart_at s' i) = trap_pushoff_dep (hart_at s i) /\
  running_proc (hart_at s' i) = running_proc (hart_at s i) /\ context (hart_at s' i) = context (hart_at s i).
Proof.
  intros H. destruct (H i) as [->|[_ E]]; [done|]. destruct (hart_at s' i), (hart_at s i).
  unfold set_trap_enabled in E. simpl in *. injection E. intros. subst. done.
Qed.

#[export] Instance same_harts_equiv : Equivalence same_harts.
Proof.
  split.
  - intros s i. by left.
  - intros s s' H i. destruct (same_harts_fields _ _ i H) as [E _]. destruct (H i) as [->|[H1 H2]]; [by left|right].
    by rewrite E.
  - intros s1 s2 s3 H1 H2 i. destruct (same_harts_fields _ _ i H1) as [E _]. destruct (H2 i) as [->|[H3 H4]]; [apply H1|].
    right. rewrite <- E. split; [done|]. rewrite H4. by destruct (H1 i) as [->|[_ ->]].
Qed.

Lemma popped_same_globals m s : same_globals s (set_mem m (popped s)).
Proof. done. Qed.

Lemma popped_same_harts m s : same_harts s (set_mem m (popped s)).
Proof.
  intros i. unfold hart_at, popped, put_hart. simpl. destruct (Z.eq_dec i (u32 (tp s))) as [->|Hne].
  - rewrite lookup_insert_eq. simpl. unfold this_hart. destruct (Z.eqb_spec (trap_pushoff_dep (default hart_zero (harts s !! u32 (tp s)))) 0); auto.
  - rewrite lookup_insert_ne by done. by left.
Qed.

(** Nothing but memory has changed, as far as code outside critical sections
    can tell. *)
Definition quiet (s s' : kst) : Prop := same_globals s s' /\ same_harts s s'.

#[export] Instance quiet_equiv : Equivalence quiet.
Proof.
  split; [by intros s|intros s s' [H1 H2]; by split|].
  intros s1 s2 s3 [H1 H2] [H3 H4]. split; by etrans.
Qed.

Lemma quiet_set_mem m s : quiet s (set_mem m s).
Proof. split; [done|]. intros i. by left. Qed.

Lemma quiet_kmem s s' : quiet s s' -> kmem s' = kmem s.
Proof. intros [G _]. apply (same_globals_fields _ _ G). Qed.

(** A hart that can enter [n] more nested critical sections. *)
Definition hart_can (n : Z) (s : kst) : Prop :=
  0 <= tp s < MAX_CPU /\ 0 <= sstatus s < 2 ^ 64 /\ 0 <= trap_pushoff_dep (this_hart s) < 2 ^ 31 - n /\
  (trap_pushoff_dep (this_hart s) <> 0 -> sstatus s &l SSTATUS_SIE = 0).

Lemma hart_can_weaken n n' s : hart_can n s -> n' <= n -> hart_can n' s.
Proof. intros (H1 & H2 & H3 & H4) H. unfold hart_can. split_and!; try done; lia. Qed.

Lemma quiet_can n s s' : quiet s s' -> hart_can n s -> hart_can n s'.
Proof.
  intros [G Hh] H. destruct (same_globals_fields _ _ G) as (Et & Es & _).
  destruct (same_harts_fields _ _ (u32 (tp s)) Hh) as [Ed _]. unfold hart_can, this_hart, hart_at in *. rewrite Et, Es, Ed. done.
Qed.

Lemma pushed_can n m s : hart_can n s -> hart_can (n - 1) (set_mem m (pushed s)).
Proof.
  intros (H1 & H2 & H3 & H4). unfold hart_can.
  change (this_hart (set_mem m (pushed s))) with (this_hart (pushed s)).
  assert (Ed : trap_pushoff_dep (this_hart (pushed s)) = trap_pushoff_dep (this_hart s) + 1) by (unfold pushed; by rewrite this_put).
  rewrite Ed. cbn.
  assert (E : sstatus s &l not64 SSTATUS_SIE &l SSTATUS_SIE = 0).
  { rewrite <- Z.land_assoc. change (not64 SSTATUS_SIE &l SSTATUS_SIE) with 0. apply Z.land_0_r. }
  split_and!; try done; try lia.
  - apply Z.land_nonneg. lia.
  - assert (0 <= sstatus s &l not64 SSTATUS_SIE) by (apply Z.land_nonneg; lia).
    destruct (Z.eq_dec (sstatus s &l not64 SSTATUS_SIE) 0) as [->|]; [done|]. apply Z.log2_lt_pow2; [lia|].
    pose proof (Z.log2_land (sstatus s) (not64 SSTATUS_SIE) ltac:(lia) ltac:(done)).
    change (Z.log2 (not64 SSTATUS_SIE)) with 63 in *. lia.
Qed.

(** Memory after taking and after releasing a lock. *)
Definition lock_mem (m : memory) (lk h : Z) : memory := st64 (st32 m lk 1) (lk + 16) h.
Definition unlock_mem (m : memory) (lk : Z) : memory := st32 (st64 m (lk + 16) 0) lk 0.

Lemma lock_mem_agree m lk h : agree (fun a => ~ in_range lk sizeof_spinlock a) m (lock_mem m lk h).
Proof.
  unfold lock_mem, sizeof_spinlock. etrans; [apply agree_st | apply agree_st];
    unfold in_range; simpl; intros; lia.
Qed.
Lemma unlock_mem_agree m lk : agree (fun a => ~ in_range lk sizeof_spinlock a) m (unlock_mem m lk).
Proof.
  unfold unlock_mem, sizeof_spinlock. etrans; [apply agree_st | apply agree_st];
    unfold in_range; simpl; intros; lia.
Qed.
Lemma unlock_mem_free m lk : lock_free (unlock_mem m lk) lk.
Proof. unfold lock_free, unlock_mem. by rewrite ld32_st32. Qed.
Lemma lock_mem_mine s m lk :
  0 <= tp s < MAX_CPU -> lock_mine s (lock_mem m lk (my_hart s)) lk.
Proof.
  intros H. pose proof (my_hart_bound s H). unfold lock_mine, lock_mem. split.
  - rewrite ld_st_other by (unfold disjoint; simpl; lia). by rewrite ld32_st32.
  - rewrite ld64_st64; [done|lia].
Qed.

Lemma wp_spinlock_acquire lk (Q : unit -> kst -> Prop) s :
  hart_ok s -> PAGE_SIZE <= lk -> lock_free (mem s) lk ->
  Q tt (set_mem (lock_mem (mem s) lk (my_hart s)) (pushed s)) ->
  wp (spinlock_acquire lk) Q s.
Proof.
  intros Hok Hlk Hfree HQ. unfold spinlock_acquire, is_holding_spinlock. wp_steps.
  apply wp_pushoff_hart; [done|]. wp_steps.
  assert (Ht : 0 <= tp s < MAX_CPU) by apply Hok.
  apply wp_current_hart; [done|].
  change (mem (pushed s)) with (mem s). unfold lock_free in Hfree.
  destruct (_ =? _); repeat (wp_steps; change (mem (pushed s)) with (mem s); rewrite ?Hfree);
    apply wp_current_hart; try done; wp_steps; exact HQ.
Qed.

Lemma wp_spinlock_release lk m (Q : unit -> kst -> Prop) s :
  hart_ok s -> PAGE_SIZE <= lk -> lock_mine s m lk ->
  Q tt (set_mem (unlock_mem m lk) (popped s)) ->
  wp (spinlock_release lk) Q (set_mem m (pushed s)).
Proof.
  intros Hok Hlk [H1 H2] HQ. unfold spinlock_release, is_holding_spinlock. wp_steps.
  assert (Ht : 0 <= tp s < MAX_CPU) by apply Hok.
  apply wp_current_hart; [done|]. rewrite set_mem_mem, H2.
  change (my_hart (set_mem m (pushed s))) with (my_hart s). rewrite Z.eqb_refl. wp_steps.
  rewrite set_mem_mem, H1. simpl negb. wp_steps. rewrite !set_mem_mem, !set_mem_twice.
  apply wp_popoff_hart; [done| | |].
  - change (sstatus (set_mem _ (pushed s))) with (sstatus s &l not64 SSTATUS_SIE).
    rewrite <- Z.land_assoc. change (not64 SSTATUS_SIE &l SSTATUS_SIE) with 0. apply Z.land_0_r.
  - change (this_hart (set_mem _ (pushed s))) with (this_hart (pushed s)). unfold pushed.
    rewrite this_put. cbn [trap_pushoff_dep]. unfold hart_ok in Hok. lia.
  - cbv zeta. pose proof (pop_pushed (unlock_mem m lk) s Hok) as E. cbv zeta in E.
    unfold unlock_mem in *. rewrite E. exact HQ.
Qed.

(** A critical section: the body runs on the memory with the lock taken,
    must not touch the lock, and changes nothing but memory. *)
Lemma wp_locked {A} lk (body : M A) (Q : A -> kst -> Prop) s :
  hart_ok s -> PAGE_SIZE <= lk -> lock_free (mem s) lk ->
  wp body (fun a s' => exists m', s' = set_mem m' (pushed s) /\
       agree (in_range lk sizeof_spinlock) (lock_mem (mem s) lk (my_hart s)) m' /\
       Q a (set_mem (unlock_mem m' lk) (popped s)))
    (set_mem (lock_mem (mem s) lk (my_hart s)) (pushed s)) ->
  wp (spinlock_acquire lk;; a ← body; spinlock_release lk;; mret a) Q s.
Proof.
  intros Hok Hlk Hfree Hb. wp_step. apply wp_spinlock_acquire; try done. wp_step.
  eapply wp_mono; [exact Hb|]. intros a s' (m' & -> & Hag & HQ). wp_step.
  apply wp_spinlock_release; try done.
  pose proof (lock_mem_mine s (mem s) lk ltac:(apply Hok)) as [M1 M2]. unfold sizeof_spinlock in Hag.
  split; [rewrite <- M1|rewrite <- M2]; apply ld_agree; (eapply agree_weaken; [|exact Hag]);
    unfold in_range; simpl; intros; lia.
Qed.

(** Leaving a critical section entered from [s], whatever [quiet] steps were
    taken inside. *)
Lemma wp_release_quiet lk (Q : unit -> kst -> Prop) m0 s t :
  hart_ok s -> PAGE_SIZE <= lk -> quiet (set_mem m0 (pushed s)) t -> lock_mine s (mem t) lk ->
  (forall s', quiet s s' -> mem s' = unlock_mem (mem t) lk -> Q tt s') ->
  wp (spinlock_release lk) Q t.
Proof.
  intros Hok Hlk [G H] [M1 M2] HQ. assert (Ht : 0 <= tp s < MAX_CPU) by apply Hok.
  destruct (same_globals_fields _ _ G) as (Et & Es & _). change (tp t = tp s) in Et.
  change (sstatus t = sstatus s &l not64 SSTATUS_SIE) in Es.
  assert (Eh : this_hart t = this_hart (pushed s)).
  { unfold this_hart. rewrite Et. destruct (H (u32 (tp s))) as [E|[E _]]; [exact E|].
    exfalso. change (hart_at _ (u32 (tp s))) with (this_hart (pushed s)) in E. unfold pushed in E. rewrite this_put in E.
    cbn in E. unfold hart_ok in Hok. lia. }
  unfold spinlock_release, is_holding_spinlock. wp_steps. apply wp_current_hart; [by rewrite Et|].
  rewrite M2. unfold my_hart. rewrite Et, Z.eqb_refl. wp_steps. rewrite M1. simpl negb. wp_steps.
  rewrite !set_mem_mem, !set_mem_twice. set (t1 := set_mem _ t). apply wp_popoff_hart.
  - change (tp t1) with (tp t). by rewrite Et.
  - change (sstatus t1) with (sstatus t). rewrite Es, <- Z.land_assoc. change (not64 SSTATUS_SIE &l SSTATUS_SIE) with 0. apply Z.land_0_r.
  - change (this_hart t1) with (this_hart t). rewrite Eh. unfold pushed. rewrite this_put. cbn. unfold hart_ok in Hok. lia.
  - cbv zeta. change (this_hart t1) with (this_hart t). rewrite Eh. change (sstatus t1) with (sstatus t). rewrite Es.
    pose proof (pop_pushed (mem t1) s Hok) as E. cbv zeta in E.
    change (this_hart (set_mem _ (pushed s))) with (this_hart (pushed s)) in E.
    change (sstatus (set_mem _ (pushed s))) with (sstatus s &l not64 SSTATUS_SIE) in E.
    apply HQ; [|by destruct (_ && _)]. set (h' := set_dep _ _) in *. set (c := _ && _) in *. split.
    + apply (f_equal (fun x => set_harts ∅ (set_mem ∅ x))) in E. unfold same_globals in *.
      etrans; [|exact E]. destruct t, c; cbn in *; injection G; intros; subst; done.
    + intros i. change (u32 (tp t1)) with (u32 (tp t)) in *. destruct (Z.eq_dec i (u32 (tp s))) as [->|Hne].
      * pose proof (popped_same_harts (mem t1) s (u32 (tp s))) as Hp. rewrite <- E in Hp.
        assert (E2 : forall u v, tp u = tp s -> hart_at (if c then set_sstatus v (put_hart h' u) else put_hart h' u) (u32 (tp s)) = h').
        { intros u v Eu. destruct c; unfold hart_at, put_hart; cbn; rewrite Eu, lookup_insert_eq; done. }
        rewrite E2 in Hp by done. by rewrite E2.
      * assert (E2 : forall v, hart_at (if c then set_sstatus v (put_hart h' t1) else put_hart h' t1) i = hart_at t i).
        { intros v. destruct c; unfold hart_at, put_hart; cbn; rewrite Et, lookup_insert_ne; done. }
        rewrite E2. specialize (H i). assert (E3 : hart_at (set_mem m0 (pushed s)) i = hart_at s i).
        { unfold hart_at, pushed, put_hart. cbn. by rewrite lookup_insert_ne. }
        by rewrite E3 in H.
Qed.

(** A critical section whose body may take other locks. *)
Lemma wp_critical {A} lk (body : M A) (Q : A -> kst -> Prop) s :
  hart_ok s -> PAGE_SIZE <= lk -> lock_free (mem s) lk ->
  (let s0 := set_mem (lock_mem (mem s) lk (my_hart s)) (pushed s) in
   wp body (fun a s1 => quiet s0 s1 /\ agree (in_range lk sizeof_spinlock) (mem s0) (mem s1) /\
     forall s2, quiet s s2 -> mem s2 = unlock_mem (mem s1) lk -> Q a s2) s0) ->
  wp (spinlock_acquire lk;; a ← body; spinlock_release lk;; mret a) Q s.
Proof.
  intros Hok Hlk Hfree Hb. wp_step. apply wp_spinlock_acquire; try done. wp_step.
  eapply wp_mono; [exact Hb|]. cbv zeta. intros a s1 (Hq & Hag & HQ). wp_step.
  pose proof (lock_mem_mine s (mem s) lk ltac:(apply Hok)) as [M1 M2]. unfold sizeof_spinlock in Hag.
  eapply (wp_release_quiet lk _ _ s); [done|done|exact Hq| |intros s2 Hq2 Em; wp_step; by apply HQ].
  split; [rewrite <- M1|rewrite <- M2]; apply ld_agree; (eapply agree_weaken; [|exact Hag]);
    unfold in_range; simpl; intros; lia.
Qed.

(** Acquiring a lock this hart already holds. *)
Lemma acquire_held lk s :
  hart_ok s -> PAGE_SIZE <= lk -> lock_mine s (mem s) lk -> spinlock_acquire lk s = Panic "spinlock_acquire - spinlock held;".
Proof.
  intros Hok Hlk [H1 H2]. assert (Ht : 0 <= tp s < MAX_CPU) by apply Hok.
  unfold spinlock_acquire, is_holding_spinlock. apply bind_panics. apply wp_pushoff_hart; [done|].
  apply bind_panics. wp_steps. apply wp_current_hart; [done|]. change (mem (pushed s)) with (mem s).
  change (my_hart (pushed s)) with (my_hart s). rewrite H2, Z.eqb_refl. wp_steps. change (mem (pushed s)) with (mem s).
  by rewrite H1.
Qed.

(** ** The theorems *)

(** On a hart that can take it, a free lock is acquired with interrupts
    off and the hart recorded as holder; whatever the critical section does
    to memory outside the lock, the release frees the lock, restores the
    interrupt-enable bit to what it was before the acquire, even inside an
    outer critical section, and changes nothing else but the lock and the
    hart's saved interrupt state. *)
Theorem critical_section lk s :
  hart_ok s -> PAGE_SIZE <= lk -> lock_free (mem s) lk ->
  wp (spinlock_acquire lk) (fun _ t =>
    sstatus t &l SSTATUS_SIE = 0 /\ lock_mine t (mem t) lk /\
    agree (fun a => ~ in_range lk sizeof_spinlock a) (mem s) (mem t) /\
    forall m', agree (in_range lk sizeof_spinlock) (mem t) m' ->
      wp (spinlock_release lk) (fun _ s' =>
        lock_free (mem s') lk /\ sstatus s' = sstatus s /\ hart_ok s' /\ same_globals s s' /\ same_harts s s' /\
        agree (fun a => ~ in_range lk sizeof_spinlock a) m' (mem s')) (set_mem m' t)) s.
Proof.
  intros Hok Hlk Hfree. apply wp_spinlock_acquire; try done. split_and!.
  - simpl. rewrite <- Z.land_assoc. change (not64 SSTATUS_SIE &l SSTATUS_SIE) with 0. apply Z.land_0_r.
  - exact (lock_mem_mine s (mem s) lk (proj1 Hok)).
  - apply lock_mem_agree.
  - intros m' Hag. rewrite set_mem_twice. apply wp_spinlock_release; try done.
    + pose proof (lock_mem_mine s (mem s) lk ltac:(apply Hok)) as [M1 M2]. unfold sizeof_spinlock in Hag.
      split; [rewrite <- M1|rewrite <- M2]; apply ld_agree; (eapply agree_weaken; [|exact Hag]);
        unfold in_range; simpl; intros; lia.
    + split_and!; [apply unlock_mem_free|done|by apply popped_hart_ok|done|apply popped_same_harts|apply unlock_mem_agree].
Qed.

(** the two misuses stop the kernel: acquiring a lock this hart already
    holds panics instead of deadlocking, and releasing one it does not hold
    panics. *)
Theorem lock_misuse lk s :
  hart_ok s -> PAGE_SIZE <= lk ->
  (lock_mine s (mem s) lk -> spinlock_acquire lk s = Panic "spinlock_acquire - spinlock held;") /\
  (lock_free (mem s) lk \/ ld64 (mem s) (lk + 16) <> my_hart s ->
   spinlock_release lk s = Panic "spinlock_release - spinlock not held;").
Proof.
  intros Hok Hlk. assert (Ht : 0 <= tp s < MAX_CPU) by apply Hok. split.
  - by apply acquire_held.
  - intros Hnot. unfold spinlock_release, is_holding_spinlock. apply bind_panics. wp_steps.
    apply wp_current_hart; [done|]. destruct (Z.eqb_spec (ld64 (mem s) (lk + 16)) (my_hart s)) as [E|E]; wp_steps; [|done].
    destruct Hnot as [Hf|Hn]; [|done]. unfold lock_free in Hf. by rewrite Hf.
Qed.
End lock.

#[local] Existing Instance sample_layout.

Lemma critical_section_witness :
  wp (spinlock_acquire 0x9000) (fun _ t =>
    sstatus t &l SSTATUS_SIE = 0 /\ lock_mine t (mem t) 0x9000 /\
    agree (fun a => ~ in_range 0x9000 sizeof_spinlock a) ∅ (mem t) /\
    forall m', agree (in_range 0x9000 sizeof_spinlock) (mem t) m' ->
      wp (spinlock_release 0x9000) (fun _ s' =>
        lock_free (mem s') 0x9000 /\ sstatus s' = 2 /\ hart_ok s' /\ same_globals (sample_state ∅) s' /\
        same_harts (sample_state ∅) s' /\ agree (fun a => ~ in_range 0x9000 sizeof_spinlock a) m' (mem s')) (set_mem m' t))
    (sample_state ∅).
Proof.
  apply (critical_section 0x9000 (sample_state ∅)).
  - split_and!; vm_compute; congruence.
  - unfold PAGE_SIZE. lia.
  - reflexivity.
Defined.

Lemma lock_misuse_witness : spinlock_release 0x9000 (sample_state ∅) = Panic "spinlock_release - spinlock not held;".
Proof.
  destruct (lock_misuse 0x9000 (sample_state ∅)) as [_ H].
  - split_and!; vm_compute; congruence.
  - unfold PAGE_SIZE. lia.
  - apply H. left. reflexivity.
Defined.
