(* ===== verification/DeviceIo.v ===== *)
(** * Critical sections that touch device registers

    Driver code reads and writes device registers while it holds locks.
    [quiet_io] is [quiet] up to the log of these accesses, and
    [wp_release_io] leaves a critical section whose body made some. *)

From S2P Require Import Prelude Memory Machine Lock.

(** [c] neither reads nor changes the log. *)
Definition log_free {A} (c : M A) : Prop := forall x s,
  c (set_mmio x s) = match c s with Ok a s' => Ok a (set_mmio x s') | Panic msg => Panic msg | Fault a => Fault a | Hang => Hang end.

Section log_free.
Lemma lf_ret {A} (a : A) : log_free (mret a). Proof. done. Qed.
Lemma lf_bind {A B} (c : M A) (f : A -> M B) : log_free c -> (forall a, log_free (f a)) -> log_free (c ≫= f).
Proof. intros Hc Hf x s. unfold mbind, M_bind. rewrite Hc. by destruct (c s); [apply Hf|..]. Qed.
Lemma lf_rd n a : log_free (rd n a). Proof. intros x s. unfold rd. simpl. by destruct (a <? PAGE_SIZE). Qed.
Lemma lf_wr n a v : log_free (wr n a v). Proof. intros x s. unfold wr. simpl. by destruct (a <? PAGE_SIZE). Qed.
Lemma lf_gets {A} (f : kst -> A) : (forall x s, f (set_mmio x s) = f s) -> log_free (gets f).
Proof. intros H x s. unfold gets. by rewrite H. Qed.
Lemma lf_modify f : (forall x s, f (set_mmio x s) = set_mmio x (f s)) -> log_free (modify f).
Proof. intros H x s. unfold modify. by rewrite H. Qed.
Lemma lf_panic {A} msg : log_free (panic (A := A) msg). Proof. done. Qed.
Lemma lf_fault {A} a : log_free (fault (A := A) a). Proof. done. Qed.
Lemma lf_if {A} (b : bool) (c d : M A) : log_free c -> log_free d -> log_free (if b then c else d).
Proof. by destruct b. Qed.
End log_free.

Create HintDb log_free.
#[export] Hint Resolve lf_ret lf_rd lf_wr lf_panic lf_fault : log_free.
#[export] Hint Extern 1 (log_free (_ ≫= _)) => apply lf_bind; [|intros ?] : log_free.
#[export] Hint Extern 1 (log_free (if _ then _ else _)) => apply lf_if : log_free.
#[export] Hint Extern 2 (log_free (gets _)) => apply lf_gets; done : log_free.
#[export] Hint Extern 2 (log_free (modify _)) => apply lf_modify; done : log_free.

Section locks.
Context {L : KernelLayout}.

Lemma release_log_free lk : log_free (spinlock_release lk).
Proof.
  unfold spinlock_release, is_holding_spinlock, popoff_hart, read_interrupt, current_hart, current_hart_id, when, enable_interrupt.
  auto 20 with log_free.
Qed.

(** [quiet], but for the accesses to device registers. *)
Definition quiet_io (s s' : kst) : Prop := quiet s (set_mmio (mmio s) s').

Lemma set_mmio_twice x y s : set_mmio x (set_mmio y s) = set_mmio x s. Proof. done. Qed.
Lemma set_mmio_id s : set_mmio (mmio s) s = s. Proof. by destruct s. Qed.

Lemma quiet_set_mmio x s s' : quiet s s' -> quiet (set_mmio x s) (set_mmio x s').
Proof.
  intros [G H]. split; [|exact H]. unfold same_globals in *. destruct s, s'. cbn in *. injection G. intros. by subst.
Qed.

#[export] Instance quiet_io_trans : Transitive quiet_io.
Proof.
  intros s1 s2 s3 H1 H2. unfold quiet_io in *. etrans; [exact H1|].
  pose proof (quiet_set_mmio (mmio s1) _ _ H2) as H. by rewrite set_mmio_twice in H.
Qed.
Lemma quiet_quiet_io s s' : quiet s s' -> quiet_io s s'.
Proof.
  intros H. unfold quiet_io. destruct (same_globals_fields _ _ (proj1 H)) as (_ & _ & _ & _ & _ & _ & _ & _ & E).
  by rewrite <- E, set_mmio_id.
Qed.
#[export] Instance quiet_io_refl : Reflexive quiet_io.
Proof. intros s. by apply quiet_quiet_io. Qed.
Lemma quiet_io_log x s : quiet_io s (set_mmio x s).
Proof. unfold quiet_io. rewrite set_mmio_twice, set_mmio_id. done. Qed.
Lemma quiet_mmio s s' : quiet s s' -> mmio s' = mmio s.
Proof. intros [G _]. apply (same_globals_fields _ _ G). Qed.
Lemma quiet_io_can n s s' : quiet_io s s' -> hart_can n s -> hart_can n s'.
Proof. intros H Hh. exact (quiet_can n s _ H Hh). Qed.

Lemma wp_release_io lk (Q : unit -> kst -> Prop) m0 s t :
  hart_ok s -> PAGE_SIZE <= lk -> quiet_io (set_mem m0 (pushed s)) t -> lock_mine s (mem t) lk ->
  (forall s', quiet_io s s' -> mmio s' = mmio t -> mem s' = unlock_mem (mem t) lk -> Q tt s') ->
  wp (spinlock_release lk) Q t.
Proof.
  intros Hok Hlk Hq Hm HQ. set (t0 := set_mmio (mmio s) t).
  assert (H : wp (spinlock_release lk) (fun _ s' => quiet s s' /\ mem s' = unlock_mem (mem t) lk) t0).
  { apply (wp_release_quiet lk _ m0 s); [done|done|exact Hq|exact Hm|]. intros s' Q' E. done. }
  apply wp_iff in H as ([] & s' & E & Q' & Em). unfold wp. replace t with (set_mmio (mmio t) t0) by (unfold t0; by rewrite set_mmio_twice, set_mmio_id).
  rewrite release_log_free, E. apply HQ; [|done|done]. unfold quiet_io. rewrite set_mmio_twice.
  rewrite <- (quiet_mmio _ _ Q'), set_mmio_id. exact Q'.
Qed.

(** What is known about a lock taken at [s] after code that left it alone. *)
Lemma lock_kept s m m' lk : 0 <= tp s < MAX_CPU -> agree (in_range lk sizeof_spinlock) (lock_mem m lk (my_hart s)) m' -> lock_mine s m' lk.
Proof.
  intros Ht Hag. pose proof (lock_mem_mine s m lk Ht) as [M1 M2]. unfold sizeof_spinlock in Hag.
  split; [rewrite <- M1|rewrite <- M2]; apply ld_agree; (eapply agree_weaken; [|exact Hag]); unfold in_range; simpl; intros; lia.
Qed.
End locks.
