(* ===== verification/Ring.v ===== *)
(** * Ring buffers

    A buffer of [n] bytes with two 64-bit counters that only grow: [head]
    counts the bytes taken out, [tail] the bytes put in, and a byte lies at
    its count modulo [n].  [ring] relates such a buffer to the queue it
    holds; the serial port driver has two.  Nothing stops a writer that does
    not look: [newest] is what such a buffer is in any case, the last [n] of
    the bytes that were put in and not taken out. *)

From S2P Require Import Prelude Memory.

(** A buffer of [rg_size] bytes at [rg_buf], its counters at [rg_head] and
    [rg_tail]. *)
Record ring_desc := mk_ring { rg_buf : Z; rg_size : Z; rg_head : Z; rg_tail : Z }.

Record ring_at (r : ring_desc) : Prop := {
  ra_size : 0 < rg_size r < 2 ^ 63;
  ra_wraps : (rg_size r | 2 ^ 64);
  ra_buf_head : disjoint (rg_buf r) (rg_size r) (rg_head r) 8;
  ra_buf_tail : disjoint (rg_buf r) (rg_size r) (rg_tail r) 8;
  ra_head_tail : disjoint (rg_head r) 8 (rg_tail r) 8;
}.

(** The queue [l] is in the ring. *)
Record ring (r : ring_desc) (m : memory) (l : list Z) : Prop := {
  ri_len : Z.of_nat (length l) <= rg_size r;
  ri_tail : ld64 m (rg_tail r) = ld64 m (rg_head r) +l Z.of_nat (length l);
  ri_byte (i : nat) c : l !! i = Some c -> ld 1 m (rg_buf r + (ld64 m (rg_head r) + Z.of_nat i) mod rg_size r) = c;
}.

(** The bytes [l] were put in and not taken out; the ring has the last ones. *)
Record newest (r : ring_desc) (m : memory) (l : list Z) : Prop := {
  nw_tail : ld64 m (rg_tail r) = ld64 m (rg_head r) +l Z.of_nat (length l);
  nw_byte (i : nat) c : l !! i = Some c -> Z.of_nat (length l) <= Z.of_nat i + rg_size r ->
    ld 1 m (rg_buf r + (ld64 m (rg_head r) + Z.of_nat i) mod rg_size r) = c;
}.

Lemma ring_newest r m l : ring r m l <-> newest r m l /\ Z.of_nat (length l) <= rg_size r.
Proof.
  split.
  - intros [H1 H2 H3]. split; [|done]. split; [done|]. intros i c Hi _. by apply H3.
  - intros [[H1 H2] H3]. split; [done|done|]. intros i c Hi. apply H2; [done|lia].
Qed.

(** The bytes the ring occupies. *)
Definition in_ring (r : ring_desc) (a : Z) : Prop :=
  in_range (rg_buf r) (rg_size r) a \/ in_range (rg_head r) 8 a \/ in_range (rg_tail r) 8 a.

(** Putting a byte in and taking one out, as the code does. *)
Definition ring_put (r : ring_desc) (m : memory) (c : Z) : memory :=
  let m1 := st 1 m (rg_buf r + ld64 m (rg_tail r) mod rg_size r) c in
  st64 m1 (rg_tail r) (ld64 m1 (rg_tail r) +l 1).
Definition ring_take (r : ring_desc) (m : memory) : memory := st64 m (rg_head r) (ld64 m (rg_head r) +l 1).

(** Counts less than the size apart have different slots. *)
Lemma ring_slots_apart h i k n : i < k < i + n -> (h + i) mod n <> (h + k) mod n.
Proof.
  intros H2 E. assert (H : (h + k - (h + i)) mod n = 0) by (rewrite Zminus_mod, E, Z.sub_diag; apply Z.mod_0_l; lia).
  replace (h + k - (h + i)) with (k - i) in H by lia. rewrite Z.mod_small in H by lia. lia.
Qed.

Section ring.
Context (r : ring_desc) (A : ring_at r).
Implicit Types l : list Z.

Lemma ring_slot x : in_range (rg_buf r) (rg_size r) (rg_buf r + x mod rg_size r).
Proof. pose proof (ra_size r A). pose proof (Z.mod_pos_bound x (rg_size r) ltac:(lia)). unfold in_range. lia. Qed.

(** The wrap-around of the counters does not show modulo the size. *)
Lemma ring_mod x : (x mod 2 ^ 64) mod rg_size r = x mod rg_size r.
Proof. destruct (ra_wraps r A) as [k E]. rewrite E, Z.mul_comm. pose proof (ra_size r A). rewrite Z.rem_mul_r by lia.
  rewrite Z.mul_comm, Z_mod_plus_full. apply Z.mod_mod. lia. Qed.

Lemma newest_frame m m' l : agree (in_ring r) m m' -> newest r m l -> newest r m' l.
Proof.
  intros Ha [H2 H3]. pose proof (ra_size r A).
  assert (Eh : ld64 m' (rg_head r) = ld64 m (rg_head r)) by (apply ld_agree; eapply agree_weaken; [|exact Ha]; intros a Hr; unfold in_ring; auto).
  assert (Et : ld64 m' (rg_tail r) = ld64 m (rg_tail r)) by (apply ld_agree; eapply agree_weaken; [|exact Ha]; intros a Hr; unfold in_ring; auto).
  split; [by rewrite Eh, Et|]. intros i c Hi Hn. rewrite Eh. rewrite <- (H3 i c Hi Hn). apply ld_agree. eapply agree_weaken; [|exact Ha].
  intros a Hr. left. pose proof (ring_slot (ld64 m (rg_head r) + Z.of_nat i)). unfold in_range in *. simpl in Hr. lia.
Qed.

Lemma ring_frame m m' l : agree (in_ring r) m m' -> ring r m l -> ring r m' l.
Proof. intros Ha [H1 H2]%ring_newest. apply ring_newest. split; [by apply (newest_frame m)|done]. Qed.

(** The counters meet exactly when the queue is empty, and are the size apart
    exactly when it is full. *)
Lemma ring_counters m l x : ring r m l -> 0 <= x <= rg_size r ->
  (ld64 m (rg_head r) +l x =? ld64 m (rg_tail r)) = (x =? Z.of_nat (length l)).
Proof.
  intros [H1 H2 _] Hx. rewrite H2. pose proof (ra_size r A). pose proof (ld64_bound m (rg_head r)). unfold add64, u64.
  destruct (Z.eqb_spec x (Z.of_nat (length l))) as [->|Hne]; [apply Z.eqb_refl|]. apply Z.eqb_neq. zdm.
Qed.

Lemma ring_empty m l : ring r m l -> (ld64 m (rg_head r) =? ld64 m (rg_tail r)) = (0 =? Z.of_nat (length l)).
Proof.
  intros H. pose proof (ra_size r A). rewrite <- (ring_counters m l 0 H) by lia. pose proof (ld64_bound m (rg_head r)).
  unfold add64, u64. by rewrite Z.add_0_r, Z.mod_small.
Qed.

Lemma ring_head m c l : ring r m (c :: l) -> ld 1 m (rg_buf r + ld64 m (rg_head r) mod rg_size r) = c.
Proof. intros [_ _ H]. rewrite <- (H 0%nat c) by done. by rewrite Z.add_0_r. Qed.

Lemma ring_bytes m l : ring r m l -> Forall (fun c => 0 <= c < 256) l.
Proof.
  intros [_ _ H]. apply Forall_lookup_2. intros i c Hi. rewrite <- (H i c Hi). apply (ld_bound 1).
Qed.

Lemma ring_take_agree m : agree (fun a => ~ in_range (rg_head r) 8 a) m (ring_take r m).
Proof. apply agree_st. intros b Hb Hn. by apply Hn. Qed.

Lemma ring_put_agree m c : agree (fun a => ~ in_range (rg_buf r) (rg_size r) a /\ ~ in_range (rg_tail r) 8 a) m (ring_put r m c).
Proof.
  unfold ring_put. etrans; apply agree_st; intros b Hb [H1 H2]; [|done]. apply H1.
  pose proof (ring_slot (ld64 m (rg_tail r))). unfold in_range in *. simpl in Hb. lia.
Qed.

Lemma ring_take_ok m c l : ring r m (c :: l) -> ring r (ring_take r m) l.
Proof.
  intros [H1 H2 H3]. pose proof (ra_size r A) as Hs. pose proof (ld64_bound m (rg_head r)). simpl length in *. rewrite Nat2Z.inj_succ in *.
  assert (Eh : ld64 (ring_take r m) (rg_head r) = ld64 m (rg_head r) +l 1) by (unfold ring_take; apply ld64_st64; unfold add64, u64; zdm).
  assert (Et : ld64 (ring_take r m) (rg_tail r) = ld64 m (rg_tail r)) by (apply ld64_st64_ne, A).
  split; [lia| |].
  - rewrite Eh, Et, H2. unfold add64, u64. rewrite Zplus_mod_idemp_l. f_equal. lia.
  - intros i x Hi. rewrite Eh. unfold add64, u64. rewrite <- ring_mod, Zplus_mod_idemp_l, ring_mod.
    replace (_ + 1 + _) with (ld64 m (rg_head r) + Z.of_nat (S i)) by lia. rewrite <- (H3 (S i) x Hi). apply ld_agree.
    eapply agree_weaken; [|apply ring_take_agree]. intros a Ha. pose proof (ring_slot (ld64 m (rg_head r) + Z.of_nat (S i))).
    pose proof (ra_buf_head r A). unfold in_range, disjoint in *. simpl in Ha. lia.
Qed.

(** A byte put into a full ring takes the place of the oldest. *)
Lemma newest_put m c l : newest r m l -> newest r (ring_put r m c) (l ++ [u8 c]).
Proof.
  intros [H2 H3]. pose proof (ra_size r A) as Hs. pose proof (ld64_bound m (rg_head r)). pose proof (ld64_bound m (rg_tail r)).
  set (p := rg_buf r + ld64 m (rg_tail r) mod rg_size r). pose proof (ring_slot (ld64 m (rg_tail r))) as Hp. fold p in Hp.
  pose proof (ra_buf_head r A) as D1. pose proof (ra_buf_tail r A) as D2. pose proof (ra_head_tail r A) as D3.
  assert (Eh : ld64 (ring_put r m c) (rg_head r) = ld64 m (rg_head r)).
  { apply ld_agree. eapply agree_weaken; [|apply ring_put_agree]. unfold in_range, disjoint in *. intros a Ha. simpl in Ha. lia. }
  assert (E1 : ld64 (st 1 m p c) (rg_tail r) = ld64 m (rg_tail r)) by (apply ld_st_other; unfold disjoint, in_range in *; simpl; lia).
  assert (Et : ld64 (ring_put r m c) (rg_tail r) = ld64 m (rg_tail r) +l 1).
  { unfold ring_put. fold p. rewrite E1. apply ld64_st64. unfold add64, u64. zdm. }
  assert (Eb : forall x, ld 1 (ring_put r m c) (rg_buf r + x mod rg_size r) = ld 1 (st 1 m p c) (rg_buf r + x mod rg_size r)).
  { intros x. pose proof (ring_slot x). unfold ring_put. fold p. apply ld_st_other. unfold disjoint, in_range in *. simpl. lia. }
  split.
  - rewrite Eh, Et, H2, length_app. unfold add64, u64. rewrite Zplus_mod_idemp_l. f_equal. simpl. lia.
  - intros i x Hi Hn. rewrite Eh, Eb. rewrite length_app in Hn. simpl length in Hn.
    assert (Ep : p = rg_buf r + (ld64 m (rg_head r) + Z.of_nat (length l)) mod rg_size r) by (unfold p; rewrite H2; unfold add64, u64; by rewrite ring_mod).
    apply lookup_app_Some in Hi as [Hi|[Hi Hx]].
    + rewrite <- (H3 i x Hi) by lia. apply ld_st_other. apply lookup_lt_Some in Hi. rewrite Ep. unfold disjoint. simpl.
      assert ((ld64 m (rg_head r) + Z.of_nat i) mod rg_size r <> (ld64 m (rg_head r) + Z.of_nat (length l)) mod rg_size r); [|lia].
      apply (ring_slots_apart _ (Z.of_nat i) (Z.of_nat (length l))); lia.
    + apply list_lookup_singleton_Some in Hx as [Hx <-]. assert (i = length l) as -> by lia. rewrite <- Ep.
      rewrite (ld_st_same 1). done.
Qed.

Lemma ring_put_ok m c l : ring r m l -> Z.of_nat (length l) < rg_size r -> ring r (ring_put r m c) (l ++ [u8 c]).
Proof. intros [H _]%ring_newest Hl. apply ring_newest. split; [by apply newest_put|]. rewrite length_app. simpl. lia. Qed.
End ring.
