(* ===== verification/Spin.v ===== *)
(** * spinlock.c and asm/hart.c with several harts

    The interleavings of [spinlock_acquire] and [spinlock_release] on one
    lock by any number of harts, each hart working through the memory accesses
    of the two functions one at a time (the fences make them appear in program
    order); [pushoff_hart] and [popoff_hart], which touch only the hart's own
    record, are one step each.  A schedule says which hart moves next and, for
    a hart that is in its own code, what it does: call the function it should,
    work on, switch its interrupts on or off, call the wrong function, or stop
    for ever.  [Lock] is the same code seen from one hart that runs alone. *)

From S2P Require Import Prelude.

(** Where a hart is in the code. *)
Inductive acq_point :=
| APush         (* spinlock_acquire: about to push off *)
| AHart         (* about to read lk->hart *)
| ALocked       (* lk->hart was this hart: about to read lk->locked *)
| ASwap         (* about to test-and-set lk->locked *)
| ASet.         (* got it: about to write lk->hart *)

Inductive rel_point :=
| RHart         (* spinlock_release: about to read lk->hart *)
| RLocked       (* about to read lk->locked *)
| RClear        (* about to clear lk->hart *)
| RUnlock       (* about to clear lk->locked *)
| RPop.         (* about to pop off *)

(** [again]: called inside the critical section; [stray]: called outside;
    [holding]: stopped inside. *)
Inductive pc :=
| Idle
| Acq (again : bool) (a : acq_point)
| Critical
| Rel (stray : bool) (r : rel_point)
| Dead (holding : bool)
| Panicked (holding : bool).

(** The hart's [trap_pushoff_dep], the interrupt-enable bit of its [sstatus],
    and its [trap_enabled]. *)
Record local := mk_local { dep : Z; sie : bool; saved : bool }.

(** [lk->locked], [lk->hart], and every hart's program counter and record. *)
Record spin_state := mk_spin { locked : bool; owner : option Z; pcs : Z -> pc; loc : Z -> local }.

Definition upd {A} (h : Z) (x : A) (f : Z -> A) : Z -> A := fun h' => if h' =? h then x else f h'.
Definition goto (h : Z) (p : pc) (s : spin_state) : spin_state := mk_spin (locked s) (owner s) (upd h p (pcs s)) (loc s).
Definition set_locked (b : bool) (s : spin_state) : spin_state := mk_spin b (owner s) (pcs s) (loc s).
Definition set_owner (o : option Z) (s : spin_state) : spin_state := mk_spin (locked s) o (pcs s) (loc s).
Definition set_loc (l : Z -> local) (s : spin_state) : spin_state := mk_spin (locked s) (owner s) (pcs s) l.

(** [pushoff_hart] and the part of [popoff_hart] behind its checks. *)
Definition push (l : local) : local := mk_local (s32 (dep l + 1)) false (if dep l =? 0 then sie l else saved l).
Definition pop (l : local) : local := mk_local (dep l - 1) (sie l || ((dep l - 1 =? 0) && saved l)) (saved l).
Definition with_sie (b : bool) (l : local) : local := mk_local (dep l) b (saved l).

Definition acquire_step (h : Z) (again : bool) (a : acq_point) (s : spin_state) : spin_state :=
  match a with
  | APush => goto h (Acq again AHart) (set_loc (upd h (push (loc s h)) (loc s)) s)
  | AHart => if decide (owner s = Some h) then goto h (Acq again ALocked) s else goto h (Acq again ASwap) s
  | ALocked => if locked s then goto h (Panicked again) s else goto h (Acq again ASwap) s
  | ASwap => if locked s then s else goto h (Acq again ASet) (set_locked true s)
  | ASet => goto h Critical (set_owner (Some h) s)
  end.

Definition release_step (h : Z) (stray : bool) (r : rel_point) (s : spin_state) : spin_state :=
  match r with
  | RHart => if decide (owner s = Some h) then goto h (Rel stray RLocked) s else goto h (Panicked (negb stray)) s
  | RLocked => if locked s then goto h (Rel stray RClear) s else goto h (Panicked (negb stray)) s
  | RClear => goto h (Rel stray RUnlock) (set_owner None s)
  | RUnlock => goto h (Rel stray RPop) (set_locked false s)
  | RPop => if sie (loc s h) then goto h (Panicked false) s
            else if dep (loc s h) <? 1 then goto h (Panicked false) s
            else goto h Idle (set_loc (upd h (pop (loc s h)) (loc s)) s)
  end.

(** What a hart does when it is its turn: [Go] is the next step of the
    function it is in, or the call that is due; the others are for a hart in
    its own code. *)
Inductive action := Go | Work | Interrupts (on : bool) | Misuse | Die.

Definition hart_step (h : Z) (a : action) (s : spin_state) : spin_state :=
  match pcs s h with
  | Idle =>
      match a with
      | Go => goto h (Acq false APush) s
      | Work => s
      | Interrupts on => set_loc (upd h (with_sie on (loc s h)) (loc s)) s
      | Misuse => goto h (Rel true RHart) s
      | Die => goto h (Dead false) s
      end
  | Critical =>
      match a with
      | Go => goto h (Rel false RHart) s
      | Work => s
      | Interrupts on => set_loc (upd h (with_sie on (loc s h)) (loc s)) s
      | Misuse => goto h (Acq true APush) s
      | Die => goto h (Dead true) s
      end
  | Acq again p => match a with Go => acquire_step h again p s | _ => s end
  | Rel stray p => match a with Go => release_step h stray p s | _ => s end
  | Dead _ | Panicked _ => s
  end.

(** A schedule, and the state after it. *)
Definition schedule := list (Z * action).
Definition run (t : schedule) (s : spin_state) : spin_state := fold_left (fun s '(h, a) => hart_step h a s) t s.

Lemma run_app t1 t2 s : run (t1 ++ t2) s = run t2 (run t1 s).
Proof. apply fold_left_app. Qed.

(** The lock is free and nobody uses it; the harts' records are whatever they
    are. *)
Definition spin_init (l : Z -> local) : spin_state := mk_spin false None (fun _ => Idle) l.

(** A hart keeps to the rules: it calls the right function, and does not
    switch interrupts on inside the critical section. *)
Definition proper (h : Z) (a : action) (s : spin_state) : bool :=
  match a with Misuse => false | Interrupts true => match pcs s h with Critical => false | _ => true end | _ => true end.
Fixpoint well_used (h : Z) (t : schedule) (s : spin_state) : bool :=
  match t with
  | [] => true
  | (h', a) :: t' => ((negb (h' =? h)) || proper h a s) && well_used h t' (hart_step h' a s)
  end.

(** ** The invariant *)

(** Between the test-and-set and the clearing of [locked]. *)
Definition inside (p : pc) : bool :=
  match p with
  | Idle => false
  | Acq again a => again || match a with ASet => true | _ => false end
  | Critical => true
  | Rel stray r => negb stray && match r with RPop => false | _ => true end
  | Dead w | Panicked w => w
  end.
(** While [lk->hart] is this hart. *)
Definition recorded (p : pc) : bool :=
  match p with
  | Acq false _ => false
  | Rel false RUnlock => false
  | p => inside p
  end.
(** The points that can be reached. *)
Definition ok_pc (p : pc) : bool :=
  match p with
  | Acq false ALocked | Acq true ASwap | Acq true ASet => false
  | Rel true RHart => true
  | Rel true _ => false
  | _ => true
  end.

Record spin_inv (s : spin_state) : Prop := {
  si_locked : forall h, inside (pcs s h) = true -> locked s = true;
  si_one : forall h h', inside (pcs s h) = true -> inside (pcs s h') = true -> h = h';
  si_owner : forall h, owner s = Some h <-> recorded (pcs s h) = true;
  si_fine : forall h, ok_pc (pcs s h) = true;
  si_free : locked s = true -> exists h, inside (pcs s h) = true;
}.

Lemma recorded_inside p : recorded p = true -> inside p = true.
Proof. by destruct p as [|[] []| |[] []| |]. Qed.

Lemma goto_same h p s : pcs (goto h p s) h = p.
Proof. simpl. unfold upd. by rewrite Z.eqb_refl. Qed.
Lemma goto_other h p s h' : h' <> h -> pcs (goto h p s) h' = pcs s h'.
Proof. intros. simpl. unfold upd. by destruct (Z.eqb_spec h' h). Qed.

(** A step of hart [h]: what it must see of the others. *)
Lemma inv_goto h p b o s :
  spin_inv s -> ok_pc p = true ->
  (inside p = true -> b = true /\ forall h', h' <> h -> inside (pcs s h') = false) ->
  (forall h', h' <> h -> inside (pcs s h') = true -> b = true) ->
  (o = Some h <-> recorded p = true) ->
  (forall h', h' <> h -> o = Some h' <-> recorded (pcs s h') = true) ->
  (b = true -> inside p = true \/ exists h', h' <> h /\ inside (pcs s h') = true) ->
  spin_inv (goto h p (mk_spin b o (pcs s) (loc s))).
Proof.
  intros I Hp Hin Hb Ho Ho' Hfree. split.
  - intros h' H. destruct (Z.eq_dec h' h) as [->|]; [rewrite goto_same in H; by apply Hin|].
    rewrite goto_other in H by done. by apply (Hb h').
  - intros h1 h2. destruct (Z.eq_dec h1 h) as [->|], (Z.eq_dec h2 h) as [->|]; rewrite ?goto_same, ?goto_other by done; simpl; intros E1 E2; try done.
    + by rewrite (proj2 (Hin E1) h2) in E2.
    + by rewrite (proj2 (Hin E2) h1) in E1.
    + by apply (si_one _ I).
  - intros h'. destruct (Z.eq_dec h' h) as [->|]; [by rewrite goto_same|]. rewrite goto_other by done. by apply Ho'.
  - intros h'. destruct (Z.eq_dec h' h) as [->|]; [by rewrite goto_same|]. rewrite goto_other by done. apply (si_fine _ I).
  - intros [E|(h' & Hne & E)]%Hfree; [exists h; by rewrite goto_same|exists h'; by rewrite goto_other].
Qed.

(** A step that stays on its side of both boundaries. *)
Lemma inv_move h p s :
  spin_inv s -> inside p = inside (pcs s h) -> recorded p = recorded (pcs s h) -> ok_pc p = true ->
  spin_inv (goto h p s).
Proof.
  intros I Ei Er Hp. destruct s as [b o q l]. apply (inv_goto h p b o (mk_spin b o q l)); rewrite ?Ei, ?Er; try done.
  - intros E. split; [by apply (si_locked _ I h)|]. intros h' Hne. apply not_true_iff_false. intros E'. destruct Hne. by apply (si_one _ I).
  - intros h' _. apply (si_locked _ I).
  - apply (si_owner _ I h).
  - intros h' _. apply (si_owner _ I h').
  - intros E. destruct (si_free _ I E) as [h' E']. destruct (Z.eq_dec h' h) as [->|]; eauto.
Qed.

Lemma spin_inv_init l : spin_inv (spin_init l).
Proof. by split. Qed.

(** The harts' own registers play no part. *)
Lemma inv_loc l s : spin_inv s -> spin_inv (set_loc l s).
Proof. intros [H1 H2 H3 H4 H5]. by split. Qed.

(** The steps that cross one. *)
Lemma inv_take s h : spin_inv s -> locked s = false -> spin_inv (goto h (Acq false ASet) (set_locked true s)).
Proof.
  intros I El. assert (Hno : forall h', inside (pcs s h') = false).
  { intros h'. apply not_true_iff_false. intros E%(si_locked _ I). congruence. }
  assert (Hr : forall h', owner s <> Some h').
  { intros h' E%(si_owner _ I)%recorded_inside. by rewrite Hno in E. }
  apply inv_goto; try done; auto.
  - split; [intros E; by apply Hr in E|done].
  - intros h' _. apply (si_owner _ I).
Qed.

(** Crossing from inside: the other harts are all outside. *)
Lemma inv_inside h p b o s :
  spin_inv s -> inside (pcs s h) = true -> ok_pc p = true -> inside p = b ->
  o = (if recorded p then Some h else None) -> spin_inv (goto h p (mk_spin b o (pcs s) (loc s))).
Proof.
  intros I Hin Hp Hb ->. assert (Hi : forall h', h' <> h -> inside (pcs s h') = false).
  { intros h' Hne. apply not_true_iff_false. intros E. destruct Hne. by apply (si_one _ I). }
  apply inv_goto; rewrite <- ?Hb; try done.
  - intros h' Hne E. by rewrite Hi in E.
  - by destruct (recorded p).
  - intros h' Hne. split; [destruct (recorded p); congruence|]. intros E%recorded_inside. by rewrite Hi in E.
  - auto.
Qed.

Lemma spin_inv_step s h a : spin_inv s -> spin_inv (hart_step h a s).
Proof.
  intros I. pose proof (si_fine _ I h) as N. pose proof (si_owner _ I h) as Ho. pose proof (si_locked _ I h) as Hl. pose proof (inv_inside h) as Hin.
  unfold hart_step. destruct (pcs s h) as [|again p| |stray p|w|w] eqn:Ep; try done.
  - destruct a; try done; try (by apply inv_loc); apply inv_move; by rewrite ?Ep.
  - destruct a; try done. destruct again, p; try done; simpl in Ho, Hl; unfold acquire_step.
    + apply (inv_move h (Acq true AHart) (set_loc _ s)); [by apply inv_loc|simpl; by rewrite ?Ep..].
    + rewrite decide_True by (by apply Ho). by apply inv_move; rewrite ?Ep.
    + rewrite Hl by done. by apply inv_move; rewrite ?Ep.
    + apply (inv_move h (Acq false AHart) (set_loc _ s)); [by apply inv_loc|simpl; by rewrite ?Ep..].
    + rewrite decide_False by (intros E; by apply Ho in E). by apply inv_move; rewrite ?Ep.
    + destruct (locked s) eqn:El; [done|]. by apply inv_take.
    + apply Hin; try done; [by rewrite Ep|by rewrite Hl].
  - destruct a; try done; try (by apply inv_loc); apply inv_move; by rewrite ?Ep.
  - destruct a; try done. destruct stray, p; try done; simpl in Ho, Hl; unfold release_step.
    + rewrite decide_False by (intros E; by apply Ho in E). by apply inv_move; rewrite ?Ep.
    + rewrite decide_True by (by apply Ho). by apply inv_move; rewrite ?Ep.
    + rewrite Hl by done. by apply inv_move; rewrite ?Ep.
    + apply Hin; try done; [by rewrite Ep|by rewrite Hl].
    + apply Hin; try done; [by rewrite Ep|]. destruct (owner s) as [h'|] eqn:E; [|done]. exfalso.
      pose proof (proj1 (si_owner _ I h') E) as Hr. assert (h' = h) as -> by (apply (si_one _ I); [by apply recorded_inside|by rewrite Ep]). by rewrite Ep in Hr.
    + destruct (sie (loc s h)); [by apply inv_move; rewrite ?Ep|]. destruct (dep (loc s h) <? 1); [by apply inv_move; rewrite ?Ep|].
      apply (inv_move h Idle (set_loc _ s)); [by apply inv_loc|simpl; by rewrite ?Ep..].
Qed.

Lemma run_inv t s : spin_inv s -> spin_inv (run t s).
Proof. revert s. induction t as [|[h a] t IH]; intros s I; [done|]. simpl. by apply IH, spin_inv_step. Qed.

(** ** A hart that keeps to the rules *)

(** Pushed off by this lock. *)
Definition off (p : pc) : bool := match p with Idle | Acq _ APush | Dead false => false | _ => true end.

(** It is where it should be, its nesting count is [d], one more while it is
    pushed off, and then its interrupts are off. *)
Record calm (h d : Z) (s : spin_state) : Prop := {
  cm_pc : match pcs s h with Acq again _ => again = false | Rel stray _ => stray = false | Panicked _ => False | _ => True end;
  cm_dep : dep (loc s h) = d + (if off (pcs s h) then 1 else 0);
  cm_sie : off (pcs s h) = true -> sie (loc s h) = false;
}.

Lemma upd_same {A} h (x : A) f : upd h x f h = x.
Proof. unfold upd. by rewrite Z.eqb_refl. Qed.
Lemma upd_other {A} h (x : A) f h' : h' <> h -> upd h x f h' = f h'.
Proof. intros. unfold upd. by destruct (Z.eqb_spec h' h). Qed.

(** The others do not disturb it. *)
Lemma step_other h a h' s : h' <> h -> pcs (hart_step h a s) h' = pcs s h' /\ loc (hart_step h a s) h' = loc s h'.
Proof.
  intros Hne. unfold hart_step, acquire_step, release_step.
  destruct (pcs s h) as [|again []| |stray []|w|w]; destruct a; try done; repeat case_match; simpl; by rewrite ?upd_other by done.
Qed.

Lemma calm_step h d a s : 0 <= d < 2 ^ 31 - 1 -> spin_inv s -> calm h d s -> proper h a s = true -> calm h d (hart_step h a s).
Proof.
  intros Hd I [H1 H2 H3] Hp. pose proof (si_fine _ I h) as N. pose proof (si_owner _ I h) as Ho. pose proof (si_locked _ I h) as Hl.
  assert (Es : s32 (d + 1) = d + 1) by (unfold s32, swrap; rewrite Z.mod_small; lia).
  unfold hart_step. unfold proper in Hp. destruct (pcs s h) as [|again p| |stray p|w|w] eqn:Ep; try done; simpl in H2, H3.
  - destruct a; try done; split; simpl; rewrite ?upd_same, ?Ep; simpl; try done; lia.
  - subst again. destruct a; try (by split; rewrite ?Ep). destruct p; try done; simpl in Ho, H2, H3; unfold acquire_step.
    + rewrite Z.add_0_r in H2. split; simpl; rewrite ?upd_same; simpl; try done. by rewrite H2.
    + rewrite decide_False by (intros E; by apply Ho in E). split; simpl; by rewrite ?upd_same.
    + destruct (locked s); [by split; rewrite ?Ep|]. split; simpl; by rewrite ?upd_same.
    + split; simpl; by rewrite ?upd_same.
  - destruct a as [| |[]| |]; try done; split; simpl; rewrite ?upd_same, ?Ep; simpl; done || lia.
  - subst stray. destruct a; try (by split; rewrite ?Ep). destruct p; simpl in Ho, Hl; unfold release_step.
    + rewrite decide_True by (by apply Ho). split; simpl; by rewrite ?upd_same.
    + rewrite Hl by done. split; simpl; by rewrite ?upd_same.
    + split; simpl; by rewrite ?upd_same.
    + split; simpl; by rewrite ?upd_same.
    + rewrite H3 by done. rewrite (proj2 (Z.ltb_ge _ _)) by lia. split; simpl; rewrite ?upd_same; simpl; try done. lia.
  - destruct a; split; rewrite ?Ep; try done; destruct w; simpl in *; done || lia.
Qed.

Lemma calm_run h d t s : 0 <= d < 2 ^ 31 - 1 -> spin_inv s -> calm h d s -> well_used h t s = true -> calm h d (run t s).
Proof.
  intros Hd. revert s. induction t as [|[h' a] t IH]; intros s I Cm Hw; [done|]. simpl in *. apply andb_true_iff in Hw as [Hp Hw].
  apply IH; [by apply spin_inv_step| |done]. destruct (Z.eqb_spec h' h) as [->|Hne]; [by apply calm_step|].
  destruct (step_other h' a h s ltac:(congruence)) as [E1 E2]. destruct Cm. by split; rewrite ?E1, ?E2.
Qed.

(** ** The holder's way out *)

(** Holding the lock and never to release it: stopped inside, or waiting for
    the lock it holds. *)
Definition stuck_inside (p : pc) : bool := match p with Dead w | Panicked w => w | Acq again _ => again | _ => false end.

(** Steps of the function calls a hart inside has left before [locked] is
    about to be cleared. *)
Definition rank (p : pc) : nat :=
  match p with Acq _ _ => 5 | Critical => 4 | Rel _ RHart => 3 | Rel _ RLocked => 2 | Rel _ RClear => 1 | _ => 0 end.

(** In the schedule [t], hart [h] leaves its critical section some time: it
    gets at least six turns with the two functions, in whatever other code it
    runs in between, and does not stop or call the wrong one. *)
Definition leaves (h : Z) (t : schedule) : Prop :=
  Forall (fun '(h', a) => h' = h -> a <> Die /\ a <> Misuse) t /\
  (6 <= length (List.filter (fun '(h', a) => (h' =? h)%Z && match a with Go => true | _ => false end) t))%nat.

Lemma stuck_step h s h' a : spin_inv s -> stuck_inside (pcs s h) = true -> stuck_inside (pcs (hart_step h' a s) h) = true.
Proof.
  intros I Hs. destruct (Z.eq_dec h' h) as [->|Hne]; [|by rewrite (proj1 (step_other h' a h s ltac:(congruence)))].
  pose proof (si_fine _ I h) as N. pose proof (si_owner _ I h) as Ho. pose proof (si_locked _ I h) as Hl.
  unfold hart_step. destruct (pcs s h) as [|again p| |stray p|w|w] eqn:Ep; try done; simpl in Hs; try (by rewrite Ep).
  subst again. destruct a; try (by rewrite Ep). destruct p; try done; simpl in Ho, Hl; unfold acquire_step.
  - by rewrite goto_same.
  - rewrite decide_True by (by apply Ho). by rewrite goto_same.
  - rewrite Hl by done. by rewrite goto_same.
Qed.

Lemma stuck_run h t s : spin_inv s -> stuck_inside (pcs s h) = true -> locked (run t s) = true.
Proof.
  revert s. induction t as [|[h' a] t IH]; intros s I Hs; simpl; [|by apply IH; [apply spin_inv_step|apply stuck_step]].
  apply (si_locked _ I h). by destruct (pcs s h) as [|[] []| |[] []|[]|[]].
Qed.

(** A turn of the holder in one of the functions. *)
Lemma rank_step s h : spin_inv s -> inside (pcs s h) = true -> stuck_inside (pcs s h) = false ->
  locked (hart_step h Go s) = false \/
  inside (pcs (hart_step h Go s) h) = true /\ stuck_inside (pcs (hart_step h Go s) h) = false /\ S (rank (pcs (hart_step h Go s) h)) = rank (pcs s h).
Proof.
  intros I Hin Hs. pose proof (si_fine _ I h) as N. pose proof (si_locked _ I h Hin) as Hl. pose proof (si_owner _ I h) as Ho. unfold hart_step.
  destruct (pcs s h) as [|[] []| |[] []|[]|[]]; try done; simpl in Ho; simpl acquire_step; simpl release_step;
    try (rewrite decide_True by (by apply Ho)); rewrite ?Hl, ?goto_same; auto.
Qed.

(** Any other step leaves it where it is. *)
Lemma rank_other s h h' a : inside (pcs s h) = true -> stuck_inside (pcs s h) = false -> (h' = h -> a <> Die /\ a <> Misuse /\ a <> Go) ->
  pcs (hart_step h' a s) h = pcs s h.
Proof.
  intros Hin Hs Ha. destruct (Z.eq_dec h' h) as [->|Hne]; [|by apply step_other; congruence].
  destruct (Ha eq_refl) as (A1 & A2 & A3). unfold hart_step. by destruct (pcs s h) eqn:Ep; try done; destruct a.
Qed.

Lemma rank_unlock h t : forall s, spin_inv s -> inside (pcs s h) = true -> stuck_inside (pcs s h) = false ->
  Forall (fun '(h', a) => h' = h -> a <> Die /\ a <> Misuse) t ->
  (rank (pcs s h) < length (List.filter (fun '(h', a) => (h' =? h)%Z && match a with Go => true | _ => false end) t))%nat ->
  exists t1 t2, t = t1 ++ t2 /\ locked (run t1 s) = false.
Proof.
  induction t as [|[h' a] t IH]; intros s I Hin Hs Hf Hn; [simpl in Hn; lia|]. apply Forall_cons in Hf as [Ha Hf].
  pose proof (spin_inv_step s h' a I) as I'.
  assert (Hstep : locked (hart_step h' a s) = false \/ inside (pcs (hart_step h' a s) h) = true /\ stuck_inside (pcs (hart_step h' a s) h) = false /\
    (rank (pcs (hart_step h' a s) h) < length (List.filter (fun '(h', a) => (h' =? h)%Z && match a with Go => true | _ => false end) t))%nat).
  { simpl in Hn. destruct (Z.eqb_spec h' h) as [->|Hne].
    - destruct a; simpl in Hn; try (right; rewrite rank_other; try done; by intros _; destruct (Ha eq_refl)).
      destruct (rank_step s h I Hin Hs) as [E|(E1 & E2 & E3)]; [by left|right]. split_and!; [done|done|lia].
    - right. rewrite rank_other; try done. }
  destruct Hstep as [E|(E1 & E2 & E3)]; [by exists [(h', a)], t|].
  destruct (IH _ I' E1 E2 Hf E3) as (t1 & t2 & -> & El). by exists ((h', a) :: t1), t2.
Qed.

(** ** The theorems *)

(** C25: however the harts interleave, and whatever they do in between, at
    most one of them is inside the critical section.  A hart that keeps to
    the rules (it does not acquire a lock it holds, release one it does not
    hold, or switch interrupts on while it holds one) never reaches one of
    the panics of [spinlock_acquire], [spinlock_release] and [popoff_hart],
    has its interrupts off inside, and its nesting count is what it was when
    it is outside again. *)
Theorem mutual_exclusion t l :
  let s := run t (spin_init l) in
  (forall h h', pcs s h = Critical -> pcs s h' = Critical -> h = h') /\
  (forall h, 0 <= dep (l h) < 2 ^ 31 - 1 -> well_used h t (spin_init l) = true ->
     (forall w, pcs s h <> Panicked w) /\ (pcs s h = Critical -> sie (loc s h) = false) /\ (pcs s h = Idle -> dep (loc s h) = dep (l h))).
Proof.
  intros s. pose proof (run_inv t _ (spin_inv_init l)) as I. fold s in I. split.
  - intros h h' E E'. apply (si_one _ I); by rewrite ?E, ?E'.
  - intros h Hd Hw. destruct (calm_run h (dep (l h)) t _ Hd (spin_inv_init l)) as [H1 H2 H3]; [split; simpl; done || lia|done|]. fold s in H1, H2, H3.
    split_and!; [by intros w E; rewrite E in H1|intros E; apply H3; by rewrite E|intros E; rewrite E in H2; simpl in H2; lia].
Qed.

(** Hart 0 takes the lock while hart 1 waits. *)
Definition outside : Z -> local := fun _ => mk_local 0 true false.
Definition contended : schedule := [(0, Go); (1, Go); (0, Go); (1, Go); (0, Go); (1, Go); (0, Go); (1, Go); (0, Go); (0, Work)].

Lemma mutual_exclusion_witness :
  let s := run contended (spin_init outside) in
  pcs s 0 = Critical /\ pcs s 1 = Acq false ASwap /\ (forall h, pcs s h = Critical -> 0 = h) /\ sie (loc s 0) = false /\ forall w, pcs s 1 <> Panicked w.
Proof.
  intros s. destruct (mutual_exclusion contended outside) as [H1 H2]. fold s in H1, H2.
  destruct (H2 0) as (_ & H3 & _); [simpl; lia|reflexivity|]. destruct (H2 1) as (H4 & _); [simpl; lia|reflexivity|].
  split; [reflexivity|]. split; [reflexivity|]. split; [intros h; apply H1; reflexivity|]. split; [apply H3; reflexivity|exact H4].
Defined.

(** C26: the lock is never lost: when it is marked taken, there is a hart
    inside that took it.  If that hart has stopped inside, or waits for the
    lock it holds, the lock stays taken for ever.  Otherwise, in every
    interleaving in which it leaves its critical section, which may be as long
    as it likes and be interrupted by any number of steps of the other harts,
    there is a moment when the lock is free, and a waiting hart that moves then
    gets it. *)
Theorem lock_released t l :
  let s := run t (spin_init l) in
  locked s = true -> exists h, inside (pcs s h) = true /\
    if stuck_inside (pcs s h) then forall t', locked (run t' s) = true
    else forall t', leaves h t' -> exists t1 t2, t' = t1 ++ t2 /\ locked (run t1 s) = false /\
      forall h' again, pcs (run t1 s) h' = Acq again ASwap -> pcs (hart_step h' Go (run t1 s)) h' = Acq again ASet.
Proof.
  intros s Hl. pose proof (run_inv t _ (spin_inv_init l)) as I. fold s in I. destruct (si_free _ I Hl) as [h Hin]. exists h. split; [done|].
  destruct (stuck_inside (pcs s h)) eqn:Es; [intros t'; by apply (stuck_run h)|]. intros t' [Hf Hn].
  destruct (rank_unlock h t' s I Hin Es Hf) as (t1 & t2 & -> & El).
  { assert (rank (pcs s h) <= 5)%nat by (destruct (pcs s h) as [|? []| |? []| |]; simpl; lia). lia. }
  exists t1, t2. split_and!; [done|done|]. intros h' again E. unfold hart_step. rewrite E. simpl. by rewrite El, goto_same.
Qed.

(** The holder works, the other hart spins, the holder leaves. *)
Definition leaving : schedule := [(0, Work); (1, Go); (0, Go); (0, Go); (1, Go); (0, Go); (0, Go); (0, Go); (1, Go); (0, Go)].

Lemma lock_released_witness :
  let s := run contended (spin_init outside) in
  exists t1 t2, leaving = t1 ++ t2 /\ locked (run t1 s) = false /\
    forall h' again, pcs (run t1 s) h' = Acq again ASwap -> pcs (hart_step h' Go (run t1 s)) h' = Acq again ASet.
Proof.
  intros s. destruct (lock_released contended outside eq_refl) as (h & Hin & H). fold s in Hin, H.
  assert (E : h = 0) by (apply (si_one s (run_inv contended _ (spin_inv_init outside))); [exact Hin|reflexivity]).
  subst h. change (stuck_inside (pcs s 0)) with false in H. apply (H leaving).
  split; [|vm_compute; lia]. repeat (constructor; [intros ?; split; discriminate|]). constructor.
Defined.
