(* ===== verification/Console.v ===== *)
(** * console/print.c

    Formatted output.  [struct console_struct] has [lock] at offset 0,
    [locking_enabled] at 24, [kernel_stdout_dev] at 32 and [kernel_stdin_dev]
    at 40.  Without a device, a character goes to the SBI firmware, whose
    console is [console_out].  The format is given as a list of character
    codes; the arguments of [printf] for [%s] are pointers to strings in
    memory, as are the literals the code prints. *)

From Stdlib Require Import Ascii String.
From S2P Require Import Prelude Memory Machine Strings Hal Lock.

(** Character codes of a literal. *)
Fixpoint codes (s : string) : list Z :=
  match s with
  | EmptyString => []
  | String c s' => Z.of_nat (nat_of_ascii c) :: codes s'
  end.

(** The newline that ends a message. *)
Definition nl : string := String (ascii_of_nat 10) EmptyString.

Definition digits : list Z := codes "0123456789abcdef".

(** Arguments of [printf]: an integer or a pointer to a string in memory. *)
Inductive parg :=
| AInt (v : Z)
| APtr (p : Z).

Section console.
Context {L : KernelLayout} {C : Code}.

Definition console_lock : Z := sym_console.

Definition sbi_legacy_console_putchar (ch : Z) : M unit :=
  out ← gets console_out; modify (set_out (out ++ [u8 ch])).

Definition print_char (c : Z) : M unit :=
  dev ← rd 8 (sym_console + 32);
  if dev =? NULL then sbi_legacy_console_putchar c else hal_uart_write dev c.

Fixpoint print_chars (l : list Z) : M unit :=
  match l with [] => mret tt | c :: l' => print_char c;; print_chars l' end.

(** [x % base] and [digits[...]]; dividing by zero traps. *)
Definition digit (x base : Z) : M Z :=
  if base =? 0 then fault 0
  else match digits !! Z.to_nat (x mod base) with Some c => mret c | None => fault (x mod base) end.

(** [buf] is the part of the 64-byte array that is filled; a digit past its
    end is out of bounds. *)
Definition print_uint (x base : Z) : M unit :=
  if x =? 0 then print_char 48
  else
    buf ← while (fun '(x, buf) =>
      if negb (x =? 0) then
        d ← digit x base;
        if (64 <=? length buf)%nat then fault 64 else mret (inl (x / base, d :: buf))
      else mret (inr buf)) (x, []);
    print_chars buf.

Definition print_int (x base : Z) : M unit :=
  x ← (if x <? 0 then print_char 45;; mret (s64 (- x)) else mret x);
  print_uint (u64 x) base.

(** [if (console.locking_enabled) op(&console.lock);] *)
Definition if_locking (op : Z -> M unit) : M unit :=
  e ← rd 4 (sym_console + 24); if negb (e =? 0) then op console_lock else mret tt.

Definition putchar (c : Z) : M unit :=
  if_locking spinlock_acquire;;
  print_char c;;
  if_locking spinlock_release.

Definition getchar : M Z :=
  dev ← rd 8 (sym_console + 32);
  if dev =? NULL then mret (u8 (-1)) else hal_uart_read dev.

(** [for (; *s; s++) print_char( *s)] *)
Definition print_string (s : Z) : M unit :=
  while (fun s =>
    c ← rd 1 s;
    if negb (c =? 0) then print_char c;; mret (inl (s + 1)) else mret (inr tt)) s.

(** One conversion; the argument it takes, if any, is the first of [args].
    [va_arg] past the last argument is undefined. *)
Definition convert (c : Z) (args : list parg) : M (list parg) :=
  let int_arg (k : Z -> M unit) : M (list parg) :=
    match args with AInt v :: args' => k v;; mret args' | _ => fault 0 end in
  if c =? 100 then int_arg (fun v => print_int (s32 v) 10)
  else if c =? 120 then int_arg (fun v => print_int (s32 v) 16)
  else if c =? 112 then int_arg (fun v => print_char 48;; print_char 120;; print_uint (u64 v) 16)
  else if c =? 117 then int_arg (fun v => print_uint (u32 v) 10)
  else if c =? 99 then int_arg (fun v => print_char (u8 (s32 v)))
  else if c =? 115 then
    match args with
    | APtr p :: args' => print_string (if p =? NULL then sym_str "(null)" else p);; mret args'
    | _ => fault 0
    end
  else if c =? 37 then print_char 37;; mret args
  else print_char 37;; print_char c;; mret args.

Fixpoint print_fmt (fmt : list Z) (args : list parg) : M unit :=
  match fmt with
  | [] => mret tt
  | c :: fmt' =>
      if negb (c =? 37) then print_char c;; print_fmt fmt' args
      else
        match fmt' with
        | [] => print_char 37
        | c :: fmt'' => args' ← convert c args; print_fmt fmt'' args'
        end
  end.

Definition printf (fmt : string) (args : list parg) : M unit :=
  if_locking spinlock_acquire;;
  print_fmt (codes fmt) args;;
  if_locking spinlock_release.

Definition print_buffer (buf size : Z) : M unit :=
  if_locking spinlock_acquire;;
  while (fun i =>
    if negb (i =? size) then
      b ← rd 1 (buf + i);
      (if b <? 16 then print_char 48 else mret tt);;
      print_uint b 16;;
      print_char 32;;
      (if ((i + 1) mod 16 =? 0) && negb (i =? size - 1) then print_char 10 else mret tt);;
      mret (inl (i + 1))
    else mret (inr tt)) 0;;
  print_char 10;;
  if_locking spinlock_release.

Definition console_init : M unit :=
  spinlock_init console_lock (sym_str "console_lock");;
  wr 4 (sym_console + 24) 1;;
  printf ("[console]console initialized." +:+ nl) [].

(** ** What is printed *)

(** Digits of [x], most significant first, appended in front of [acc]. *)
Fixpoint uint_digits (fuel : nat) (base x : Z) (acc : list Z) : list Z :=
  match fuel with
  | O => acc
  | S n => if x =? 0 then acc else uint_digits n base (x / base) (nth (Z.to_nat (x mod base)) digits 0 :: acc)
  end.

Definition uint_str (base x : Z) : list Z := if x =? 0 then [48] else uint_digits 64 base x [].
Definition int_str (base x : Z) : list Z := if x <? 0 then 45 :: uint_str base (- x) else uint_str base x.

(** While no device is registered for output, and the console lock can be
    taken, printing appends to the firmware's console. *)
Definition quiet_console (s : kst) : Prop := ld64 (mem s) (sym_console + 32) = NULL.

Lemma console_addr o : 0 <= o -> PAGE_SIZE <= sym_console + o.
Proof. intros. pose proof sym_console_image. unfold PAGE_SIZE, VA_KERNEL_IMG_BEGIN in *. lia. Qed.

Lemma wp_print_char c (Q : unit -> kst -> Prop) s :
  quiet_console s -> Q tt (set_out (console_out s ++ [u8 c]) s) -> wp (print_char c) Q s.
Proof.
  intros Hq HQ. unfold print_char, sbi_legacy_console_putchar. wp_step. wp_step; [apply console_addr; lia|].
  unfold quiet_console in Hq. rewrite Hq. by wp_steps.
Qed.

Lemma set_out_out o o' s : set_out o (set_out o' s) = set_out o s. Proof. done. Qed.

Lemma wp_print_chars l (Q : unit -> kst -> Prop) s :
  quiet_console s -> Q tt (set_out (console_out s ++ map u8 l) s) -> wp (print_chars l) Q s.
Proof.
  revert s. induction l as [|c l IH]; intros s Hq HQ; simpl.
  - wp_steps. simpl in HQ. rewrite app_nil_r in HQ. by destruct s.
  - wp_step. apply wp_print_char; [done|]. apply IH; [done|]. rewrite set_out_out. simpl.
    simpl in HQ. by rewrite <- app_assoc.
Qed.

(** Digit characters and their values. *)
Lemma digit_char d : 0 <= d < 16 ->
  digits !! Z.to_nat d = Some (nth (Z.to_nat d) digits 0) /\ 48 <= nth (Z.to_nat d) digits 0 < 256 /\
  (nth (Z.to_nat d) digits 0 = 48 <-> d = 0) /\ __decode_digit (nth (Z.to_nat d) digits 0) = d.
Proof.
  intros Hd. assert (E : d ∈ [0;1;2;3;4;5;6;7;8;9;10;11;12;13;14;15]).
  { repeat rewrite ?elem_of_cons. lia. }
  repeat (apply elem_of_cons in E as [->|E]; [vm_compute; intuition congruence|]). by apply elem_of_nil in E.
Qed.

Lemma uint_digits_0 n base acc : uint_digits n base 0 acc = acc.
Proof. by destruct n. Qed.

Lemma wp_print_uint x base (Q : unit -> kst -> Prop) s :
  quiet_console s -> 2 <= base <= 16 -> 0 <= x < 2 ^ 64 ->
  Q tt (set_out (console_out s ++ map u8 (uint_str base x)) s) -> wp (print_uint x base) Q s.
Proof.
  intros Hq Hb Hx HQ. unfold print_uint. unfold uint_str in HQ. destruct (Z.eqb_spec x 0) as [->|Hx0].
  { by apply wp_print_char. }
  wp_step.
  apply (wp_while (fun '(y, buf) s' => s' = s /\ 0 <= y /\ y * 2 ^ Z.of_nat (length buf) < 2 ^ 64 /\
      uint_digits (64 - length buf) base y buf = uint_digits 64 base x []) (fun '(y, _) _ => y)).
  - split_and!; try done; simpl; lia.
  - lia.
  - intros [y buf] s' (-> & Hy & Hlen & Hd) _. destruct (Z.eqb_spec y 0) as [->|Hy0]; simpl negb; wp_steps.
    { rewrite uint_digits_0 in Hd. subst buf. by apply wp_print_chars. }
    assert (Hl : Z.of_nat (length buf) < 64).
    { apply (Z.pow_lt_mono_r_iff 2); [lia|lia|]. nia. }
    pose proof (Z.mod_pos_bound y base ltac:(lia)) as Hm.
    destruct (digit_char (y mod base) ltac:(lia)) as (E1 & _).
    unfold digit. rewrite (proj2 (Z.eqb_neq base 0)) by lia. rewrite E1. wp_steps.
    rewrite (proj2 (Nat.leb_gt _ _)) by lia. wp_steps.
    pose proof (Z.div_mod y base ltac:(lia)). assert (0 <= y / base) by (apply Z.div_pos; lia).
    assert (2 * (y / base) <= y) by nia.
    split; [|lia]. split_and!; try done.
    + cbn [length]. rewrite Nat2Z.inj_succ, Z.pow_succ_r by lia. pose proof (pow2_pos (Z.of_nat (length buf)) ltac:(lia)). nia.
    + rewrite <- Hd. cbn [length]. replace (64 - length buf)%nat with (S (64 - S (length buf))) by lia.
      cbn [uint_digits]. by rewrite (proj2 (Z.eqb_neq y 0)) by done.
Qed.

Lemma pow_big base : 2 <= base -> 2 ^ 64 <= base ^ Z.of_nat 64.
Proof. intros. apply Z.pow_le_mono_l. lia. Qed.

Lemma eval_uint_digits n base x acc :
  2 <= base <= 16 -> 0 <= x < 2 ^ 64 -> x < base ^ Z.of_nat n ->
  eval_digits base (uint_digits n base x acc) 0 = eval_digits base acc x.
Proof.
  intros Hb. revert x acc. induction n as [|n IH]; intros x acc Hx Hn; cbn [uint_digits].
  - change (base ^ Z.of_nat 0) with 1 in Hn. by assert (x = 0) as -> by lia.
  - destruct (Z.eqb_spec x 0) as [->|Hx0]; [done|].
    pose proof (Z.mod_pos_bound x base ltac:(lia)) as Hm. pose proof (Z.div_mod x base ltac:(lia)) as Hdm.
    rewrite Nat2Z.inj_succ, Z.pow_succ_r in Hn by lia.
    assert (0 <= x / base) by (apply Z.div_pos; lia). assert (2 * (x / base) <= x) by nia.
    rewrite IH; [|lia|nia]. cbn [eval_digits fold_left]. unfold eval_digits. cbn [fold_left].
    destruct (digit_char (x mod base) ltac:(lia)) as (_ & _ & _ & E). rewrite E. f_equal.
    unfold mul64. rewrite u64_small by nia. rewrite add64_small; nia.
Qed.

Lemma uint_digits_ok n base x acc :
  2 <= base <= 16 -> 0 <= x -> Forall (fun c => __decode_digit c < base /\ 48 <= c < 256) acc ->
  Forall (fun c => __decode_digit c < base /\ 48 <= c < 256) (uint_digits n base x acc).
Proof.
  intros Hb. revert x acc. induction n as [|n IH]; intros x acc Hx Ha; cbn [uint_digits]; [done|].
  destruct (x =? 0); [done|]. pose proof (Z.mod_pos_bound x base ltac:(lia)) as Hm.
  apply IH; [apply Z.div_pos; lia|]. constructor; [|done].
  destruct (digit_char (x mod base) ltac:(lia)) as (_ & ? & _ & ->). lia.
Qed.

Lemma uint_digits_hd n base x acc :
  2 <= base <= 16 -> 0 < x < base ^ Z.of_nat n -> hd 0 (uint_digits n base x acc) <> 48.
Proof.
  intros Hb. revert x acc. induction n as [|n IH]; intros x acc Hx; cbn [uint_digits].
  - change (base ^ Z.of_nat 0) with 1 in Hx. lia.
  - rewrite (proj2 (Z.eqb_neq x 0)) by lia. rewrite Nat2Z.inj_succ, Z.pow_succ_r in Hx by lia.
    pose proof (Z.mod_pos_bound x base ltac:(lia)) as Hm. pose proof (Z.div_mod x base ltac:(lia)) as Hdm.
    assert (0 <= x / base) by (apply Z.div_pos; lia). destruct (Z.eq_dec (x / base) 0) as [E|E].
    + rewrite E, uint_digits_0. simpl. destruct (digit_char (x mod base) ltac:(lia)) as (_ & _ & Hz & _).
      rewrite Hz. nia.
    + apply IH. nia.
Qed.

Lemma uint_str_ok base x :
  2 <= base <= 16 -> 0 <= x -> Forall (fun c => __decode_digit c < base /\ 48 <= c < 256) (uint_str base x).
Proof.
  intros Hb Hx. unfold uint_str. destruct (x =? 0).
  - repeat constructor; vm_compute; try done; try congruence. destruct base as [|[]|]; try lia; done.
  - by apply uint_digits_ok.
Qed.

Lemma digits_prefix_all base l : Forall (fun c => __decode_digit c < base /\ 48 <= c < 256) l -> digits_prefix base l = l.
Proof.
  induction 1 as [|c l [Hc _] _ IH]; [done|]. cbn [digits_prefix]. rewrite (proj2 (Z.ltb_lt _ _)) by done. by rewrite IH.
Qed.

(** ** printf *)

(** What one conversion and a whole format print, when [text] gives the
    strings in memory; [None] where [va_arg] would run past the arguments. *)
Definition render_conv (text : Z -> list Z) (c : Z) (args : list parg) : option (list Z * list parg) :=
  let int_arg (k : Z -> list Z) : option (list Z * list parg) :=
    match args with AInt v :: args' => Some (k v, args') | _ => None end in
  if c =? 100 then int_arg (fun v => int_str 10 (s32 v))
  else if c =? 120 then int_arg (fun v => int_str 16 (s32 v))
  else if c =? 112 then int_arg (fun v => 48 :: 120 :: uint_str 16 (u64 v))
  else if c =? 117 then int_arg (fun v => uint_str 10 (u32 v))
  else if c =? 99 then int_arg (fun v => [u8 (s32 v)])
  else if c =? 115 then
    match args with
    | APtr p :: args' => Some (if p =? NULL then codes "(null)" else text p, args')
    | _ => None
    end
  else if c =? 37 then Some ([37], args)
  else Some ([37; c], args).

Fixpoint render (text : Z -> list Z) (fmt : list Z) (args : list parg) : option (list Z) :=
  match fmt with
  | [] => Some []
  | c :: fmt' =>
      if negb (c =? 37) then cons c <$> render text fmt' args
      else
        match fmt' with
        | [] => Some [37]
        | c :: fmt'' => '(o, args') ← render_conv text c args; app o <$> render text fmt'' args'
        end
  end.

Lemma wp_print_int x base (Q : unit -> kst -> Prop) s :
  quiet_console s -> 2 <= base <= 16 -> - 2 ^ 31 <= x < 2 ^ 31 ->
  Q tt (set_out (console_out s ++ map u8 (int_str base x)) s) -> wp (print_int x base) Q s.
Proof.
  intros Hq Hb Hx HQ. unfold print_int, int_str in *. destruct (Z.ltb_spec x 0) as [Hneg|Hpos].
  - wp_step. wp_step. apply wp_print_char; [done|]. wp_step.
    assert (E : s64 (- x) = - x) by (unfold s64, swrap; rewrite Z.mod_small; lia).
    rewrite E, u64_small by lia. apply wp_print_uint; [done|done|lia|]. rewrite set_out_out. simpl in *.
    by rewrite <- app_assoc.
  - wp_steps. rewrite u64_small by lia. apply wp_print_uint; [done|done|lia|done].
Qed.

Lemma s32_bound v : - 2 ^ 31 <= s32 v < 2 ^ 31.
Proof. unfold s32, swrap. pose proof (Z.mod_pos_bound (v + 2 ^ (32 - 1)) (2 ^ 32) ltac:(lia)). lia. Qed.

(** The strings the arguments point to are in memory, apart from the console
    lock, and so is the text printed for a null pointer. *)
Definition string_at (m : memory) (p : Z) (l : list Z) : Prop :=
  PAGE_SIZE <= p /\ cstr m p l /\ Z.of_nat (length l) < 2 ^ 64 /\ disjoint p (Z.of_nat (length l) + 1) console_lock sizeof_spinlock.
Definition strings_at (m : memory) (text : Z -> list Z) (args : list parg) : Prop := Forall (fun x =>
  match x with AInt _ => True | APtr p => if p =? NULL then string_at m (sym_str "(null)") (codes "(null)") else string_at m p (text p) end) args.

Lemma wp_print_string p l (Q : unit -> kst -> Prop) s :
  quiet_console s -> string_at (mem s) p l -> Q tt (set_out (console_out s ++ map u8 l) s) -> wp (print_string p) Q s.
Proof.
  intros Hq (Hp & Hc & Hl & _) HQ. unfold print_string.
  apply (wp_while (fun a s' => exists done left, s' = set_out (console_out s ++ map u8 done) s /\ l = done ++ left /\
      a = p + Z.of_nat (length done) /\ cstr (mem s) a left) (fun a _ => p + Z.of_nat (length l) - a)).
  - exists [], l. simpl. rewrite app_nil_r, Z.add_0_r. by destruct s.
  - lia.
  - intros a s' (bs & left & -> & El & Ea & Hc2) _. wp_steps. rewrite ld_1. simpl mem.
    destruct left as [|c left]; simpl in Hc2.
    + rewrite Hc2. wp_steps. rewrite app_nil_r in El. by subst bs.
    + destruct Hc2 as (-> & Hnz & Hc2). rewrite (proj2 (Z.eqb_neq _ _)) by done. wp_steps.
      apply wp_print_char; [done|]. wp_steps. assert (length l = length bs + S (length left))%nat by (by rewrite El, length_app).
      split; [|lia]. exists (bs ++ [c]), left. rewrite length_app, map_app, set_out_out. simpl.
      split_and!; [by rewrite <- app_assoc|by rewrite El, <- app_assoc|lia|done].
Qed.

Lemma string_agree m m' p l :
  agree (fun a => ~ in_range console_lock sizeof_spinlock a) m m' -> string_at m p l -> string_at m' p l.
Proof.
  intros Hm (Hp & Hc & Hl & Hd). split_and!; try done. apply (cstr_ext m m' p p l); [|done]. intros i Hi.
  apply Hm. unfold in_range, disjoint in *. lia.
Qed.

Lemma strings_agree m m' text args :
  agree (fun a => ~ in_range console_lock sizeof_spinlock a) m m' -> strings_at m text args -> strings_at m' text args.
Proof.
  intros Hm H. refine (List.Forall_impl _ _ H). intros [v|p]; [done|]. destruct (p =? NULL); by apply string_agree.
Qed.

Lemma wp_convert text c args o args' (Q : list parg -> kst -> Prop) s :
  quiet_console s -> strings_at (mem s) text args -> render_conv text c args = Some (o, args') ->
  (strings_at (mem s) text args' -> Q args' (set_out (console_out s ++ map u8 o) s)) -> wp (convert c args) Q s.
Proof.
  intros Hq Hs Hr HQ. unfold convert, render_conv in *.
  assert (Hint : forall (k : Z -> M unit) (f : Z -> list Z), match args with AInt v :: args' => Some (f v, args') | _ => None end = Some (o, args') ->
    (forall v, wp (k v) (fun _ s' => s' = set_out (console_out s ++ map u8 (f v)) s) s) ->
    wp (match args with AInt v :: args' => k v;; mret args' | _ => fault 0 end) Q s).
  { intros k f E Hk. destruct args as [|[v|] args]; try done. injection E as <- <-. wp_step.
    eapply wp_mono; [apply Hk|]. intros [] s' ->. wp_step. apply HQ. exact (List.Forall_inv_tail Hs). }
  destruct (c =? 100). { apply (Hint _ _ Hr). intros v. apply wp_print_int; [done|lia|apply s32_bound|done]. }
  destruct (c =? 120). { apply (Hint _ _ Hr). intros v. apply wp_print_int; [done|lia|apply s32_bound|done]. }
  destruct (c =? 112).
  { apply (Hint _ _ Hr). intros v. wp_step. apply wp_print_char; [done|]. wp_step. apply wp_print_char; [done|].
    apply wp_print_uint; [done|lia|apply u64_bound|]. rewrite !set_out_out. simpl. by rewrite <- !app_assoc. }
  destruct (c =? 117).
  { apply (Hint _ _ Hr). intros v. pose proof (u32_bound v). apply wp_print_uint; [done|lia|lia|done]. }
  destruct (c =? 99). { apply (Hint _ _ Hr). intros v. by apply wp_print_char. }
  destruct (c =? 115).
  { destruct args as [|[v|p] args]; try done. injection Hr as <- <-. pose proof (List.Forall_inv Hs) as Hp. apply List.Forall_inv_tail in Hs. cbv beta iota in Hp. wp_step.
    clear Hint. destruct (p =? NULL); (eapply wp_print_string; [done|exact Hp|wp_step; by apply HQ]). }
  destruct (c =? 37); injection Hr as <- <-; wp_step; (apply wp_print_char; [done|]); wp_steps; [by apply HQ|].
  apply wp_print_char; [done|]. wp_steps. specialize (HQ Hs). rewrite set_out_out. simpl. by rewrite <- app_assoc.
Qed.

Lemma wp_print_fmt n text fmt args o (Q : unit -> kst -> Prop) s :
  (length fmt <= n)%nat -> quiet_console s -> strings_at (mem s) text args -> render text fmt args = Some o ->
  Q tt (set_out (console_out s ++ map u8 o) s) -> wp (print_fmt fmt args) Q s.
Proof.
  revert fmt args o s. induction n as [|n IH]; intros [|c fmt] args o s Hn Hq Hs Hr HQ; simpl in Hn; try lia.
  1,2: injection Hr as <-; simpl; wp_steps; simpl in HQ; rewrite app_nil_r in HQ; by destruct s.
  cbn [render print_fmt] in *. destruct (negb (c =? 37)).
  - destruct (render text fmt args) as [o'|] eqn:E; [|done]. injection Hr as <-. wp_step. apply wp_print_char; [done|].
    apply (IH fmt args o'); try done; [lia|]. rewrite set_out_out. simpl in *. by rewrite <- app_assoc.
  - destruct fmt as [|d fmt]; [injection Hr as <-; by apply wp_print_char|].
    destruct (render_conv text d args) as [[o1 args1]|] eqn:E1; [|done]. cbn in Hr.
    destruct (render text fmt args1) as [o2|] eqn:E2; [|done]. injection Hr as <-. wp_step.
    apply (wp_convert text d args o1 args1); try done. intros Hs1. simpl in Hn.
    apply (IH fmt args1 o2); try done; [lia|]. rewrite set_out_out. simpl. rewrite <- app_assoc, <- map_app. done.
Qed.

(** The effect of a call that prints [o]: output, and no other change than
    to the console lock and the executing hart's saved interrupt state. *)
Record printed (o : list Z) (s s' : kst) : Prop := {
  pr_out : console_out s' = console_out s ++ map u8 o;
  pr_hart : hart_ok s';
  pr_lock : lock_free (mem s') console_lock;
  pr_globals : same_globals (set_out (console_out s') s) s';
  pr_harts : same_harts s s';
  pr_mem : agree (fun a => ~ in_range console_lock sizeof_spinlock a) (mem s) (mem s');
}.

(** The body of a printing routine, with or without the lock. *)
Lemma wp_if_locked {A} (body : M A) o (a : A) s :
  hart_ok s -> quiet_console s -> lock_free (mem s) console_lock ->
  (forall (Q : A -> kst -> Prop) t, quiet_console t -> agree (fun x => ~ in_range console_lock sizeof_spinlock x) (mem s) (mem t) -> Q a (set_out (console_out t ++ map u8 o) t) -> wp body Q t) ->
  wp (if_locking spinlock_acquire;; r ← body; if_locking spinlock_release;; mret r) (fun _ s' => printed o s s') s.
Proof.
  intros Hok Hq Hlk Hb. unfold if_locking. pose proof (console_addr 24 ltac:(lia)). do 3 wp_step.
  assert (Hag : forall m m', agree (fun a => ~ in_range console_lock sizeof_spinlock a) m m' ->
    ld32 m' (sym_console + 24) = ld32 m (sym_console + 24) /\ ld64 m' (sym_console + 32) = ld64 m (sym_console + 32)).
  { intros m m' Hm. unfold console_lock, sizeof_spinlock in Hm. split; apply ld_agree;
      (eapply agree_weaken; [|exact Hm]); unfold in_range; simpl; intros; lia. }
  destruct (Z.eqb_spec (ld32 (mem s) (sym_console + 24)) 0) as [E0|E0]; simpl negb.
  - wp_steps. apply Hb; [done|done|]. wp_steps. simpl mem. rewrite E0. wp_steps. split; try done. intros i. by left.
  - assert (Hpg : PAGE_SIZE <= console_lock) by (rewrite <- (Z.add_0_r console_lock); apply console_addr; lia).
    apply wp_spinlock_acquire; try done. wp_step.
    set (m1 := lock_mem (mem s) console_lock (my_hart s)).
    pose proof (lock_mem_agree (mem s) console_lock (my_hart s)) as K1. fold m1 in K1.
    destruct (Hag _ _ K1) as [G1 G2]. apply Hb; [unfold quiet_console; simpl; by rewrite G2|exact K1|].
    wp_step. wp_step. wp_step. simpl mem. rewrite G1, (proj2 (Z.eqb_neq _ 0)) by done. simpl negb. wp_step.
    set (out := console_out s ++ map u8 o).
    change (set_out _ (set_mem m1 (pushed s))) with (set_mem m1 (pushed (set_out out s))).
    apply (wp_spinlock_release console_lock m1); try done.
    { apply (lock_mem_mine s (mem s) console_lock). apply Hok. }
    wp_steps. split; try done.
    + apply (popped_hart_ok _ (set_out out s)). done.
    + apply unlock_mem_free.
    + exact (popped_same_harts (unlock_mem m1 console_lock) (set_out out s)).
    + etrans; [exact K1|apply unlock_mem_agree].
Qed.

Lemma wp_printf text fmt args o s :
  hart_ok s -> quiet_console s -> lock_free (mem s) console_lock -> strings_at (mem s) text args -> render text (codes fmt) args = Some o ->
  wp (printf fmt args) (fun _ s' => printed o s s') s.
Proof.
  intros Hok Hq Hlk Hs Hr. unfold printf.
  pose proof (wp_if_locked (print_fmt (codes fmt) args) o tt s Hok Hq Hlk) as H.
  assert (E : (if_locking spinlock_acquire;; print_fmt (codes fmt) args;; if_locking spinlock_release) s =
    (if_locking spinlock_acquire;; r ← print_fmt (codes fmt) args; if_locking spinlock_release;; mret r) s).
  { unfold mbind, M_bind. destruct (if_locking spinlock_acquire s) as [[] s1| | |]; try done.
    destruct (print_fmt (codes fmt) args s1) as [[] s2| | |]; try done. by destruct (if_locking spinlock_release s2) as [[]| | |]. }
  unfold wp in *. rewrite E. apply H. intros Q t Ht Ha HQ. apply (wp_print_fmt (length (codes fmt)) text _ _ o); try done. by apply (strings_agree (mem s)).
Qed.

(** ** The theorems *)

(** C18: printing a 64-bit number and reading it back with [strtoul] gives
    the number again, in every base from 2 to 16: [print_uint] never overruns
    its 64-byte buffer, and [strtoul] terminates and consumes the digits. *)
Theorem print_uint_strtoul base x a s :
  2 <= base <= 16 -> 0 <= x < 2 ^ 64 -> quiet_console s -> PAGE_SIZE <= a ->
  cstr (mem s) a (uint_str base x) ->
  wp (print_uint x base) (fun _ s' => s' = set_out (console_out s ++ map u8 (uint_str base x)) s) s /\
  wp (strtoul a NULL base) (fun r s' => r = x /\ s' = s) s.
Proof.
  intros Hb Hx Hq Ha Hc. split; [by apply wp_print_uint|].
  pose proof (uint_str_ok base x Hb ltac:(lia)) as Hok.
  assert (Hlen : Z.of_nat (length (uint_str base x)) < 2 ^ 64).
  { assert (H : forall n y acc, (length (uint_digits n base y acc) <= n + length acc)%nat).
    { induction n as [|n IH]; intros y acc; cbn [uint_digits]; [lia|]. destruct (y =? 0); [lia|].
      etrans; [apply IH|]. simpl. lia. }
    unfold uint_str. destruct (x =? 0); [simpl; lia|]. specialize (H 64%nat x []). simpl length in H at 2. lia. }
  apply (wp_strtoul a NULL (uint_str base x)); [done|done|done|lia|by left|].
  assert (Ef : fixup_radix (uint_str base x) base = (0%nat, base)).
  { unfold uint_str. destruct (Z.eqb_spec x 0) as [->|Hx0].
    - unfold fixup_radix. simpl. by rewrite (proj2 (Z.eqb_neq base 0)) by lia.
    - pose proof (pow_big base ltac:(lia)). rewrite fixup_radix_other by (apply uint_digits_hd; lia).
      by rewrite (proj2 (Z.eqb_neq base 0)) by lia. }
  rewrite Ef, drop_0, digits_prefix_all by done. simpl. split; [|done].
  unfold uint_str. destruct (Z.eqb_spec x 0) as [->|Hx0].
  - unfold eval_digits. cbn [fold_left]. change (__decode_digit 48) with 0. unfold mul64. by rewrite Z.mul_0_l.
  - pose proof (pow_big base ltac:(lia)). rewrite eval_uint_digits by lia. done.
Qed.

(** C19: [printf], with the console lock free and no output device, prints
    exactly the rendered text, in which a string argument stands for the
    string in memory it points to, and leaves the lock free, the interrupts as
    they were, and everything but the console output unchanged. *)
Theorem printf_correct text fmt args o s :
  hart_ok s -> quiet_console s -> lock_free (mem s) console_lock -> strings_at (mem s) text args -> render text (codes fmt) args = Some o ->
  wp (printf fmt args) (fun _ s' => printed o s s') s.
Proof. apply wp_printf. Qed.
End console.

#[local] Existing Instance sample_layout.
#[local] Instance no_code : Code := fun f _ => fault f.

Lemma print_uint_strtoul_witness :
  wp (print_uint 0xbeef 16) (fun _ s' => s' = set_out (codes "beef") (sample_state (st 4 ∅ 0x5000 0x66656562)))
    (sample_state (st 4 ∅ 0x5000 0x66656562)) /\
  wp (strtoul 0x5000 NULL 16) (fun r s' => r = 0xbeef /\ s' = sample_state (st 4 ∅ 0x5000 0x66656562))
    (sample_state (st 4 ∅ 0x5000 0x66656562)).
Proof.
  apply (print_uint_strtoul 16 0xbeef 0x5000 (sample_state (st 4 ∅ 0x5000 0x66656562))).
  - lia.
  - lia.
  - reflexivity.
  - unfold PAGE_SIZE. lia.
  - vm_compute. intuition congruence.
Defined.

(** ["page"] at 0x5000. *)
Definition page_state : kst := sample_state (st 4 ∅ 0x5000 0x65676170).

Lemma printf_correct_witness :
  wp (printf "%s: %d of %p" [APtr 0x5000; AInt (-3); AInt 0xdead])
    (fun _ s' => printed (codes "page: -3 of 0xdead") page_state s') page_state.
Proof.
  apply (printf_correct (fun _ => codes "page") "%s: %d of %p" [APtr 0x5000; AInt (-3); AInt 0xdead]
    (codes "page: -3 of 0xdead") page_state).
  - split_and!; vm_compute; congruence.
  - reflexivity.
  - reflexivity.
  - repeat constructor; vm_compute; intuition congruence.
  - vm_compute. reflexivity.
Defined.
