(* ===== verification/Csr.v ===== *)
(** * asm/csr.h, asm/registers.h: control and status registers

    One function per CSR access.  The registers the kernel only stores and
    reads back are cells of [csr], indexed by the register's number in the
    privileged architecture; [sstatus] and [tp] are fields of their own because
    the lock code depends on them.  The counters are cells the environment
    advances. *)

From S2P Require Import Prelude Memory Machine Lock.

Definition SSTATUS_SPP : Z := 2 ^ 8.
Definition SSTATUS_SPIE : Z := 2 ^ 5.
Definition SIE_SEIE : Z := 2 ^ 9.
Definition SIE_STIE : Z := 2 ^ 5.
Definition SIE_SSIE : Z := 2 ^ 1.
Definition SCAUSE_INTERRUPT : Z := 2 ^ 63.
Definition SCAUSE_SSI : Z := SCAUSE_INTERRUPT |l 1.
Definition SCAUSE_STI : Z := SCAUSE_INTERRUPT |l 5.
Definition SCAUSE_SEI : Z := SCAUSE_INTERRUPT |l 9.
Definition SCAUSE_USER_ECALL : Z := 8.
Definition SCAUSE_LOAD_PAGE_FAULT : Z := 13.
Definition SCAUSE_STORE_PAGE_FAULT : Z := 15.

Definition csr_get (n : Z) (s : kst) : Z := u64 (default 0 (csr s !! n)).
Definition csrr (n : Z) : M Z := gets (csr_get n).
Definition csrw (n x : Z) : M unit := modify (fun s => set_csr (<[n := x]> (csr s)) s).

Definition r_sstatus : M Z := gets sstatus.
Definition w_sstatus (x : Z) : M unit := modify (set_sstatus x).
Definition r_tp : M Z := gets tp.
Definition r_sie : M Z := csrr 0x104.
Definition w_sie (x : Z) : M unit := csrw 0x104 x.
Definition r_stvec : M Z := csrr 0x105.
Definition w_stvec (x : Z) : M unit := csrw 0x105 x.
Definition r_scounteren : M Z := csrr 0x106.
Definition w_scounteren (x : Z) : M unit := csrw 0x106 x.
Definition r_senvcfg : M Z := csrr 0x10a.
Definition w_senvcfg (x : Z) : M unit := csrw 0x10a x.
Definition r_sscratch : M Z := csrr 0x140.
Definition w_sscratch (x : Z) : M unit := csrw 0x140 x.
Definition r_sepc : M Z := csrr 0x141.
Definition w_sepc (x : Z) : M unit := csrw 0x141 x.
Definition r_scause : M Z := csrr 0x142.
Definition w_scause (x : Z) : M unit := csrw 0x142 x.
Definition r_stval : M Z := csrr 0x143.
Definition w_stval (x : Z) : M unit := csrw 0x143 x.
Definition r_sip : M Z := csrr 0x144.
Definition w_sip (x : Z) : M unit := csrw 0x144 x.
Definition r_satp : M Z := csrr 0x180.
Definition w_satp (x : Z) : M unit := csrw 0x180 x.
Definition r_cycle : M Z := csrr 0xc00.
Definition r_time : M Z := csrr 0xc01.

(** [sfence.vma] orders page-table updates before later translations; the
    model translates through the current page tables only. *)
Definition sfence_vma : M unit := mret tt.

Lemma csr_get_set n n' x s :
  csr_get n (set_csr (<[n' := x]> (csr s)) s) = if n =? n' then u64 x else csr_get n s.
Proof.
  unfold csr_get. simpl. destruct (Z.eqb_spec n n') as [->|]; [by rewrite lookup_insert_eq|by rewrite lookup_insert_ne].
Qed.

Lemma wp_csrr n (Q : Z -> kst -> Prop) s : Q (csr_get n s) s -> wp (csrr n) Q s.
Proof. done. Qed.
Lemma wp_csrw n x (Q : unit -> kst -> Prop) s : Q tt (set_csr (<[n := x]> (csr s)) s) -> wp (csrw n x) Q s.
Proof. done. Qed.
