(* ===== verification/Sbi.v ===== *)
(** * asm/sbi.c: calls of the SBI firmware

    A call hands the firmware an extension, a function and six arguments in
    registers.  The firmware is not part of the kernel: its replies are the
    parameter [sbi_reply].  A request to the legacy console appends a byte to
    [console_out], any other request is recorded in [ecalls]. *)

From S2P Require Import Prelude Memory Machine Hal Console.

Record sbiret := mk_sbiret { error : Z; value : Z }.

(** [enum sbi_eid]; the function ids are those of the extension at hand. *)
Definition SBI_LEGACY_EXT_PUTCHAR : Z := 0x01.
Definition SBI_LEGACY_EXT_GETCHAR : Z := 0x02.
Definition SBI_TIMER_EXT : Z := 0x54494D45.
Definition SBI_HSM_EXT : Z := 0x48534D.
Definition SBI_SRST_EXT : Z := 0x53525354.
Definition SBI_DBCN_EXT : Z := 0x4442434E.
Definition SBI_TIMER_SET_TIMER : Z := 0.
Definition SBI_HSM_HART_START : Z := 0.
Definition SBI_HSM_HART_STOP : Z := 1.
Definition SBI_HSM_HART_GET_STATUS : Z := 2.
Definition SBI_HSM_HART_SUSPEND : Z := 3.
Definition SBI_SRST_SYSTEM_RESET_FID : Z := 0.
Definition SBI_DBCN_CONSOLE_WRITE : Z := 0.
Definition SBI_DBCN_CONSOLE_READ : Z := 1.
Definition SBI_DBCN_CONSOLE_WRITE_BYTE : Z := 2.

(** The firmware: its answer to a request, in the state of the machine. *)
Class Firmware := sbi_reply : Z -> Z -> list Z -> kst -> sbiret.

Section sbi.
Context {L : KernelLayout} {C : Code} {F : Firmware}.

Definition sbi_ecall (eid fid arg0 arg1 arg2 arg3 arg4 arg5 : Z) : M sbiret :=
  let args := [arg0; arg1; arg2; arg3; arg4; arg5] in
  ret ← gets (sbi_reply eid fid args);
  modify (fun s => if eid =? SBI_LEGACY_EXT_PUTCHAR then set_out (console_out s ++ [u8 arg0]) s
                   else set_ecalls (ecalls s ++ [(eid, fid, args)]) s);;
  mret ret.

Definition sbi_set_timer (stime_value : Z) : M sbiret :=
  sbi_ecall SBI_TIMER_EXT SBI_TIMER_SET_TIMER stime_value 0 0 0 0 0.
Definition sbi_hsm_hart_start (hartid start_addr opaque : Z) : M sbiret :=
  sbi_ecall SBI_HSM_EXT SBI_HSM_HART_START hartid start_addr opaque 0 0 0.
Definition sbi_hsm_hart_stop : M sbiret := sbi_ecall SBI_HSM_EXT SBI_HSM_HART_STOP 0 0 0 0 0 0.
Definition sbi_hsm_hart_get_status (hartid : Z) : M sbiret :=
  sbi_ecall SBI_HSM_EXT SBI_HSM_HART_GET_STATUS hartid 0 0 0 0 0.
Definition sbi_hsm_hart_suspend (suspend_type resume_addr opaque : Z) : M sbiret :=
  sbi_ecall SBI_HSM_EXT SBI_HSM_HART_SUSPEND (u32 suspend_type) resume_addr opaque 0 0 0.
Definition sbi_srst_system_reset (reset_type reset_reason : Z) : M sbiret :=
  sbi_ecall SBI_SRST_EXT SBI_SRST_SYSTEM_RESET_FID (u32 reset_type) (u32 reset_reason) 0 0 0 0.
Definition sbi_legacy_putchar (ch : Z) : M Z :=
  ret ← sbi_ecall SBI_LEGACY_EXT_PUTCHAR 0 ch 0 0 0 0 0; mret (error ret).
Definition sbi_legacy_console_getchar : M Z :=
  ret ← sbi_ecall SBI_LEGACY_EXT_GETCHAR 0 0 0 0 0 0 0; mret (error ret).
Definition sbi_debug_console_write (num_bytes base_addr_lo base_addr_hi : Z) : M sbiret :=
  sbi_ecall SBI_DBCN_EXT SBI_DBCN_CONSOLE_WRITE num_bytes base_addr_lo base_addr_hi 0 0 0.
Definition sbi_debug_console_read (num_bytes base_addr_lo base_addr_hi : Z) : M sbiret :=
  sbi_ecall SBI_DBCN_EXT SBI_DBCN_CONSOLE_READ num_bytes base_addr_lo base_addr_hi 0 0 0.
Definition sbi_debug_console_write_byte (byte : Z) : M sbiret :=
  sbi_ecall SBI_DBCN_EXT SBI_DBCN_CONSOLE_WRITE_BYTE (u8 byte) 0 0 0 0 0.

(** The console's output routine, which discards the firmware's answer, is
    this call. *)
Lemma legacy_putchar_is_console ch s :
  (sbi_legacy_putchar ch;; mret tt) s = sbi_legacy_console_putchar ch s.
Proof. reflexivity. Qed.

Lemma wp_sbi_set_timer t (Q : sbiret -> kst -> Prop) s :
  (forall r, Q r (set_ecalls (ecalls s ++ [(SBI_TIMER_EXT, SBI_TIMER_SET_TIMER, [t; 0; 0; 0; 0; 0])]) s)) ->
  wp (sbi_set_timer t) Q s.
Proof. intros H. unfold sbi_set_timer, sbi_ecall. wp_steps. apply H. Qed.
End sbi.
