(* ===== verification/Bootmem.v ===== *)
(** * memory/bootmem.c: the boot-time allocator

    A bitmap of pages at the start of RAM plus the fill level of the last
    page allocated from, so that small allocations share a page.  The model
    is the code; [used] is the set of bytes handed out, and the theorems say
    that an allocation never hands out a used byte, keeps the used ones used
    and returns zeroed memory. *)

From S2P Require Import Prelude Memory Machine Bytes Strings Hal Lock Console.

Section bootmem.
Context {L : KernelLayout} {C : Code}.

Definition set_last (lp off : Z) (u : bootmem_node_struct) : bootmem_node_struct :=
  mk_bootmem_node (b_begin_ppn u) (b_num_ppn u) (b_mem_map u) (b_mem_map_size u) lp off.

(** The bounds of the available RAM, in pages. *)
Definition ppn_bounds (segs : list ram_segment_descriptor_struct) : Z * Z :=
  fold_left (fun '(upper_ppn, lower_ppn) seg =>
    let beg_paddr := pa_begin seg in
    let end_paddr := beg_paddr +l pa_len seg in
    let beg_ppn := PAGE_ROUND_UP beg_paddr >>l PAGE_SHIFT in
    let end_ppn := PAGE_ROUND_DOWN end_paddr >>l PAGE_SHIFT in
    (if upper_ppn <? end_ppn then end_ppn else upper_ppn,
     if beg_ppn <? lower_ppn then beg_ppn else lower_ppn)) segs (0, u64 (-1)).

Definition bootmem_init_uma_node : M unit :=
  segs ← gets (fun s => available_ram_segments (ram_descriptor s));
  let '(upper_ppn, lower_ppn) := ppn_bounds segs in
  let num_ppn := upper_ppn -l lower_ppn in
  let mem_map_size := (num_ppn +l 7) >>l 3 in
  let mem_map := PMA_PA2VA (lower_ppn <<l PAGE_SHIFT) in
  u ← gets uma_node;
  modify (set_uma (mk_bootmem_node lower_ppn num_ppn mem_map mem_map_size (last_page u) (last_page_offset u)));;
  memset mem_map 0xff mem_map_size;;
  mret tt.

(** The page range of a byte range, and the checks [bootmem_reserve] and
    [bootmem_free] make on it. *)
Definition page_range (paddr size : Z) (err_begin err_end : string) : M (Z * Z) :=
  let beg_ppn := PAGE_ROUND_DOWN paddr >>l PAGE_SHIFT in
  let end_ppn := PAGE_ROUND_UP (paddr +l size) >>l PAGE_SHIFT in
  u ← gets uma_node;
  (if beg_ppn <? b_begin_ppn u then panic err_begin else mret tt);;
  (if b_begin_ppn u +l b_num_ppn u <? end_ppn then panic err_end else mret tt);;
  mret (beg_ppn -l b_begin_ppn u, end_ppn -l b_begin_ppn u).

(** [for (ulong i = from; i != to; i++) if (test_and_set_bit(mem_map, i))
    panic(msg);] *)
Definition set_bits (from to : Z) (msg : string) : M unit :=
  while (fun i =>
    if negb (i =? to) then
      map ← gets (fun s => b_mem_map (uma_node s));
      b ← test_and_set_bit map i;
      if negb (b =? 0) then panic msg else mret (inl (i +l 1))
    else mret (inr tt)) from.

Definition clear_bits (from to : Z) (msg : string) : M unit :=
  while (fun i =>
    if negb (i =? to) then
      map ← gets (fun s => b_mem_map (uma_node s));
      b ← test_and_clear_bit map i;
      if b =? 0 then panic msg else mret (inl (i +l 1))
    else mret (inr tt)) from.

Definition bootmem_reserve (paddr size : Z) : M unit :=
  '(bidx, eidx) ← page_range paddr size "bootmem_reserve - begin_ppn error" "bootmem_reserve - end_ppn error";
  set_bits bidx eidx "bootmem_reserve - reserved twice".

Definition bootmem_free (paddr size : Z) : M unit :=
  '(bidx, eidx) ← page_range paddr size "bootmem_free - begin_ppn error" "bootmem_free - end_ppn error";
  clear_bits bidx eidx "bootmem_free - freed twice".

Fixpoint free_segments (segs : list ram_segment_descriptor_struct) : M unit :=
  match segs with
  | [] => mret tt
  | seg :: segs' => bootmem_free (pa_begin seg) (pa_len seg);; free_segments segs'
  end.

Definition bootmem_free_available_segments : M unit :=
  segs ← gets (fun s => available_ram_segments (ram_descriptor s)); free_segments segs.

Definition bootmem_init : M unit :=
  printf ("[bootmem]setting up the bootmem on UMA machine" +:+ nl) [];;
  bootmem_init_uma_node;;
  bootmem_free_available_segments;;
  u ← gets uma_node;
  bootmem_reserve (PMA_VA2PA (b_mem_map u)) (b_mem_map_size u).

(** The inner scan: are pages [i + 1 .. i + area_size - 1] free? *)
Definition run_free (i area_size : Z) : M bool :=
  while (fun j =>
    if j <? i +l area_size then
      u ← gets uma_node;
      if b_num_ppn u <=? j then mret (inr false)
      else
        b ← test_bit (b_mem_map u) j;
        if negb (b =? 0) then mret (inr false) else mret (inl (j + 1))
    else mret (inr true)) (i + 1).

(** One pass of the outer scan, from page [start]. *)
Definition scan_from (start area_size : Z) : M (option Z) :=
  while (fun i =>
    u ← gets uma_node;
    if i <? b_num_ppn u then
      b ← test_bit (b_mem_map u) i;
      if negb (b =? 0) then mret (inl (i + 1))
      else
        found ← run_free i area_size;
        if found : bool then mret (inr (Some i)) else mret (inl (i + 1))
    else mret (inr None)) start.

(** Where the two passes start. *)
Definition ppn_offset (u : bootmem_node_struct) (alignment : Z) : Z :=
  (if negb (alignment =? 0)
   then (alignment -l ((b_begin_ppn u <<l PAGE_SHIFT) &l (alignment -l 1))) &l (alignment -l 1)
   else 0) >>l PAGE_SHIFT.

Definition preferred (u : bootmem_node_struct) (alignment goal : Z) : Z :=
  let p := if negb (goal =? 0) && (b_begin_ppn u <=? goal >>l PAGE_SHIFT)
              && (goal >>l PAGE_SHIFT <? b_begin_ppn u +l b_num_ppn u)
           then goal -l (b_begin_ppn u <<l PAGE_SHIFT) else 0 in
  (((p +l alignment -l 1) &l not64 (alignment -l 1)) >>l PAGE_SHIFT) +l ppn_offset u alignment.

(** Appending to the last page, or starting at [spot]: the address, the
    number of pages to mark and the new fill level. *)
Definition place (u : bootmem_node_struct) (size alignment spot area_size : Z) : Z * Z * bootmem_node_struct :=
  if (alignment <=? PAGE_SIZE) && negb (last_page_offset u =? 0) && (last_page u +l 1 =? spot) then
    let offset := (last_page_offset u +l alignment -l 1) &l not64 (alignment -l 1) in
    let rem_size := PAGE_SIZE -l offset in
    let ret_addr := PMA_PA2VA (offset +l ((last_page u +l b_begin_ppn u) <<l PAGE_SHIFT)) in
    if size <? rem_size then
      (ret_addr, 0, set_last (last_page u) ((offset +l size) &l (PAGE_SIZE - 1)) u)
    else
      let back_size := size -l rem_size in
      let area_size := (back_size +l PAGE_SIZE -l 1) >>l PAGE_SHIFT in
      (ret_addr, area_size, set_last (spot +l area_size -l 1) (back_size &l (PAGE_SIZE - 1)) u)
  else
    (PMA_PA2VA ((spot +l b_begin_ppn u) <<l PAGE_SHIFT), area_size,
     set_last (spot +l area_size -l 1) (size &l (PAGE_SIZE - 1)) u).

Definition bootmem_alloc (size alignment goal : Z) : M Z :=
  if size =? 0 then mret NULL
  else if negb (alignment &l (alignment -l 1) =? 0) then mret NULL
  else
    u ← gets uma_node;
    let area_size := (size +l PAGE_SIZE -l 1) >>l PAGE_SHIFT in
    first ← scan_from (preferred u alignment goal) area_size;
    found ← (match first with Some i => mret (Some i) | None => scan_from (ppn_offset u alignment) area_size end);
    match found with
    | None => mret NULL
    | Some spot =>
        let '(ret_addr, area_size, u') := place u size alignment spot area_size in
        modify (set_uma u');;
        set_bits spot (spot +l area_size) "bootmem_alloc";;
        memset ret_addr 0 size;;
        mret ret_addr
    end.

(** ** The bitmap loops *)

(** Pages [0 .. n) have their bit in the bytes [map .. map + (n + 7) / 8). *)
Definition map_bytes (map n : Z) : Z -> Prop := in_range map ((n + 7) / 8).

Lemma map_byte map n j : 0 <= j < n -> map_bytes map n (map + j / 8).
Proof. unfold map_bytes, in_range. intros. zdm. Qed.

Lemma agree_upd_bit map n m j b :
  0 <= j < n -> agree (fun a => ~ map_bytes map n a) m (upd_bit m map j b).
Proof. intros Hj. apply upd_bit_agree. intros H. by apply H, map_byte. Qed.

Lemma wp_set_bits from to msg n (Q : unit -> kst -> Prop) s :
  let map := b_mem_map (uma_node s) in
  PAGE_SIZE <= map -> 0 <= from <= to -> to <= n -> n < 2 ^ 64 ->
  (forall j, from <= j < to -> bit (mem s) map j = false) ->
  (forall m', (forall j, bit m' map j = bit (mem s) map j || bool_decide (from <= j < to)) ->
     agree (fun a => ~ map_bytes map n a) (mem s) m' -> Q tt (set_mem m' s)) ->
  wp (set_bits from to msg) Q s.
Proof.
  intros map Hmap Hft Hn Hn' Hfree HQ. unfold set_bits.
  apply (wp_while (fun i s' => exists m', s' = set_mem m' s /\ from <= i <= to /\
      (forall j, bit m' map j = bit (mem s) map j || bool_decide (from <= j < i)) /\
      agree (fun a => ~ map_bytes map n a) (mem s) m') (fun i _ => to - i)).
  - exists (mem s). rewrite set_mem_id. split_and!; try done; try lia. intros j.
    rewrite bool_decide_eq_false_2 by lia. by rewrite orb_false_r.
  - lia.
  - intros i s' (m' & -> & Hi & Hb & Hag) _. destruct (Z.eqb_spec i to) as [->|Hne]; simpl negb; wp_steps; [by apply HQ|].
    change (b_mem_map (uma_node (set_mem m' s))) with map.
    apply wp_test_and_set_bit; [done|lia|]. rewrite set_mem_mem, Hb, Hfree by lia.
    rewrite bool_decide_eq_false_2 by lia. wp_steps. rewrite add64_small by lia.
    split; [|lia]. eexists. split_and!; [done|lia|lia| |].
    + intros j. rewrite bit_upd, Hb. destruct (Z.eqb_spec i j) as [->|].
      * rewrite bool_decide_eq_true_2 by lia. by rewrite orb_true_r.
      * f_equal. apply bool_decide_ext. lia.
    + etrans; [exact Hag|]. apply agree_upd_bit. lia.
Qed.

Lemma wp_clear_bits from to msg n (Q : unit -> kst -> Prop) s :
  let map := b_mem_map (uma_node s) in
  PAGE_SIZE <= map -> 0 <= from <= to -> to <= n -> n < 2 ^ 64 ->
  (forall j, from <= j < to -> bit (mem s) map j = true) ->
  (forall m', (forall j, bit m' map j = bit (mem s) map j && negb (bool_decide (from <= j < to))) ->
     agree (fun a => ~ map_bytes map n a) (mem s) m' -> Q tt (set_mem m' s)) ->
  wp (clear_bits from to msg) Q s.
Proof.
  intros map Hmap Hft Hn Hn' Hfree HQ. unfold clear_bits.
  apply (wp_while (fun i s' => exists m', s' = set_mem m' s /\ from <= i <= to /\
      (forall j, bit m' map j = bit (mem s) map j && negb (bool_decide (from <= j < i))) /\
      agree (fun a => ~ map_bytes map n a) (mem s) m') (fun i _ => to - i)).
  - exists (mem s). rewrite set_mem_id. split_and!; try done; try lia. intros j.
    rewrite bool_decide_eq_false_2 by lia. by rewrite andb_true_r.
  - lia.
  - intros i s' (m' & -> & Hi & Hb & Hag) _. destruct (Z.eqb_spec i to) as [->|Hne]; simpl negb; wp_steps; [by apply HQ|].
    change (b_mem_map (uma_node (set_mem m' s))) with map.
    apply wp_test_and_clear_bit; [done|lia|]. rewrite set_mem_mem, Hb, Hfree by lia.
    rewrite bool_decide_eq_false_2 by lia. wp_steps. rewrite add64_small by lia.
    split; [|lia]. eexists. split_and!; [done|lia|lia| |].
    + intros j. rewrite bit_upd, Hb. destruct (Z.eqb_spec i j) as [->|].
      * rewrite bool_decide_eq_true_2 by lia. by rewrite andb_false_r.
      * do 2 f_equal. apply bool_decide_ext. lia.
    + etrans; [exact Hag|]. apply agree_upd_bit. lia.
Qed.

(** ** The scan *)

Definition run (s : kst) (i k : Z) : Prop :=
  forall j, i <= j < i + k -> j < b_num_ppn (uma_node s) /\ bit (mem s) (b_mem_map (uma_node s)) j = false.

Lemma wp_run_free i area (Q : bool -> kst -> Prop) s :
  PAGE_SIZE <= b_mem_map (uma_node s) -> 0 <= i -> 0 < area -> i + area < 2 ^ 64 ->
  (run s (i + 1) (area - 1) -> Q true s) -> (~ run s (i + 1) (area - 1) -> Q false s) ->
  wp (run_free i area) Q s.
Proof.
  intros Hm Hi Ha Hlt HT HF. unfold run_free.
  apply (wp_while (fun j s' => s' = s /\ i < j <= i + area /\ run s (i + 1) (j - (i + 1))) (fun j _ => i + area - j)).
  - split_and!; try done; try lia. intros j. lia.
  - lia.
  - intros j s' (-> & Hj & Hr) _. rewrite add64_small by lia. destruct (Z.ltb_spec j (i + area)) as [Hlt'|Hge]; wp_steps.
    2:{ apply HT. by replace (area - 1) with (j - (i + 1)) by lia. }
    destruct (Z.leb_spec (b_num_ppn (uma_node s)) j) as [Hn|Hn]; wp_steps.
    { apply HF. intros H. destruct (H j); lia. }
    apply wp_test_bit; [done|lia|]. destruct (bit (mem s) _ j) eqn:E; wp_steps.
    + apply HF. intros H. destruct (H j); [lia|congruence].
    + split; [|lia]. split_and!; try done; try lia. intros j' Hj'. destruct (Z.eq_dec j' j) as [->|]; [split; [lia|done]|].
      apply Hr. lia.
Qed.

Lemma wp_scan_from start area (Q : option Z -> kst -> Prop) s :
  PAGE_SIZE <= b_mem_map (uma_node s) -> 0 <= start < 2 ^ 64 -> 0 < area < 2 ^ 63 -> 0 <= b_num_ppn (uma_node s) < 2 ^ 63 ->
  (forall i, start <= i -> run s i area -> Q (Some i) s) ->
  ((forall i, start <= i -> ~ run s i area) -> Q None s) ->
  wp (scan_from start area) Q s.
Proof.
  intros Hm Hs Ha Hn HS HN. unfold scan_from.
  apply (wp_while (fun i s' => s' = s /\ start <= i < 2 ^ 64 /\ forall i', start <= i' < i -> ~ run s i' area)
    (fun i _ => 2 ^ 64 - 1 - i)).
  - split_and!; try done; try lia. 
  - lia.
  - intros i s' (-> & Hi & Hr) _. wp_steps. destruct (Z.ltb_spec i (b_num_ppn (uma_node s))) as [Hlt|Hge]; wp_steps.
    2:{ apply HN. intros i' Hi' H. destruct (Z.lt_ge_cases i' i); [apply (Hr i'); [lia|done]|].
        destruct (H i'); lia. }
    assert (Hstep : ~ run s i area -> forall i', start <= i' < i + 1 -> ~ run s i' area).
    { intros Hni i' Hi'. destruct (Z.eq_dec i' i) as [->|]; [done|]. apply Hr. lia. }
    apply wp_test_bit; [done|lia|]. destruct (bit (mem s) _ i) eqn:E; wp_steps.
    { split; [|lia]. split_and!; try done; try lia. apply Hstep. intros H. destruct (H i); [lia|congruence]. }
    apply wp_run_free; try done; try lia.
    + intros H. wp_steps. apply HS; [lia|]. intros j Hj. destruct (Z.eq_dec j i) as [->|]; [split; [lia|done]|].
      apply H. lia.
    + intros H. wp_steps. split; [|lia]. split_and!; try done; try lia. apply Hstep. intros H'. apply H.
      intros j Hj. apply H'. lia.
Qed.

(** ** Bytes in use *)

Definition base (u : bootmem_node_struct) : Z := b_begin_ppn u * PAGE_SIZE + VA_KERNEL_BEGIN.

(** The byte [o] of page [p] is in the unused tail of the last page. *)
Definition in_tail (u : bootmem_node_struct) (p o : Z) : Prop :=
  last_page_offset u <> 0 /\ p = last_page u /\ last_page_offset u <= o.

Definition used (s : kst) (p o : Z) : Prop :=
  bit (mem s) (b_mem_map (uma_node s)) p = true /\ ~ in_tail (uma_node s) p o.

Record boot_ok (s : kst) : Prop := {
  ok_begin : 0 <= b_begin_ppn (uma_node s);
  ok_num : 0 < b_num_ppn (uma_node s);
  ok_end : b_begin_ppn (uma_node s) + b_num_ppn (uma_node s) <= 2 ^ 25;
  ok_map : b_mem_map (uma_node s) = base (uma_node s);
  ok_size : b_mem_map_size (uma_node s) = (b_num_ppn (uma_node s) + 7) / 8;
  ok_last : last_page_offset (uma_node s) <> 0 ->
    0 <= last_page (uma_node s) < b_num_ppn (uma_node s) /\ 0 < last_page_offset (uma_node s) < PAGE_SIZE /\
    bit (mem s) (b_mem_map (uma_node s)) (last_page (uma_node s)) = true;
  ok_self : forall p o, 0 <= o < PAGE_SIZE -> 0 <= p * PAGE_SIZE + o < b_mem_map_size (uma_node s) -> used s p o;
}.

(** Where an allocation of [size] bytes at [spot] goes: page [lp], offset
    [off]; it marks the pages [spot .. spot + cnt). *)
Inductive placed (u : bootmem_node_struct) (size spot area : Z) : Z -> Z -> Z -> bootmem_node_struct -> Prop :=
| placed_fresh :
    placed u size spot area spot 0 area (set_last (spot + area - 1) (size mod PAGE_SIZE) u)
| placed_in_page off :
    last_page_offset u <> 0 -> spot = last_page u + 1 -> last_page_offset u <= off -> off + size < PAGE_SIZE ->
    placed u size spot area (last_page u) off 0 (set_last (last_page u) (off + size) u)
| placed_across off cnt :
    last_page_offset u <> 0 -> spot = last_page u + 1 -> last_page_offset u <= off <= PAGE_SIZE ->
    PAGE_SIZE - off <= size -> cnt = (size - (PAGE_SIZE - off) + PAGE_SIZE - 1) / PAGE_SIZE -> cnt <= area ->
    placed u size spot area (last_page u) off cnt (set_last (spot + cnt - 1) ((size - (PAGE_SIZE - off)) mod PAGE_SIZE) u).

Lemma page_va u p o :
  0 <= b_begin_ppn u -> 0 <= p -> p + b_begin_ppn u < 2 ^ 25 -> 0 <= o <= PAGE_SIZE ->
  PMA_PA2VA (o +l ((p +l b_begin_ppn u) <<l PAGE_SHIFT)) = base u + p * PAGE_SIZE + o.
Proof.
  intros Hb Hp Hn Ho. unfold PAGE_SIZE, PAGE_SHIFT in *. rewrite (add64_small p) by lia.
  unfold shl64. rewrite Z.shiftl_mul_pow2 by lia. change (2 ^ 12) with 4096. rewrite u64_small by lia.
  rewrite add64_small by lia. rewrite PMA_PA2VA_spec by lia. unfold base, PAGE_SIZE. lia.
Qed.

Lemma low_bits x : 0 <= x -> x &l (PAGE_SIZE - 1) = x mod PAGE_SIZE.
Proof. intros. change (PAGE_SIZE - 1) with (2 ^ 12 - 1). by rewrite land_mask by lia. Qed.

Lemma pages_of x : 0 <= x < 2 ^ 63 -> (x +l PAGE_SIZE -l 1) >>l PAGE_SHIFT = (x + PAGE_SIZE - 1) / PAGE_SIZE.
Proof.
  intros. unfold PAGE_SHIFT, PAGE_SIZE. rewrite add64_small by lia. rewrite sub64_small by lia.
  by rewrite Z.shiftr_div_pow2 by lia.
Qed.

(** The start of the pages found. *)
Lemma place_fresh u size a spot area :
  0 <= b_begin_ppn u -> b_begin_ppn u + b_num_ppn u <= 2 ^ 25 -> 0 < size < 2 ^ 62 -> 0 <= a -> area = (size + PAGE_SIZE - 1) / PAGE_SIZE ->
  0 <= spot -> spot + area <= b_num_ppn u ->
  exists lp off cnt u', (PMA_PA2VA ((spot +l b_begin_ppn u) <<l PAGE_SHIFT), area, set_last (spot +l area -l 1) (size &l (PAGE_SIZE - 1)) u) =
      (base u + lp * PAGE_SIZE + off, cnt, u') /\
    placed u size spot area lp off cnt u' /\ off mod 2 ^ a = 0 /\ 0 <= lp /\ 0 <= off <= PAGE_SIZE.
Proof.
  intros Hb He Hs Ha Earea Hsp Hend. exists spot, 0, area, (set_last (spot + area - 1) (size mod PAGE_SIZE) u).
  pose proof (pow2_pos a ltac:(lia)). assert (0 < area) by (rewrite Earea; apply Z.div_str_pos; unfold PAGE_SIZE; lia).
  split_and!; try done; try (unfold PAGE_SIZE; lia); [|constructor].
  assert (E1 : (spot +l b_begin_ppn u) <<l PAGE_SHIFT = 0 +l ((spot +l b_begin_ppn u) <<l PAGE_SHIFT)).
  { unfold add64 at 2. rewrite Z.add_0_l. symmetry. apply u64_small, u64_bound. }
  rewrite E1, page_va by (unfold PAGE_SIZE; lia). rewrite low_bits by lia.
  rewrite (add64_small spot), sub64_small by lia. do 3 f_equal; lia.
Qed.

(** Rounding an offset in a page up to the alignment. *)
Lemma round_up_offset lo a : 0 < lo < PAGE_SIZE -> 0 <= a <= 12 -> exists off,
  (lo +l 2 ^ a -l 1) &l not64 (2 ^ a -l 1) = off /\ off mod 2 ^ a = 0 /\ lo <= off <= PAGE_SIZE.
Proof.
  intros Hl Ha. pose proof (pow2_pos a ltac:(lia)). assert (H2a : 2 ^ a <= PAGE_SIZE) by (change PAGE_SIZE with (2 ^ 12); apply Z.pow_le_mono_r; lia).
  set (t := lo + 2 ^ a - 1). exists (t - t mod 2 ^ a).
  pose proof (Z.mod_pos_bound t (2 ^ a) ltac:(lia)) as Htm. pose proof (Z.div_mod t (2 ^ a) ltac:(lia)) as Htd.
  assert (Ed : t - t mod 2 ^ a = t / 2 ^ a * 2 ^ a) by lia. split_and!.
  - unfold PAGE_SIZE in *. rewrite add64_small by lia. rewrite !sub64_small by lia. by rewrite land_not_mask by lia.
  - rewrite Ed. apply Z.mod_mul. lia.
  - unfold t in *. lia.
  - assert (E12 : PAGE_SIZE = 2 ^ (12 - a) * 2 ^ a) by (rewrite <- Z.pow_add_r by lia; by replace (12 - a + a) with 12 by lia).
    rewrite Ed. assert (t / 2 ^ a < 2 ^ (12 - a) + 1); [|nia]. apply Z.div_lt_upper_bound; [lia|]. unfold t. nia.
Qed.

Lemma place_spec u size a spot area :
  0 <= b_begin_ppn u -> b_begin_ppn u + b_num_ppn u <= 2 ^ 25 ->
  (last_page_offset u <> 0 -> 0 <= last_page u < b_num_ppn u /\ 0 < last_page_offset u < PAGE_SIZE) ->
  0 < size < 2 ^ 62 -> 0 <= a <= 12 -> area = (size + PAGE_SIZE - 1) / PAGE_SIZE ->
  0 <= spot -> spot + area <= b_num_ppn u ->
  exists lp off cnt u', place u size (2 ^ a) spot area = (base u + lp * PAGE_SIZE + off, cnt, u') /\
    placed u size spot area lp off cnt u' /\ off mod 2 ^ a = 0 /\ 0 <= lp /\ 0 <= off <= PAGE_SIZE.
Proof.
  intros Hb He Hl Hs Ha Earea Hsp Hend. unfold place.
  pose proof (place_fresh u size a spot area Hb He Hs ltac:(lia) Earea Hsp Hend) as Hfresh.
  assert (H2a : 2 ^ a <= PAGE_SIZE) by (change PAGE_SIZE with (2 ^ 12); apply Z.pow_le_mono_r; lia).
  destruct (Z.eqb_spec (last_page_offset u) 0) as [E0|E0]; simpl negb.
  { rewrite andb_false_r, andb_false_l. exact Hfresh. }
  destruct (Hl E0) as [Hlp Hlo]. rewrite (proj2 (Z.leb_le _ _)) by done. rewrite add64_small by lia.
  destruct (Z.eqb_spec (last_page u + 1) spot) as [Esp|Esp]; simpl andb; [|exact Hfresh]. clear Hfresh.
  destruct (round_up_offset (last_page_offset u) a Hlo Ha) as (off & -> & Hom & Hoff).
  assert (Hrem : PAGE_SIZE -l off = PAGE_SIZE - off) by (apply sub64_small; unfold PAGE_SIZE in *; lia).
  rewrite Hrem, page_va by (unfold PAGE_SIZE in *; lia).
  destruct (Z.ltb_spec size (PAGE_SIZE - off)) as [Hlt|Hge].
  - exists (last_page u), off, 0, (set_last (last_page u) (off + size) u). split_and!; try done; try lia.
    + rewrite add64_small by (unfold PAGE_SIZE in *; lia). rewrite low_bits by lia. by rewrite Z.mod_small by lia.
    + apply placed_in_page; try done; lia.
  - assert (Hbs : size -l (PAGE_SIZE - off) = size - (PAGE_SIZE - off)) by (apply sub64_small; unfold PAGE_SIZE in *; lia).
    rewrite Hbs, pages_of by (unfold PAGE_SIZE in *; lia). set (back := size - (PAGE_SIZE - off)) in *.
    set (cnt := (back + PAGE_SIZE - 1) / PAGE_SIZE).
    assert (Hback : 0 <= back <= size) by (unfold back; lia).
    assert (Hcnt : 0 <= cnt <= area).
    { unfold cnt. rewrite Earea. clearbody back. split; [apply Z.div_pos; unfold PAGE_SIZE in *; lia|].
      apply Z.div_le_mono; unfold PAGE_SIZE; lia. }
    exists (last_page u), off, cnt, (set_last (spot + cnt - 1) (back mod PAGE_SIZE) u). split_and!; try done; try lia.
    + rewrite (add64_small spot), sub64_small by lia. by rewrite low_bits by lia.
    + apply placed_across; try done; lia.
Qed.

(** The bytes of an allocation of [size] bytes at offset [off] of page [lp]. *)
Definition in_alloc (lp off size p o : Z) : Prop :=
  0 <= o < PAGE_SIZE /\ lp * PAGE_SIZE + off <= p * PAGE_SIZE + o < lp * PAGE_SIZE + off + size.

(** Expose the quotient and remainder of the sizes in pages. *)
Ltac pages :=
  unfold in_alloc, in_tail, PAGE_SIZE in *; simpl in *;
  repeat match goal with
  | H : context [?x / 4096] |- _ =>
      lazymatch goal with
      | _ : x = 4096 * (x / 4096) + x mod 4096 |- _ => fail
      | _ => pose proof (Z.div_mod x 4096 ltac:(lia)); pose proof (Z.mod_pos_bound x 4096 ltac:(lia))
      end
  | H : context [?x mod 4096] |- _ =>
      lazymatch goal with
      | _ : x = 4096 * (x / 4096) + x mod 4096 |- _ => fail
      | _ => pose proof (Z.div_mod x 4096 ltac:(lia)); pose proof (Z.mod_pos_bound x 4096 ltac:(lia))
      end
  | |- context [?x mod 4096] =>
      lazymatch goal with
      | _ : x = 4096 * (x / 4096) + x mod 4096 |- _ => fail
      | _ => pose proof (Z.div_mod x 4096 ltac:(lia)); pose proof (Z.mod_pos_bound x 4096 ltac:(lia))
      end
  end.

Section place.
Context (s : kst) (size spot area lp off cnt : Z) (u' : bootmem_node_struct).
Context (Hok : boot_ok s) (Hrun : run s spot area).
Context (Hsize : 0 < size) (Earea : area = (size + PAGE_SIZE - 1) / PAGE_SIZE) (Hspot : 0 <= spot).
Context (Hp : placed (uma_node s) size spot area lp off cnt u').

Lemma area_pos : 0 < area.
Proof. rewrite Earea. apply Z.div_str_pos. unfold PAGE_SIZE. lia. Qed.

Lemma area_end : spot + area <= b_num_ppn (uma_node s).
Proof. pose proof area_pos. destruct (Hrun (spot + area - 1)); lia. Qed.

Lemma placed_map : b_mem_map u' = b_mem_map (uma_node s) /\ b_num_ppn u' = b_num_ppn (uma_node s) /\
  b_begin_ppn u' = b_begin_ppn (uma_node s) /\ b_mem_map_size u' = b_mem_map_size (uma_node s).
Proof. by destruct Hp. Qed.

Lemma placed_cnt : 0 <= cnt <= area.
Proof.
  pose proof area_pos. destruct Hp as [|o ? ? ? ?|o c ? ? ? ? ? ?]; try lia. split; [|done].
  subst c. apply Z.div_pos; unfold PAGE_SIZE in *; lia.
Qed.

(** The bytes were not in use, and lie inside the managed memory. *)
Lemma placed_unused p o : in_alloc lp off size p o -> 0 <= p < b_num_ppn (uma_node s) /\ ~ used s p o.
Proof.
  intros Hin. pose proof area_end. pose proof area_pos. pose proof (ok_last _ Hok) as Hl. unfold used.
  assert (Hfree : spot <= p < spot + area -> 0 <= p < b_num_ppn (uma_node s) /\
     ~ (bit (mem s) (b_mem_map (uma_node s)) p = true /\ ~ in_tail (uma_node s) p o)).
  { intros Hpr. destruct (Hrun p Hpr) as [? E]. rewrite E. split; [lia|]. by intros [? _]. }
  destruct Hp as [|f Hlo Es Hf Hfit|f c Hlo Es Hf Hfit Ec Hc].
  - apply Hfree. clear Hfree. pages. lia.
  - destruct (Hl Hlo) as (? & ? & _). assert (p = last_page (uma_node s)) as -> by (pages; lia).
    split; [lia|]. intros [_ Ht]. apply Ht. pages. lia.
  - destruct (Hl Hlo) as (? & ? & _). destruct (Z.eq_dec p (last_page (uma_node s))) as [->|Hne].
    + split; [lia|]. intros [_ Ht]. apply Ht. pages. lia.
    + apply Hfree. clear Hfree. pages. lia.
Qed.

Lemma placed_end : lp * PAGE_SIZE + off + size <= b_num_ppn (uma_node s) * PAGE_SIZE.
Proof.
  pose proof area_pos. pose proof area_end. pose proof (ok_last _ Hok) as Hl.
  destruct Hp as [|f Hlo Es Hf Hfit|f c Hlo Es Hf Hfit Ec Hc]; [|destruct (Hl Hlo) as (? & ? & _)..]; pages; lia.
Qed.

Context (s' : kst) (Hu : uma_node s' = u').
Context (Hbits : forall j, 0 <= j < b_num_ppn (uma_node s) ->
  bit (mem s') (b_mem_map (uma_node s)) j = bit (mem s) (b_mem_map (uma_node s)) j || bool_decide (spot <= j < spot + cnt)).

(** They are in use now. *)
Lemma placed_used p o : in_alloc lp off size p o -> used s' p o.
Proof.
  intros Hin. destruct (placed_unused p o Hin) as [Hpn _]. destruct placed_map as (Em & _).
  pose proof area_pos. pose proof (ok_last _ Hok) as Hl. unfold used. rewrite Hu, Em, Hbits by done.
  destruct Hp as [|f Hlo Es Hf Hfit|f c Hlo Es Hf Hfit Ec Hc].
  - rewrite bool_decide_eq_true_2 by (pages; lia). rewrite orb_true_r. split; [done|]. pages. lia.
  - destruct (Hl Hlo) as (? & ? & Hb). assert (p = last_page (uma_node s)) as -> by (pages; lia).
    rewrite Hb. split; [done|]. pages. lia.
  - destruct (Hl Hlo) as (? & ? & Hb). destruct (Z.eq_dec p (last_page (uma_node s))) as [->|Hne].
    + rewrite Hb. split; [done|]. pages. lia.
    + rewrite bool_decide_eq_true_2 by (pages; lia). rewrite orb_true_r. split; [done|]. pages. lia.
Qed.

(** Nothing in use before has become free. *)
Lemma placed_keeps p o : 0 <= p < b_num_ppn (uma_node s) -> 0 <= o < PAGE_SIZE -> used s p o -> used s' p o.
Proof.
  intros Hpn Ho [Hb Ht]. destruct placed_map as (Em & _). pose proof area_pos. pose proof (ok_last _ Hok) as Hl.
  assert (Hnr : ~ (spot <= p < spot + area)).
  { intros Hr. destruct (Hrun p Hr). congruence. }
  unfold used. rewrite Hu, Em, Hbits, Hb by done. split; [done|]. intros Ht'. apply Ht.
  destruct Hp as [|f Hlo Es Hf Hfit|f c Hlo Es Hf Hfit Ec Hc].
  - pages. lia.
  - pages. lia.
  - destruct (Hl Hlo) as (? & ? & _). pages. assert (c = 0 \/ 0 < c) as [->|?] by lia; lia.
Qed.

Lemma placed_ok_last : last_page_offset u' <> 0 ->
  0 <= last_page u' < b_num_ppn u' /\ 0 < last_page_offset u' < PAGE_SIZE /\
  bit (mem s') (b_mem_map u') (last_page u') = true.
Proof.
  intros H0. destruct placed_map as (Em & En & _). rewrite Em, En. pose proof area_pos. pose proof area_end.
  pose proof (ok_last _ Hok) as Hl.
  destruct Hp as [|f Hlo Es Hf Hfit|f c Hlo Es Hf Hfit Ec Hc]; simpl in *.
  - pages. rewrite Hbits, bool_decide_eq_true_2, orb_true_r by lia. split_and!; try done; lia.
  - destruct (Hl Hlo) as (? & ? & Hb). rewrite Hbits, Hb by lia. pages. split_and!; try done; lia.
  - destruct (Hl Hlo) as (? & ? & Hb). pages. assert (0 < c) by lia.
    rewrite Hbits, bool_decide_eq_true_2, orb_true_r by lia. split_and!; try done; lia.
Qed.

End place.

(** ** The contract of [bootmem_alloc] *)

(** [s'] is [s] after [size] bytes at page [lp], offset [off] were handed
    out: none of them was in use, all are now, whatever was in use still is,
    they read zero, and nothing but them and the bitmap has changed. *)
Record handed_out (s s' : kst) (lp off size : Z) : Prop := {
  ho_ok : boot_ok s';
  ho_begin : b_begin_ppn (uma_node s') = b_begin_ppn (uma_node s);
  ho_num : b_num_ppn (uma_node s') = b_num_ppn (uma_node s);
  ho_rest : s' = set_mem (mem s') (set_uma (uma_node s') s);
  ho_end : 0 <= lp /\ 0 <= off /\ lp * PAGE_SIZE + off + size <= b_num_ppn (uma_node s) * PAGE_SIZE;
  ho_unused : forall p o, in_alloc lp off size p o -> ~ used s p o;
  ho_used : forall p o, in_alloc lp off size p o -> used s' p o;
  ho_keeps : forall p o, 0 <= p < b_num_ppn (uma_node s) -> 0 <= o < PAGE_SIZE -> used s p o -> used s' p o;
  ho_zero : forall i, 0 <= i < size -> ldb (mem s') (base (uma_node s) + lp * PAGE_SIZE + off + i) = 0;
  ho_mem : agree (fun b => ~ in_range (base (uma_node s) + lp * PAGE_SIZE + off) size b /\
    ~ map_bytes (b_mem_map (uma_node s)) (b_num_ppn (uma_node s)) b) (mem s) (mem s');
}.

Lemma map_ge s : boot_ok s -> PAGE_SIZE <= b_mem_map (uma_node s).
Proof. intros Hok. rewrite (ok_map _ Hok). pose proof (ok_begin _ Hok). unfold base, PAGE_SIZE, VA_KERNEL_BEGIN. lia. Qed.

(** The bytes of the bitmap are in use, so an allocation does not contain
    them. *)
Lemma map_byte_apart s lp off size j :
  boot_ok s -> (forall p o, in_alloc lp off size p o -> ~ used s p o) -> 0 <= j < b_num_ppn (uma_node s) ->
  ~ in_range (base (uma_node s) + lp * PAGE_SIZE + off) size (b_mem_map (uma_node s) + j / 8).
Proof.
  intros Hok Hun Hj Hr. rewrite (ok_map _ Hok) in Hr. unfold in_range in Hr.
  assert (Hj8 : 0 <= j / 8 < b_mem_map_size (uma_node s)) by (rewrite (ok_size _ Hok); zdm).
  pose proof (Z.div_mod (j / 8) PAGE_SIZE ltac:(unfold PAGE_SIZE; lia)) as Hd.
  pose proof (Z.mod_pos_bound (j / 8) PAGE_SIZE ltac:(unfold PAGE_SIZE; lia)) as Hm.
  apply (Hun (j / 8 / PAGE_SIZE) ((j / 8) mod PAGE_SIZE)).
  - split; [done|]. lia.
  - apply (ok_self _ Hok); [done|]. lia.
Qed.

Lemma handed_out_intro s size spot area lp off cnt u' m1 m2 :
  boot_ok s -> run s spot area -> 0 < size -> area = (size + PAGE_SIZE - 1) / PAGE_SIZE -> 0 <= spot ->
  0 <= lp -> 0 <= off ->
  placed (uma_node s) size spot area lp off cnt u' ->
  (forall j, bit m1 (b_mem_map (uma_node s)) j =
     bit (mem s) (b_mem_map (uma_node s)) j || bool_decide (spot <= j < spot + cnt)) ->
  agree (fun a => ~ map_bytes (b_mem_map (uma_node s)) (b_num_ppn (uma_node s)) a) (mem s) m1 ->
  (forall a, ldb m2 a = filled m1 (base (uma_node s) + lp * PAGE_SIZE + off) size 0 a) ->
  handed_out s (set_mem m2 (set_uma u' s)) lp off size.
Proof.
  intros Hok Hrun Hs Ea Hsp Hlp Hoff Hp Hb1 Hag Hf. set (s' := set_mem m2 (set_uma u' s)).
  set (r := base (uma_node s) + lp * PAGE_SIZE + off) in *.
  destruct (placed_map s size spot area lp off cnt u' Hp) as (Em & En & Eb & Es).
  assert (Hun : forall p o, in_alloc lp off size p o -> 0 <= p < b_num_ppn (uma_node s) /\ ~ used s p o)
    by (intros p o; eapply placed_unused; done).
  assert (Hbits : forall j, 0 <= j < b_num_ppn (uma_node s) -> bit (mem s') (b_mem_map (uma_node s)) j =
     bit (mem s) (b_mem_map (uma_node s)) j || bool_decide (spot <= j < spot + cnt)).
  { intros j Hj. rewrite <- Hb1. apply bit_agree. simpl. rewrite Hf. unfold filled.
    pose proof (map_byte_apart s lp off size j Hok ltac:(intros; by apply Hun) Hj) as Hn. fold r in Hn.
    unfold in_range in Hn. range_cases; done. }
  assert (Hkeep : forall p o, 0 <= p < b_num_ppn (uma_node s) -> 0 <= o < PAGE_SIZE -> used s p o -> used s' p o)
    by (intros p o; eapply placed_keeps; try done).
  split; try done.
  - split; unfold s'; simpl uma_node; rewrite ?Em, ?En, ?Eb, ?Es; try apply Hok.
    + unfold base. rewrite Eb. apply Hok.
    + rewrite <- Em, <- En. eapply (placed_ok_last s); done.
    + intros p o Ho Hpo. apply Hkeep; [|done|by apply (ok_self _ Hok)]. rewrite (ok_size _ Hok) in Hpo.
      pose proof (ok_num _ Hok). unfold PAGE_SIZE in *. zdm.
  - split_and!; try done. eapply placed_end; done.
  - intros p o Hin. by apply Hun.
  - intros p o Hin. eapply (placed_used s); done.
  - intros i Hi. simpl. rewrite Hf. unfold filled. fold r. range_cases. done.
  - intros a [H1 H2]. simpl. rewrite Hf. unfold filled, in_range in *. fold r in H1. range_cases; by apply Hag.
Qed.

Lemma ppn_offset_0 u a : 0 <= a <= 12 -> ppn_offset u (2 ^ a) = 0.
Proof.
  intros Ha. pose proof (pow2_pos a ltac:(lia)). assert (2 ^ a <= 2 ^ 12) by (apply Z.pow_le_mono_r; lia).
  unfold ppn_offset. rewrite (proj2 (Z.eqb_neq _ 0)) by lia. simpl negb. cbv iota.
  rewrite (sub64_small (2 ^ a) 1) by lia. rewrite !land_mask by lia.
  unfold PAGE_SHIFT. rewrite Z.shiftr_div_pow2 by lia. apply Z.div_small.
  match goal with |- 0 <= ?x mod 2 ^ a < _ => pose proof (Z.mod_pos_bound x (2 ^ a) ltac:(lia)) end. lia.
Qed.

(** An address in the node is as aligned as its offset in a page. *)
Lemma base_aligned u lp off a : 0 <= a <= 12 -> (base u + lp * PAGE_SIZE + off) mod 2 ^ a = off mod 2 ^ a.
Proof.
  intros Ha. pose proof (pow2_pos a ltac:(lia)). unfold base, VA_KERNEL_BEGIN.
  replace (b_begin_ppn u * PAGE_SIZE + 18446743798831644672 + lp * PAGE_SIZE + off)
    with (off + (b_begin_ppn u + 4503599560261632 + lp) * 2 ^ (12 - a) * 2 ^ a).
  - apply Z.mod_add. lia.
  - rewrite <- Z.mul_assoc, <- Z.pow_add_r by lia. replace (12 - a + a) with 12 by lia. unfold PAGE_SIZE. lia.
Qed.

(** What follows the search: the run that was found is handed out. *)
Lemma wp_hand_out size a spot area (N : Prop) s :
  boot_ok s -> 0 < size < 2 ^ 62 -> 0 <= a <= 12 -> area = (size + PAGE_SIZE - 1) / PAGE_SIZE -> 0 <= spot -> run s spot area ->
  wp (let '(ret_addr, area_size, u') := place (uma_node s) size (2 ^ a) spot area in
      modify (set_uma u');; set_bits spot (spot +l area_size) "bootmem_alloc";; memset ret_addr 0 size;; mret ret_addr)
   (fun r s' => (r = NULL /\ s' = s /\ N) \/
     (exists lp off, r = base (uma_node s) + lp * PAGE_SIZE + off /\ r mod 2 ^ a = 0 /\ handed_out s s' lp off size)) s.
Proof.
  intros Hok Hs Ha Earea Hsp Hrun. pose proof (map_ge s Hok) as Hmap. pose proof (ok_begin _ Hok). pose proof (ok_num _ Hok). pose proof (ok_end _ Hok).
  assert (Harea : 0 < area) by (rewrite Earea; apply Z.div_str_pos; unfold PAGE_SIZE; lia).
  assert (Hend : spot + area <= b_num_ppn (uma_node s)) by (destruct (Hrun (spot + area - 1)); lia).
  destruct (place_spec (uma_node s) size a spot area) as (lp & off & cnt & u' & -> & Hp & Hal & Hlp & Hoff); try done; try lia.
  { intros Hl0. destruct (ok_last _ Hok Hl0) as (? & ? & _). done. }
  pose proof (placed_cnt s size spot area lp off cnt u' ltac:(lia) ltac:(done) Hp) as Hc.
  destruct (placed_map s size spot area lp off cnt u' Hp) as (Em & En & _).
  wp_step. wp_step. wp_step. rewrite add64_small by lia.
  apply (wp_set_bits _ _ _ (b_num_ppn (uma_node s))); simpl; rewrite ?Em; try done; try lia.
  { intros j Hj. apply Hrun. lia. }
  intros m1 Hb1 Hag1. wp_step.
  apply wp_memset; [unfold base, PAGE_SIZE, VA_KERNEL_BEGIN in *; lia|lia|]. intros m2 Hf2. wp_steps. right.
  exists lp, off. split; [done|]. split; [by rewrite base_aligned|]. by eapply handed_out_intro; try done; lia.
Qed.

Lemma wp_bootmem_alloc size a goal s :
  boot_ok s -> 0 < size < 2 ^ 62 -> 0 <= a <= 12 ->
  wp (bootmem_alloc size (2 ^ a) goal) (fun r s' =>
    (r = NULL /\ s' = s /\ forall i, 0 <= i -> ~ run s i ((size + PAGE_SIZE - 1) / PAGE_SIZE)) \/
    (exists lp off, r = base (uma_node s) + lp * PAGE_SIZE + off /\ r mod 2 ^ a = 0 /\ handed_out s s' lp off size)) s.
Proof.
  intros Hok Hs Ha. pose proof (pow2_pos a ltac:(lia)). assert (Ha12 : 2 ^ a <= 2 ^ 12) by (apply Z.pow_le_mono_r; lia).
  unfold bootmem_alloc. rewrite (proj2 (Z.eqb_neq size 0)) by lia.
  assert (Ealign : 2 ^ a &l (2 ^ a -l 1) = 0).
  { rewrite sub64_small by lia. rewrite land_mask by lia. apply Z.mod_same. lia. }
  rewrite Ealign. simpl negb. wp_step. wp_step. wp_step. rewrite pages_of by lia. wp_step.
  set (area := (size + PAGE_SIZE - 1) / PAGE_SIZE).
  assert (Harea : 0 < area < 2 ^ 63).
  { unfold area. split; [apply Z.div_str_pos; unfold PAGE_SIZE; lia|]. apply Z.div_lt_upper_bound; unfold PAGE_SIZE; lia. }
  pose proof (map_ge s Hok) as Hmap. pose proof (ok_num _ Hok). pose proof (ok_end _ Hok). pose proof (ok_begin _ Hok).
  assert (Hp : 0 <= preferred (uma_node s) (2 ^ a) goal) by apply u64_bound.
  apply wp_scan_from; try done; try lia; [apply u64_bound| |].
  - intros i Hi Hrun. wp_steps. apply wp_hand_out; try done. lia.
  - intros Hnone. wp_steps. rewrite ppn_offset_0 by lia.
    apply wp_scan_from; [done|lia|lia|lia| |].
    + intros i Hi Hrun. by apply wp_hand_out.
    + intros Hnone'. wp_steps. left. done.
Qed.

(** ** Reserving and freeing ranges *)

(** The pages a byte range touches, relative to the first page. *)
Definition first_pn (u : bootmem_node_struct) (paddr : Z) : Z := paddr / PAGE_SIZE - b_begin_ppn u.
Definition end_pn (u : bootmem_node_struct) (paddr size : Z) : Z :=
  (paddr + size + PAGE_SIZE - 1) / PAGE_SIZE - b_begin_ppn u.

Lemma wp_page_range paddr size e1 e2 (Q : Z * Z -> kst -> Prop) s :
  let u := uma_node s in
  0 <= paddr -> 0 <= size -> paddr + size < 2 ^ 63 -> 0 <= b_begin_ppn u -> b_begin_ppn u + b_num_ppn u < 2 ^ 63 ->
  0 <= first_pn u paddr -> end_pn u paddr size <= b_num_ppn u ->
  Q (first_pn u paddr, end_pn u paddr size) s -> wp (page_range paddr size e1 e2) Q s.
Proof.
  intros u Hp Hs Hps Hb Hn Hf He HQ. unfold page_range, first_pn, end_pn in *.
  rewrite (add64_small paddr) by lia. rewrite PAGE_ROUND_DOWN_spec by lia. rewrite PAGE_ROUND_UP_spec by (unfold PAGE_SIZE; lia).
  unfold PAGE_SHIFT. rewrite !Z.shiftr_div_pow2 by lia. change (2 ^ 12) with PAGE_SIZE.
  assert (E : forall z, (z - z mod PAGE_SIZE) / PAGE_SIZE = z / PAGE_SIZE).
  { intros z. pose proof (Z.div_mod z PAGE_SIZE ltac:(unfold PAGE_SIZE; lia)).
    replace (z - z mod PAGE_SIZE) with (z / PAGE_SIZE * PAGE_SIZE) by lia. apply Z.div_mul. unfold PAGE_SIZE. lia. }
  rewrite !E. wp_steps. fold u.
  assert (0 <= (paddr + size + PAGE_SIZE - 1) / PAGE_SIZE < 2 ^ 63).
  { split; [apply Z.div_pos; unfold PAGE_SIZE; lia|apply Z.div_lt_upper_bound; unfold PAGE_SIZE; lia]. }
  assert (paddr / PAGE_SIZE <= (paddr + size + PAGE_SIZE - 1) / PAGE_SIZE) by (apply Z.div_le_mono; unfold PAGE_SIZE; lia).
  rewrite (proj2 (Z.ltb_ge _ _)) by lia. wp_steps. fold u. rewrite (add64_small (b_begin_ppn u)) by lia.
  rewrite (proj2 (Z.ltb_ge _ _)) by lia. wp_steps. rewrite !sub64_small by lia. exact HQ.
Qed.

(** A range inside the node's memory. *)
Definition range_ok (u : bootmem_node_struct) (paddr size : Z) : Prop :=
  0 <= paddr /\ 0 <= size /\ paddr + size < 2 ^ 63 /\ 0 <= first_pn u paddr /\ end_pn u paddr size <= b_num_ppn u.

Lemma range_order u paddr size : range_ok u paddr size -> first_pn u paddr <= end_pn u paddr size.
Proof.
  intros (? & ? & ? & ? & ?). unfold first_pn, end_pn.
  pose proof (Z.div_le_mono paddr (paddr + size + PAGE_SIZE - 1) PAGE_SIZE ltac:(unfold PAGE_SIZE; lia) ltac:(unfold PAGE_SIZE; lia)). lia.
Qed.

(** ** The theorems *)

(** C20: [bootmem_alloc], for a size between 1 and 2^62 - 1 and an alignment
    that is a power of two up to the page size (for the alignment 0 see
    [bootmem_alloc_align_0]), terminates without panicking and returns either NULL, with the
    state unchanged and only when no run of enough free pages exists, or the
    address of [size] zeroed bytes, aligned as asked, none of which was in use
    before; they are in use afterwards together with everything that was, and
    no other memory but the bitmap has changed. *)
Theorem bootmem_alloc_correct size a goal s :
  boot_ok s -> 0 < size < 2 ^ 62 -> 0 <= a <= 12 ->
  wp (bootmem_alloc size (2 ^ a) goal) (fun r s' =>
    (r = NULL /\ s' = s /\ forall i, 0 <= i -> ~ run s i ((size + PAGE_SIZE - 1) / PAGE_SIZE)) \/
    (exists lp off, r = base (uma_node s) + lp * PAGE_SIZE + off /\ r mod 2 ^ a = 0 /\ handed_out s s' lp off size)) s.
Proof. apply wp_bootmem_alloc. Qed.

(** [bootmem_free] on a range of reserved memory, and [bootmem_reserve]
    on a range of free memory, change the bits of exactly the pages the range
    touches, and nothing outside the bitmap. *)
Theorem reserve_free_correct paddr size s :
  let u := uma_node s in let map := b_mem_map u in
  boot_ok s -> range_ok u paddr size ->
  ((forall j, first_pn u paddr <= j < end_pn u paddr size -> bit (mem s) map j = true) ->
   wp (bootmem_free paddr size) (fun _ s' => s' = set_mem (mem s') s /\
     (forall j, bit (mem s') map j = bit (mem s) map j && negb (bool_decide (first_pn u paddr <= j < end_pn u paddr size))) /\
     agree (fun a => ~ map_bytes map (b_num_ppn u) a) (mem s) (mem s')) s) /\
  ((forall j, first_pn u paddr <= j < end_pn u paddr size -> bit (mem s) map j = false) ->
   wp (bootmem_reserve paddr size) (fun _ s' => s' = set_mem (mem s') s /\
     (forall j, bit (mem s') map j = bit (mem s) map j || bool_decide (first_pn u paddr <= j < end_pn u paddr size)) /\
     agree (fun a => ~ map_bytes map (b_num_ppn u) a) (mem s) (mem s')) s).
Proof.
  intros u map Hok Hr. pose proof (range_order u paddr size Hr). destruct Hr as (? & ? & ? & ? & ?).
  pose proof (map_ge s Hok). pose proof (ok_begin s Hok). pose proof (ok_num s Hok). pose proof (ok_end s Hok).
  fold u in H5, H6, H7, H8. split; intros Hbits.
  - unfold bootmem_free. wp_step. apply wp_page_range; fold u; try done; try lia.
    apply (wp_clear_bits _ _ _ (b_num_ppn u)); fold u map; try done; lia.
  - unfold bootmem_reserve. wp_step. apply wp_page_range; fold u; try done; try lia.
    apply (wp_set_bits _ _ _ (b_num_ppn u)); fold u map; try done; lia.
Qed.
End bootmem.

(** ** A node of sixteen pages *)

#[local] Existing Instance sample_layout.

(** Page 0, which holds the bitmap, is reserved. *)
Definition sample_boot : kst :=
  set_uma (mk_bootmem_node 0x80000 16 (0x80000 * PAGE_SIZE + VA_KERNEL_BEGIN) 2 0 0)
    (sample_state {[ 0x80000 * PAGE_SIZE + VA_KERNEL_BEGIN := 1 ]}).

Lemma sample_boot_ok : boot_ok sample_boot.
Proof.
  split; [vm_compute; congruence|vm_compute; congruence|vm_compute; congruence|reflexivity|reflexivity| |].
  { intros H. by destruct H. }
  intros p o Ho Hpo. change (b_mem_map_size (uma_node sample_boot)) with 2 in Hpo. unfold PAGE_SIZE in *.
  assert (p = 0) as -> by lia. split; [vm_compute; reflexivity|]. intros [H _]. vm_compute in H. congruence.
Qed.

Lemma bootmem_alloc_correct_witness :
  wp (bootmem_alloc 100 (2 ^ 3) 0) (fun r s' =>
    (r = NULL /\ s' = sample_boot /\ forall i, 0 <= i -> ~ run sample_boot i ((100 + PAGE_SIZE - 1) / PAGE_SIZE)) \/
    (exists lp off, r = base (uma_node sample_boot) + lp * PAGE_SIZE + off /\ r mod 2 ^ 3 = 0 /\
       handed_out sample_boot s' lp off 100)) sample_boot.
Proof.
  apply (bootmem_alloc_correct 100 3 0 sample_boot).
  - exact sample_boot_ok.
  - lia.
  - lia.
Defined.

Lemma reserve_free_correct_witness :
  wp (bootmem_reserve 0x80002100 0x1000) (fun _ s' => s' = set_mem (mem s') sample_boot /\
     (forall j, bit (mem s') (b_mem_map (uma_node sample_boot)) j =
        bit (mem sample_boot) (b_mem_map (uma_node sample_boot)) j || bool_decide (2 <= j < 4)) /\
     agree (fun a => ~ map_bytes (b_mem_map (uma_node sample_boot)) 16 a) (mem sample_boot) (mem s')) sample_boot.
Proof.
  destruct (reserve_free_correct 0x80002100 0x1000 sample_boot) as [_ H].
  - exact sample_boot_ok.
  - split_and!; vm_compute; congruence.
  - apply H. change (first_pn (uma_node sample_boot) 0x80002100) with 2.
    change (end_pn (uma_node sample_boot) 0x80002100 0x1000) with 4. intros j Hj.
    assert (j = 2 \/ j = 3) as [-> | ->] by lia; vm_compute; reflexivity.
Defined.

(** An alignment of zero passes the power-of-two test, but the second of two
    small allocations then starts at offset 0 of the page the first one is
    in: both return the same address. *)
Example bootmem_alloc_align_0 :
  match bootmem_alloc 8 0 0 sample_boot with
  | Ok r1 s1 => match bootmem_alloc 8 0 0 s1 with Ok r2 _ => r1 <> NULL /\ r2 = r1 | _ => False end
  | _ => False
  end.
Proof. vm_compute. split; congruence. Qed.
