(* ===== verification/Buddy.v ===== *)
(** * memory/buddy.c: the page allocator

    The code of [kmem_alloc_pages], [kmem_free_page], [kmem_free_pages], on
    the flat memory: the free lists thread through the free pages
    themselves, the per-order bitmaps hold one bit per pair of buddies.
    The invariant and the proofs are in BuddyInv and BuddyProofs. *)

From S2P Require Import Prelude Memory Machine Bytes Lists Lock.

Section buddy.
Context {L : KernelLayout}.

(** [struct kmem_node_struct]: [page_manager_lock] is at offset 32 and
    [free_areas] at 56; a [kmem_free_area_struct] is 40 bytes and starts
    with its list head. *)
Definition page_manager_lock : Z := sym_kmem + 32.
Definition free_page_list (ord : Z) : Z := sym_kmem + 56 + 40 * ord.
Definition area_map (s : kst) (ord : Z) : Z := default NULL (free_area_map (kmem s) !! Z.to_nat ord).

(** Page number (relative to [begin_ppn]) of a kernel virtual address, and
    back. *)
Definition va_pn (s : kst) (va : Z) : Z := (PMA_VA2PA va >>l PAGE_SHIFT) -l begin_ppn (kmem s).
Definition pn_va (s : kst) (pn : Z) : Z := PMA_PA2VA ((pn +l begin_ppn (kmem s)) <<l PAGE_SHIFT).

(** One round of the splitting loop: the block of order [ord] at
    [block_vaddr] is replaced by its two halves of order [ord - 1]. *)
Definition split_block (block_vaddr ord : Z) : M unit :=
  block_pn ← gets (fun s => va_pn s block_vaddr);
  let left_part := block_vaddr in
  let right_part := block_vaddr +l ((1 <<l (ord - 1)) <<l PAGE_SHIFT) in
  list_detach left_part;;
  map ← gets (fun s => area_map s ord);
  toggle_bit map (block_pn >>l (ord + 1));;
  list_insert (free_page_list (ord - 1)) left_part;;
  list_insert (free_page_list (ord - 1)) right_part.

(** Split the block at [page_vaddr] from [current_order] down to [order],
    take it off its list and mark its pages allocated. *)
Definition take_block (page_vaddr current_order order : Z) : M unit :=
  for_up (Z.to_nat (current_order - order)) 0
    (fun k => split_block page_vaddr (current_order - k));;
  page_pn ← gets (fun s => va_pn s page_vaddr);
  list_detach page_vaddr;;
  map ← gets (fun s => area_map s order);
  toggle_bit map (page_pn >>l (order + 1));;
  for_up (Z.to_nat ((page_pn +l (1 <<l order)) -l page_pn)) page_pn (fun pn =>
    mm ← gets (fun s => mem_map (kmem s));
    b ← test_and_set_bit mm pn;
    if negb (b =? 0) then panic "kmem_alloc_pages - allocated" else mret tt).

(** The search for the smallest order with a free block. *)
Definition find_block (order : Z) : M Z :=
  loop (S (Z.to_nat MAX_MEM_ORDER)) (fun current_order =>
    if current_order <? MAX_MEM_ORDER then
      first ← rd 8 (free_page_list current_order + 8);
      if negb (first =? NULL) then
        (if current_order <? order then panic "kmem_alloc_pages - wrong direction" else mret tt);;
        page_vaddr ← rd 8 (free_page_list current_order + 8);
        take_block page_vaddr current_order order;;
        mret (inr page_vaddr)
      else mret (inl (current_order + 1))
    else mret (inr NULL)) order.

Definition kmem_alloc_pages (order : Z) : M Z :=
  (if MAX_MEM_ORDER <=? order then panic "kmem_alloc_pages - too large" else mret tt);;
  spinlock_acquire page_manager_lock;;
  ret ← find_block order;
  spinlock_release page_manager_lock;;
  mret ret.

(** The merging loop of [kmem_free_page]. *)
Definition merge_loop (pn : Z) : M unit :=
  loop (S (Z.to_nat MAX_MEM_ORDER)) (fun dep =>
    if dep <? MAX_MEM_ORDER then
      let current_pn := pn &l not64 ((1 <<l dep) -l 1) in
      let buddy_pn := current_pn ^l (1 <<l dep) in
      let map_pos := current_pn >>l (dep + 1) in
      map ← gets (fun s => area_map s dep);
      t ← toggle_bit map map_pos;
      if (t =? 0) && negb (dep =? MAX_MEM_ORDER - 1) then
        buddy_node ← gets (fun s => pn_va s buddy_pn);
        list_detach buddy_node;;
        mret (inl (dep + 1))
      else
        current_node ← gets (fun s => pn_va s current_pn);
        list_insert (free_page_list dep) current_node;;
        mret (inr tt)
    else mret (inr tt)) 0.

Definition kmem_free_page (addr : Z) : M unit :=
  (if negb (addr &l (PAGE_SIZE - 1) =? 0) then panic "kmem_free_page - bad address alignment" else mret tt);;
  pn ← gets (fun s => va_pn s addr);
  spinlock_acquire page_manager_lock;;
  r ← (mm ← gets (fun s => mem_map (kmem s));
       b ← test_and_clear_bit mm pn;
       (if b =? 0 then panic "kmem_free_page - freed twice" else mret tt);;
       merge_loop pn);
  spinlock_release page_manager_lock;;
  mret r.

Definition kmem_free_pages (addr page_count : Z) : M unit :=
  (if negb (addr &l (PAGE_SIZE - 1) =? 0) then panic "kmem_free_pages - bad address alignment" else mret tt);;
  for_up (Z.to_nat page_count) 0 (fun k => kmem_free_page (addr +l k *l PAGE_SIZE)).
End buddy.
