(* ===== verification/BuddyMem.v ===== *)
(** * The buddy allocator's data in memory

    [BuddyMeta]: where the bitmaps of the allocator lie.  [R m fl bv]: memory
    [m] holds free lists [fl] (by order, as page numbers) and bitmap contents
    [bv] (index -1 is [mem_map], index [o] the area map of order [o]).  Each
    primitive the allocator uses (detach, insert, toggle, set, clear) is
    shown to be the obvious update of [fl] or [bv], and to write nothing but
    the allocator's own data and the pages in [P], the free ones. *)

From S2P Require Import Prelude Memory Machine Bytes Lists Lock Buddy.

Definition fl_upd (fl : Z -> list Z) (o : Z) (l : list Z) (o' : Z) : list Z := if o' =? o then l else fl o'.
Definition bv_upd (bv : Z -> Z -> bool) (i j : Z) (b : bool) (i' j' : Z) : bool :=
  if (i' =? i) && (j' =? j) then b else bv i' j'.

(** Removing a page number from a free list. *)
Definition rm (p : Z) (l : list Z) : list Z := filter (fun x => x <> p) l.

Lemma rm_id p l : p ∉ l -> rm p l = l.
Proof.
  unfold rm. induction l as [|x l IH]; intros H; [done|].
  rewrite filter_cons_True by (intros ->; lmem). f_equal. apply IH. lmem.
Qed.

Lemma rm_split p l1 l2 : NoDup (l1 ++ p :: l2) -> rm p (l1 ++ p :: l2) = l1 ++ l2.
Proof.
  intros (_ & Hd & [Hp2 _]%NoDup_cons)%NoDup_app.
  assert (p ∉ l1) by (intros H; apply (Hd p H); lmem).
  unfold rm. rewrite filter_app, filter_cons_False by tauto. fold (rm p l1) (rm p l2).
  by rewrite !rm_id.
Qed.

Lemma elem_of_rm p x l : x ∈ rm p l <-> x <> p /\ x ∈ l.
Proof. unfold rm. by rewrite list_elem_of_filter. Qed.

Section buddy_mem.
Context {L : KernelLayout}.
Context (k : kmem_node_struct).

(** Kernel virtual address of page [pn]. *)
Definition nd (pn : Z) : Z := (pn + begin_ppn k) * PAGE_SIZE + VA_KERNEL_BEGIN.

(** Base address, number of valid bits and number of bytes of bitmap [i]. *)
Definition bmap (i : Z) : Z :=
  if i =? -1 then mem_map k else default NULL (free_area_map k !! Z.to_nat i).
Definition blen (i : Z) : Z := (num_ppn k - 1) / 2 ^ (i + 1) + 1.
Definition bytes (i : Z) : Z := (blen i + 7) / 8.

(** [mg]: the pages handed to the allocator.  Its bitmaps do not overlap each
    other, its globals, or these pages. *)
Class BuddyMeta (mg : Z -> Prop) : Prop := {
  bm_begin : 0 <= begin_ppn k;
  bm_num : 0 < num_ppn k;
  bm_end : begin_ppn k + num_ppn k <= 2 ^ 25;
  bm_base : forall i, -1 <= i < MAX_MEM_ORDER -> PAGE_SIZE <= bmap i;
  bm_maps : forall i j, -1 <= i < MAX_MEM_ORDER -> -1 <= j < MAX_MEM_ORDER -> i <> j ->
    disjoint (bmap i) (bytes i) (bmap j) (bytes j);
  bm_glob : forall i, -1 <= i < MAX_MEM_ORDER -> disjoint (bmap i) (bytes i) sym_kmem 1024;
  bm_pages : forall i p, -1 <= i < MAX_MEM_ORDER -> 0 <= p < num_ppn k -> mg p ->
    disjoint (bmap i) (bytes i) (nd p) PAGE_SIZE;
}.
(** A bitmap byte lies in its bitmap. *)
Lemma byte_in i j : 0 <= j < blen i -> in_range (bmap i) (bytes i) (bmap i + j / 8).
Proof. unfold in_range, bytes. intros. zdm. Qed.

Context (mg : Z -> Prop) {BM : BuddyMeta mg}.

Definition order_ok (o : Z) : Prop := 0 <= o < MAX_MEM_ORDER.
Definition page_ok (p : Z) : Prop := 0 <= p < num_ppn k.

(** The addresses of list nodes: the heads and the pages. *)
Definition node (x : Z) : Prop :=
  (exists o, order_ok o /\ x = free_page_list o) \/ (exists p, page_ok p /\ x = nd p).

Lemma nd_bound p : page_ok p -> VA_KERNEL_BEGIN <= nd p /\ nd p + PAGE_SIZE <= VA_KERNEL_BEGIN + 2 ^ 37.
Proof. intros Hp. destruct BM. unfold nd, page_ok, PAGE_SIZE in *. lia. Qed.

Lemma nd_inj p q : nd p = nd q -> p = q.
Proof. unfold nd, PAGE_SIZE. lia. Qed.

Lemma head_bound o : order_ok o -> sym_kmem + 56 <= free_page_list o /\ free_page_list o + 40 <= sym_kmem + 496.
Proof. unfold order_ok, free_page_list, MAX_MEM_ORDER. lia. Qed.

#[global] Instance node_space : NodeSpace 0 8 node 24.
Proof.
  pose proof sym_kmem_image as [G1 G2]. pose proof sym_harts_image as [G3 G4].
  unfold VA_KERNEL_IMG_BEGIN in *.
  split; [lia|lia|unfold disjoint; lia| |].
  - intros x [(o & Ho & ->)|(p & Hp & ->)].
    + pose proof (head_bound o Ho). unfold PAGE_SIZE. lia.
    + pose proof (nd_bound p Hp). unfold PAGE_SIZE, VA_KERNEL_BEGIN in *. lia.
  - intros x y [(o & Ho & ->)|(p & Hp & ->)] [(o' & Ho' & ->)|(q & Hq & ->)] Hne; unfold disjoint.
    + unfold free_page_list in *. lia.
    + pose proof (head_bound o Ho). pose proof (nd_bound q Hq). unfold PAGE_SIZE, VA_KERNEL_BEGIN in *. lia.
    + pose proof (head_bound o' Ho'). pose proof (nd_bound p Hp). unfold PAGE_SIZE, VA_KERNEL_BEGIN in *. lia.
    + unfold nd, PAGE_SIZE in *. lia.
Qed.

(** ** The representation relation *)

Section rep.
Context (P : Z -> Prop).

Record R (m : memory) (fl : Z -> list Z) (bv : Z -> Z -> bool) : Prop := {
  R_dll : forall o, order_ok o -> dll 0 8 m (free_page_list o) (nd <$> fl o);
  R_nodup : forall o, order_ok o -> NoDup (fl o);
  R_sep : forall o1 o2 p, order_ok o1 -> order_ok o2 -> p ∈ fl o1 -> p ∈ fl o2 -> o1 = o2;
  R_page : forall o p, order_ok o -> p ∈ fl o -> page_ok p /\ mg p /\ P p;
  R_bits : forall i j, -1 <= i < MAX_MEM_ORDER -> 0 <= j < blen i -> bit m (bmap i) j = bv i j;
}.

(** What the allocator must leave alone. *)
Definition keep (a : Z) : Prop :=
  ~ in_range (sym_kmem + 56) 440 a /\
  (forall i, -1 <= i < MAX_MEM_ORDER -> ~ in_range (bmap i) (bytes i) a) /\
  (forall p, page_ok p -> P p -> ~ in_range (nd p) PAGE_SIZE a).

Lemma nodes_of m fl bv o : R m fl bv -> order_ok o -> Forall node (free_page_list o :: (nd <$> fl o)).
Proof.
  intros HR Ho. constructor; [left; eauto|]. apply Forall_fmap, Forall_forall. intros p Hp.
  right. exists p. split; [|done]. by apply (R_page _ _ _ HR o).
Qed.

Lemma head_not_page o p : order_ok o -> page_ok p -> free_page_list o <> nd p.
Proof.
  intros Ho Hp. pose proof (head_bound o Ho). pose proof (nd_bound p Hp).
  pose proof sym_kmem_image. unfold PAGE_SIZE, VA_KERNEL_BEGIN, VA_KERNEL_IMG_BEGIN in *. lia.
Qed.

Lemma nodup_of m fl bv o : R m fl bv -> order_ok o -> NoDup (free_page_list o :: (nd <$> fl o)).
Proof.
  intros HR Ho. constructor.
  - intros (p & E & Hp)%list_elem_of_fmap. apply (head_not_page o p Ho); [|done].
    by apply (R_page _ _ _ HR o).
  - apply NoDup_fmap; [intros ???; by apply nd_inj|]. by apply (R_nodup _ _ _ HR).
Qed.


(** A list node is no bitmap byte. *)
Lemma node_not_byte i x a :
  -1 <= i < MAX_MEM_ORDER ->
  ((exists o, order_ok o /\ x = free_page_list o) \/ (exists p, page_ok p /\ mg p /\ x = nd p)) ->
  in_range x 24 a -> ~ in_range (bmap i) (bytes i) a.
Proof.
  intros Hi [(o & Ho & ->)|(p & Hp & Hm & ->)] Hx Ha.
  - pose proof (head_bound o Ho). pose proof (bm_glob i Hi). unfold in_range, disjoint in *. lia.
  - pose proof (bm_pages i p Hi Hp Hm). unfold in_range, disjoint, PAGE_SIZE in *. lia.
Qed.

(** The nodes of the list of order [o], plus possibly the page [q]. *)
Lemma list_nodes_mg m fl bv o q x :
  R m fl bv -> order_ok o -> page_ok q /\ mg q /\ P q -> x ∈ nd q :: free_page_list o :: (nd <$> fl o) ->
  (exists o', order_ok o' /\ x = free_page_list o') \/ (exists p, page_ok p /\ mg p /\ x = nd p).
Proof.
  intros HR Ho Hq Hx. apply elem_of_cons in Hx as [->|Hx]; [right; exists q; tauto|].
  apply elem_of_cons in Hx as [->|Hx]; [left; eauto|].
  apply list_elem_of_fmap in Hx as (p & -> & Hp). right. exists p.
  destruct (R_page _ _ _ HR o p Ho Hp). tauto.
Qed.

Lemma list_write_keep m fl bv o q :
  R m fl bv -> order_ok o -> page_ok q /\ mg q /\ P q ->
  forall a, keep a -> outside 24 (nd q :: free_page_list o :: (nd <$> fl o)) a.
Proof.
  intros HR Ho Hq a (K1 & _ & K3) x Hx Ha.
  assert (Hp : forall p, page_ok p -> P p -> ~ in_range (nd p) 24 a).
  { intros p Hp HP Hr. apply (K3 p Hp HP). unfold in_range, PAGE_SIZE in *. lia. }
  apply elem_of_cons in Hx as [->|Hx]; [apply (Hp q); tauto|].
  apply elem_of_cons in Hx as [->|Hx].
  - pose proof (head_bound o Ho). apply K1. unfold in_range in *. lia.
  - apply list_elem_of_fmap in Hx as (p & -> & Hx). destruct (R_page _ _ _ HR o p Ho Hx) as (? & ? & ?).
    by apply (Hp p).
Qed.

(** Rewriting the list of order [o] (and the page [q]) leaves the other
    lists and all bitmaps as they were. *)
Lemma R_list_write m m' fl bv o q l :
  R m fl bv -> order_ok o -> page_ok q /\ mg q /\ P q ->
  (forall o', order_ok o' -> o' <> o -> q ∉ fl o') ->
  (forall p, p ∈ l -> p = q \/ p ∈ fl o) -> NoDup l ->
  agree (outside 24 (nd q :: free_page_list o :: (nd <$> fl o))) m m' ->
  dll 0 8 m' (free_page_list o) (nd <$> l) ->
  R m' (fl_upd fl o l) bv.
Proof.
  intros HR Ho Hq Hqf Hl Hnd Hag Hdll. unfold fl_upd. split.
  - intros o' Ho'. destruct (Z.eqb_spec o' o) as [->|Hne]; [done|].
    apply (dll_frame 0 8 node 24 m); [by apply (nodup_of m fl bv)| |by apply (R_dll _ _ _ HR)].
    intros a (n & Hn & Ha). apply Hag. intros x Hx Hxa.
    assert (Nn : node n) by (pose proof (nodes_of m fl bv o' HR Ho') as F; rewrite Forall_forall in F; auto).
    assert (Nx : node x) by (destruct (list_nodes_mg m fl bv o q x HR Ho Hq Hx) as [?|(p & ? & ? & ?)]; [left; done|right; eauto]).
    destruct (Z.eq_dec x n) as [->|E].
    + apply elem_of_cons in Hn as [->|Hn].
      * apply elem_of_cons in Hx as [E|Hx]; [destruct (head_not_page o' q Ho' ltac:(tauto) E)|].
        apply elem_of_cons in Hx as [E|Hx]; [unfold free_page_list in E; lia|].
        apply list_elem_of_fmap in Hx as (p & E & Hp). destruct (head_not_page o' p Ho'); [|done].
        by apply (R_page _ _ _ HR o).
      * apply list_elem_of_fmap in Hn as (p & -> & Hp). destruct (R_page _ _ _ HR o' p Ho' Hp) as [Hpp _].
        apply elem_of_cons in Hx as [->%nd_inj|Hx]; [by apply (Hqf o')|].
        apply elem_of_cons in Hx as [E|Hx]; [destruct (head_not_page o p Ho Hpp (eq_sym E))|].
        apply list_elem_of_fmap in Hx as (p' & <-%nd_inj & Hp'). by destruct Hne; apply (R_sep _ _ _ HR o' o p).
    + destruct node_space as [_ _ _ _ Hsep]. specialize (Hsep x n Nx Nn E). unfold in_range, disjoint in *. lia.
  - intros o' Ho'. destruct (Z.eqb_spec o' o) as [->|]; [done|by apply (R_nodup _ _ _ HR)].
  - intros o1 o2 p H1 H2.
    destruct (Z.eqb_spec o1 o) as [->|N1], (Z.eqb_spec o2 o) as [->|N2]; intros I1 I2; try done.
    + destruct (Hl p I1) as [->|I1']; [by destruct (Hqf o2 H2 N2)|]. by apply (R_sep _ _ _ HR o o2 p).
    + destruct (Hl p I2) as [->|I2']; [by destruct (Hqf o1 H1 N1)|]. by apply (R_sep _ _ _ HR o1 o p).
    + by apply (R_sep _ _ _ HR o1 o2 p).
  - intros o' p Ho'. destruct (Z.eqb_spec o' o) as [->|].
    + intros Hp. destruct (Hl p Hp) as [->|Hp']; [done|by apply (R_page _ _ _ HR o)].
    + by apply (R_page _ _ _ HR).
  - intros i j Hi Hj. rewrite <- (R_bits _ _ _ HR i j Hi Hj). apply bit_agree, Hag.
    intros x Hx Ha. apply (node_not_byte i x _ Hi (list_nodes_mg m fl bv o q x HR Ho Hq Hx) Ha).
    by apply byte_in.
Qed.

(** ** The primitives *)

Lemma wp_list_detach_R fl bv o p (Q : unit -> kst -> Prop) s :
  R (mem s) fl bv -> order_ok o -> p ∈ fl o ->
  (forall m', R m' (fl_upd fl o (rm p (fl o))) bv -> agree keep (mem s) m' -> Q tt (set_mem m' s)) ->
  wp (list_detach (nd p)) Q s.
Proof.
  intros HR Ho Hp HQ. pose proof (R_page _ _ _ HR o p Ho Hp) as Hpp.
  pose proof (nodup_of _ _ _ o HR Ho) as Hnd. pose proof (nodes_of _ _ _ o HR Ho) as HN.
  pose proof (R_dll _ _ _ HR o Ho) as Hd. pose proof (R_nodup _ _ _ HR o Ho) as Hndl.
  destruct (list_elem_of_split _ _ Hp) as (l1 & l2 & E).
  assert (Erm : rm p (fl o) = l1 ++ l2).
  { rewrite E in Hndl |- *. by apply rm_split. }
  rewrite E, fmap_app, fmap_cons in Hnd, HN, Hd. unfold list_detach.
  eapply (wp_dl_detach 0 8 node 24); [exact Hnd|exact HN|exact Hd|]. intros m' Hd' Hag.
  assert (Hag' : agree (outside 24 (nd p :: free_page_list o :: (nd <$> fl o))) (mem s) m').
  { eapply agree_weaken; [|exact Hag]. intros a Ha x Hx. apply Ha.
    rewrite E, fmap_app, fmap_cons. lmem. }
  apply HQ.
  - rewrite Erm. eapply R_list_write; try done.
    + intros o' Ho' Hne Hin. apply Hne. by apply (R_sep _ _ _ HR o' o p).
    + intros x Hx. right. rewrite E. lmem.
    + rewrite E in Hndl. apply NoDup_app in Hndl as (N1 & N2 & N3). apply NoDup_cons in N3 as [N3 N4].
      apply NoDup_app. split_and!; [done| |done]. intros x Hx Hx'. apply (N2 x Hx). lmem.
    + by rewrite fmap_app.
  - eapply agree_weaken; [|exact Hag']. intros a Ha. by apply (list_write_keep (mem s) fl bv).
Qed.

Lemma wp_list_insert_R fl bv o p (Q : unit -> kst -> Prop) s :
  R (mem s) fl bv -> order_ok o -> page_ok p /\ mg p /\ P p ->
  (forall o', order_ok o' -> p ∉ fl o') ->
  (forall m', R m' (fl_upd fl o (p :: fl o)) bv -> agree keep (mem s) m' -> Q tt (set_mem m' s)) ->
  wp (list_insert (free_page_list o) (nd p)) Q s.
Proof.
  intros HR Ho Hpp Hp HQ.
  pose proof (nodup_of _ _ _ o HR Ho) as Hnd. pose proof (nodes_of _ _ _ o HR Ho) as HN.
  unfold list_insert. eapply (wp_dl_insert 0 8 node 24); [| |by apply (R_dll _ _ _ HR)|].
  - constructor; [|exact Hnd]. intros [E|Hx]%elem_of_cons.
    + destruct (head_not_page o p Ho ltac:(tauto) (eq_sym E)).
    + apply list_elem_of_fmap in Hx as (q & ->%nd_inj & Hq). by apply (Hp o).
  - constructor; [right; exists p; tauto|exact HN].
  - intros m' Hd' Hag. apply HQ.
    + eapply R_list_write; try done.
      * intros o' Ho' _. by apply Hp.
      * intros x Hx. lmem.
      * constructor; [by apply Hp|by apply (R_nodup _ _ _ HR)].
    + eapply agree_weaken; [|exact Hag]. intros a Ha. by apply (list_write_keep (mem s) fl bv).
Qed.

(** Changing one bit of one bitmap. *)
Lemma R_upd_bit m fl bv i j b :
  R m fl bv -> -1 <= i < MAX_MEM_ORDER -> 0 <= j < blen i ->
  R (upd_bit m (bmap i) j b) fl (bv_upd bv i j b) /\ agree keep m (upd_bit m (bmap i) j b).
Proof.
  intros HR Hi Hj. pose proof (byte_in i j Hj) as Hby. split; [split|].
  - intros o Ho. apply (dll_frame 0 8 node 24 m); [by apply (nodup_of m fl bv)| |by apply (R_dll _ _ _ HR)].
    apply upd_bit_agree. intros (n & Hn & Ha). 
    apply (node_not_byte i n (bmap i + j / 8) Hi); [|done|done].
    apply elem_of_cons in Hn as [->|Hn]; [left; eauto|].
    apply list_elem_of_fmap in Hn as (p & -> & Hp). right. exists p.
    destruct (R_page _ _ _ HR o p Ho Hp). tauto.
  - apply (R_nodup _ _ _ HR).
  - apply (R_sep _ _ _ HR).
  - apply (R_page _ _ _ HR).
  - intros i' j' Hi' Hj'. unfold bv_upd. destruct (Z.eqb_spec i' i) as [->|Hne]; simpl.
    + rewrite bit_upd, (Z.eqb_sym j' j). destruct (j =? j'); [done|]. by apply (R_bits _ _ _ HR).
    + rewrite <- (R_bits _ _ _ HR i' j' Hi' Hj'). apply bit_agree, upd_bit_out. intros E.
      pose proof (byte_in i' j' Hj'). pose proof (bm_maps i i' Hi Hi' ltac:(congruence)).
      unfold in_range, disjoint in *. lia.
  - apply upd_bit_agree. intros (_ & K & _). by apply (K i).
Qed.

Lemma wp_toggle_bit_R fl bv i j (Q : Z -> kst -> Prop) s :
  R (mem s) fl bv -> -1 <= i < MAX_MEM_ORDER -> 0 <= j < blen i ->
  (forall m', R m' fl (bv_upd bv i j (negb (bv i j))) -> agree keep (mem s) m' ->
     Q (Z.b2z (negb (bv i j))) (set_mem m' s)) ->
  wp (toggle_bit (bmap i) j) Q s.
Proof.
  intros HR Hi Hj HQ. apply wp_toggle_bit; [by apply bm_base|lia|]. cbv zeta.
  rewrite (R_bits _ _ _ HR i j Hi Hj). destruct (R_upd_bit _ _ _ i j (negb (bv i j)) HR Hi Hj). by apply HQ.
Qed.

Lemma wp_set_bit_R fl bv i j (Q : Z -> kst -> Prop) s :
  R (mem s) fl bv -> -1 <= i < MAX_MEM_ORDER -> 0 <= j < blen i ->
  (forall m', R m' fl (bv_upd bv i j true) -> agree keep (mem s) m' -> Q (Z.b2z (bv i j)) (set_mem m' s)) ->
  wp (test_and_set_bit (bmap i) j) Q s.
Proof.
  intros HR Hi Hj HQ. apply wp_test_and_set_bit; [by apply bm_base|lia|].
  rewrite (R_bits _ _ _ HR i j Hi Hj). destruct (R_upd_bit _ _ _ i j true HR Hi Hj). by apply HQ.
Qed.

Lemma wp_clear_bit_R fl bv i j (Q : Z -> kst -> Prop) s :
  R (mem s) fl bv -> -1 <= i < MAX_MEM_ORDER -> 0 <= j < blen i ->
  (forall m', R m' fl (bv_upd bv i j false) -> agree keep (mem s) m' -> Q (Z.b2z (bv i j)) (set_mem m' s)) ->
  wp (test_and_clear_bit (bmap i) j) Q s.
Proof.
  intros HR Hi Hj HQ. apply wp_test_and_clear_bit; [by apply bm_base|lia|].
  rewrite (R_bits _ _ _ HR i j Hi Hj). destruct (R_upd_bit _ _ _ i j false HR Hi Hj). by apply HQ.
Qed.

(** The relation only reads the allocator's own data and free pages. *)
Lemma R_agree m m' fl bv :
  agree (fun a => ~ in_range page_manager_lock sizeof_spinlock a) m m' -> R m fl bv -> R m' fl bv.
Proof.
  intros Hag HR.
  assert (Hlk : forall a, in_range page_manager_lock sizeof_spinlock a ->
    in_range sym_kmem 1024 a /\ forall o, order_ok o -> ~ in_range (free_page_list o) 24 a).
  { intros a Ha. unfold page_manager_lock, sizeof_spinlock, in_range in *. split; [lia|].
    intros o Ho. pose proof (head_bound o Ho). lia. }
  split.
  - intros o Ho. apply (dll_frame 0 8 node 24 m); [by apply (nodup_of m fl bv)| |by apply (R_dll _ _ _ HR)].
    intros a (n & Hn & Ha). apply Hag. intros Hl. destruct (Hlk a Hl) as [H1 H2].
    apply elem_of_cons in Hn as [->|Hn]; [by apply (H2 o)|].
    apply list_elem_of_fmap in Hn as (p & -> & Hp). destruct (R_page _ _ _ HR o p Ho Hp) as [Hpp _].
    pose proof (nd_bound p Hpp). pose proof sym_kmem_image.
    unfold in_range, PAGE_SIZE, VA_KERNEL_BEGIN, VA_KERNEL_IMG_BEGIN in *. lia.
  - apply (R_nodup _ _ _ HR).
  - apply (R_sep _ _ _ HR).
  - apply (R_page _ _ _ HR).
  - intros i j Hi Hj. rewrite <- (R_bits _ _ _ HR i j Hi Hj). apply bit_agree, Hag. intros Hl.
    destruct (Hlk _ Hl) as [H1 _]. pose proof (byte_in i j Hj). pose proof (bm_glob i Hi).
    unfold in_range, disjoint in *. lia.
Qed.
End rep.
End buddy_mem.
