(* ===== verification/BuddyInv.v ===== *)
(** * The buddy allocator's invariant, abstractly

    Free blocks as pairs (order, first page), listed in [fl] or, in the
    middle of an operation, floating in [F]; bitmap contents [bv].
    [AInv] says that the free blocks are aligned, disjoint, cover exactly the
    managed pages whose [mem_map] bit is clear, and that the bit of a pair of
    buddies is the parity of the number of them that are listed.  The lemmas
    are the steps of the allocator on that state: take a block, split it,
    merge a freed block with its buddy, list it. *)

From S2P Require Import Prelude Memory Machine Lists BuddyMem.

(** ** Buddies *)

Definition bud (o p : Z) : Z := p ^l 2 ^ o.
Definition pair_idx (o p : Z) : Z := p / 2 ^ (o + 1).
Definition in_blk (o p x : Z) : Prop := p <= x < p + 2 ^ o.

Lemma pow2_succ o : 0 <= o -> 2 ^ (o + 1) = 2 * 2 ^ o.
Proof. intros. rewrite Z.pow_add_r by lia. lia. Qed.

(** An aligned block is the lower or the upper half of its pair. *)
Lemma bud_cases o p :
  0 <= o -> p mod 2 ^ o = 0 ->
  exists j, pair_idx o p = j /\
    ((p = 2 * 2 ^ o * j /\ bud o p = p + 2 ^ o) \/ (p = 2 * 2 ^ o * j + 2 ^ o /\ bud o p = p - 2 ^ o)).
Proof.
  intros Ho Hp. pose proof (pow2_pos o Ho) as Ht. unfold bud, pair_idx.
  rewrite lxor_pow2, pow2_succ by done. set (t := 2 ^ o) in *.
  pose proof (Z.div_mod p t ltac:(lia)) as E. rewrite Hp in E.
  destruct (Z.even (p / t)) eqn:Ev.
  - apply Z.even_spec in Ev as [j Hj]. exists j. rewrite Hj in E.
    split; [|left; split; [lia|done]]. symmetry. apply Z.div_unique with 0; lia.
  - assert (Ho' : Z.Odd (p / t)) by (apply Z.odd_spec; rewrite <- Z.negb_even, Ev; done).
    destruct Ho' as [j Hj]. exists j. rewrite Hj in E.
    split; [|right; split; [lia|done]]. symmetry. apply Z.div_unique with t; lia.
Qed.

Lemma bud_bud o p : bud o (bud o p) = p.
Proof. unfold bud. rewrite Z.lxor_assoc, Z.lxor_nilpotent. apply Z.lxor_0_r. Qed.

Lemma bud_facts o p :
  0 <= o -> 0 <= p -> p mod 2 ^ o = 0 ->
  bud o p <> p /\ 0 <= bud o p /\ bud o p mod 2 ^ o = 0 /\ pair_idx o (bud o p) = pair_idx o p.
Proof.
  intros Ho H0 Hp. pose proof (pow2_pos o Ho) as Ht.
  assert (Hm : bud o p mod 2 ^ o = 0).
  { destruct (bud_cases o p Ho Hp) as (j & _ & [[E ->]|[E ->]]); rewrite E.
    - replace (2 * 2 ^ o * j + 2 ^ o) with ((2 * j + 1) * 2 ^ o) by lia. apply Z.mod_mul. lia.
    - replace (2 * 2 ^ o * j + 2 ^ o - 2 ^ o) with ((2 * j) * 2 ^ o) by lia. apply Z.mod_mul. lia. }
  split_and!; try done.
  - destruct (bud_cases o p Ho Hp) as (j & _ & [[E ->]|[E ->]]); lia.
  - destruct (bud_cases o p Ho Hp) as (j & _ & [[E ->]|[E ->]]); [lia|].
    assert (0 <= j) by nia. nia.
  - destruct (bud_cases o p Ho Hp) as (j & Hj & C). rewrite Hj.
    destruct (bud_cases o (bud o p) Ho Hm) as (j' & Hj' & C'). rewrite Hj'. rewrite bud_bud in C'. nia.
Qed.

Lemma same_pair o p q :
  0 <= o -> p mod 2 ^ o = 0 -> q mod 2 ^ o = 0 -> pair_idx o p = pair_idx o q -> q = p \/ q = bud o p.
Proof.
  intros Ho Hp Hq E. pose proof (pow2_pos o Ho).
  destruct (bud_cases o p Ho Hp) as (j & Hj & C), (bud_cases o q Ho Hq) as (j' & Hj' & C').
  assert (j = j') as <- by congruence. lia.
Qed.

(** Two buddies form a block of the next order. *)
Lemma pair_block o p :
  0 <= o -> 0 <= p -> p mod 2 ^ o = 0 ->
  let c := p - p mod 2 ^ (o + 1) in
  0 <= c /\ c mod 2 ^ (o + 1) = 0 /\ (forall x, in_blk (o + 1) c x <-> in_blk o p x \/ in_blk o (bud o p) x) /\
  c = Z.min p (bud o p).
Proof.
  intros Ho H0 Hp c. pose proof (pow2_pos o Ho). unfold in_blk.
  assert (Hc : c = 2 ^ (o + 1) * pair_idx o p).
  { unfold c, pair_idx. rewrite pow2_succ by done. pose proof (Z.div_mod p (2 * 2 ^ o) ltac:(lia)). lia. }
  destruct (bud_cases o p Ho Hp) as (j & Hj & C). rewrite Hj in Hc. rewrite pow2_succ in * by done.
  assert (0 <= j) by (destruct C as [[? _]|[? _]]; nia).
  split_and!; [nia| |intros x; lia|lia].
  rewrite Hc, Z.mul_comm. apply Z.mod_mul. lia.
Qed.

(** The halves of a block. *)
Lemma halves o p :
  0 < o -> 0 <= p -> p mod 2 ^ o = 0 ->
  p mod 2 ^ (o - 1) = 0 /\ bud (o - 1) p = p + 2 ^ (o - 1) /\
  (forall x, in_blk o p x <-> in_blk (o - 1) p x \/ in_blk (o - 1) (p + 2 ^ (o - 1)) x).
Proof.
  intros Ho H0 Hp. pose proof (pow2_pos (o - 1) ltac:(lia)) as Ht.
  assert (E : 2 ^ o = 2 * 2 ^ (o - 1)) by (rewrite <- pow2_succ by lia; f_equal; lia).
  unfold in_blk. rewrite E in *.
  pose proof (Z.div_mod p (2 * 2 ^ (o - 1)) ltac:(lia)) as Ed. rewrite Hp in Ed.
  assert (Hm : p mod 2 ^ (o - 1) = 0).
  { rewrite Ed. replace (2 * 2 ^ (o - 1) * (p / (2 * 2 ^ (o - 1))) + 0)
      with ((2 * (p / (2 * 2 ^ (o - 1)))) * 2 ^ (o - 1)) by lia. apply Z.mod_mul. lia. }
  split_and!; [done| |intros; lia].
  destruct (bud_cases (o - 1) p ltac:(lia) Hm) as (j & Hj & [[? ?]|[E1 ?]]); [done|].
  set (q := p / (2 * 2 ^ (o - 1))) in *. exfalso. destruct (Z.le_gt_cases q j); nia.
Qed.

(** The first page of a block is in the block. *)
Lemma in_blk_first o p : 0 <= o -> in_blk o p p.
Proof. intros Ho. pose proof (pow2_pos o Ho). unfold in_blk. lia. Qed.

(** Aligned blocks nest. *)
Lemma aligned_nest o p o' p' x :
  0 <= o <= o' -> p mod 2 ^ o = 0 -> p' mod 2 ^ o' = 0 -> in_blk o p x -> in_blk o' p' x ->
  forall y, in_blk o p y -> in_blk o' p' y.
Proof.
  intros Ho Hp Hp' I I' y Iy. pose proof (pow2_pos o ltac:(lia)) as Ht.
  pose proof (pow2_pos (o' - o) ltac:(lia)) as Ht'.
  assert (E : 2 ^ o' = 2 ^ (o' - o) * 2 ^ o) by (rewrite <- Z.pow_add_r by lia; f_equal; lia).
  unfold in_blk in *. rewrite E in *.
  pose proof (Z.div_mod p (2 ^ o) ltac:(lia)) as E1. rewrite Hp in E1.
  pose proof (Z.div_mod p' (2 ^ (o' - o) * 2 ^ o) ltac:(nia)) as E2. rewrite Hp' in E2.
  set (a := p / 2 ^ o) in *. set (b := p' / (2 ^ (o' - o) * 2 ^ o)) in *.
  set (t := 2 ^ o) in *. set (u := 2 ^ (o' - o)) in *.
  assert (u * b <= a) by nia. assert (a + 1 <= u * b + u) by nia. nia.
Qed.

Lemma aligned_same o p p' x :
  0 <= o -> p mod 2 ^ o = 0 -> p' mod 2 ^ o = 0 -> in_blk o p x -> in_blk o p' x -> p = p'.
Proof.
  intros Ho Hp Hp' I I'.
  pose proof (aligned_nest o p o p' x ltac:(lia) Hp Hp' I I' p (in_blk_first o p Ho)).
  pose proof (aligned_nest o p' o p x ltac:(lia) Hp' Hp I' I p' (in_blk_first o p' Ho)).
  unfold in_blk in *. lia.
Qed.

(** ** The invariant *)

Section inv.
Context (k : kmem_node_struct) (mg : Z -> Prop).

Definition blk (fl : Z -> list Z) (F : list (Z * Z)) (o p : Z) : Prop :=
  order_ok o /\ (p ∈ fl o \/ (o, p) ∈ F).

(** The bit of a pair is the parity of its listed members. *)
Definition parity (fl : Z -> list Z) (bv : Z -> Z -> bool) : Prop :=
  forall o p, order_ok o -> 0 <= p -> p mod 2 ^ o = 0 -> pair_idx o p < blen k o ->
    bv o (pair_idx o p) = xorb (bool_decide (p ∈ fl o)) (bool_decide (bud o p ∈ fl o)).

Record AInv (fl : Z -> list Z) (F : list (Z * Z)) (bv : Z -> Z -> bool) : Prop := {
  A_blk : forall o p, blk fl F o p -> 0 <= p /\ p mod 2 ^ o = 0 /\ p + 2 ^ o <= num_ppn k;
  A_disj : forall o1 p1 o2 p2 x, blk fl F o1 p1 -> blk fl F o2 p2 ->
    in_blk o1 p1 x -> in_blk o2 p2 x -> o1 = o2 /\ p1 = p2;
  A_float : forall o p, (o, p) ∈ F -> order_ok o /\ p ∉ fl o;
  A_free : forall o p x, blk fl F o p -> in_blk o p x -> mg x /\ bv (-1) x = false;
  A_cov : forall x, page_ok k x -> mg x -> bv (-1) x = false -> exists o p, blk fl F o p /\ in_blk o p x;
  A_par : parity fl bv;
}.

(** No two buddies below the top order are both listed, except possibly
    where [E] allows it. *)
Definition coalesced (E : Z -> Z -> Prop) (fl : Z -> list Z) : Prop :=
  forall o p, 0 <= o < MAX_MEM_ORDER - 1 -> 0 <= p -> p mod 2 ^ o = 0 ->
    p ∈ fl o -> bud o p ∈ fl o -> E o (pair_idx o p).

Lemma elem_of_upd fl o l o' p : p ∈ fl_upd fl o l o' <-> (if o' =? o then p ∈ l else p ∈ fl o').
Proof. unfold fl_upd. by destruct (o' =? o). Qed.

Lemma order_nonneg o : order_ok o -> 0 <= o.
Proof. unfold order_ok. lia. Qed.

Lemma blk_idx fl F bv o p : AInv fl F bv -> blk fl F o p -> 0 <= pair_idx o p < blen k o.
Proof.
  intros A B. destruct (A_blk _ _ _ A o p B) as (H0 & _ & H1). destruct B as [Ho _].
  pose proof (order_nonneg o Ho). pose proof (pow2_pos o ltac:(lia)). unfold pair_idx, blen.
  rewrite pow2_succ by done. split; [apply Z.div_pos; lia|].
  pose proof (Z.div_le_mono p (num_ppn k - 1) (2 * 2 ^ o) ltac:(lia) ltac:(lia)). lia.
Qed.

(** Listing or unlisting one block flips the bit of its pair. *)
Lemma parity_flip fl fl' bv o p :
  order_ok o -> 0 <= p -> p mod 2 ^ o = 0 -> pair_idx o p < blen k o ->
  parity fl bv ->
  (forall o' q, order_ok o' -> (o' <> o \/ q <> p) -> (q ∈ fl' o' <-> q ∈ fl o')) ->
  (p ∈ fl' o <-> p ∉ fl o) ->
  parity fl' (bv_upd bv o (pair_idx o p) (negb (bv o (pair_idx o p)))).
Proof.
  intros Ho H0 Hp Hlt HP Hsame Hflip o' q Ho' Hq Hq' Hql. pose proof (order_nonneg o Ho).
  destruct (bud_facts o p ltac:(lia) H0 Hp) as (Bne & B0 & Bm & Bi).
  unfold bv_upd. destruct (Z.eqb_spec o' o) as [->|Hne]; simpl.
  - destruct (Z.eqb_spec (pair_idx o q) (pair_idx o p)) as [E|E].
    + assert (Ebp : bool_decide (bud o p ∈ fl' o) = bool_decide (bud o p ∈ fl o))
        by (apply bool_decide_ext, Hsame; auto).
      assert (Ep : bool_decide (p ∈ fl' o) = negb (bool_decide (p ∈ fl o)))
        by (rewrite <- bool_decide_not; by apply bool_decide_ext).
      rewrite (HP o p) by done.
      destruct (same_pair o p q ltac:(lia) Hp Hq' ltac:(done)) as [-> | ->].
      * rewrite Ep, Ebp. by destruct (bool_decide (p ∈ fl o)), (bool_decide (bud o p ∈ fl o)).
      * rewrite bud_bud, Ep, Ebp. by destruct (bool_decide (p ∈ fl o)), (bool_decide (bud o p ∈ fl o)).
    + assert (Eb : bud o q <> p).
      { intros Eb. destruct (bud_facts o q ltac:(lia) Hq Hq') as (_ & _ & _ & I). congruence. }
      rewrite (HP o q) by done.
      f_equal; apply bool_decide_ext; symmetry; apply Hsame; try done; right; congruence.
  - rewrite (HP o' q) by done. f_equal; apply bool_decide_ext; symmetry; apply Hsame; auto.
Qed.

Lemma parity_ext fl bv bv' :
  (forall o j, order_ok o -> bv' o j = bv o j) -> parity fl bv -> parity fl bv'.
Proof. intros H HP o p Ho H0 Hp Hlt. rewrite H by done. by apply HP. Qed.

(** Taking a block off its list. *)
Lemma A_take fl bv o p :
  AInv fl [] bv -> order_ok o -> p ∈ fl o ->
  AInv (fl_upd fl o (rm p (fl o))) [(o, p)] (bv_upd bv o (pair_idx o p) (negb (bv o (pair_idx o p)))).
Proof.
  intros A Ho Hp. assert (B : blk fl [] o p) by (split; auto).
  destruct (A_blk _ _ _ A o p B) as (H0 & Hm & Hn). pose proof (blk_idx _ _ _ o p A B).
  assert (Hb : forall o' q, blk (fl_upd fl o (rm p (fl o))) [(o, p)] o' q <-> blk fl [] o' q).
  { intros o' q. unfold blk. rewrite elem_of_upd. destruct (Z.eqb_spec o' o) as [->|Hne].
    - rewrite elem_of_rm, list_elem_of_singleton, elem_of_nil. destruct (Z.eq_dec q p) as [->|].
      + tauto. + split; [|tauto]. intros [? [?|?]]; [tauto|congruence].
    - rewrite list_elem_of_singleton, elem_of_nil. split; [|tauto]. intros [? [?|?]]; [tauto|congruence]. }
  assert (Hbv : forall x, bv_upd bv o (pair_idx o p) (negb (bv o (pair_idx o p))) (-1) x = bv (-1) x).
  { intros. unfold bv_upd. destruct (Z.eqb_spec (-1) o); [unfold order_ok in Ho; lia|done]. }
  split.
  - intros o' q Hq. by apply (A_blk _ _ _ A), Hb.
  - intros o1 p1 o2 p2 x H1%Hb H2%Hb. by apply (A_disj _ _ _ A).
  - intros o' q [= -> ->]%list_elem_of_singleton. split; [done|].
    rewrite elem_of_upd, Z.eqb_refl, elem_of_rm. tauto.
  - intros o' q x H1%Hb. rewrite Hbv. by apply (A_free _ _ _ A).
  - intros x Hx Hmx. rewrite Hbv. intros Hf. destruct (A_cov _ _ _ A x Hx Hmx Hf) as (o' & q & H1 & H2).
    exists o', q. split; [by apply Hb|done].
  - apply (parity_flip fl); try done; try lia.
    + apply A.
    + intros o' q Ho' Hne. rewrite elem_of_upd. destruct (Z.eqb_spec o' o) as [->|]; [|done].
      rewrite elem_of_rm. split; [tauto|]. intros. split; [|done]. destruct Hne; congruence.
    + rewrite elem_of_upd, Z.eqb_refl, elem_of_rm. tauto.
Qed.

(** Listing a floating block. *)
Lemma A_list fl bv o p :
  AInv fl [(o, p)] bv ->
  AInv (fl_upd fl o (p :: fl o)) [] (bv_upd bv o (pair_idx o p) (negb (bv o (pair_idx o p)))).
Proof.
  intros A. destruct (A_float _ _ _ A o p ltac:(apply list_elem_of_here)) as [Ho Hnp].
  assert (B : blk fl [(o, p)] o p) by (split; [done|right; apply list_elem_of_here]).
  destruct (A_blk _ _ _ A o p B) as (H0 & Hm & Hn). pose proof (blk_idx _ _ _ o p A B).
  assert (Hb : forall o' q, blk (fl_upd fl o (p :: fl o)) [] o' q <-> blk fl [(o, p)] o' q).
  { intros o' q. unfold blk. rewrite elem_of_upd, list_elem_of_singleton, elem_of_nil.
    destruct (Z.eqb_spec o' o) as [->|Hne]; [rewrite elem_of_cons|]; intuition congruence. }
  assert (Hbv : forall x, bv_upd bv o (pair_idx o p) (negb (bv o (pair_idx o p))) (-1) x = bv (-1) x).
  { intros. unfold bv_upd. destruct (Z.eqb_spec (-1) o); [unfold order_ok in Ho; lia|done]. }
  split.
  - intros o' q Hq. by apply (A_blk _ _ _ A), Hb.
  - intros o1 p1 o2 p2 x H1%Hb H2%Hb. by apply (A_disj _ _ _ A).
  - intros o' q Hq. by apply elem_of_nil in Hq.
  - intros o' q x H1%Hb. rewrite Hbv. by apply (A_free _ _ _ A).
  - intros x Hx Hmx. rewrite Hbv. intros Hf. destruct (A_cov _ _ _ A x Hx Hmx Hf) as (o' & q & H1 & H2).
    exists o', q. split; [by apply Hb|done].
  - apply (parity_flip fl); try done; try lia.
    + apply A.
    + intros o' q Ho' Hne. rewrite elem_of_upd. destruct (Z.eqb_spec o' o) as [->|]; [|done].
      rewrite elem_of_cons. destruct Hne; intuition congruence.
    + rewrite elem_of_upd, Z.eqb_refl, elem_of_cons. tauto.
Qed.

(** A floating block is disjoint from the listed ones. *)
Lemma A_float_disj fl bv o p o' q x :
  AInv fl [(o, p)] bv -> order_ok o' -> q ∈ fl o' -> in_blk o p x -> ~ in_blk o' q x.
Proof.
  intros A Ho' Hq H1 H2. destruct (A_float _ _ _ A o p ltac:(apply list_elem_of_here)) as [Ho Hnp].
  destruct (A_disj _ _ _ A o p o' q x) as [-> ->]; try done.
  - split; [done|right; apply list_elem_of_here].
  - split; auto.
Qed.

(** Listing two buddies together flips no bit. *)
Lemma parity_buddies fl fl' bv o p q :
  parity fl bv -> bud o p = q -> p ∉ fl o -> q ∉ fl o ->
  (forall o' r, r ∈ fl' o' <-> r ∈ fl o' \/ (o' = o /\ (r = p \/ r = q))) -> parity fl' bv.
Proof.
  intros HP Eb Np Nq Hmem o' r Ho' Hr0 Hrm Hrl. rewrite (HP o' r) by done.
  destruct (Z.eq_dec o' o) as [->|Hne].
  2:{ f_equal; apply bool_decide_ext; rewrite Hmem; intuition congruence. }
  assert (Hbud : forall r, r = p \/ r = q -> bud o r = p \/ bud o r = q).
  { intros r' [-> | ->]; [auto|]. left. rewrite <- Eb. apply bud_bud. }
  assert (Hnl : forall r, r = p \/ r = q -> r ∉ fl o) by (intros r' [-> | ->]; done).
  destruct (decide (r = p \/ r = q)) as [C|C].
  - rewrite !bool_decide_eq_false_2 by auto. by rewrite !bool_decide_eq_true_2 by (apply Hmem; auto).
  - f_equal; apply bool_decide_ext; rewrite Hmem; [tauto|].
    split; [tauto|]. intros [?|[_ Hbr]]; [done|]. destruct C. rewrite <- (bud_bud o r). by apply Hbud.
Qed.

(** Replacing the floating block by its two halves, both listed. *)
Lemma A_halve fl bv o p :
  AInv fl [(o, p)] bv -> 0 < o ->
  let fl1 := fl_upd fl (o - 1) (p :: fl (o - 1)) in
  AInv (fl_upd fl1 (o - 1) (p + 2 ^ (o - 1) :: fl1 (o - 1))) [] bv.
Proof.
  intros A Hpos fl1. destruct (A_float _ _ _ A o p ltac:(apply list_elem_of_here)) as [Ho Hnp].
  assert (B : blk fl [(o, p)] o p) by (split; [done|right; apply list_elem_of_here]).
  destruct (A_blk _ _ _ A o p B) as (H0 & Hm & Hn). pose proof (order_nonneg o Ho).
  destruct (halves o p Hpos H0 Hm) as (Hm' & Eb & Hx). set (q := p + 2 ^ (o - 1)) in *.
  pose proof (pow2_pos (o - 1) ltac:(lia)) as Ht.
  assert (E2 : 2 ^ o = 2 * 2 ^ (o - 1)) by (rewrite <- pow2_succ by lia; f_equal; lia).
  assert (Ho1 : order_ok (o - 1)) by (unfold order_ok in *; lia).
  destruct (bud_facts (o - 1) p ltac:(lia) H0 Hm') as (_ & Bq0 & Bqm & Bqi). rewrite Eb in *. 
  assert (Hmem : forall o' r, r ∈ fl_upd fl1 (o - 1) (q :: fl1 (o - 1)) o' <->
    r ∈ fl o' \/ (o' = o - 1 /\ (r = p \/ r = q))).
  { intros o' r. unfold fl1, fl_upd. rewrite Z.eqb_refl.
    destruct (Z.eqb_spec o' (o - 1)) as [->|]; rewrite ?elem_of_cons; intuition congruence. }
  assert (Hb : forall o' r, blk (fl_upd fl1 (o - 1) (q :: fl1 (o - 1))) [] o' r ->
     blk fl [(o, p)] o' r /\ (order_ok o' /\ r ∈ fl o') \/ (o' = o - 1 /\ (r = p \/ r = q))).
  { intros o' r [Ho' [Hr|Hr]]; [|by apply elem_of_nil in Hr]. apply Hmem in Hr as [Hr|Hr]; [|tauto].
    left. split; [split; auto|done]. }
  assert (Hsub : forall r x, r = p \/ r = q -> in_blk (o - 1) r x -> in_blk o p x)
    by (intros r x [-> | ->] ?; apply Hx; auto).
  split.
  - intros o' r [[H1 _]|[-> [-> | ->]]]%Hb; [by apply (A_blk _ _ _ A)| |]; unfold q in *; split_and!; try done; lia.
  - intros o1 p1 o2 p2 x H1 H2 I1 I2.
    apply Hb in H1 as [[H1 [O1 L1]]|[-> C1]]; apply Hb in H2 as [[H2 [O2 L2]]|[-> C2]].
    + by apply (A_disj _ _ _ A o1 p1 o2 p2 x).
    + destruct (A_float_disj fl bv o p o1 p1 x); eauto.
    + destruct (A_float_disj fl bv o p o2 p2 x); eauto.
    + split; [done|]. unfold in_blk, q in *. lia.
  - intros o' r Hr. by apply elem_of_nil in Hr.
  - intros o' r x [[H1 _]|[-> C]]%Hb I; [by apply (A_free _ _ _ A o' r)|].
    apply (A_free _ _ _ A o p); eauto.
  - intros x Hxo Hmx Hf. destruct (A_cov _ _ _ A x Hxo Hmx Hf) as (o' & r & [Ho' [Hr|Hr]] & I).
    + exists o', r. split; [|done]. split; [done|]. left. apply Hmem. auto.
    + apply list_elem_of_singleton in Hr as [= -> ->]. apply Hx in I as [I|I];
        [exists (o - 1), p|exists (o - 1), q]; (split; [split; [done|left; apply Hmem; auto]|done]).
  - apply (parity_buddies fl _ bv (o - 1) p q); try done; [apply A| |]; intros Hin.
    + apply (A_float_disj fl bv o p (o - 1) p p); try done; [apply (Hsub p); [auto|]|]; apply in_blk_first; lia.
    + apply (A_float_disj fl bv o p (o - 1) q q); try done; [apply (Hsub q); [auto|]|]; apply in_blk_first; lia.
Qed.

Lemma elem_of_unlist fl o b o' r : r ∈ fl_upd fl o (rm b (fl o)) o' <-> r ∈ fl o' /\ ~ (o' = o /\ r = b).
Proof. rewrite elem_of_upd. destruct (Z.eqb_spec o' o) as [->|]; [rewrite elem_of_rm|]; tauto. Qed.

(** A set bit beside a floating block: its buddy is listed. *)
Lemma A_buddy_listed fl bv o p :
  AInv fl [(o, p)] bv -> o < MAX_MEM_ORDER - 1 -> bv o (pair_idx o p) = true -> bud o p ∈ fl o.
Proof.
  intros A Hlt Hbit. destruct (A_float _ _ _ A o p ltac:(apply list_elem_of_here)) as [Ho Hnp].
  assert (B : blk fl [(o, p)] o p) by (split; [done|right; apply list_elem_of_here]).
  destruct (A_blk _ _ _ A o p B) as (H0 & Hm & Hn). pose proof (blk_idx _ _ _ o p A B).
  pose proof (A_par _ _ _ A o p Ho H0 Hm ltac:(lia)) as E. rewrite Hbit in E.
  rewrite (bool_decide_eq_false_2 (p ∈ fl o)) in E by done. simpl in E. symmetry in E. by apply bool_decide_eq_true_1 in E.
Qed.

(** Merging the floating block with its listed buddy. *)
Lemma A_merge fl bv o p :
  AInv fl [(o, p)] bv -> o < MAX_MEM_ORDER - 1 -> bv o (pair_idx o p) = true ->
  bud o p ∈ fl o /\
  AInv (fl_upd fl o (rm (bud o p) (fl o))) [(o + 1, p - p mod 2 ^ (o + 1))]
    (bv_upd bv o (pair_idx o p) false).
Proof.
  intros A Hlt Hbit. destruct (A_float _ _ _ A o p ltac:(apply list_elem_of_here)) as [Ho Hnp].
  assert (B : blk fl [(o, p)] o p) by (split; [done|right; apply list_elem_of_here]).
  destruct (A_blk _ _ _ A o p B) as (H0 & Hm & Hn). pose proof (order_nonneg o Ho) as Hge.
  pose proof (blk_idx _ _ _ o p A B) as Hidx.
  destruct (bud_facts o p Hge H0 Hm) as (Bne & Bq0 & Bqm & Bqi).
  destruct (pair_block o p Hge H0 Hm) as (C0 & Cm & Cx & Cmin).
  set (b := bud o p) in *. set (c := p - p mod 2 ^ (o + 1)) in *.
  pose proof (A_buddy_listed fl bv o p A Hlt Hbit : b ∈ fl o) as Hb.
  split; [done|]. assert (Bb : blk fl [(o, p)] o b) by (split; auto).
  destruct (A_blk _ _ _ A o b Bb) as (_ & _ & Hbn).
  set (fl' := fl_upd fl o (rm b (fl o))).
  assert (Hmem : forall o' r, r ∈ fl' o' <-> r ∈ fl o' /\ ~ (o' = o /\ r = b)) by apply elem_of_unlist.
  assert (Hbl : forall o' r, blk fl' [(o + 1, c)] o' r ->
     (order_ok o' /\ r ∈ fl o' /\ ~ (o' = o /\ r = b)) \/ (o' = o + 1 /\ r = c)).
  { intros o' r [Ho' [Hr|Hr]]; [apply Hmem in Hr; tauto|].
    apply list_elem_of_singleton in Hr as [= -> ->]. auto. }
  assert (Hold : forall o' r, order_ok o' -> r ∈ fl o' -> blk fl [(o, p)] o' r) by (split; auto).
  assert (Hc : forall o' r x, order_ok o' -> r ∈ fl o' -> ~ (o' = o /\ r = b) ->
     in_blk o' r x -> ~ in_blk (o + 1) c x).
  { intros o' r x Ho' Hr Hne I1 [I2|I2]%Cx; [by apply (A_float_disj fl bv o p o' r x)|].
    destruct (A_disj _ _ _ A o' r o b x); auto. }
  assert (Hbv : forall x, bv_upd bv o (pair_idx o p) false (-1) x = bv (-1) x).
  { intros. unfold bv_upd. destruct (Z.eqb_spec (-1) o); [unfold order_ok in Ho; lia|done]. }
  split.
  - intros o' r [(Ho' & Hr & _)|[-> ->]]%Hbl; [by apply (A_blk _ _ _ A), Hold|].
    split_and!; [done|done|]. pose proof (pow2_pos (o + 1) ltac:(lia)).
    destruct (proj1 (Cx (c + 2 ^ (o + 1) - 1)) ltac:(unfold in_blk; lia)); unfold in_blk in *; lia.
  - intros o1 p1 o2 p2 x H1 H2 I1 I2.
    apply Hbl in H1 as [(O1 & L1 & N1)|[-> ->]]; apply Hbl in H2 as [(O2 & L2 & N2)|[-> ->]].
    + apply (A_disj _ _ _ A o1 p1 o2 p2 x); auto.
    + by destruct (Hc o1 p1 x).
    + by destruct (Hc o2 p2 x).
    + done.
  - intros o' r [= -> ->]%list_elem_of_singleton. split; [unfold order_ok in *; lia|].
    intros [Hr Hne]%Hmem. apply (Hc (o + 1) c c); try done; try (apply in_blk_first; lia).
    unfold order_ok in *. lia.
  - intros o' r x H1 I. rewrite Hbv. apply Hbl in H1 as [(Ho' & Hr & _)|[-> ->]].
    + apply (A_free _ _ _ A o' r); auto.
    + apply Cx in I as [I|I]; [apply (A_free _ _ _ A o p)|apply (A_free _ _ _ A o b)]; auto.
  - intros x Hx Hmx. rewrite Hbv. intros Hf.
    assert (Hnew : in_blk (o + 1) c x -> exists o' r, blk fl' [(o + 1, c)] o' r /\ in_blk o' r x).
    { intros I. exists (o + 1), c. split; [|done]. split; [unfold order_ok in *; lia|right; apply list_elem_of_here]. }
    destruct (A_cov _ _ _ A x Hx Hmx Hf) as (o' & r & [Ho' [Hr|Hr]] & I).
    + destruct (decide (o' = o /\ r = b)) as [[-> ->]|Hne]; [apply Hnew, Cx; auto|].
      exists o', r. split; [|done]. split; [done|left; by apply Hmem].
    + apply list_elem_of_singleton in Hr as [= -> ->]. apply Hnew, Cx. auto.
  - rewrite <- Bqi, <- (eq_refl : negb true = false), <- Hbit, <- Bqi.
    apply (parity_flip fl); try done; [lia| apply A | |].
    + intros o' r Ho' Hne. rewrite Hmem. intuition congruence.
    + rewrite Hmem. tauto.
Qed.

(** Freeing starts by clearing the bit of an allocated page: the page becomes
    a floating block of order 0. *)
Lemma A_clear fl bv p :
  AInv fl [] bv -> page_ok k p -> mg p -> bv (-1) p = true ->
  AInv fl [(0, p)] (bv_upd bv (-1) p false).
Proof.
  intros A Hp Hmp Hbit.
  assert (Hbv : forall x, bv_upd bv (-1) p false (-1) x = if x =? p then false else bv (-1) x) by done.
  assert (Hb : forall o r, blk fl [(0, p)] o r -> blk fl [] o r \/ (o = 0 /\ r = p)).
  { intros o r [Ho [Hr|Hr]]; [left; split; auto|]. apply list_elem_of_singleton in Hr as [= -> ->]. auto. }
  assert (Hnp : forall o r, blk fl [] o r -> ~ in_blk o r p).
  { intros o r H1 I. destruct (A_free _ _ _ A o r p H1 I). congruence. }
  assert (I0 : forall x, in_blk 0 p x <-> x = p) by (unfold in_blk; simpl; lia).
  unfold page_ok in Hp. split.
  - intros o r [H1|[-> ->]]%Hb; [by apply (A_blk _ _ _ A)|]. rewrite Z.mod_1_r. simpl. lia.
  - intros o1 p1 o2 p2 x [H1|[-> ->]]%Hb [H2|[-> ->]]%Hb I1 I2.
    + by apply (A_disj _ _ _ A o1 p1 o2 p2 x).
    + apply I0 in I2 as ->. by destruct (Hnp o1 p1).
    + apply I0 in I1 as ->. by destruct (Hnp o2 p2).
    + done.
  - intros o r [= -> ->]%list_elem_of_singleton. split; [unfold order_ok, MAX_MEM_ORDER; lia|].
    intros Hr. apply (Hnp 0 p); [|by apply I0]. split; [unfold order_ok, MAX_MEM_ORDER; lia|auto].
  - intros o r x [H1|[-> ->]]%Hb I; rewrite Hbv.
    + destruct (A_free _ _ _ A o r x H1 I). split; [done|]. by destruct (x =? p).
    + apply I0 in I as ->. by rewrite Z.eqb_refl.
  - intros x Hx Hmx. rewrite Hbv. destruct (Z.eqb_spec x p) as [->|]; intros Hf.
    + exists 0, p. split; [|by apply I0]. split; [unfold order_ok, MAX_MEM_ORDER; lia|right; apply list_elem_of_here].
    + destruct (A_cov _ _ _ A x Hx Hmx Hf) as (o & r & [Ho [Hr|Hr]] & I); [|by apply elem_of_nil in Hr].
      exists o, r. split; [split; auto|done].
  - apply (parity_ext _ bv); [|apply A]. intros o j Ho. unfold bv_upd.
    destruct (Z.eqb_spec o (-1)); [unfold order_ok in *; lia|done].
Qed.

(** Allocation ends by marking the pages of the floating block. *)
Definition mark (bv : Z -> Z -> bool) (lo hi i j : Z) : bool :=
  if (i =? -1) && (lo <=? j) && (j <? hi) then true else bv i j.

Lemma A_mark fl bv o p : AInv fl [(o, p)] bv -> AInv fl [] (mark bv p (p + 2 ^ o)).
Proof.
  intros A.
  assert (Hbv : forall x, ~ in_blk o p x -> mark bv p (p + 2 ^ o) (-1) x = bv (-1) x).
  { intros x Hx. unfold mark. simpl. destruct (Z.leb_spec p x), (Z.ltb_spec x (p + 2 ^ o)); try done.
    destruct Hx. unfold in_blk. lia. }
  assert (Hb : forall o' r, blk fl [] o' r -> (order_ok o' /\ r ∈ fl o') /\ blk fl [(o, p)] o' r).
  { intros o' r [Ho [Hr|Hr]]; [|by apply elem_of_nil in Hr]. split; [done|split; auto]. }
  split.
  - intros o' r [_ H1]%Hb. by apply (A_blk _ _ _ A).
  - intros o1 p1 o2 p2 x [_ H1]%Hb [_ H2]%Hb. by apply (A_disj _ _ _ A).
  - intros o' r Hr. by apply elem_of_nil in Hr.
  - intros o' r x [[Ho' Hr] H1]%Hb I. rewrite Hbv; [by apply (A_free _ _ _ A o' r)|].
    intros I'. by apply (A_float_disj fl bv o p o' r x).
  - intros x Hx Hmx Hf.
    assert (Hn : ~ in_blk o p x).
    { intros I. unfold mark, in_blk in *. rewrite (proj2 (Z.leb_le _ _)), (proj2 (Z.ltb_lt _ _)) in Hf by lia. done. }
    rewrite Hbv in Hf by done. destruct (A_cov _ _ _ A x Hx Hmx Hf) as (o' & r & [Ho' [Hr|Hr]] & I).
    + exists o', r. split; [split; auto|done].
    + apply list_elem_of_singleton in Hr as [= -> ->]. done.
  - apply (parity_ext _ bv); [|apply A]. intros o' j Ho. unfold mark.
    destruct (Z.eqb_spec o' (-1)); [unfold order_ok in *; lia|done].
Qed.

(** ** Coalescing *)

Definition nowhere (o j : Z) : Prop := False.
Definition only (o p o' j : Z) : Prop := o' = o /\ j = pair_idx o p.

Lemma coalesced_weaken (E E' : Z -> Z -> Prop) fl :
  (forall o j, E o j -> E' o j) -> coalesced E fl -> coalesced E' fl.
Proof. intros H C o p Ho H0 Hm H1 H2. apply H. by apply C. Qed.

(** Unlisting a member of the exceptional pair removes the exception. *)
Lemma coalesced_rm fl o p :
  0 <= o -> 0 <= p -> p mod 2 ^ o = 0 -> coalesced (only o p) fl -> coalesced nowhere (fl_upd fl o (rm p (fl o))).
Proof.
  intros Hge Hp0 Hpm C o' q Ho' H0 Hm. rewrite !elem_of_upd.
  destruct (Z.eqb_spec o' o) as [->|Hne].
  - rewrite !elem_of_rm. intros [N1 H1] [N2 H2]. destruct (C o q Ho' H0 Hm H1 H2) as [_ E].
    destruct (same_pair o p q Hge Hpm Hm ltac:(done)) as [-> | ->]; [done|].
    by rewrite bud_bud in N2.
  - intros H1 H2. destruct (C o' q Ho' H0 Hm H1 H2) as [E _]. done.
Qed.

Lemma coalesced_rm_any fl o p :
  coalesced nowhere fl -> coalesced nowhere (fl_upd fl o (rm p (fl o))).
Proof.
  intros C o' q Ho' H0 Hm. rewrite !elem_of_upd.
  destruct (Z.eqb_spec o' o) as [->|Hne]; rewrite ?elem_of_rm; intros H1 H2;
    [apply (C o q)|apply (C o' q)]; tauto.
Qed.

(** Listing both halves of a block creates one exception. *)
Lemma coalesced_halve fl o p :
  0 < o -> 0 <= p -> p mod 2 ^ o = 0 -> coalesced nowhere fl ->
  let fl1 := fl_upd fl (o - 1) (p :: fl (o - 1)) in
  (forall r, r = p \/ r = p + 2 ^ (o - 1) -> r ∉ fl (o - 1)) ->
  coalesced (only (o - 1) p) (fl_upd fl1 (o - 1) (p + 2 ^ (o - 1) :: fl1 (o - 1))).
Proof.
  intros Hpos Hp0 Hpm C fl1 Hnl o' r Ho' H0 Hm. unfold fl1, fl_upd. rewrite Z.eqb_refl.
  destruct (halves o p Hpos Hp0 Hpm) as (Hm' & Eb & _).
  destruct (bud_facts (o - 1) p ltac:(lia) Hp0 Hm') as (_ & _ & _ & Bi).
  destruct (Z.eqb_spec o' (o - 1)) as [->|Hne]; [|intros H1 H2; by destruct (C o' r)].
  rewrite !elem_of_cons, <- Eb in *. intros H1 H2. split; [done|].
  destruct H1 as [-> | [-> | H1]]; [done|done|].
  destruct H2 as [E | [E | H2]]; [| |by destruct (C (o - 1) r)].
  - assert (r = p) as -> by (rewrite <- (bud_bud (o - 1) r), E; apply bud_bud). done.
  - assert (r = bud (o - 1) p) as -> by (rewrite <- E; by rewrite bud_bud). done.
Qed.

(** Listing a floating block whose buddy is not listed. *)
Lemma coalesced_list fl bv o p :
  AInv fl [(o, p)] bv -> bv o (pair_idx o p) = false \/ o = MAX_MEM_ORDER - 1 ->
  coalesced nowhere fl -> coalesced nowhere (fl_upd fl o (p :: fl o)).
Proof.
  intros A Hbit C. destruct (A_float _ _ _ A o p ltac:(apply list_elem_of_here)) as [Ho Hnp].
  assert (B : blk fl [(o, p)] o p) by (split; [done|right; apply list_elem_of_here]).
  destruct (A_blk _ _ _ A o p B) as (Hp0 & Hpm & _). pose proof (blk_idx _ _ _ o p A B).
  pose proof (order_nonneg o Ho) as Hge.
  intros o' q Ho' H0 Hm. rewrite !elem_of_upd.
  destruct (Z.eqb_spec o' o) as [->|Hne]; [|intros H1 H2; by apply (C o' q)].
  destruct Hbit as [Hbit| ->]; [|lia].
  rewrite (A_par _ _ _ A o p Ho Hp0 Hpm ltac:(lia)), (bool_decide_eq_false_2 (p ∈ fl o)) in Hbit by done.
  simpl in Hbit. apply bool_decide_eq_false_1 in Hbit.
  destruct (bud_facts o p Hge Hp0 Hpm) as (Bne & _).
  rewrite !elem_of_cons. intros [-> | H1] [E|H2]; try done.
  - apply Hbit. rewrite <- E, bud_bud. done.
  - by apply (C o q).
Qed.

(** A fully coalesced allocator has a listed block around every aligned run of
    free pages. *)
Lemma aligned_run_listed fl bv o p :
  AInv fl [] bv -> coalesced nowhere fl -> order_ok o -> 0 <= p -> p mod 2 ^ o = 0 ->
  (forall x, in_blk o p x -> page_ok k x /\ mg x /\ bv (-1) x = false) ->
  exists o' p', order_ok o' /\ o <= o' /\ p' ∈ fl o' /\ forall x, in_blk o p x -> in_blk o' p' x.
Proof.
  intros A C Ho. pose proof (order_nonneg o Ho) as Hge. revert p.
  revert Ho. pattern o. apply natlike_ind; [| |done]; clear o Hge.
  - intros Ho p H0 Hm Hx. assert (I0 : forall x, in_blk 0 p x <-> x = p) by (unfold in_blk; simpl; lia).
    destruct (Hx p ltac:(by apply I0)) as (Hp & Hmp & Hf).
    destruct (A_cov _ _ _ A p Hp Hmp Hf) as (o' & r & [Ho' [Hr|Hr]] & I); [|by apply elem_of_nil in Hr].
    exists o', r. split_and!; [done|apply Ho'|done|]. by intros x ->%I0.
  - intros o Hge IH Ho p H0 Hm Hx.
    destruct (halves (Z.succ o) p ltac:(lia) H0 Hm) as (Hm' & Eb & Hh).
    replace (Z.succ o - 1) with o in * by lia. pose proof (pow2_pos o Hge).
    assert (Ho' : order_ok o) by (unfold order_ok in *; lia).
    destruct (bud_facts o p Hge H0 Hm') as (Bne & Bq0 & Bqm & Bqi). rewrite Eb in *.
    destruct (IH Ho' p H0 Hm') as (o1 & p1 & O1 & L1 & I1 & S1); [intros; apply Hx, Hh; auto|].
    destruct (IH Ho' (p + 2 ^ o) Bq0 Bqm) as (o2 & p2 & O2 & L2 & I2 & S2); [intros; apply Hx, Hh; auto|].
    assert (B1 : blk fl [] o1 p1) by (split; auto). assert (B2 : blk fl [] o2 p2) by (split; auto).
    destruct (A_blk _ _ _ A o1 p1 B1) as (? & M1 & _). destruct (A_blk _ _ _ A o2 p2 B2) as (? & M2 & _).
    assert (Hp : in_blk (Z.succ o) p p) by (apply in_blk_first; lia).
    assert (Hq : in_blk (Z.succ o) p (p + 2 ^ o)) by (apply Hh; right; apply in_blk_first; lia).
    destruct (Z.eq_dec o1 o) as [->|N1]; [destruct (Z.eq_dec o2 o) as [->|N2]|].
    + assert (p1 = p) as -> by (apply (aligned_same o _ _ p); try done; apply S1 || apply in_blk_first; by try apply in_blk_first).
      assert (p2 = p + 2 ^ o) as -> by (apply (aligned_same o _ _ (p + 2 ^ o)); try done; apply S2 || apply in_blk_first; by try apply in_blk_first).
      destruct (C o p); try done; [unfold order_ok in *; lia|by rewrite Eb].
    + exists o2, p2. split_and!; [done|lia|done|].
      apply (aligned_nest (Z.succ o) p o2 p2 (p + 2 ^ o)); try done; [lia|]. apply S2, in_blk_first. lia.
    + exists o1, p1. split_and!; [done|lia|done|].
      apply (aligned_nest (Z.succ o) p o1 p1 p); try done; [lia|]. apply S1, in_blk_first. lia.
Qed.
End inv.
