(* ===== verification/BuddyProofs.v ===== *)
(** * Correctness of the page allocator

    [buddy_ok mg s]: the state satisfies the buddy invariant for the managed
    pages [mg].  Allocation and freeing preserve it, never panic on a correct
    call, return the lock, change the [mem_map] bits of exactly the pages
    allocated or freed, and touch no page that is in use. *)

From S2P Require Import Prelude Memory Machine Bytes Lists Lock Buddy BuddyMem BuddyInv.

Section proofs.
Context {L : KernelLayout} (mg : Z -> Prop).

(** ** Addresses *)

Lemma va_pn_nd s p :
  BuddyMeta (kmem s) mg -> page_ok (kmem s) p -> va_pn s (nd (kmem s) p) = p.
Proof.
  intros BM Hp. unfold va_pn, nd. destruct BM. unfold page_ok, PAGE_SIZE, PAGE_SHIFT in *.
  rewrite PMA_VA2PA_spec by lia. rewrite Z.shiftr_div_pow2 by lia. change (2 ^ 12) with 4096.
  rewrite Z.div_mul by lia. rewrite sub64_small; lia.
Qed.

Lemma pn_va_nd s p : BuddyMeta (kmem s) mg -> page_ok (kmem s) p -> pn_va s p = nd (kmem s) p.
Proof.
  intros BM Hp. unfold pn_va, nd. destruct BM. unfold page_ok, PAGE_SIZE, PAGE_SHIFT in *.
  rewrite add64_small by lia. unfold shl64. rewrite Z.shiftl_mul_pow2 by lia. change (2 ^ 12) with 4096.
  rewrite u64_small by lia. apply PMA_PA2VA_spec. lia.
Qed.

Lemma one_shl o : 0 <= o < 64 -> (1 <<l o) = 2 ^ o.
Proof.
  intros. unfold shl64. rewrite shiftl_1 by lia. apply u64_small.
  split; [lia|]. apply Z.pow_lt_mono_r; lia.
Qed.

Lemma pow2_order o : order_ok o -> 0 < 2 ^ o <= 1024.
Proof.
  unfold order_ok, MAX_MEM_ORDER. intros. split; [apply pow2_pos; lia|].
  change 1024 with (2 ^ 10). apply Z.pow_le_mono_r; lia.
Qed.

Lemma right_part k p o :
  BuddyMeta k mg -> order_ok o -> page_ok k p ->
  nd k p +l ((1 <<l o) <<l PAGE_SHIFT) = nd k (p + 2 ^ o).
Proof.
  intros BM Ho Hp. pose proof (pow2_order o Ho). unfold order_ok, MAX_MEM_ORDER in Ho.
  rewrite one_shl by lia. unfold shl64, nd. rewrite Z.shiftl_mul_pow2 by (unfold PAGE_SHIFT; lia).
  destruct BM. unfold page_ok, PAGE_SIZE, PAGE_SHIFT, VA_KERNEL_BEGIN in *. change (2 ^ 12) with 4096.
  rewrite u64_small by lia. rewrite add64_small; lia.
Qed.

Lemma shr_pair o p : 0 <= o -> p >>l (o + 1) = pair_idx o p.
Proof. intros. unfold pair_idx. by rewrite Z.shiftr_div_pow2 by lia. Qed.

Lemma area_map_bmap s o : order_ok o -> area_map s o = bmap (kmem s) o.
Proof. intros [? _]. unfold area_map, bmap. destruct (Z.eqb_spec o (-1)); [lia|done]. Qed.

(** ** The splitting loop *)

Section ops.
Context (k : kmem_node_struct) {BM : BuddyMeta k mg} (P : Z -> Prop).

Abbreviation RR := (R k mg P).
Abbreviation AA := (AInv k mg).

Lemma listed_page m fl bv o p : RR m fl bv -> order_ok o -> p ∈ fl o -> page_ok k p /\ mg p /\ P p.
Proof. intros HR. apply (R_page _ _ _ _ _ _ HR). Qed.

(** Every free page may be written. *)
Definition may (bv : Z -> Z -> bool) : Prop := forall x, page_ok k x -> mg x -> bv (-1) x = false -> P x.

Lemma may_ext bv bv' : (forall x, bv' (-1) x = bv (-1) x) -> may bv -> may bv'.
Proof. intros E H x. rewrite E. apply H. Qed.

Lemma blk_page fl F bv o p x : AA fl F bv -> may bv -> blk fl F o p -> in_blk o p x -> page_ok k x /\ mg x /\ P x.
Proof.
  intros A HP B I. destruct (A_free _ _ _ _ _ A o p x B I). destruct (A_blk _ _ _ _ _ A o p B) as (? & _ & ?).
  assert (page_ok k x) by (unfold page_ok, in_blk in *; lia). auto.
Qed.

Lemma wp_split_block fl bv o p (Q : unit -> kst -> Prop) s :
  kmem s = k -> RR (mem s) fl bv -> AA fl [] bv -> may bv ->
  coalesced (only o p) fl -> order_ok o -> 0 < o -> p ∈ fl o ->
  (forall m' fl' bv', RR m' fl' bv' -> AA fl' [] bv' ->
     coalesced (only (o - 1) p) fl' -> p ∈ fl' (o - 1) ->
     (forall x, bv' (-1) x = bv (-1) x) -> agree (keep k P) (mem s) m' -> Q tt (set_mem m' s)) ->
  wp (split_block (nd k p) o) Q s.
Proof.
  intros Hk HR HA HF HC Ho Hpos Hp HQ. pose proof (order_nonneg o Ho) as Hge.
  destruct (listed_page _ _ _ _ _ HR Ho Hp) as (Hpp & Hmp & HPp).
  assert (B : blk fl [] o p) by (split; auto).
  destruct (A_blk _ _ _ _ _ HA o p B) as (H0 & Hm & Hn).
  destruct (halves o p Hpos H0 Hm) as (Hm' & Eb & Hh).
  assert (Ho1 : order_ok (o - 1)) by (unfold order_ok in *; lia).
  pose proof (pow2_pos (o - 1) ltac:(lia)) as Ht.
  assert (Hq : in_blk o p (p + 2 ^ (o - 1))) by (apply Hh; right; apply in_blk_first; lia).
  pose proof (blk_page _ _ _ _ _ _ HA HF B Hq) as Hqp.
  unfold split_block. rewrite right_part by done. wp_steps. rewrite <- Hk. rewrite va_pn_nd by (rewrite Hk; done).
  rewrite Hk. apply (wp_list_detach_R k mg P fl bv o p); try done. intros m1 R1 K1. wp_steps.
  rewrite area_map_bmap by done. change (kmem (set_mem m1 s)) with (kmem s). rewrite Hk, shr_pair by done.
  pose proof (blk_idx _ _ _ _ _ o p HA B) as Hidx.
  apply (wp_toggle_bit_R k mg P (fl_upd fl o (rm p (fl o))) bv); [done|unfold order_ok in *; lia|lia|].
  intros m2 R2 K2. wp_steps. rewrite set_mem_twice. rewrite set_mem_mem in K2.
  pose proof (A_take _ _ fl bv o p HA Ho Hp) as A2.
  pose proof (coalesced_rm fl o p Hge H0 Hm HC) as C2.
  set (fl2 := fl_upd fl o (rm p (fl o))) in *.
  set (bv2 := bv_upd bv o (pair_idx o p) (negb (bv o (pair_idx o p)))) in *.
  assert (Hnl : forall r o', in_blk o p r -> order_ok o' -> r ∉ fl2 o').
  { intros r o' Hr Ho' Hin. destruct (A_float_disj k mg fl2 bv2 o p o' r r); try done.
    apply in_blk_first. by apply order_nonneg. }
  apply (wp_list_insert_R k mg P fl2 bv2 (o - 1) p); try done.
  { intros o' Ho'. apply Hnl; [|done]. by apply in_blk_first. }
  intros m3 R3 K3. rewrite set_mem_twice. rewrite set_mem_mem in K3.
  set (fl3 := fl_upd fl2 (o - 1) (p :: fl2 (o - 1))) in *.
  apply (wp_list_insert_R k mg P fl3 bv2 (o - 1) (p + 2 ^ (o - 1))); try done.
  { intros o' Ho'. unfold fl3. rewrite elem_of_upd. specialize (Hnl _ o' Hq Ho').
    destruct (Z.eqb_spec o' (o - 1)) as [->|]; [|done]. rewrite elem_of_cons. intros [?|?]; [lia|done]. }
  intros m4 R4 K4. rewrite set_mem_twice. rewrite set_mem_mem in K4.
  apply (HQ m4 (fl_upd fl3 (o - 1) (p + 2 ^ (o - 1) :: fl3 (o - 1))) bv2); try done.
  - apply (A_halve _ _ fl2 bv2 o p A2 Hpos).
  - apply coalesced_halve; try done. intros r Hr. apply Hnl; [|done].
    destruct Hr as [-> | ->]; [by apply in_blk_first|done].
  - unfold fl3. rewrite elem_of_upd, Z.eqb_refl. unfold fl_upd. rewrite Z.eqb_refl. lmem.
  - unfold bv2, bv_upd. destruct (Z.eqb_spec (-1) o); [lia|done].
  - by etrans; [etrans; [etrans; [exact K1|exact K2]|exact K3]|exact K4].
Qed.
Lemma R_ext m fl bv bv' : (forall i j, bv' i j = bv i j) -> RR m fl bv -> RR m fl bv'.
Proof. intros E [? ? ? ? HB]. split; try done. intros. rewrite E. by apply HB. Qed.

Lemma wp_split_blocks fl bv cur ord p (Q : unit -> kst -> Prop) s :
  kmem s = k -> RR (mem s) fl bv -> AA fl [] bv -> may bv ->
  coalesced (only cur p) fl -> order_ok cur -> 0 <= ord <= cur -> p ∈ fl cur ->
  (forall m' fl' bv', RR m' fl' bv' -> AA fl' [] bv' ->
     coalesced (only ord p) fl' -> p ∈ fl' ord ->
     (forall x, bv' (-1) x = bv (-1) x) -> agree (keep k P) (mem s) m' -> Q tt (set_mem m' s)) ->
  wp (for_up (Z.to_nat (cur - ord)) 0 (fun j => split_block (nd k p) (cur - j))) Q s.
Proof.
  intros Hk HR HA HF HC Ho Hord Hp HQ.
  eapply (wp_for_up (fun j s' => exists m' fl' bv', s' = set_mem m' s /\ RR m' fl' bv' /\ AA fl' [] bv' /\
    coalesced (only (cur - j) p) fl' /\ p ∈ fl' (cur - j) /\
    (forall x, bv' (-1) x = bv (-1) x) /\ agree (keep k P) (mem s) m')).
  - exists (mem s), fl, bv. rewrite set_mem_id, Z.sub_0_r. done.
  - intros j s' Hj (m' & fl' & bv' & -> & R1 & A1 & C1 & I1 & E1 & K1).
    assert (Hj' : 0 <= j < cur - ord) by lia. clear Hj.
    apply (wp_split_block fl' bv'); try done; try (unfold order_ok in *; lia).
    + by apply (may_ext bv).
    + intros m2 fl2 bv2 R2 A2 C2 I2 E2 K2. rewrite set_mem_mem in K2. exists m2, fl2, bv2.
      replace (cur - (j + 1)) with (cur - j - 1) by lia. split_and!; try done.
      * intros x. by rewrite E2, E1.
      * by etrans.
  - intros s' (m' & fl' & bv' & -> & R1 & A1 & C1 & I1 & E1 & K1).
    replace (cur - (0 + Z.of_nat (Z.to_nat (cur - ord)))) with ord in * by lia. by apply (HQ m' fl' bv').
Qed.

(** Marking the pages of a free block allocated. *)
Lemma wp_mark fl bv o p (Q : unit -> kst -> Prop) s :
  kmem s = k -> RR (mem s) fl bv -> order_ok o -> 0 <= p -> p + 2 ^ o <= num_ppn k ->
  (forall x, in_blk o p x -> bv (-1) x = false) ->
  (forall m', RR m' fl (mark bv p (p + 2 ^ o)) -> agree (keep k P) (mem s) m' -> Q tt (set_mem m' s)) ->
  wp (for_up (Z.to_nat ((p +l (1 <<l o)) -l p)) p (fun pn =>
    mm ← gets (fun s => mem_map (kmem s));
    b ← test_and_set_bit mm pn;
    if negb (b =? 0) then panic "kmem_alloc_pages - allocated" else mret tt)) Q s.
Proof.
  intros Hk HR Ho H0 Hn Hf HQ. pose proof (pow2_order o Ho). pose proof Ho as Ho'.
  unfold order_ok, MAX_MEM_ORDER in Ho'. rewrite one_shl by lia.
  assert (En : p +l 2 ^ o -l p = 2 ^ o).
  { destruct BM. rewrite add64_small by lia. rewrite sub64_small; lia. }
  rewrite En.
  eapply (wp_for_up (fun j s' => exists m', s' = set_mem m' s /\ RR m' fl (mark bv p j) /\ agree (keep k P) (mem s) m')).
  - exists (mem s). rewrite set_mem_id. split_and!; try done. apply (R_ext _ _ bv); [|done].
    intros i j. unfold mark. destruct (Z.leb_spec p j), (Z.ltb_spec j p); try lia; by rewrite ?andb_false_r, ?andb_true_r.
  - intros j s' Hj (m' & -> & R1 & K1). wp_steps. change (mem_map (kmem (set_mem m' s))) with (mem_map (kmem s)).
    rewrite Hk. change (mem_map k) with (bmap k (-1)).
    assert (Hj' : p <= j < p + 2 ^ o) by lia.
    apply (wp_set_bit_R k mg P fl (mark bv p j)); [done|unfold MAX_MEM_ORDER; lia| |].
    { unfold blen. change (2 ^ (-1 + 1)) with 1. rewrite Z.div_1_r. lia. }
    intros m2 R2 K2. rewrite set_mem_mem in K2.
    assert (Ef : mark bv p j (-1) j = false).
    { unfold mark. rewrite (proj2 (Z.ltb_ge j j)) by lia. rewrite andb_false_r. apply Hf. unfold in_blk. lia. }
    rewrite Ef. wp_steps. exists m2. split_and!; [done| |by etrans].
    apply (R_ext _ _ (bv_upd (mark bv p j) (-1) j true)); [|done]. intros i x. unfold mark, bv_upd.
    destruct (i =? -1); [|done]. simpl.
    destruct (Z.leb_spec p x), (Z.ltb_spec x (j + 1)), (Z.ltb_spec x j), (Z.eqb_spec x j); try done; lia.
  - intros s' (m' & -> & R1 & K1). rewrite Z2Nat.id in R1 by lia. by apply HQ.
Qed.

Lemma wp_take_block fl bv cur ord p (Q : unit -> kst -> Prop) s :
  kmem s = k -> RR (mem s) fl bv -> AA fl [] bv -> may bv ->
  coalesced nowhere fl -> order_ok cur -> 0 <= ord <= cur -> p ∈ fl cur ->
  (forall m' fl' bv', RR m' fl' bv' -> AA fl' [] bv' -> coalesced nowhere fl' ->
     (forall x, bv' (-1) x = mark bv p (p + 2 ^ ord) (-1) x) ->
     p mod 2 ^ ord = 0 -> (forall x, in_blk ord p x -> page_ok k x /\ mg x /\ bv (-1) x = false) ->
     agree (keep k P) (mem s) m' -> Q tt (set_mem m' s)) ->
  wp (take_block (nd k p) cur ord) Q s.
Proof.
  intros Hk HR HA HF HC Ho Hord Hp HQ. unfold take_block. wp_step.
  apply (wp_split_blocks fl bv); try done.
  { eapply coalesced_weaken; [|exact HC]. by intros ?? []. }
  intros m1 fl1 bv1 R1 A1 C1 I1 E1 K1. wp_steps.
  assert (Oo : order_ok ord) by (unfold order_ok in *; lia). pose proof (order_nonneg ord Oo) as Hge.
  assert (B : blk fl1 [] ord p) by (split; auto).
  destruct (A_blk _ _ _ _ _ A1 ord p B) as (H0 & Hm & Hn).
  destruct (listed_page _ _ _ _ _ R1 Oo I1) as (Hpp & Hmp & HPp).
  rewrite <- Hk. change (kmem s) with (kmem (set_mem m1 s)). rewrite va_pn_nd by (simpl; rewrite Hk; done).
  simpl kmem. rewrite Hk. apply (wp_list_detach_R k mg P fl1 bv1 ord p); try done.
  intros m2 R2 K2. rewrite set_mem_mem in K2. wp_steps. rewrite set_mem_twice.
  rewrite area_map_bmap by done. simpl kmem. rewrite Hk, shr_pair by done.
  pose proof (blk_idx _ _ _ _ _ ord p A1 B) as Hidx.
  apply (wp_toggle_bit_R k mg P (fl_upd fl1 ord (rm p (fl1 ord))) bv1); [done|unfold order_ok in *; lia|lia|].
  intros m3 R3 K3. rewrite set_mem_mem in K3. rewrite set_mem_twice. wp_steps.
  pose proof (A_take _ _ fl1 bv1 ord p A1 Oo I1) as A2.
  pose proof (coalesced_rm fl1 ord p Hge H0 Hm C1) as C2.
  set (fl2 := fl_upd fl1 ord (rm p (fl1 ord))) in *.
  set (bv2 := bv_upd bv1 ord (pair_idx ord p) (negb (bv1 ord (pair_idx ord p)))) in *.
  assert (E2 : forall x, bv2 (-1) x = bv1 (-1) x).
  { intros x. unfold bv2, bv_upd. destruct (Z.eqb_spec (-1) ord); [lia|done]. }
  assert (Hfr : forall x, in_blk ord p x -> mg x /\ bv1 (-1) x = false).
  { intros x I. by apply (A_free _ _ _ _ _ A1 ord p). }
  apply (wp_mark fl2 bv2 ord p); try done.
  { intros x I. rewrite E2. by apply Hfr. }
  intros m4 R4 K4. rewrite set_mem_mem in K4. rewrite set_mem_twice.
  apply (HQ m4 fl2 (mark bv2 p (p + 2 ^ ord))); try done.
  - by apply A_mark.
  - intros x. unfold mark. by rewrite E2, E1.
  - intros x I. destruct (Hfr x I). rewrite <- E1. split_and!; try done. unfold page_ok, in_blk in *. lia.
  - by etrans; [etrans; [etrans; [exact K1|exact K2]|exact K3]|exact K4].
Qed.
Lemma first_block m fl bv o : RR m fl bv -> order_ok o -> ld64 m (free_page_list o + 8) = hd NULL (nd k <$> fl o).
Proof. intros HR Ho. apply (chain_hd _ _ _ _ (R_dll _ _ _ _ _ _ HR o Ho)). Qed.

Lemma wp_find_block fl bv ord (Q : Z -> kst -> Prop) s :
  kmem s = k -> RR (mem s) fl bv -> AA fl [] bv -> may bv ->
  coalesced nowhere fl -> order_ok ord ->
  ((forall o, order_ok o -> ord <= o -> fl o = []) -> Q NULL s) ->
  (forall p m' fl' bv', page_ok k p -> RR m' fl' bv' -> AA fl' [] bv' -> coalesced nowhere fl' ->
     (forall x, bv' (-1) x = mark bv p (p + 2 ^ ord) (-1) x) ->
     p mod 2 ^ ord = 0 -> (forall x, in_blk ord p x -> page_ok k x /\ mg x /\ bv (-1) x = false) ->
     agree (keep k P) (mem s) m' -> Q (nd k p) (set_mem m' s)) ->
  wp (find_block ord) Q s.
Proof.
  intros Hk HR HA HF HC Ho HN HQ. unfold find_block.
  apply (wp_loop (fun n cur s' => s' = s /\ ord <= cur <= MAX_MEM_ORDER /\ MAX_MEM_ORDER < Z.of_nat n + cur /\
    (forall o, order_ok o -> ord <= o < cur -> fl o = []))).
  - unfold order_ok, MAX_MEM_ORDER in *. split_and!; try done; lia.
  - intros cur s' (_ & ? & ? & _). lia.
  - intros n cur s' (-> & Hc & Hn & He). destruct (Z.ltb_spec cur MAX_MEM_ORDER) as [Hlt|Hge].
    2:{ wp_steps. apply HN. intros o Oo Hle. apply He; unfold order_ok in *; lia. }
    assert (Oc : order_ok cur) by (unfold order_ok in *; lia).
    assert (Hb : PAGE_SIZE <= free_page_list cur + 8).
    { pose proof (head_bound cur Oc). pose proof sym_kmem_image. unfold VA_KERNEL_IMG_BEGIN, PAGE_SIZE in *. lia. }
    wp_steps. rewrite (first_block _ _ _ _ HR Oc). destruct (fl cur) as [|p l] eqn:E; simpl hd.
    + wp_steps. split_and!; try done; try lia. intros o Oo Hr. destruct (Z.eq_dec o cur) as [->|]; [done|].
      apply He; [done|lia].
    + assert (Hp : p ∈ fl cur) by (rewrite E; lmem).
      destruct (listed_page _ _ _ _ _ HR Oc Hp) as (Hpp & _ & _). pose proof (nd_bound k mg p Hpp).
      unfold NULL. rewrite (proj2 (Z.eqb_neq _ _)) by (unfold VA_KERNEL_BEGIN in *; lia).
      rewrite (proj2 (Z.ltb_ge _ _)) by lia. simpl negb. wp_steps.
      rewrite (first_block _ _ _ _ HR Oc), E. simpl hd.
      apply (wp_take_block fl bv); try done; [unfold order_ok in *; lia|].
      intros m' fl' bv' R' A' C' E' M' F' K'. wp_steps. by apply (HQ p m' fl' bv').
Qed.

(** ** The merging loop *)

Lemma round_down_step pn d : 0 <= d ->
  pn - pn mod 2 ^ d - (pn - pn mod 2 ^ d) mod 2 ^ (d + 1) = pn - pn mod 2 ^ (d + 1).
Proof.
  intros Hd. pose proof (pow2_pos d Hd). rewrite pow2_succ by done. set (t := 2 ^ d) in *.
  pose proof (Z.div_mod pn t ltac:(lia)). pose proof (Z.mod_pos_bound pn t ltac:(lia)).
  pose proof (Z.div_mod pn (2 * t) ltac:(lia)). pose proof (Z.mod_pos_bound pn (2 * t) ltac:(lia)).
  assert (E : pn - pn mod t = t * (pn / t)) by lia. rewrite E.
  pose proof (Z.div_mod (t * (pn / t)) (2 * t) ltac:(lia)).
  pose proof (Z.mod_pos_bound (t * (pn / t)) (2 * t) ltac:(lia)).
  assert (t * (pn / t) / (2 * t) = pn / (2 * t)); [|nia].
  rewrite (Z.mul_comm 2 t), Z.div_mul_cancel_l, Z.div_div by lia. done.
Qed.

Lemma current_pn_spec pn d : 0 <= pn < 2 ^ 64 -> 0 <= d < 64 -> pn &l not64 ((1 <<l d) -l 1) = pn - pn mod 2 ^ d.
Proof.
  intros Hp Hd. rewrite one_shl by done. pose proof (pow2_pos d ltac:(lia)).
  assert (2 ^ d < 2 ^ 64) by (apply Z.pow_lt_mono_r; lia).
  rewrite sub64_small by lia. apply land_not_mask; lia.
Qed.

Lemma wp_merge_loop fl bv pn (Q : unit -> kst -> Prop) s :
  kmem s = k -> RR (mem s) fl bv -> AA fl [(0, pn)] bv -> may bv -> coalesced nowhere fl -> page_ok k pn ->
  (forall m' fl' bv', RR m' fl' bv' -> AA fl' [] bv' -> coalesced nowhere fl' ->
     (forall x, bv' (-1) x = bv (-1) x) -> agree (keep k P) (mem s) m' -> Q tt (set_mem m' s)) ->
  wp (merge_loop pn) Q s.
Proof.
  intros Hk HR HA HF HC Hpn HQ. unfold merge_loop.
  apply (wp_loop (fun n d s' => exists m1 fl1 bv1, s' = set_mem m1 s /\ MAX_MEM_ORDER < Z.of_nat n + d /\
    RR m1 fl1 bv1 /\ AA fl1 [(d, pn - pn mod 2 ^ d)] bv1 /\ coalesced nowhere fl1 /\
    (forall x, bv1 (-1) x = bv (-1) x) /\ agree (keep k P) (mem s) m1)).
  - exists (mem s), fl, bv. rewrite set_mem_id, Z.mod_1_r, Z.sub_0_r. unfold MAX_MEM_ORDER. split_and!; try done; lia.
  - intros d s' (m1 & fl1 & bv1 & _ & ? & _ & A & _). destruct (A_float _ _ _ _ _ A d _ (list_elem_of_here _ _)) as [Ho _].
    unfold order_ok in *. lia.
  - intros n d s' (m1 & fl1 & bv1 & -> & Hn & R1 & A1 & C1 & E1 & K1).
    destruct (A_float _ _ _ _ _ A1 d _ (list_elem_of_here _ _)) as [Ho Hnl].
    pose proof (order_nonneg d Ho) as Hge. assert (HF1 : may bv1) by (by apply (may_ext bv)).
    rewrite (proj2 (Z.ltb_lt _ _)) by apply Ho.
    assert (Hp64 : 0 <= pn < 2 ^ 64) by (destruct BM; unfold page_ok in *; lia).
    rewrite current_pn_spec, one_shl by (unfold order_ok, MAX_MEM_ORDER in *; lia).
    set (c := pn - pn mod 2 ^ d) in *. rewrite shr_pair by done. fold (bud d c).
    assert (B : blk fl1 [(d, c)] d c) by (split; [done|right; apply list_elem_of_here]).
    pose proof (blk_page _ _ _ _ _ _ A1 HF1 B (in_blk_first d c Hge)) as Hcp.
    pose proof (blk_idx _ _ _ _ _ d c A1 B) as Hidx.
    wp_steps. rewrite area_map_bmap by done. simpl kmem. rewrite Hk.
    apply (wp_toggle_bit_R k mg P fl1 bv1); [done|unfold order_ok in *; lia|lia|].
    intros m2 R2 K2. rewrite set_mem_mem in K2. rewrite set_mem_twice.
    destruct (bv1 d (pair_idx d c)) eqn:Eb; destruct (Z.eqb_spec d (MAX_MEM_ORDER - 1)) as [Ed|Ed]; simpl.
    2:{ destruct (A_merge _ _ fl1 bv1 d c A1 ltac:(unfold order_ok in *; lia) Eb) as [Hb A2].
      assert (Hbp : page_ok k (bud d c)) by (by apply (listed_page _ _ _ _ _ R1 Ho)).
      wp_steps. rewrite pn_va_nd by (simpl; rewrite Hk; done). simpl kmem. rewrite Hk.
      apply (wp_list_detach_R k mg P fl1 (bv_upd bv1 d (pair_idx d c) false) d); try done.
      intros m3 R3 K3. rewrite set_mem_mem in K3. rewrite set_mem_twice. wp_steps.
      do 3 eexists. split_and!; [done|lia|exact R3| | | |].
      - unfold c in A2 at 2 3. rewrite round_down_step in A2 by done. exact A2.
      - by apply coalesced_rm_any.
      - intros x. rewrite <- E1. unfold bv_upd. destruct (Z.eqb_spec (-1) d); [lia|done].
      - by etrans; [etrans; [exact K1|exact K2]|exact K3]. }
    all: wp_steps; rewrite pn_va_nd by (simpl; rewrite Hk; tauto); simpl kmem; rewrite Hk;
      eapply (wp_list_insert_R k mg P fl1 _ d); [exact R2|done|done| |].
    1,3,5: intros o' Ho' Hin; destruct (A_float_disj k mg fl1 bv1 d c o' c c); try done; apply in_blk_first; try done; by apply order_nonneg.
    all: intros m3 R3 K3; rewrite set_mem_mem in K3; rewrite set_mem_twice; wp_steps; 
      eapply HQ; [exact R3| | | |by etrans; [etrans; [exact K1|exact K2]|exact K3]].
    all: try (apply (coalesced_list k mg fl1 bv1); auto).
    all: try (intros x; rewrite <- E1; unfold bv_upd; destruct (Z.eqb_spec (-1) d); [lia|done]).
    all: pose proof (A_list k mg fl1 bv1 d c A1) as A2; by rewrite Eb in A2.
Qed.
End ops.

(** ** The allocator's contract *)

(** The [mem_map] bit of page [x]. *)
Definition allocated (s : kst) (x : Z) : bool := bit (mem s) (mem_map (kmem s)) x.

Definition is_free (s : kst) (x : Z) : Prop := mg x /\ allocated s x = false.

Record buddy_ok (s : kst) : Prop := {
  bo_meta : BuddyMeta (kmem s) mg;
  bo_lock : lock_free (mem s) page_manager_lock;
  bo_inv : exists fl bv, R (kmem s) mg (fun _ => True) (mem s) fl bv /\
    AInv (kmem s) mg fl [] bv /\ coalesced nowhere fl;
}.

(** Addresses outside the allocator's globals, its bitmaps and the pages in
    [W]. *)
Definition untouched (k : kmem_node_struct) (W : Z -> Prop) (a : Z) : Prop :=
  ~ in_range sym_kmem 496 a /\
  (forall i, -1 <= i < MAX_MEM_ORDER -> ~ in_range (bmap k i) (bytes k i) a) /\
  (forall p, page_ok k p -> W p -> ~ in_range (nd k p) PAGE_SIZE a).

(** What every call of the allocator that may write the pages [W] respects. *)
Record buddy_step (W : Z -> Prop) (s s' : kst) : Prop := {
  bs_hart : hart_ok s';
  bs_ok : buddy_ok s';
  bs_globals : same_globals s s';
  bs_harts : same_harts s s';
  bs_mem : agree (untouched (kmem s) W) (mem s) (mem s');
}.

Lemma bs_kmem W s s' : buddy_step W s s' -> kmem s' = kmem s.
Proof. intros B. apply (same_globals_fields _ _ (bs_globals _ _ _ B)). Qed.

Lemma R_change k (P P' : Z -> Prop) m fl bv :
  R k mg P m fl bv -> (forall o p, order_ok o -> p ∈ fl o -> P' p) -> R k mg P' m fl bv.
Proof.
  intros [H1 H2 H3 H4 H5] H. split; try done. intros o p Ho Hp. destruct (H4 o p Ho Hp) as (? & ? & _).
  split_and!; try done. by apply (H o).
Qed.

Lemma R_allocated k P m fl bv x : R k mg P m fl bv -> page_ok k x -> bv (-1) x = bit m (mem_map k) x.
Proof.
  intros HR Hx. symmetry. apply (R_bits _ _ _ _ _ _ HR (-1) x).
  - unfold MAX_MEM_ORDER. lia.
  - unfold blen. rewrite Z.div_1_r. unfold page_ok in Hx. lia.
Qed.

Lemma untouched_keep k W a :
  untouched k W a -> keep k W a /\ ~ in_range page_manager_lock sizeof_spinlock a.
Proof.
  intros (H1 & H2 & H3). unfold page_manager_lock, sizeof_spinlock. split; [split_and!|]; try done;
    intros ?; apply H1; unfold in_range in *; lia.
Qed.

Lemma lock_keep k W a :
  BuddyMeta k mg -> in_range page_manager_lock sizeof_spinlock a -> keep k W a.
Proof.
  intros BM Ha. unfold page_manager_lock, sizeof_spinlock in Ha. split_and!.
  - unfold in_range in *. lia.
  - intros i Hi Hr. pose proof (bm_glob _ i Hi). unfold in_range, disjoint in *. lia.
  - intros p Hp _ Hr. pose proof (nd_bound k mg p Hp). pose proof sym_kmem_image.
    unfold in_range, PAGE_SIZE, VA_KERNEL_BEGIN, VA_KERNEL_IMG_BEGIN in *. lia.
Qed.

(** The critical sections of the allocator. *)
Lemma wp_buddy_locked {A} (W : Z -> Prop) (body : M A) (post : A -> (Z -> bool) -> Prop) s :
  hart_ok s -> buddy_ok s ->
  (forall x, page_ok (kmem s) x -> is_free s x -> W x) ->
  (forall fl bv s1, kmem s1 = kmem s -> R (kmem s) mg W (mem s1) fl bv -> AInv (kmem s) mg fl [] bv ->
     coalesced nowhere fl -> (forall x, page_ok (kmem s) x -> bv (-1) x = allocated s x) -> may (kmem s) W bv ->
     wp body (fun a s' => exists m' fl' bv', s' = set_mem m' s1 /\ R (kmem s) mg W m' fl' bv' /\
       AInv (kmem s) mg fl' [] bv' /\ coalesced nowhere fl' /\ agree (keep (kmem s) W) (mem s1) m' /\
       (forall g, (forall x, page_ok (kmem s) x -> g x = bv' (-1) x) -> post a g)) s1) ->
  wp (spinlock_acquire page_manager_lock;; a ← body; spinlock_release page_manager_lock;; mret a)
    (fun a s' => buddy_step W s s' /\ post a (allocated s')) s.
Proof.
  intros Hok [BM Hlk (fl & bv & HR & HA & HC)] HW Hb.
  assert (Hpg : PAGE_SIZE <= page_manager_lock).
  { pose proof sym_kmem_image. unfold page_manager_lock, VA_KERNEL_IMG_BEGIN, PAGE_SIZE in *. lia. }
  apply wp_locked; try done. set (m0 := lock_mem _ _ _).
  pose proof (lock_mem_agree (mem s) page_manager_lock (my_hart s)) as Kl. fold m0 in Kl.
  assert (HB : forall x, page_ok (kmem s) x -> bv (-1) x = allocated s x) by (intros x Hx; exact (R_allocated _ _ _ _ _ x HR Hx)).
  assert (HF : may (kmem s) W bv).
  { intros x Hx Hm Hf. apply HW; [done|]. split; [done|]. by rewrite <- HB. }
  eapply wp_mono; [apply (Hb fl bv); try done|].
  - apply (R_change _ (fun _ => True)).
    + by apply (R_agree (kmem s) mg _ (mem s)).
    + intros o p Ho Hp. apply (blk_page (kmem s) W fl [] bv o p p); [done|done|split; auto|].
      by apply in_blk_first, order_nonneg.
  - intros a s' (m' & fl' & bv' & -> & R1 & A1 & C1 & K1 & Hpost). rewrite set_mem_mem in K1.
    exists m'. split; [by rewrite set_mem_twice|]. split.
    { eapply agree_weaken; [|exact K1]. intros x Hx. by apply lock_keep. }
    pose proof (unlock_mem_agree m' page_manager_lock) as Ku. set (m2 := unlock_mem _ _) in *.
    assert (R2 : R (kmem s) mg W m2 fl' bv') by (by apply (R_agree (kmem s) mg _ m')).
    split; [|apply Hpost; intros x Hx; symmetry; exact (R_allocated _ _ _ _ _ x R2 Hx)].
    split; try done.
    + by apply popped_hart_ok.
    + split; [done|apply unlock_mem_free|]. exists fl', bv'. split_and!; try done. by apply (R_change _ W).
    + apply popped_same_harts.
    + etrans; [|etrans]; eapply agree_weaken; [|exact Kl| |exact K1| |exact Ku];
        intros x Hx; apply (untouched_keep _ _ _ Hx).
Qed.

(** [kmem_alloc_pages] on every valid order: either a block of that order,
    aligned to its size, whose pages were all free and are now allocated, or
    NULL when no free block of that size exists. *)
Definition alloc_post (s : kst) (order : Z) (r : Z) (now : Z -> bool) : Prop :=
  (r = NULL /\ (forall x, page_ok (kmem s) x -> now x = allocated s x) /\
     forall p, 0 <= p -> p mod 2 ^ order = 0 ->
       ~ (forall x, in_blk order p x -> page_ok (kmem s) x /\ is_free s x)) \/
  (exists p, r = nd (kmem s) p /\ p mod 2 ^ order = 0 /\
     (forall x, in_blk order p x -> page_ok (kmem s) x /\ is_free s x) /\
     (forall x, page_ok (kmem s) x -> now x = allocated s x || bool_decide (p <= x < p + 2 ^ order))).

Lemma wp_kmem_alloc_pages order s :
  hart_ok s -> buddy_ok s -> order_ok order ->
  wp (kmem_alloc_pages order) (fun r s' =>
    buddy_step (is_free s) s s' /\ alloc_post s order r (allocated s')) s.
Proof.
  intros Hok Hb Ho. unfold kmem_alloc_pages. rewrite (proj2 (Z.leb_gt _ _)) by apply Ho. do 2 wp_step.
  apply wp_buddy_locked; try done. destruct Hb as [BM _ _].
  intros fl bv s1 Hk HR HA HC HB HF. apply (wp_find_block (kmem s) (is_free s) fl bv); try done.
  - intros Hnone. exists (mem s1), fl, bv. split_and!; try done; [by rewrite set_mem_id|].
    intros g Hg. left. split_and!; [done|intros x Hx; by rewrite Hg, HB|].
    intros p Hp Hm Hrun.
    destruct (aligned_run_listed (kmem s) mg fl bv order p) as (o' & p' & Ho' & Hle & Hin & _); try done.
    + intros x I. destruct (Hrun x I) as [Hx [Hmx Hf]]. rewrite HB by done. done.
    + rewrite (Hnone o' Ho' Hle) in Hin. by apply elem_of_nil in Hin.
  - intros p m' fl' bv' Hp R' A' C' E' M' F' K'. exists m', fl', bv'. split_and!; try done.
    intros g Hg. right. exists p. split_and!; try done.
    + intros x I. destruct (F' x I) as (Hx & Hmx & Hf). split; [done|]. split; [done|]. by rewrite <- HB.
    + intros x Hx. rewrite Hg, E' by done. unfold mark. rewrite HB by done.
      destruct (Z.leb_spec p x), (Z.ltb_spec x (p + 2 ^ order)); simpl;
        [rewrite bool_decide_eq_true_2, orb_true_r by lia|rewrite bool_decide_eq_false_2, orb_false_r by lia..]; done.
Qed.

(** The address of a page is page-aligned. *)
Lemma nd_aligned k p : BuddyMeta k mg -> page_ok k p -> nd k p &l (PAGE_SIZE - 1) = 0.
Proof.
  intros BM Hp. pose proof (nd_bound k mg p Hp). change (PAGE_SIZE - 1) with (2 ^ 12 - 1).
  rewrite land_mask by lia. unfold nd, PAGE_SIZE.
  replace VA_KERNEL_BEGIN with ((VA_KERNEL_BEGIN / 4096) * 4096) by reflexivity.
  rewrite <- Z.mul_add_distr_r. apply Z.mod_mul. lia.
Qed.

Lemma wp_kmem_free_page pn s :
  hart_ok s -> buddy_ok s -> page_ok (kmem s) pn -> mg pn -> allocated s pn = true ->
  wp (kmem_free_page (nd (kmem s) pn)) (fun _ s' =>
    buddy_step (fun x => is_free s x \/ x = pn) s s' /\
    forall x, page_ok (kmem s) x -> allocated s' x = allocated s x && negb (x =? pn)) s.
Proof.
  intros Hok Hb Hp Hm Ha. pose proof Hb as [BM _ _]. unfold kmem_free_page. rewrite nd_aligned by done.
  simpl negb. do 4 wp_step. rewrite va_pn_nd by done.
  eapply wp_mono.
  - apply (wp_buddy_locked (fun x => is_free s x \/ x = pn) _
      (fun _ now => forall x, page_ok (kmem s) x -> now x = allocated s x && negb (x =? pn))); try done; [auto|].
    intros fl bv s1 Hk HR HA HC HB HF. wp_steps. rewrite Hk. change (mem_map (kmem s)) with (bmap (kmem s) (-1)).
    eapply (wp_clear_bit_R (kmem s) mg _ fl bv); [exact HR|unfold MAX_MEM_ORDER; lia| |].
    { unfold blen. rewrite Z.div_1_r. unfold page_ok in Hp. lia. }
    intros m1 R1 K1. rewrite HB, Ha by done. wp_steps.
    pose proof (A_clear _ _ fl bv pn HA Hp Hm ltac:(by rewrite HB)) as A1.
    eapply (wp_merge_loop (kmem s)); try done.
    + intros x Hx Hmx. unfold bv_upd. simpl. destruct (Z.eqb_spec x pn) as [->|]; [auto|]. by apply HF.
    + intros m' fl' bv' R' A' C' E' K'. rewrite set_mem_mem in K'. rewrite set_mem_twice.
      exists m', fl', bv'. split_and!; try done; [by etrans|].
      intros g Hg x Hx. rewrite Hg, E' by done. unfold bv_upd. simpl. rewrite HB by done.
      destruct (x =? pn); [by rewrite andb_false_r|by rewrite andb_true_r].
  - done.
Qed.

(** Freeing a page that is not allocated stops the kernel. *)
Lemma kmem_free_page_panics pn s :
  hart_ok s -> buddy_ok s -> page_ok (kmem s) pn -> allocated s pn = false ->
  kmem_free_page (nd (kmem s) pn) s = Panic "kmem_free_page - freed twice".
Proof.
  intros Hok [BM Hlk _] Hp Ha. unfold kmem_free_page. rewrite nd_aligned by done. simpl negb.
  do 2 (apply bind_panics; wp_step). rewrite va_pn_nd by done.
  assert (Hpg : PAGE_SIZE <= page_manager_lock).
  { pose proof sym_kmem_image. unfold page_manager_lock, VA_KERNEL_IMG_BEGIN, PAGE_SIZE in *. lia. }
  apply bind_panics. apply wp_spinlock_acquire; try done.
  unfold mbind at 1, M_bind at 1.
  match goal with |- match ?c ?s1 with _ => _ end = _ => assert (E : c s1 = Panic "kmem_free_page - freed twice") end;
    [|by rewrite E].
  apply bind_panics. wp_step. apply bind_panics. change (kmem (set_mem _ (pushed s))) with (kmem s).
  assert (PAGE_SIZE <= mem_map (kmem s)) by (apply (bm_base (kmem s) (-1)); unfold MAX_MEM_ORDER; lia).
  apply wp_test_and_clear_bit; [done|unfold page_ok in Hp; lia|].
  set (m0 := mem _). assert (Eb : bit m0 (mem_map (kmem s)) pn = false).
  { rewrite <- Ha. unfold allocated. apply bit_agree. apply lock_mem_agree. intros Hr.
    assert (Hj : 0 <= pn < blen (kmem s) (-1)) by (unfold blen; rewrite Z.div_1_r; unfold page_ok in Hp; lia).
    pose proof (byte_in (kmem s) (-1) pn Hj) as Hi. change (bmap (kmem s) (-1)) with (mem_map (kmem s)) in Hi.
    pose proof (bm_glob (kmem s) (-1) ltac:(unfold MAX_MEM_ORDER; lia)) as Hd.
    change (bmap (kmem s) (-1)) with (mem_map (kmem s)) in Hd.
    unfold page_manager_lock, sizeof_spinlock, in_range, disjoint in *. lia. }
  by rewrite Eb.
Qed.

(** ** Freeing a run of pages *)

Lemma untouched_weaken k (W W' : Z -> Prop) :
  (forall x, page_ok k x -> W x -> W' x) -> forall a, untouched k W' a -> untouched k W a.
Proof. intros H a (H1 & H2 & H3). split_and!; try done. intros p Hp Hw. apply H3; auto. Qed.

Lemma buddy_step_trans (W1 W2 W : Z -> Prop) s1 s2 s3 :
  buddy_step W1 s1 s2 -> buddy_step W2 s2 s3 ->
  (forall x, page_ok (kmem s1) x -> W1 x -> W x) -> (forall x, page_ok (kmem s1) x -> W2 x -> W x) ->
  buddy_step W s1 s3.
Proof.
  intros B1 B2 H1 H2. split; try apply B2.
  - by etrans; [apply B1|apply B2].
  - by etrans; [apply B1|apply B2].
  - etrans; (eapply agree_weaken; [|first [apply B1|apply B2]]).
    + by apply untouched_weaken.
    + rewrite (bs_kmem _ _ _ B1). by apply untouched_weaken.
Qed.

Lemma buddy_step_refl W s : hart_ok s -> buddy_ok s -> buddy_step W s s.
Proof. by split. Qed.

Lemma wp_kmem_free_pages p n s :
  hart_ok s -> buddy_ok s -> 0 <= n -> 0 <= p -> p + n <= num_ppn (kmem s) ->
  (forall x, p <= x < p + n -> mg x /\ allocated s x = true) -> 0 < n ->
  wp (kmem_free_pages (nd (kmem s) p) n) (fun _ s' =>
    buddy_step (fun x => is_free s x \/ p <= x < p + n) s s' /\
    forall x, page_ok (kmem s) x -> allocated s' x = allocated s x && negb (bool_decide (p <= x < p + n))) s.
Proof.
  intros Hok Hb Hn Hp Hpn Hall Hpos. pose proof Hb as [BM _ _]. unfold kmem_free_pages.
  rewrite nd_aligned by (unfold page_ok; auto with lia). simpl negb. do 2 wp_step.
  apply (wp_for_up (fun j s' => buddy_step (fun x => is_free s x \/ p <= x < p + n) s s' /\
    forall x, page_ok (kmem s) x -> allocated s' x = allocated s x && negb (bool_decide (p <= x < p + j)))).
  - split; [by apply buddy_step_refl|]. intros x Hx. rewrite bool_decide_eq_false_2 by lia. by rewrite andb_true_r.
  - intros j s' Hj [B1 E1]. assert (Hj' : 0 <= j < n) by lia. 
    pose proof (bs_kmem _ _ _ B1) as Ek.
    assert (Hpo : page_ok (kmem s) (p + j)) by (unfold page_ok; lia).
    assert (Ea : nd (kmem s) p +l j *l PAGE_SIZE = nd (kmem s') (p + j)).
    { pose proof (nd_bound (kmem s) mg (p + j) Hpo). rewrite Ek. unfold mul64.
      destruct BM. rewrite u64_small by (unfold PAGE_SIZE; lia).
      unfold nd, PAGE_SIZE, VA_KERNEL_BEGIN in *. rewrite add64_small; lia. }
    rewrite Ea. eapply wp_mono; [apply wp_kmem_free_page|].
    + apply B1.
    + apply B1.
    + by rewrite Ek.
    + apply Hall. lia.
    + rewrite E1 by done. destruct (Hall (p + j)) as [_ ->]; [lia|]. by rewrite bool_decide_eq_false_2 by lia.
    + intros [] s'' [B2 E2]. rewrite Ek in E2. split.
      * eapply buddy_step_trans; [exact B1|exact B2|done|]. intros x Hx [[Hm Ha]| ->]; [|right; lia].
        rewrite E1 in Ha by done. destruct (decide (p <= x < p + n)); [auto|]. left. split; [done|].
        rewrite bool_decide_eq_false_2, andb_true_r in Ha by lia. done.
      * intros x Hx. rewrite E2, E1 by done.
        destruct (allocated s x); [|done]. simpl. destruct (Z.eqb_spec x (p + j)).
        -- rewrite andb_false_r, bool_decide_eq_true_2 by lia. done.
        -- rewrite andb_true_r. f_equal. apply bool_decide_ext. lia.
  - intros s' [B1 E1]. rewrite Z.add_0_l, Z2Nat.id in E1 by done. done.
Qed.
End proofs.
