(* ===== verification/PageAlloc.v ===== *)
(** * What the page allocator promises its clients

    The object allocator and the page tables use memory/buddy.c through
    [kmem_alloc_pages] and [kmem_free_pages] only.  [PageAllocator] states
    what they may rely on: an invariant, the addresses the allocator never
    writes ([pa_safe]), the runs of pages it has handed out ([pa_owned]), and
    what the two calls do to these.  Clients are verified against the class;
    [buddy_pages] shows that the buddy system implements it. *)

From S2P Require Import Prelude Memory Machine Bytes Lists Lock Buddy BuddyMem BuddyInv BuddyProofs.

Section interface.
Context {L : KernelLayout}.

(** [n] pages at [r], in the direct map. *)
Definition page_run (r n : Z) : Prop :=
  0 < n /\ r mod PAGE_SIZE = 0 /\ VA_KERNEL_BEGIN <= r /\ r + n * PAGE_SIZE <= VA_KERNEL_BEGIN + 2 ^ 37.

Definition run_at (r n : Z) : Z -> Prop := in_range r (n * PAGE_SIZE).

Class PageAllocator := {
  pa_ok : kst -> Prop;
  pa_safe : kst -> Z -> Prop;
  pa_owned : kst -> Z -> Z -> Prop;
  pa_run s r n : pa_ok s -> pa_owned s r n -> page_run r n;
  pa_owned_safe s r n a : pa_ok s -> pa_owned s r n -> run_at r n a -> pa_safe s a;
  (** Code that leaves the allocator's memory alone does not disturb it. *)
  pa_frame s s' : pa_ok s -> kmem s' = kmem s -> agree (fun a => ~ pa_safe s a) (mem s) (mem s') ->
    pa_ok s' /\ (forall a, pa_safe s a -> pa_safe s' a) /\ (forall a, pa_safe s' a -> pa_safe s a) /\
    forall r n, pa_owned s r n -> pa_owned s' r n;
  pa_alloc order s : hart_ok s -> pa_ok s -> order_ok order ->
    wp (kmem_alloc_pages order) (fun r s' =>
      quiet s s' /\ pa_ok s' /\ agree (pa_safe s) (mem s) (mem s') /\
      (forall a, pa_safe s a -> pa_safe s' a) /\ (forall r' n', pa_owned s r' n' -> pa_owned s' r' n') /\
      (r = NULL \/ pa_owned s' r (2 ^ order) /\ forall a, run_at r (2 ^ order) a -> ~ pa_safe s a)) s;
  pa_free r n s : hart_ok s -> pa_ok s -> pa_owned s r n ->
    wp (kmem_free_pages r n) (fun _ s' =>
      quiet s s' /\ pa_ok s' /\ agree (fun a => pa_safe s a /\ ~ run_at r n a) (mem s) (mem s') /\
      (forall a, pa_safe s' a <-> pa_safe s a /\ ~ run_at r n a) /\
      (forall r' n', pa_owned s r' n' -> disjoint r (n * PAGE_SIZE) r' (n' * PAGE_SIZE) -> pa_owned s' r' n')) s;
}.
End interface.

(** ** Steps of the page allocator and of its clients *)

Section steps.
Context {L : KernelLayout} {PA : PageAllocator}.

(** What a call of the page allocator, or of code that only writes to fresh
    pages, leaves of the caller's world. *)
Record page_step (s s' : kst) : Prop := {
  ps_quiet : quiet s s';
  ps_ok : pa_ok s';
  ps_mem : agree (pa_safe s) (mem s) (mem s');
  ps_safe : forall a, pa_safe s a -> pa_safe s' a;
  ps_owned : forall r n, pa_owned s r n -> pa_owned s' r n;
}.

Lemma page_step_refl s : pa_ok s -> page_step s s.
Proof. intros H. by split. Qed.

Lemma page_step_trans s1 s2 s3 : page_step s1 s2 -> page_step s2 s3 -> page_step s1 s3.
Proof.
  intros [Q1 O1 M1 S1 W1] [Q2 O2 M2 S2 W2]. split; [by etrans|done| |auto|auto].
  etrans; [exact M1|]. eapply agree_weaken; [|exact M2]. auto.
Qed.

(** Writing to memory the allocator does not use keeps its invariant. *)
Lemma pa_write s m (P : Z -> Prop) :
  pa_ok s -> (forall a, P a -> pa_safe s a) -> agree (fun a => ~ P a) (mem s) m ->
  pa_ok (set_mem m s) /\ (forall a, pa_safe s a -> pa_safe (set_mem m s) a) /\
  (forall r n, pa_owned s r n -> pa_owned (set_mem m s) r n).
Proof.
  intros Hok HP Ha. destruct (pa_frame s (set_mem m s)) as (H1 & H2 & _ & H4); [done|done| |by split_and!].
  eapply agree_weaken; [|exact Ha]. intros a Hn Hp. by apply Hn, HP.
Qed.
End steps.

(** ** The buddy system implements the interface *)

Section buddy.
Context {L : KernelLayout} (mg : Z -> Prop).

Definition buddy_safe (s : kst) : Z -> Prop := untouched (kmem s) (is_free mg s).
Definition buddy_owned (s : kst) (r n : Z) : Prop :=
  0 < n /\ exists p, r = nd (kmem s) p /\ 0 <= p /\ p + n <= num_ppn (kmem s) /\
    forall x, p <= x < p + n -> mg x /\ allocated s x = true.

Lemma in_run k p n a : in_range (nd k p) (n * PAGE_SIZE) a -> exists x, p <= x < p + n /\ in_range (nd k x) PAGE_SIZE a.
Proof.
  unfold in_range, nd, PAGE_SIZE. intros Ha. exists (p + (a - ((p + begin_ppn k) * 4096 + VA_KERNEL_BEGIN)) / 4096). zdm.
Qed.

Lemma nd_unique k x y a : in_range (nd k x) PAGE_SIZE a -> in_range (nd k y) PAGE_SIZE a -> x = y.
Proof. unfold in_range, nd, PAGE_SIZE. lia. Qed.

(** Pages of the allocator that are not free are left alone. *)
Lemma page_safe s x a :
  BuddyMeta (kmem s) mg -> page_ok (kmem s) x -> mg x -> allocated s x = true -> in_range (nd (kmem s) x) PAGE_SIZE a ->
  buddy_safe s a.
Proof.
  intros BM Hx Hm Ha Hr. pose proof (nd_bound _ mg x Hx). pose proof sym_kmem_image. split_and!.
  - unfold in_range, VA_KERNEL_BEGIN, VA_KERNEL_IMG_BEGIN, PAGE_SIZE in *. lia.
  - intros i Hi Hb. pose proof (bm_pages _ i x Hi Hx Hm). unfold in_range, disjoint in *. lia.
  - intros p Hp [_ Hf] Hb. rewrite (nd_unique _ x p a Hr Hb) in Ha. congruence.
Qed.

Lemma buddy_owned_safe s r n a : buddy_ok mg s -> buddy_owned s r n -> run_at r n a -> buddy_safe s a.
Proof.
  intros Hok (_ & p & -> & Hp & Hn & Hx) Ha. apply in_run in Ha as (x & Hin & Hr). destruct (Hx x Hin).
  apply (page_safe s x); try done; [apply Hok|unfold page_ok; lia].
Qed.

Lemma buddy_run s r n : buddy_ok mg s -> buddy_owned s r n -> page_run r n.
Proof.
  intros Hok (H & p & -> & Hp & Hn & _). pose proof (bo_meta _ _ Hok) as BM. pose proof (bm_end _ (mg := mg)) as He.
  pose proof (bm_begin _ (mg := mg)) as Hb.
  split_and!; [done| |unfold nd, PAGE_SIZE; lia|unfold nd, PAGE_SIZE; lia].
  unfold nd, PAGE_SIZE. change VA_KERNEL_BEGIN with ((VA_KERNEL_BEGIN / 4096) * 4096). rewrite <- Z.mul_add_distr_r.
  by apply Z.mod_mul.
Qed.

Lemma bit_same k m m' x :
  agree (in_range (mem_map k) (bytes k (-1))) m m' -> page_ok k x -> bit m' (mem_map k) x = bit m (mem_map k) x.
Proof.
  intros H Hx. apply bit_agree. apply H. pose proof (byte_in k (-1) x) as B. unfold bmap, blen in B. simpl in B.
  rewrite Z.div_1_r in B. apply B. unfold page_ok in Hx. lia.
Qed.

Lemma bits_same s s' : kmem s' = kmem s ->
  agree (in_range (mem_map (kmem s)) (bytes (kmem s) (-1))) (mem s) (mem s') ->
  forall x, page_ok (kmem s) x -> allocated s' x = allocated s x.
Proof. intros Ek H x Hx. unfold allocated. rewrite Ek. by apply bit_same. Qed.

Lemma safe_mono s s' : kmem s' = kmem s ->
  (forall x, page_ok (kmem s) x -> allocated s x = true -> allocated s' x = true) ->
  forall a, buddy_safe s a -> buddy_safe s' a.
Proof.
  intros Ek Hal a. unfold buddy_safe. rewrite Ek. apply untouched_weaken. intros x Hx [Hm Hf]. split; [done|].
  destruct (allocated s x) eqn:E; [|done]. by rewrite Hal in Hf.
Qed.

Lemma owned_mono s s' : kmem s' = kmem s ->
  (forall x, page_ok (kmem s) x -> allocated s x = true -> allocated s' x = true) ->
  forall r n, buddy_owned s r n -> buddy_owned s' r n.
Proof.
  intros Ek Hal r n (Hn & p & -> & H1 & H2 & Hx). split; [done|]. exists p. rewrite Ek. split_and!; try done.
  intros x Hin. destruct (Hx x Hin). split; [done|]. apply Hal; [unfold page_ok; lia|done].
Qed.

(** The allocator's own memory: its globals, bitmaps and free pages. *)
Lemma unsafe_glob s a : in_range sym_kmem 496 a -> ~ buddy_safe s a.
Proof. by intros Ha (H & _). Qed.
Lemma unsafe_map s i a : -1 <= i < MAX_MEM_ORDER -> in_range (bmap (kmem s) i) (bytes (kmem s) i) a -> ~ buddy_safe s a.
Proof. intros Hi Ha (_ & H & _). by apply (H i). Qed.
Lemma unsafe_page s p a : page_ok (kmem s) p -> is_free mg s p -> in_range (nd (kmem s) p) PAGE_SIZE a -> ~ buddy_safe s a.
Proof. intros Hp Hf Ha (_ & _ & H). by apply (H p). Qed.

Lemma R_frame s s' fl bv :
  BuddyMeta (kmem s) mg -> R (kmem s) mg (fun _ => True) (mem s) fl bv -> AInv (kmem s) mg fl [] bv ->
  agree (fun a => ~ buddy_safe s a) (mem s) (mem s') -> R (kmem s) mg (fun _ => True) (mem s') fl bv.
Proof.
  intros BM HR HA Hag. split; try apply HR.
  - intros o Ho. apply (dll_frame 0 8 (node (kmem s)) 24 (mem s)); [by apply (nodup_of (kmem s) mg (fun _ => True) (mem s) fl bv)| |by apply (R_dll _ _ _ _ _ _ HR)].
    intros a (x & Hx & Ha). apply Hag. apply elem_of_cons in Hx as [->|Hx].
    + apply unsafe_glob. pose proof (head_bound o Ho). unfold in_range in *. lia.
    + apply list_elem_of_fmap in Hx as (p & -> & Hp). destruct (R_page _ _ _ _ _ _ HR o p Ho Hp) as (Hpo & Hm & _).
      apply (unsafe_page s p); [done| |unfold in_range, PAGE_SIZE in *; lia].
      split; [done|]. unfold allocated. rewrite <- (R_allocated mg (kmem s) _ (mem s) fl bv p HR Hpo).
      apply (A_free _ _ _ _ _ HA o p p); [split; auto|]. by apply in_blk_first, order_nonneg.
  - intros i j Hi Hj. rewrite <- (R_bits _ _ _ _ _ _ HR i j Hi Hj). apply bit_agree. apply Hag.
    apply (unsafe_map s i); [done|]. by apply byte_in.
Qed.

Lemma map_unsafe s : forall a, in_range (mem_map (kmem s)) (bytes (kmem s) (-1)) a -> ~ buddy_safe s a.
Proof. intros a Ha. apply (unsafe_map s (-1)); [unfold MAX_MEM_ORDER; lia|done]. Qed.

Lemma buddy_frame s s' : buddy_ok mg s -> kmem s' = kmem s -> agree (fun a => ~ buddy_safe s a) (mem s) (mem s') ->
  buddy_ok mg s' /\ (forall a, buddy_safe s a -> buddy_safe s' a) /\ (forall a, buddy_safe s' a -> buddy_safe s a) /\
  forall r n, buddy_owned s r n -> buddy_owned s' r n.
Proof.
  intros [BM Hl (fl & bv & HR & HA & HC)] Ek Hag.
  assert (Hb : forall x, page_ok (kmem s) x -> allocated s' x = allocated s x).
  { apply bits_same; [done|]. eapply agree_weaken; [|exact Hag]. apply map_unsafe. }
  split_and!.
  - split; rewrite ?Ek; [done| |].
    + unfold lock_free in *. rewrite <- Hl. apply ld_agree. eapply agree_weaken; [|exact Hag]. intros a Ha. apply unsafe_glob.
      unfold in_range, page_manager_lock in *. simpl in *. lia.
    + exists fl, bv. split_and!; try done. by apply (R_frame s).
  - apply safe_mono; [done|]. intros x Hx <-. by apply Hb.
  - apply safe_mono; [done|]. intros x Hx. rewrite Ek in Hx. by rewrite Hb.
  - apply owned_mono; [done|]. intros x Hx <-. by apply Hb.
Qed.

Lemma buddy_alloc order s : hart_ok s -> buddy_ok mg s -> order_ok order ->
  wp (kmem_alloc_pages order) (fun r s' =>
    quiet s s' /\ buddy_ok mg s' /\ agree (buddy_safe s) (mem s) (mem s') /\
    (forall a, buddy_safe s a -> buddy_safe s' a) /\ (forall r' n', buddy_owned s r' n' -> buddy_owned s' r' n') /\
    (r = NULL \/ buddy_owned s' r (2 ^ order) /\ forall a, run_at r (2 ^ order) a -> ~ buddy_safe s a)) s.
Proof.
  intros Hh Hok Ho. eapply wp_mono; [by apply (wp_kmem_alloc_pages mg)|]. intros r s' [B Hpost].
  pose proof (bs_kmem _ _ _ _ B) as Ek.
  assert (Hal : forall x, page_ok (kmem s) x -> allocated s x = true -> allocated s' x = true).
  { intros x Hx Ha. destruct Hpost as [(_ & H & _)|(p & _ & _ & _ & H)]; rewrite H, Ha by done; done. }
  split_and!; [split; apply B|apply B|apply B|by apply safe_mono|by apply owned_mono|].
  destruct Hpost as [(-> & _)|(p & -> & _ & Hfree & Hnow)]; [by left|right].
  pose proof (order_nonneg _ Ho) as Hge. pose proof (pow2_pos _ Hge) as Hpos.
  destruct (Hfree p (in_blk_first order p Hge)) as [Hp _]. destruct (Hfree (p + 2 ^ order - 1)) as [Hq _]; [unfold in_blk; lia|].
  split.
  - split; [done|]. exists p. rewrite Ek. unfold page_ok in *. split_and!; [done|lia|lia|]. intros x Hx.
    destruct (Hfree x Hx) as [Hpx [Hm _]]. split; [done|]. rewrite Hnow by done.
    by rewrite bool_decide_eq_true_2, orb_true_r.
  - intros a Ha. apply in_run in Ha as (x & Hx & Hr). destruct (Hfree x Hx). by apply (unsafe_page s x).
Qed.

Lemma buddy_free r n s : hart_ok s -> buddy_ok mg s -> buddy_owned s r n ->
  wp (kmem_free_pages r n) (fun _ s' =>
    quiet s s' /\ buddy_ok mg s' /\ agree (fun a => buddy_safe s a /\ ~ run_at r n a) (mem s) (mem s') /\
    (forall a, buddy_safe s' a <-> buddy_safe s a /\ ~ run_at r n a) /\
    (forall r' n', buddy_owned s r' n' -> disjoint r (n * PAGE_SIZE) r' (n' * PAGE_SIZE) -> buddy_owned s' r' n')) s.
Proof.
  intros Hh Hok (Hn & p & -> & Hp & Hpn & Hx). eapply wp_mono; [apply (wp_kmem_free_pages mg p n); try done; lia|].
  intros [] s' [B E]. pose proof (bs_kmem _ _ _ _ B) as Ek.
  assert (Hun : forall a, buddy_safe s a -> ~ run_at (nd (kmem s) p) n a -> untouched (kmem s) (fun x => is_free mg s x \/ p <= x < p + n) a).
  { intros a (H1 & H2 & H3) Hr. split_and!; try done. intros x Hpx [Hf|Hin] Ha; [by apply (H3 x)|].
    apply Hr. unfold run_at, in_range, nd, PAGE_SIZE in *. lia. }
  split_and!; [split; apply B|apply B| | |].
  - eapply agree_weaken; [|apply (bs_mem _ _ _ _ B)]. intros a [H1 H2]. by apply Hun.
  - assert (Hfr : forall x, page_ok (kmem s) x -> is_free mg s' x <-> mg x /\ (is_free mg s x \/ p <= x < p + n)).
    { intros x Hpx. unfold is_free. rewrite E by done. destruct (decide (p <= x < p + n)) as [Hin|Hout].
      - rewrite bool_decide_eq_true_2 by done. rewrite andb_false_r. tauto.
      - rewrite bool_decide_eq_false_2, andb_true_r by done. tauto. }
    intros a. split.
    + intros Hs. split.
      * apply (safe_mono s' s); [done| |done]. intros x Hpx Ha. rewrite Ek in Hpx. rewrite E in Ha by done. by apply andb_true_iff in Ha as [Ha _].
      * intros Hr. apply in_run in Hr as (x & Hin & Hr). rewrite <- Ek in Hr.
        apply (unsafe_page s' x a); try done; [unfold page_ok; rewrite Ek; lia|]. apply Hfr; [unfold page_ok; lia|]. split; [by apply Hx|by right].
    + intros [H1 H2]. unfold buddy_safe. rewrite Ek. eapply untouched_weaken; [|by apply Hun]. intros x Hpx Hf. by apply Hfr.
  - intros r' n' (Hn' & q & -> & Hq & Hqn & Hy) Hd. split; [done|]. exists q. rewrite Ek. split_and!; try done.
    intros x Hin. destruct (Hy x Hin) as [Hm Ha]. split; [done|]. rewrite E by (unfold page_ok; lia).
    rewrite Ha, bool_decide_eq_false_2; [done|]. unfold disjoint, nd, PAGE_SIZE in Hd. lia.
Qed.

#[export] Instance buddy_pages : PageAllocator := {|
  pa_ok := buddy_ok mg;
  pa_safe := buddy_safe;
  pa_owned := buddy_owned;
  pa_run := buddy_run;
  pa_owned_safe := buddy_owned_safe;
  pa_frame := buddy_frame;
  pa_alloc := buddy_alloc;
  pa_free := buddy_free;
|}.
End buddy.
