(* ===== verification/Object.v ===== *)
(** * memory/object.c: the object allocator

    An object manager hands out objects of one size.  It keeps a list of
    blocks (runs of pages from the page allocator); a block starts with its
    descriptor and is cut into slots, a header and an object each, that are on
    the block's free or allocated list.

    [struct kmem_object_header_struct { parent_block; prv; nxt }], 24 bytes;
    [struct kmem_object_block_struct]: [free_slots] at 0, [allocated_slots] at
    24, [nxt] 48, [used] 56, [total] 64, [object_size] 72, [page_count] 80,
    [parent_manager] 88, 96 bytes;
    [struct kmem_object_manager_struct]: [block_name] 0, [object_size] 8,
    [lock] 16, [blocks] 40, [nxt] 48, 56 bytes. *)

From S2P Require Import Prelude Memory Machine Lists Hal Lock Console Buddy.

Section object.
Context {L : KernelLayout} {C : Code}.

Definition sizeof_header : Z := 24.
Definition sizeof_block : Z := 96.
Definition sizeof_manager : Z := 56.
Definition object_manager_lock : Z := sym_kmem + 496.
Definition object_manager : Z := sym_kmem + 520.

Definition kmem_object_header_detach (node : Z) : M unit :=
  dl_detach 8 16 "kmem_object_header_detach - NULL argument" node.
Definition kmem_object_header_insert (head node : Z) : M unit :=
  dl_insert 8 16 "kmem_object_header_insert - NULL argument" head node.

Definition kmem_object_alloc_from_block (blk : Z) : M Z :=
  n ← rd 8 (blk + 16);
  (if n =? NULL then panic "kmem_object_alloc_from_block - no slots available" else mret tt);;
  node ← rd 8 (blk + 16);
  kmem_object_header_detach node;;
  kmem_object_header_insert (blk + 24) node;;
  used ← rd 8 (blk + 56);
  wr 8 (blk + 56) (used +l 1);;
  mret (node +l sizeof_header).

(** The loop of [kmem_object_create_block] that threads the slots. *)
Definition make_slots (block page_end unit_size : Z) : M unit :=
  while (fun '(pos, previous) =>
      if pos +l unit_size <=? page_end then
        wr 8 (previous + 16) pos;;
        wr 8 (pos + 8) previous;;
        wr 8 (pos + 16) NULL;;
        wr 8 pos block;;
        total ← rd 8 (block + 64);
        wr 8 (block + 64) (total +l 1);;
        mret (inl (pos +l unit_size, pos))
      else mret (inr tt))
    (BINARY_ROUND_UP (block +l sizeof_block) OBJECT_ALIGNMENT, block).

Definition kmem_object_create_block (parent_manager page_order object_size : Z) : M Z :=
  (if MAX_MEM_ORDER <=? page_order then panic "kmem_object_create_block - invalid page_order" else mret tt);;
  block ← kmem_alloc_pages page_order;
  if block =? NULL then mret NULL else
  wr 8 (block + 24 + 16) NULL;; wr 8 (block + 16) NULL;;
  wr 8 (block + 24 + 8) NULL;; wr 8 (block + 8) NULL;;
  wr 8 (block + 64) 0;; wr 8 (block + 56) 0;;
  wr 8 (block + 72) (BINARY_ROUND_UP object_size OBJECT_ALIGNMENT);;
  wr 8 (block + 80) (1 <<l page_order);;
  wr 8 (block + 48) NULL;;
  wr 8 (block + 88) parent_manager;;
  wr 8 (block + 24) block;;
  wr 8 block block;;
  osz ← rd 8 (block + 72);
  make_slots block (block +l (1 <<l (page_order + PAGE_SHIFT))) (sizeof_header +l osz);;
  mret block.

(** Bytes for slots in a block of the given order. *)
Definition capacity (order : Z) : Z :=
  BINARY_ROUND_DOWN ((1 <<l (order + PAGE_SHIFT)) -l sizeof_block) OBJECT_ALIGNMENT.

(** The first order, below the largest, whose capacity exceeds [sum]. *)
Fixpoint next_order (fuel : nat) (ord sum : Z) : Z :=
  match fuel with
  | O => ord
  | S n => if (ord + 1 <? MAX_MEM_ORDER) && (capacity ord <=? sum) then next_order n (ord + 1) sum else ord
  end.

(** Ask for a block of order [ord], then of smaller orders. *)
Fixpoint new_block (fuel : nat) (mgr unit_size ord : Z) : M Z :=
  match fuel with
  | O => hang
  | S n =>
      if unit_size <=? capacity ord then
        osz ← rd 8 (mgr + 8);
        b ← kmem_object_create_block mgr ord osz;
        if negb (b =? NULL) then mret b
        else if 0 <? ord then new_block n mgr unit_size (ord - 1) else mret NULL
      else mret NULL
  end.

(** The first free slot of the manager's blocks, or the bytes in use. *)
Definition find_slot (mgr unit_size : Z) : M (option Z * Z) :=
  blocks ← rd 8 (mgr + 40);
  while (fun '(blk, sum) =>
      if blk =? NULL then mret (inr (None, sum)) else
      f ← rd 8 (blk + 16);
      if negb (f =? NULL) then r ← kmem_object_alloc_from_block blk; mret (inr (Some r, sum))
      else used ← rd 8 (blk + 56); nxt ← rd 8 (blk + 48); mret (inl (nxt, sum +l used *l unit_size)))
    (blocks, 0).

(** A new block for the manager, and its first object. *)
Definition grow (mgr unit_size sum : Z) : M Z :=
  let sum := if sum <? unit_size *l 4 then unit_size *l 4 else sum in
  new_blk ← new_block (Z.to_nat MAX_MEM_ORDER) mgr unit_size (next_order (Z.to_nat MAX_MEM_ORDER) 0 sum);
  if new_blk =? NULL then mret NULL else
  blocks ← rd 8 (mgr + 40);
  wr 8 (new_blk + 48) blocks;;
  wr 8 (mgr + 40) new_blk;;
  kmem_object_alloc_from_block new_blk.

Definition kmem_object_alloc (mgr : Z) : M Z :=
  osz ← rd 8 (mgr + 8);
  let unit_size := osz +l sizeof_header in
  spinlock_acquire (mgr + 16);;
  r ← ('(found, sum) ← find_slot mgr unit_size;
       match found with Some r => mret r | None => grow mgr unit_size sum end);
  spinlock_release (mgr + 16);;
  mret r.

Definition kmem_object_free (vaddr : Z) : M unit :=
  let header := vaddr -l sizeof_header in
  pb ← rd 8 header;
  mgr ← rd 8 (pb + 88);
  spinlock_acquire (mgr + 16);;
  r ← (kmem_object_header_detach header;;
       pb ← rd 8 header;
       kmem_object_header_insert pb header;;
       pb ← rd 8 header;
       used ← rd 8 (pb + 56);
       wr 8 (pb + 56) (used -l 1));
  spinlock_release (mgr + 16);;
  mret r.

Definition kmem_object_free_block (block : Z) : M unit :=
  a ← rd 8 (block + 24 + 16);
  (if negb (a =? NULL) then panic "kmem_object_free_block - dirty block" else mret tt);;
  mgr ← rd 8 (block + 88);
  spinlock_acquire (mgr + 16);;
  r ← (blocks ← rd 8 (mgr + 40);
       (if blocks =? block then nxt ← rd 8 (block + 48); wr 8 (mgr + 40) nxt
        else while (fun i =>
            if i =? NULL then mret (inr tt) else
            n ← rd 8 (i + 48);
            if n =? block then nxt ← rd 8 (block + 48); wr 8 (i + 48) nxt;; mret (inr tt) else mret (inl n)) blocks);;
       count ← rd 8 (block + 80);
       kmem_free_pages block count);
  spinlock_release (mgr + 16);;
  mret r.

Definition kmem_object_create_manager (object_size name : Z) : M Z :=
  new_mgr ← kmem_object_alloc object_manager;
  wr 8 new_mgr name;;
  wr 8 (new_mgr + 8) (BINARY_ROUND_UP object_size OBJECT_ALIGNMENT);;
  wr 8 (new_mgr + 40) NULL;;
  wr 8 (new_mgr + 48) NULL;;
  spinlock_acquire object_manager_lock;;
  nxt ← rd 8 (object_manager + 48);
  wr 8 (new_mgr + 48) nxt;;
  wr 8 (object_manager + 48) new_mgr;;
  spinlock_release object_manager_lock;;
  mret new_mgr.

Definition kmem_object_init : M unit :=
  printf ("[kmem_object]initializing" ++ nl) [];;
  wr 8 object_manager (sym_str "kmem_obj_mgr");;
  wr 8 (object_manager + 8) (BINARY_ROUND_UP sizeof_manager OBJECT_ALIGNMENT);;
  spinlock_init object_manager_lock (sym_str "kmem_object_manager_lock").
End object.
