(* ===== verification/ObjectInv.v ===== *)
(** * The object allocator's invariant

    A block abstracts to the lists of its free and allocated slots, a manager
    to the list of its blocks.  Only the manager, the block descriptors and
    the slot headers ([meta]) matter to the invariant: objects belong to
    whoever allocated them. *)

From S2P Require Import Prelude Memory Machine Lists Lock Buddy BuddyMem PageAlloc Object.

(** An oblock: address, number of pages, free and allocated slots. *)
Record oblock := mk_oblock { ob : Z; ob_pages : Z; ob_free : list Z; ob_used : list Z }.
Definition ob_slots (b : oblock) : list Z := ob_free b ++ ob_used b.
Definition ob_size (b : oblock) : Z := ob_pages b * PAGE_SIZE.
Definition objects (bl : list oblock) : list Z := bl ≫= ob_used.

(** The list of blocks through [nxt]. *)
Fixpoint bchain (m : memory) (p : Z) (l : list Z) : Prop :=
  match l with
  | [] => p = NULL
  | b :: l' => p = b /\ bchain m (ld64 m (b + 48)) l'
  end.

Lemma bchain_frame m m' p l :
  (forall b, b ∈ l -> ld64 m' (b + 48) = ld64 m (b + 48)) -> bchain m p l -> bchain m' p l.
Proof.
  revert p. induction l as [|b l IH]; intros p H; [done|]. intros [-> Hc]. split; [done|].
  rewrite H by set_solver. apply IH; [|done]. intros b' Hb'. apply H. set_solver.
Qed.

Section inv.
Context {L : KernelLayout} {PA : PageAllocator}.
Context (mgr osz : Z).
Abbreviation usz := (osz + 24).

(** The slots a block is cut into. *)
Definition is_slot (b : oblock) (x : Z) : Prop :=
  exists i, 0 <= i /\ x = ob b + 96 + i * usz /\ x + usz <= ob b + ob_size b.

(** The addresses the list code may use as nodes of block [b]. *)
Definition slot_node (b : oblock) (x : Z) : Prop := x = ob b \/ x = ob b + 24 \/ is_slot b x.

(** The allocator's data inside a block, and all of a manager's. *)
Definition block_meta (b : oblock) (a : Z) : Prop :=
  in_range (ob b) 96 a \/ exists x, x ∈ ob_slots b /\ in_range x 24 a.
Definition meta (bl : list oblock) (a : Z) : Prop :=
  in_range mgr 56 a \/ exists b, b ∈ bl /\ block_meta b a.
(** The same without the manager's other fields. *)
Definition list_meta (bl : list oblock) (a : Z) : Prop :=
  in_range (mgr + 40) 8 a \/ exists b, b ∈ bl /\ block_meta b a.

Record block_ok (m : memory) (b : oblock) : Prop := {
  bk_run : page_run (ob b) (ob_pages b);
  bk_free : dll 8 16 m (ob b) (ob_free b);
  bk_used : dll 8 16 m (ob b + 24) (ob_used b);
  bk_nodup : NoDup (ob_slots b);
  bk_slots : forall x, x ∈ ob_slots b <-> is_slot b x;
  bk_parent : forall x, x ∈ ob_slots b -> ld64 m x = ob b;
  bk_count : ld64 m (ob b + 56) = Z.of_nat (length (ob_used b));
  bk_pages : ld64 m (ob b + 80) = ob_pages b;
  bk_mgr : ld64 m (ob b + 88) = mgr;
}.

Definition apart (b b' : oblock) : Prop := disjoint (ob b) (ob_size b) (ob b') (ob_size b').

Record blocks_ok (m : memory) (bl : list oblock) : Prop := {
  bs_list : bchain m (ld64 m (mgr + 40)) (ob <$> bl);
  bs_each : forall b, b ∈ bl -> block_ok m b;
  bs_nodup : NoDup (ob <$> bl);
  bs_apart : forall b b', b ∈ bl -> b' ∈ bl -> ob b <> ob b' -> apart b b';
  bs_out : forall b, b ∈ bl -> disjoint mgr 56 (ob b) (ob_size b);
}.

Record mgr_ok (s : kst) (bl : list oblock) : Prop := {
  mk_addr : PAGE_SIZE <= mgr /\ mgr + 56 < 2 ^ 64;
  mk_safe : forall a, in_range mgr 56 a -> pa_safe s a;
  mk_osz : ld64 (mem s) (mgr + 8) = osz /\ 0 < osz < 2 ^ 32 /\ osz mod 8 = 0;
  mk_lock : lock_free (mem s) (mgr + 16);
  mk_blocks : blocks_ok (mem s) bl;
  mk_owned : forall b, b ∈ bl -> pa_owned s (ob b) (ob_pages b);
}.

(** ** Slots *)

Context (Hosz : 0 < osz).

Lemma slots_apart b x y : is_slot b x -> is_slot b y -> x <> y -> disjoint x usz y usz.
Proof.
  intros (i & Hi & -> & _) (j & Hj & -> & _) Hne. unfold disjoint. destruct (Z.lt_total i j) as [H|[->|H]]; [|done|]; nia.
Qed.

Lemma slot_bound b x : is_slot b x -> ob b + 96 <= x /\ x + usz <= ob b + ob_size b.
Proof. intros (i & Hi & -> & H). nia. Qed.

Lemma slot_space b : page_run (ob b) (ob_pages b) -> NodeSpace 8 16 (slot_node b) 24.
Proof.
  intros (Hn & _ & H1 & H2). unfold VA_KERNEL_BEGIN in *. split; [lia|lia|unfold disjoint; lia| |].
  - intros x [->|[->|Hx]]; [unfold PAGE_SIZE in *; lia|unfold PAGE_SIZE in *; lia|].
    apply slot_bound in Hx. unfold ob_size, PAGE_SIZE in *. lia.
  - assert (B : forall z, is_slot b z -> ob b + 96 <= z) by (intros z Hz; apply slot_bound in Hz; lia).
    intros x y Hx Hy Hne. destruct Hx as [->|[->|Hx]], Hy as [->|[->|Hy]]; unfold disjoint; try lia;
      try (pose proof (B _ Hx)); try (pose proof (B _ Hy)); try lia.
    pose proof (slots_apart b x y Hx Hy Hne). unfold disjoint in *. lia.
Qed.

(** ** Frames *)

Lemma head_nodup m b : block_ok m b -> NoDup (ob b :: ob b + 24 :: ob_slots b).
Proof.
  intros B. assert (H : forall x, x ∈ ob_slots b -> ob b + 96 <= x) by (intros x Hx; apply (bk_slots _ _ B), slot_bound in Hx; lia).
  constructor; [|constructor; [|apply B]].
  - intros [?|Hx]%elem_of_cons; [lia|]. specialize (H _ Hx). lia.
  - intros Hx. specialize (H _ Hx). lia.
Qed.

Lemma free_nodup m b : block_ok m b -> NoDup (ob b :: ob_free b).
Proof.
  intros B. pose proof (head_nodup m b B) as N. apply NoDup_cons in N as [N1 N2]. apply NoDup_cons in N2 as [_ N2].
  unfold ob_slots in *. constructor; [set_solver|by apply NoDup_app in N2 as [? _]].
Qed.
Lemma used_nodup m b : block_ok m b -> NoDup (ob b + 24 :: ob_used b).
Proof.
  intros B. pose proof (head_nodup m b B) as N. apply NoDup_cons in N as [_ N2]. apply NoDup_cons in N2 as [N1 N2].
  unfold ob_slots in *. constructor; [set_solver|by apply NoDup_app in N2 as (_ & _ & ?)].
Qed.

(** The [nxt] link of a block is the manager's business. *)
Lemma block_frame m m' b :
  block_ok m b -> agree (fun a => block_meta b a /\ ~ in_range (ob b + 48) 8 a) m m' -> block_ok m' b.
Proof.
  intros B Ha. assert (F : forall o, 56 <= o <= 88 -> ld64 m' (ob b + o) = ld64 m (ob b + o)).
  { intros o Ho. apply ld_agree. eapply agree_weaken; [|exact Ha]. intros a Hr. unfold block_meta, in_range in *. simpl in Hr. lia. }
  assert (S : forall x a, x ∈ ob_slots b -> in_range x 24 a -> block_meta b a /\ ~ in_range (ob b + 48) 8 a).
  { intros x a Hx Hr. split; [right; eauto|]. apply (bk_slots _ _ B), slot_bound in Hx. unfold in_range in *. lia. }
  split; try apply B.
  - apply (dll_frame_links 8 16 m); [by apply (free_nodup m)| |apply B]. eapply agree_weaken; [|exact Ha].
    intros a (n & Hn & Hr). apply elem_of_cons in Hn as [->|Hn]; [unfold block_meta, in_range in *; lia|].
    apply (S n); [apply elem_of_app; auto|unfold in_range in *; lia].
  - apply (dll_frame_links 8 16 m); [by apply (used_nodup m)| |apply B]. eapply agree_weaken; [|exact Ha].
    intros a (n & Hn & Hr). apply elem_of_cons in Hn as [->|Hn]; [unfold block_meta, in_range in *; lia|].
    apply (S n); [apply elem_of_app; auto|unfold in_range in *; lia].
  - intros x Hx. rewrite <- (bk_parent _ _ B x Hx). apply ld_agree. eapply agree_weaken; [|exact Ha].
    intros a Hr. apply (S x); [done|]. unfold in_range in *. simpl in Hr. lia.
  - rewrite F by lia. apply B.
  - rewrite F by lia. apply B.
  - rewrite F by lia. apply B.
Qed.

Lemma blocks_frame m m' bl : blocks_ok m bl -> agree (list_meta bl) m m' -> blocks_ok m' bl.
Proof.
  intros B Ha. split; try apply B.
  - replace (ld64 m' (mgr + 40)) with (ld64 m (mgr + 40)).
    + eapply bchain_frame; [|apply B]. intros x (b & -> & Hb)%list_elem_of_fmap. apply ld_agree. eapply agree_weaken; [|exact Ha].
      intros a Hr. right. exists b. split; [done|]. left. unfold in_range in *. simpl in Hr. lia.
    + symmetry. apply ld_agree. eapply agree_weaken; [|exact Ha]. intros a Hr. by left.
  - intros b Hb. apply (block_frame m); [by apply B|]. eapply agree_weaken; [|exact Ha]. intros a [Hm _]. right. eauto.
Qed.
End inv.
