(* ===== verification/ObjectProofs.v ===== *)
(** * The object allocator's operations keep its invariant

    One lemma per function of memory/object.c, from the invariant of
    ObjectInv and the interface of PageAlloc: taking a slot from a block,
    giving it back, building a block, growing a manager. *)

From S2P Require Import Prelude Memory Machine Lists Hal Lock Console Buddy BuddyMem PageAlloc Object ObjectInv.

Section proofs.
Context {L : KernelLayout} {C : Code} {PA : PageAllocator}.
Context (mgr osz : Z) (Hosz : 0 < osz < 2 ^ 32).
Abbreviation usz := (osz + 24).

(** What an operation inside block [b] may write: its data, but not its link
    to the next block. *)
Definition block_keep (b : oblock) (a : Z) : Prop := ~ block_meta b a \/ in_range (ob b + 48) 8 a.

Lemma block_addr b o : page_run (ob b) (ob_pages b) -> 0 <= o <= 96 -> PAGE_SIZE <= ob b + o < 2 ^ 64.
Proof. intros (Hn & _ & H1 & H2) Ho. unfold VA_KERNEL_BEGIN, PAGE_SIZE in *. lia. Qed.

Lemma slots_nodes m b : block_ok mgr osz m b -> Forall (slot_node osz b) (ob b :: ob b + 24 :: ob_slots b).
Proof.
  intros B. constructor; [by left|]. constructor; [right; by left|]. apply Forall_forall. intros x Hx. right. right. by apply B.
Qed.

(** A block whose lists were rearranged and whose counter was updated. *)
Lemma block_relink m m' b fl ul :
  block_ok mgr osz m b -> fl ++ ul ≡ₚ ob_slots b ->
  dll 8 16 m' (ob b) fl -> dll 8 16 m' (ob b + 24) ul -> ld64 m' (ob b + 56) = Z.of_nat (length ul) ->
  agree (fun a => unlinked 8 16 (ob b :: ob b + 24 :: ob_slots b) a /\ ~ in_range (ob b + 56) 8 a) m m' ->
  block_ok mgr osz m' (mk_oblock (ob b) (ob_pages b) fl ul) /\ agree (block_keep b) m m'.
Proof.
  intros B P D1 D2 D3 Ha.
  assert (S : forall x, x ∈ ob_slots b -> ob b + 96 <= x) by (intros x Hx; apply (bk_slots _ _ _ _ B), slot_bound in Hx; lia).
  assert (F : forall o, o = 48 \/ o = 80 \/ o = 88 -> agree (in_range (ob b + o) 8) m m').
  { intros o Ho. eapply agree_weaken; [|exact Ha]. intros a Hr. split; [|unfold in_range in *; lia].
    intros n [->|[->|Hn]%elem_of_cons]%elem_of_cons; [unfold in_range in *; lia..|].
    specialize (S n Hn). unfold in_range in *. lia. }
  split; [split; cbn [ob ob_pages ob_free ob_used]|]; try apply B; try done.
  - unfold ob_slots. cbn. rewrite P. apply B.
  - intros x. unfold ob_slots. cbn. rewrite P. apply (bk_slots _ _ _ _ B).
  - intros x. unfold ob_slots at 1. cbn. rewrite P. intros Hx. rewrite <- (bk_parent _ _ _ _ B x Hx). apply ld_agree.
    eapply agree_weaken; [|exact Ha]. intros a Hr. simpl in Hr. pose proof (S x Hx) as Sx.
    split; [|unfold in_range in *; lia].
    intros n [->|[->|Hn]%elem_of_cons]%elem_of_cons; [unfold in_range in *; lia..|].
    destruct (Z.eq_dec x n) as [->|Hne]; [unfold in_range in *; lia|].
    pose proof (slots_apart osz ltac:(lia) b x n ltac:(by apply B) ltac:(by apply B) Hne). unfold disjoint, in_range in *. lia.
  - rewrite <- (bk_pages _ _ _ _ B). apply ld_agree, F. auto.
  - rewrite <- (bk_mgr _ _ _ _ B). apply ld_agree, F. auto.
  - intros a [Hn|Hr]; [|by apply (F 48); auto]. apply Ha. split.
    + intros n Hx. assert (Hm : ~ in_range n 24 a); [|unfold in_range in *; lia]. intros Hr. apply Hn.
      apply elem_of_cons in Hx as [->|[->|Hx]%elem_of_cons]; [left; unfold in_range in *; lia..|right; eauto].
    + intros Hr. apply Hn. left. unfold in_range in *. lia.
Qed.

(** Distinct integers of a range are at most as many as the range is long. *)
Lemma nodup_range_length (l : list Z) lo n :
  NoDup l -> 0 <= n -> (forall x, x ∈ l -> lo <= x < lo + n) -> Z.of_nat (length l) <= n.
Proof.
  intros Hn H0 Hl. assert (Hs : l ⊆+ seqZ lo n) by (apply NoDup_submseteq; [done|]; intros x Hx; apply elem_of_seqZ; auto).
  apply submseteq_length in Hs. rewrite length_seqZ in Hs. lia.
Qed.

Lemma slots_length m b : block_ok mgr osz m b -> Z.of_nat (length (ob_slots b)) <= 2 ^ 37.
Proof.
  intros B. pose proof (bk_run _ _ _ _ B) as (Hn & _ & _ & Hend). assert (ob_size b <= 2 ^ 37) by (pose proof (block_addr b 0 (bk_run _ _ _ _ B)); unfold ob_size in *; pose proof (proj1 (proj2 (proj2 (bk_run _ _ _ _ B)))); lia).
  assert (Z.of_nat (length (ob_slots b)) <= ob_size b); [|lia].
  apply (nodup_range_length _ (ob b)); [apply B|unfold ob_size, PAGE_SIZE; lia|].
  intros x Hx. apply (bk_slots _ _ _ _ B), slot_bound in Hx; lia.
Qed.

(** Updating the counter of a block leaves its lists alone. *)
Lemma dll_counter m b h l v :
  h = ob b \/ h = ob b + 24 -> (forall x, x ∈ l -> ob b + 96 <= x) -> NoDup (h :: l) ->
  dll 8 16 m h l -> dll 8 16 (st64 m (ob b + 56) v) h l.
Proof.
  intros Hh Hl Hn. apply dll_frame_links; [done|]. apply agree_st. intros a Hr (n & Hin & Hl').
  apply elem_of_cons in Hin as [->|Hin]; [|specialize (Hl n Hin)]; unfold in_range in *; simpl in *; lia.
Qed.

(** The end of both operations on slots: the lists are relinked in [m2] and
    the counter gets its new value. *)
Lemma block_counted m m2 b fl ul v :
  block_ok mgr osz m b -> fl ++ ul ≡ₚ ob_slots b ->
  dll 8 16 m2 (ob b) fl -> dll 8 16 m2 (ob b + 24) ul -> v = Z.of_nat (length ul) ->
  agree (unlinked 8 16 (ob b :: ob b + 24 :: ob_slots b)) m m2 ->
  block_ok mgr osz (st64 m2 (ob b + 56) v) (mk_oblock (ob b) (ob_pages b) fl ul) /\
  agree (block_keep b) m (st64 m2 (ob b + 56) v).
Proof.
  intros B P D1 D2 -> Ha. pose proof (head_nodup mgr osz ltac:(lia) _ _ B) as HD.
  assert (S : forall x, x ∈ fl ++ ul -> ob b + 96 <= x) by (intros x; rewrite P; intros Hx; apply (bk_slots _ _ _ _ B), slot_bound in Hx; lia).
  assert (HD' : NoDup (ob b :: ob b + 24 :: fl ++ ul)) by (by rewrite P).
  apply NoDup_cons in HD' as [N1 HD']. apply NoDup_cons in HD' as [N2 HD']. pose proof HD' as [N3 [_ N4]]%NoDup_app.
  assert (Hlen : Z.of_nat (length ul) < 2 ^ 64).
  { pose proof (slots_length _ _ B) as Hs. rewrite <- P, length_app in Hs. lia. }
  apply block_relink; try done.
  - apply dll_counter; [by left|set_solver|constructor; [set_solver|done]|done].
  - apply dll_counter; [by right|set_solver|constructor; [set_solver|done]|done].
  - apply ld64_st64. lia.
  - etrans; [eapply agree_weaken; [|exact Ha]; tauto|]. apply agree_st. tauto.
Qed.

Lemma wp_alloc_from_block b x fl (Q : Z -> kst -> Prop) s :
  block_ok mgr osz (mem s) b -> ob_free b = x :: fl ->
  (forall m', block_ok mgr osz m' (mk_oblock (ob b) (ob_pages b) fl (x :: ob_used b)) ->
     agree (block_keep b) (mem s) m' -> Q (x + 24) (set_mem m' s)) ->
  wp (kmem_object_alloc_from_block (ob b)) Q s.
Proof.
  intros B Ef HQ. pose proof (bk_run _ _ _ _ B) as Hrun. pose proof (fun o => block_addr b o Hrun) as A.
  pose proof (slot_space osz ltac:(lia) b Hrun) as NS. pose proof (slots_nodes _ _ B) as HN.
  pose proof (head_nodup mgr osz ltac:(lia) _ _ B) as HD.
  assert (S : forall y, y ∈ ob_slots b -> ob b + 96 <= y /\ y + usz <= ob b + ob_size b)
    by (intros y Hy; apply (bk_slots _ _ _ _ B), slot_bound in Hy; lia).
  assert (Hx : x ∈ ob_slots b) by (unfold ob_slots; rewrite Ef; set_solver).
  pose proof (S x Hx) as Sx. pose proof (proj2 (proj2 (proj2 Hrun))) as Hend. fold (ob_size b) in Hend. unfold VA_KERNEL_BEGIN in Hend.
  pose proof (A 0 ltac:(lia)) as A0.
  assert (E16 : ld64 (mem s) (ob b + 16) = x).
  { pose proof (chain_hd _ _ _ _ (bk_free _ _ _ _ B)) as E. rewrite Ef in E. exact E. }
  assert (Es : ob_slots b = x :: fl ++ ob_used b) by (unfold ob_slots; by rewrite Ef).
  unfold kmem_object_alloc_from_block. wp_step. wp_step. rewrite E16, (proj2 (Z.eqb_neq x NULL)) by (unfold NULL, PAGE_SIZE in *; lia).
  wp_step. wp_step. wp_step. wp_step. rewrite E16. wp_step.
  apply (wp_dl_detach2 8 16 (slot_node osz b) 24 _ (ob b) [] x fl (ob b + 24) (ob_used b)); [by rewrite Es in HD|by rewrite Es in HN| |apply B|].
  { simpl. rewrite <- Ef. apply B. }
  intros m1 D1 D2 Ha1. wp_step.
  assert (P2 : ob b + 24 :: ob b :: x :: ob_used b ++ fl ≡ₚ ob b :: ob b + 24 :: ob_slots b).
  { rewrite perm_swap, Es. do 3 apply perm_skip. apply Permutation_app_comm. }
  apply (wp_dl_insert2 8 16 (slot_node osz b) 24 _ (ob b + 24) x (ob_used b) (ob b) fl); [by rewrite P2|by rewrite P2|done|done|].
  rewrite set_mem_mem. intros m2 D3 D4 Ha2. rewrite set_mem_twice. wp_steps. rewrite set_mem_mem, set_mem_twice.
  unfold sizeof_header. rewrite add64_small by (unfold PAGE_SIZE in *; lia).
  assert (Ha : agree (unlinked 8 16 (ob b :: ob b + 24 :: ob_slots b)) (mem s) m2).
  { etrans; [eapply agree_weaken; [|exact Ha1]|eapply agree_weaken; [|exact Ha2]]; intros a; apply unlinked_mono; intros y; [|by rewrite P2].
    by rewrite Es. }
  assert (E56 : ld64 m2 (ob b + 56) = Z.of_nat (length (ob_used b))).
  { rewrite <- (bk_count _ _ _ _ B). apply ld_agree. eapply agree_weaken; [|exact Ha]. intros a Hr n Hn. simpl in Hr.
    apply elem_of_cons in Hn as [->|[->|Hn]%elem_of_cons]; [| |specialize (S n Hn)]; unfold in_range in *; lia. }
  rewrite E56.
  destruct (block_counted (mem s) m2 b fl (x :: ob_used b) (Z.of_nat (length (ob_used b)) +l 1)) as [B' K']; try done.
  - rewrite Es. by rewrite <- Permutation_middle.
  - rewrite add64_small; [simpl; lia|]. pose proof (slots_length _ _ B) as Hl. rewrite Es in Hl. simpl in Hl. rewrite length_app in Hl. lia.
  - by apply HQ.
Qed.

(** The slots of a block lie in its pages. *)
Lemma meta_in_block m b a : block_ok mgr osz m b -> block_meta b a -> in_range (ob b) (ob_size b) a.
Proof.
  intros B [Hr|(x & Hx & Hr)].
  - pose proof (bk_run _ _ _ _ B) as (Hn & _). unfold ob_size, in_range, PAGE_SIZE in *. lia.
  - apply (bk_slots _ _ _ _ B), slot_bound in Hx; [|lia]. unfold in_range in *. lia.
Qed.

Lemma wp_free_slot b l1 x l2 (Q : unit -> kst -> Prop) s :
  block_ok mgr osz (mem s) b -> ob_used b = l1 ++ x :: l2 ->
  (forall m', block_ok mgr osz m' (mk_oblock (ob b) (ob_pages b) (x :: ob_free b) (l1 ++ l2)) ->
     agree (block_keep b) (mem s) m' -> Q tt (set_mem m' s)) ->
  wp (kmem_object_header_detach x;;
      pb ← rd 8 x; kmem_object_header_insert pb x;;
      pb ← rd 8 x; used ← rd 8 (pb + 56); wr 8 (pb + 56) (used -l 1)) Q s.
Proof.
  intros B Eu HQ. pose proof (bk_run _ _ _ _ B) as Hrun. pose proof (block_addr b 0 Hrun ltac:(lia)) as A0.
  pose proof (slot_space osz ltac:(lia) b Hrun) as NS. pose proof (slots_nodes _ _ B) as HN.
  pose proof (head_nodup mgr osz ltac:(lia) _ _ B) as HD.
  assert (S : forall y, y ∈ ob_slots b -> ob b + 96 <= y /\ y + usz <= ob b + ob_size b)
    by (intros y Hy; apply (bk_slots _ _ _ _ B), slot_bound in Hy; lia).
  assert (Hx : x ∈ ob_slots b) by (unfold ob_slots; rewrite Eu; set_solver).
  pose proof (S x Hx) as Sx. pose proof (proj2 (proj2 (proj2 Hrun))) as Hend. fold (ob_size b) in Hend. unfold VA_KERNEL_BEGIN in Hend.
  assert (P1 : ob b + 24 :: ob b :: x :: l1 ++ l2 ++ ob_free b ≡ₚ ob b :: ob b + 24 :: ob_slots b).
  { rewrite perm_swap. do 2 apply perm_skip. unfold ob_slots. rewrite Eu, app_assoc. rewrite (Permutation_app_comm (ob_free b)).
    rewrite <- Permutation_middle. done. }
  assert (P2 : ob b :: ob b + 24 :: x :: ob_free b ++ l1 ++ l2 ≡ₚ ob b :: ob b + 24 :: ob_slots b).
  { rewrite <- P1, perm_swap. do 3 apply perm_skip. rewrite Permutation_app_comm. by rewrite app_assoc. }
  assert (U : forall m a, agree (unlinked 8 16 (ob b :: ob b + 24 :: ob_slots b)) (mem s) m ->
    a = x \/ a = ob b + 56 -> ld64 m a = ld64 (mem s) a).
  { intros m a Ha Hor. apply ld_agree. eapply agree_weaken; [|exact Ha]. intros a' Hr n Hn. simpl in Hr.
    apply elem_of_cons in Hn as [->|[->|Hn]%elem_of_cons]; [unfold in_range in *; lia..|].
    pose proof (S n Hn) as Sn. destruct Hor as [->| ->]; [|unfold in_range in *; lia].
    destruct (Z.eq_dec x n) as [->|Hne]; [unfold in_range in *; lia|].
    pose proof (slots_apart osz ltac:(lia) b x n ltac:(by apply B) ltac:(by apply B) Hne). unfold disjoint, in_range in *. lia. }
  wp_step.
  apply (wp_dl_detach2 8 16 (slot_node osz b) 24 _ (ob b + 24) l1 x l2 (ob b) (ob_free b)); [by rewrite P1|by rewrite P1| |apply B|].
  { rewrite <- Eu. apply B. }
  intros m1 D1 D2 Ha1. rewrite P1 in Ha1. do 2 wp_step. rewrite set_mem_mem, (U m1 x), (bk_parent _ _ _ _ B) by auto. wp_step.
  apply (wp_dl_insert2 8 16 (slot_node osz b) 24 _ (ob b) x (ob_free b) (ob b + 24) (l1 ++ l2)); [by rewrite P2|by rewrite P2|done|done|].
  rewrite set_mem_mem. intros m2 D3 D4 Ha2. rewrite P2 in Ha2. rewrite set_mem_twice.
  assert (Ha : agree (unlinked 8 16 (ob b :: ob b + 24 :: ob_slots b)) (mem s) m2) by (by etrans).
  do 2 wp_step. rewrite set_mem_mem, (U m2 x), (bk_parent _ _ _ _ B) by auto. wp_steps.
  rewrite set_mem_mem, set_mem_twice, (U m2), (bk_count _ _ _ _ B), Eu by auto.
  pose proof (slots_length _ _ B) as Hl. unfold ob_slots in Hl. rewrite Eu, !length_app in Hl. simpl in Hl.
  destruct (block_counted (mem s) m2 b (x :: ob_free b) (l1 ++ l2) (Z.of_nat (length (l1 ++ x :: l2)) -l 1)) as [B' K']; try done.
  - unfold ob_slots. rewrite Eu. simpl. by rewrite !app_assoc, <- Permutation_middle.
  - rewrite !length_app. simpl. rewrite sub64_small; lia.
  - by apply HQ.
Qed.

(** Replacing one block of a manager after an operation inside it. *)
Lemma blocks_replace m m' bl1 b b' bl2 :
  blocks_ok mgr osz m (bl1 ++ b :: bl2) -> block_ok mgr osz m' b' -> ob b' = ob b -> ob_pages b' = ob_pages b ->
  agree (block_keep b) m m' -> blocks_ok mgr osz m' (bl1 ++ b' :: bl2).
Proof.
  intros [Hl He Hn Ha Ho] B' E1 E2 Hk. pose proof (He b ltac:(set_solver)) as B.
  assert (Es : ob_size b' = ob_size b) by (unfold ob_size; by rewrite E2).
  assert (Hout : forall a, ~ in_range (ob b) (ob_size b) a -> block_keep b a)
    by (intros a H; left; intros Hm; apply H; by apply (meta_in_block m)).
  assert (Hne : forall c, c ∈ bl1 ++ bl2 -> ob c <> ob b).
  { intros c Hc E. rewrite fmap_app, fmap_cons in Hn. rewrite <- Permutation_middle, <- fmap_app in Hn. apply NoDup_cons in Hn as [Hn _].
    apply Hn. rewrite <- E. apply list_elem_of_fmap. eauto. }
  assert (Hmg : agree (in_range mgr 56) m m').
  { eapply agree_weaken; [|exact Hk]. intros a Hr. apply Hout. pose proof (Ho b ltac:(set_solver)). unfold in_range, disjoint in *. lia. }
  assert (Hc : forall c, c ∈ bl1 ++ bl2 -> agree (in_range (ob c) (ob_size c)) m m').
  { intros c Hc. eapply agree_weaken; [|exact Hk]. intros a Hr. apply Hout.
    pose proof (Ha b c ltac:(set_solver) ltac:(set_solver) ltac:(intros E; by apply (Hne c))) as Hd. unfold apart, in_range, disjoint in *. lia. }
  assert (Em : ob <$> (bl1 ++ b' :: bl2) = ob <$> (bl1 ++ b :: bl2)) by (by rewrite !fmap_app, !fmap_cons, E1).
  assert (Hin : forall c, c ∈ bl1 ++ b' :: bl2 -> c = b' \/ c ∈ bl1 ++ bl2) by set_solver.
  split.
  - replace (ld64 m' (mgr + 40)) with (ld64 m (mgr + 40)).
    + rewrite Em. eapply bchain_frame; [|exact Hl]. intros x (c & -> & Hcc)%list_elem_of_fmap. apply ld_agree.
      assert (Hi : c ∈ bl1 ++ bl2 \/ c = b) by set_solver. destruct Hi as [Hcb| ->].
      * eapply agree_weaken; [|by apply Hc]. intros a Hr. apply (meta_in_block m); [by apply He|]. left.
        unfold in_range in *. simpl in Hr. lia.
      * eapply agree_weaken; [|exact Hk]. intros a Hr. by right.
    + symmetry. apply ld_agree. eapply agree_weaken; [|exact Hmg]. intros a Hr. unfold in_range in *. simpl in Hr. lia.
  - intros c [->|Hcc]%Hin; [done|]. apply (block_frame mgr osz ltac:(lia) m); [apply He; set_solver|].
    eapply agree_weaken; [|by apply Hc]. intros a [Hm _]. eapply meta_in_block; [|exact Hm]. apply He. set_solver.
  - by rewrite Em.
  - intros c d [->|Hcc]%Hin [->|Hd]%Hin Hne'; unfold apart; rewrite ?E1, ?Es in *; [done|..]; apply Ha; try set_solver.
  - intros c [->|Hcc]%Hin; [rewrite E1, Es|]; apply Ho; set_solver.
Qed.

Lemma blocks_length m bl : blocks_ok mgr osz m bl -> Z.of_nat (length bl) <= 2 ^ 37.
Proof.
  intros B. rewrite <- (length_fmap ob bl). apply (nodup_range_length _ VA_KERNEL_BEGIN); [apply B|lia|].
  intros x (b & -> & Hb)%list_elem_of_fmap. destruct (bk_run _ _ _ _ (bs_each _ _ _ _ B b Hb)) as (Hn & _ & H1 & H2).
  unfold PAGE_SIZE in *. lia.
Qed.

(** The result of an allocation inside block [b] of [bl1 ++ b :: bl2]. *)
Definition taken (m m' : memory) (bl : list oblock) (r : Z) : Prop :=
  exists bl1 b bl2 x fl, bl = bl1 ++ b :: bl2 /\ ob_free b = x :: fl /\ r = x + 24 /\
    block_ok mgr osz m' (mk_oblock (ob b) (ob_pages b) fl (x :: ob_used b)) /\ agree (block_keep b) m m'.

Lemma wp_find_slot bl (Q : option Z * Z -> kst -> Prop) s :
  PAGE_SIZE <= mgr -> blocks_ok mgr osz (mem s) bl ->
  (forall r sum m', taken (mem s) m' bl r -> Q (Some r, sum) (set_mem m' s)) ->
  (forall sum, (forall b, b ∈ bl -> ob_free b = []) -> Q (None, sum) s) ->
  wp (find_slot mgr usz) Q s.
Proof.
  intros Hm B H1 H2. pose proof (blocks_length _ _ B). unfold find_slot. do 2 wp_step.
  apply (wp_while_n (fun n '(blk, sum) t => t = s /\ exists bl1 bl2, bl = bl1 ++ bl2 /\ n = Z.of_nat (length bl2) /\
    (forall b, b ∈ bl1 -> ob_free b = []) /\ bchain (mem s) blk (ob <$> bl2)) _ (Z.of_nat (length bl))).
  - split; [done|]. exists [], bl. split_and!; try done; [set_solver|apply B].
  - lia.
  - intros n [blk sum] t (-> & bl1 & bl2 & Eb & -> & Hf & Hc) _. destruct bl2 as [|b bl2].
    + simpl in Hc. rewrite Hc. simpl. wp_steps. apply H2. rewrite app_nil_r in Eb. by subst.
    + destruct Hc as [-> Hc]. pose proof (bs_each _ _ _ _ B b ltac:(set_solver)) as Bb.
      pose proof (block_addr b 0 (bk_run _ _ _ _ Bb) ltac:(lia)) as A0.
      rewrite (proj2 (Z.eqb_neq _ NULL)) by (unfold NULL, PAGE_SIZE in *; lia). do 2 wp_step.
      pose proof (chain_hd _ _ _ _ (bk_free _ _ _ _ Bb)) as Eh. change (nxtm 16 (mem s) (ob b)) with (ld64 (mem s) (ob b + 16)) in Eh.
      destruct (ob_free b) as [|x fl] eqn:Ef; simpl in Eh; rewrite Eh.
      * simpl negb. wp_steps. exists (Z.of_nat (length bl2)). split; [simpl; lia|]. split; [done|].
        exists (bl1 ++ [b]), bl2. split_and!; [by rewrite <- app_assoc|done|set_solver|done].
      * assert (Hx : x ∈ ob_slots b) by (unfold ob_slots; rewrite Ef; set_solver).
        apply (bk_slots _ _ _ _ Bb), slot_bound in Hx; [|lia].
        rewrite (proj2 (Z.eqb_neq _ NULL)) by (unfold NULL, PAGE_SIZE in *; lia). simpl negb. wp_step. wp_step.
        apply (wp_alloc_from_block b x fl); try done. intros m' B' K'. wp_steps. apply H1.
        exists bl1, b, bl2, x, fl. done.
Qed.

(** ** Creating a block *)

Definition slots (block i : Z) : list Z := (fun k => block + 96 + k * usz) <$> seqZ 0 i.

Lemma slots_S block i : 0 <= i -> slots block (i + 1) = slots block i ++ [block + 96 + i * usz].
Proof. intros Hi. unfold slots. rewrite seqZ_app by lia. by rewrite fmap_app, Z.add_0_l. Qed.

Lemma elem_of_slots block i x : x ∈ slots block i <-> exists k, 0 <= k < i /\ x = block + 96 + k * usz.
Proof.
  unfold slots. rewrite list_elem_of_fmap. split; intros (k & H1 & H2).
  - exists k. rewrite elem_of_seqZ in H2. split; [lia|done].
  - exists k. split; [done|]. apply elem_of_seqZ. lia.
Qed.

Lemma slots_last block i : 0 <= i -> lastn block (slots block i) = if i =? 0 then block else block + 96 + (i - 1) * usz.
Proof.
  intros Hi. destruct (Z.eqb_spec i 0) as [->|Hne]; [done|]. replace i with (i - 1 + 1) at 1 by lia.
  rewrite slots_S, lastn_app by lia. done.
Qed.

Lemma slots_nodup block i : NoDup (block :: slots block i).
Proof.
  constructor.
  - rewrite elem_of_slots. intros (k & Hk & E). nia.
  - apply NoDup_fmap; [|apply NoDup_seqZ]. intros k k' E. nia.
Qed.

(** Evaluate a load after a sequence of stores. *)
Ltac lds := unfold nxtm, prvm, disjoint in *; repeat first [rewrite ld64_st64 by (unfold NULL; lia) | rewrite ld64_st64_ne by (unfold disjoint; lia)]; try done.

(** What threading the slots leaves alone. *)
Definition slots_keep (block size a : Z) : Prop :=
  ~ in_range block size a \/ in_range (block + 24) 40 a \/ in_range (block + 72) 24 a.

Record threaded (block size : Z) (m0 m : memory) (i : Z) : Prop := {
  th_list : dll 8 16 m block (slots block i);
  th_parent : forall x, x ∈ slots block i -> ld64 m x = block;
  th_keep : agree (slots_keep block size) m0 m;
}.

Lemma threaded_step block size m0 m i v :
  PAGE_SIZE <= block -> block + size < 2 ^ 64 -> 0 <= i -> 96 + (i + 1) * usz <= size -> threaded block size m0 m i ->
  let pos := block + 96 + i * usz in let prev := lastn block (slots block i) in
  threaded block size m0 (st64 (st64 (st64 (st64 (st64 m (prev + 16) pos) (pos + 8) prev) (pos + 16) NULL) pos block) (block + 64) v) (i + 1).
Proof.
  intros Hb Hs Hi Hsz [T1 T2 T3] pos prev. set (m' := st64 _ (block + 64) v).
  assert (Hpos : block + 96 <= pos /\ pos + usz <= block + size) by (unfold pos; nia).
  assert (Hprev : prev = block \/ block + 96 <= prev /\ prev + usz <= pos).
  { unfold prev, pos. rewrite slots_last by done. destruct (Z.eqb_spec i 0); [by left|right; nia]. }
  assert (Hold : forall y, y ∈ block :: slots block i -> y = block \/ block + 96 <= y /\ y + usz <= pos).
  { intros y [->|Hy]%elem_of_cons; [by left|right]. apply elem_of_slots in Hy as (k & Hk & ->). unfold pos. nia. }
  assert (Hap : forall y, y ∈ block :: slots block i -> y <> prev -> disjoint y 24 prev 24).
  { intros y Hy Hne. assert (Hpm : prev ∈ block :: slots block i) by apply lastn_in.
    rewrite elem_of_cons, elem_of_slots in Hy, Hpm.
    destruct Hy as [->|(k & Hk & ->)], Hpm as [Ep|(k' & Hk' & Ep)]; rewrite Ep in *; unfold disjoint; [done|nia..|].
    destruct (Z.lt_total k k') as [?|[->|?]]; [nia|done|nia]. }
  assert (Hpb : 0 <= prev < 2 ^ 64 /\ 0 <= pos < 2 ^ 64) by (unfold PAGE_SIZE in *; lia).
  split.
  - rewrite slots_S by done. apply (chain_append (nxtm 16 m) (prvm 8 m)); [apply slots_nodup|done|..]; fold prev; fold pos; unfold nxtm, prvm, m'.
    + lds.
    + lds.
    + lds.
    + intros y Hy Hne. pose proof (Hold y Hy). pose proof (Hap y Hy Hne). unfold disjoint in *. lds.
    + intros y Hy. pose proof (Hold y ltac:(set_solver)). unfold m'. destruct (Z.eq_dec y prev) as [->|Hne]; [lds|].
      pose proof (Hap y ltac:(set_solver) Hne). unfold disjoint in *. lds.
  - intros x. rewrite slots_S by done. intros [Hx|Hx%list_elem_of_singleton]%elem_of_app; unfold m'.
    + pose proof (Hold x ltac:(set_solver)). pose proof (slots_nodup block i) as [Hnb _]%NoDup_cons.
      assert (x <> block) by (intros ->; done). etrans; [|exact (T2 x Hx)].
      destruct (Z.eq_dec x prev) as [Ep|Hne]; [rewrite Ep in *; lds|]. pose proof (Hap x ltac:(set_solver) Hne). unfold disjoint in *. lds.
    + rewrite Hx. fold pos. unfold PAGE_SIZE in *. lds.
  - etrans; [exact T3|]. unfold m'. repeat (etrans; [|apply agree_st]); [reflexivity|..];
      intros a Hr [Hk|[Hk|Hk]]; unfold in_range in *; simpl in Hr; lia.
Qed.

Lemma round_up_8 x : 0 <= x -> x + 8 < 2 ^ 64 -> x mod 8 = 0 -> BINARY_ROUND_UP x OBJECT_ALIGNMENT = x.
Proof.
  intros H0 H1 Hm. unfold BINARY_ROUND_UP, OBJECT_ALIGNMENT. rewrite add64_small, sub64_small by lia.
  change (8 - 1) with (2 ^ 3 - 1). rewrite land_not_mask by lia. change (2 ^ 3) with 8. zdm.
Qed.

Lemma wp_make_slots block size (Q : unit -> kst -> Prop) s :
  PAGE_SIZE <= block -> block mod 8 = 0 -> block + size + usz < 2 ^ 64 -> 96 <= size ->
  ld64 (mem s) (block + 16) = NULL ->
  (forall m' n, 0 <= n -> 96 + n * usz <= size < 96 + (n + 1) * usz -> threaded block size (mem s) m' n -> Q tt (set_mem m' s)) ->
  wp (make_slots block (block + size) usz) Q s.
Proof.
  intros Hb Hm8 Hs H96 Hnil HQ. unfold make_slots, sizeof_block.
  rewrite add64_small by (unfold PAGE_SIZE in *; lia).
  rewrite round_up_8 by (unfold PAGE_SIZE in *; try lia; zdm).
  set (nmax := (size - 96) / usz).
  assert (Hmax : 0 <= nmax /\ nmax * usz <= size - 96 < (nmax + 1) * usz) by (unfold nmax; pose proof (Z.div_mod (size - 96) usz ltac:(lia)); pose proof (Z.mod_pos_bound (size - 96) usz ltac:(lia)); nia).
  apply (wp_while_n (fun n '(pos, prev) t => exists i m', n = nmax - i /\ 0 <= i <= nmax /\ t = set_mem m' s /\ pos = block + 96 + i * usz /\
    prev = lastn block (slots block i) /\ threaded block size (mem s) m' i) _ nmax).
  - exists 0, (mem s). split_and!; [lia|lia|lia|by rewrite set_mem_id|lia|done|]. split; [by split|set_solver|done].
  - split; [lia|]. unfold nmax. apply Z.div_lt_upper_bound; [lia|]. unfold PAGE_SIZE in *. nia.
  - intros n [pos prev] t (i & m' & -> & Hi & -> & Ep & Epr & Th) _.
    assert (Hprev : prev = block \/ block + 96 <= prev /\ prev <= pos).
    { rewrite Epr, slots_last by lia. destruct (Z.eqb_spec i 0); [by left|right; nia]. }
    assert (Hpos : block + 96 <= pos <= block + size) by (rewrite Ep; nia).
    unfold PAGE_SIZE in *. rewrite add64_small by lia. destruct (Z.leb_spec (pos + usz) (block + size)) as [Hle|Hgt].
    + assert (i < nmax) by nia. wp_steps; try (unfold PAGE_SIZE; lia). cbn [mem set_mem].
      exists (nmax - (i + 1)). split; [lia|]. exists (i + 1). eexists. split_and!; [done|lia|lia|reflexivity|lia| |].
      * rewrite slots_last by lia. destruct (Z.eqb_spec (i + 1) 0); [lia|]. rewrite Ep. lia.
      * rewrite Ep, Epr. apply threaded_step; try done; unfold PAGE_SIZE; try lia.
    + wp_steps. assert (i = nmax) as -> by nia. apply (HQ m' nmax); [lia|lia|done].
Qed.

(** The block that [kmem_object_create_block] returns. *)
Definition fresh_block (s s' : kst) (ord : Z) (b : oblock) : Prop :=
  block_ok mgr osz (mem s') b /\ ob_used b = [] /\ ob_pages b = 2 ^ ord /\ pa_owned s' (ob b) (ob_pages b) /\
  (forall a, in_range (ob b) (ob_size b) a -> ~ pa_safe s a) /\ (usz <= 2 ^ ord * PAGE_SIZE - 96 -> ob_free b <> []).

Lemma threaded_block block ord m0 m n :
  page_run block (2 ^ ord) -> 0 <= n -> 96 + n * usz <= 2 ^ ord * PAGE_SIZE < 96 + (n + 1) * usz ->
  threaded block (2 ^ ord * PAGE_SIZE) m0 m n ->
  ld64 m0 (block + 40) = NULL -> ld64 m0 (block + 56) = 0 -> ld64 m0 (block + 80) = 2 ^ ord -> ld64 m0 (block + 88) = mgr ->
  block_ok mgr osz m (mk_oblock block (2 ^ ord) (slots block n) []).
Proof.
  intros Hr Hn Hsz [T1 T2 T3] E1 E2 E3 E4.
  assert (F : forall o, 24 <= o <= 56 \/ 72 <= o <= 88 -> ld64 m (block + o) = ld64 m0 (block + o)).
  { intros o Ho. apply ld_agree. eapply agree_weaken; [|exact T3]. intros a Ha. simpl in Ha. unfold slots_keep, in_range in *. lia. }
  split; unfold ob_slots; cbn [ob ob_pages ob_free ob_used]; rewrite ?app_nil_r; try done.
  - split; [done|]. unfold lastn, nxtm. rewrite <- Z.add_assoc. change (24 + 16) with 40. rewrite F by lia. done.
  - by pose proof (slots_nodup block n) as [_ ?]%NoDup_cons.
  - intros x. rewrite elem_of_slots. unfold is_slot, ob_size. cbn. split; intros (k & H1 & H2).
    + exists k. split_and!; [lia|done|nia].
    + exists k. destruct H2 as [-> H2]. split; [nia|done].
  - rewrite F by lia. done.
  - rewrite F by lia. done.
  - rewrite F by lia. done.
Qed.

Lemma shl_order o : 0 <= o <= 22 -> 1 <<l o = 2 ^ o.
Proof.
  intros Ho. unfold shl64. rewrite shiftl_1 by lia. apply u64_small. pose proof (pow2_pos o ltac:(lia)).
  assert (2 ^ o <= 2 ^ 22) by (apply Z.pow_le_mono_r; lia). lia.
Qed.

Lemma wp_create_block ord (Q : Z -> kst -> Prop) s :
  hart_ok s -> pa_ok s -> order_ok ord -> 0 <= mgr < 2 ^ 64 -> osz mod 8 = 0 ->
  (forall s', page_step s s' -> Q NULL s') ->
  (forall s' b, page_step s s' -> fresh_block s s' ord b -> Q (ob b) s') ->
  wp (kmem_object_create_block mgr ord osz) Q s.
Proof.
  intros Hh Hok Ho Hmg Hm8 HN HB. unfold kmem_object_create_block, order_ok, MAX_MEM_ORDER in *.
  rewrite (proj2 (Z.leb_gt _ _)) by lia. wp_step. wp_step. wp_step.
  eapply wp_mono; [by apply pa_alloc|]. intros r s1 (Q1 & O1 & M1 & S1 & W1 & Hr).
  assert (PS : page_step s s1) by (by split).
  destruct Hr as [->|[Hown Hnot]]; [simpl; wp_step; by apply HN|].
  pose proof (pa_run s1 r _ O1 Hown) as Hrun. pose proof Hrun as (Hn & Hal & Hlo & Hhi).
  set (size := 2 ^ ord * PAGE_SIZE) in *. assert (Hsz : 4096 <= size) by (unfold size, PAGE_SIZE; lia).
  unfold VA_KERNEL_BEGIN in *. rewrite (proj2 (Z.eqb_neq _ NULL)) by (unfold NULL; lia).
  wp_steps; try (unfold PAGE_SIZE; lia). cbn [mem set_mem]. unfold PAGE_SHIFT.
  rewrite round_up_8 by lia. rewrite !shl_order by lia.
  assert (Esz : r +l 2 ^ (ord + 12) = r + size) by (rewrite Z.pow_add_r by lia; unfold size, PAGE_SIZE; apply add64_small; unfold size, PAGE_SIZE in *; lia).
  rewrite Esz. set (m1 := st64 _ r r).
  assert (F : ld64 m1 (r + 72) = osz /\ ld64 m1 (r + 16) = NULL /\ ld64 m1 (r + 40) = NULL /\ ld64 m1 (r + 56) = 0 /\
    ld64 m1 (r + 80) = 2 ^ ord /\ ld64 m1 (r + 88) = mgr).
  { assert (2 ^ ord <= 2 ^ 22) by (apply Z.pow_le_mono_r; lia). unfold m1. replace (r + 24 + 16) with (r + 40) by lia.
    replace (r + 24 + 8) with (r + 32) by lia. split_and!; lds. }
  destruct F as (F1 & F2 & F3 & F4 & F5 & F6). rewrite F1. unfold sizeof_header. rewrite add64_small by lia.
  replace (24 + osz) with usz by lia.
  assert (K1 : agree (fun a => ~ in_range r size a) (mem s1) m1).
  { unfold m1. repeat (etrans; [|apply agree_st]); [reflexivity|..]; intros a Hr Hk; apply Hk; unfold in_range in *; simpl in Hr; lia. }
  apply wp_make_slots; try (unfold PAGE_SIZE in *; lia).
  { unfold PAGE_SIZE in Hal. zdm. } { exact F2. }
  intros m2 n Hn0 Hn1 Th. cbn [mem set_mem] in Th. wp_step.
  assert (K2 : agree (fun a => ~ in_range r size a) (mem s1) m2).
  { etrans; [exact K1|]. eapply agree_weaken; [|apply (th_keep _ _ _ _ _ Th)]. intros a Hk. by left. }
  destruct (pa_write s1 m2 (in_range r size) O1) as (O2 & S2 & W2); [|done|].
  { intros a Ha. by apply (pa_owned_safe s1 r (2 ^ ord)). }
  rewrite !set_mem_twice.
  apply (HB _ (mk_oblock r (2 ^ ord) (slots r n) [])).
  - split; [etrans; [exact Q1|apply quiet_set_mem]|done| |auto|auto].
    etrans; [exact M1|]. eapply agree_weaken; [|exact K2]. intros a Ha Hin. by apply (Hnot a).
  - split_and!; cbn [ob ob_pages ob_used ob_free]; try done.
    + by apply (threaded_block r ord m1).
    + by apply W2.
    + intros Hle Hnil. fold size in Hle. assert (n = 0 \/ 0 < n) as [->|Hp] by lia; [nia|].
      assert (Hin : r + 96 ∈ slots r n) by (apply elem_of_slots; exists 0; lia). rewrite Hnil in Hin. by apply elem_of_nil in Hin.
Qed.

(** ** The whole manager *)

Lemma capacity_le ord : 0 <= ord < MAX_MEM_ORDER -> capacity ord <= 2 ^ ord * PAGE_SIZE - 96.
Proof.
  unfold MAX_MEM_ORDER, capacity, BINARY_ROUND_DOWN, OBJECT_ALIGNMENT, PAGE_SHIFT, sizeof_block, PAGE_SIZE. intros Ho.
  rewrite shl_order by lia. assert (4096 <= 2 ^ (ord + 12) <= 2 ^ 22) by (split; [change 4096 with (2 ^ 12)|]; apply Z.pow_le_mono_r; lia).
  rewrite sub64_small by lia. change (8 - 1) with (2 ^ 3 - 1). rewrite land_not_mask by lia.
  pose proof (Z.mod_pos_bound (2 ^ (ord + 12) - 96) (2 ^ 3) ltac:(lia)). rewrite Z.pow_add_r in * by lia. lia.
Qed.

(** The new-block search: NULL, or a fresh block with at least one slot. *)
Lemma wp_new_block fuel ord (Q : Z -> kst -> Prop) s :
  hart_ok s -> pa_ok s -> (forall a, in_range mgr 56 a -> pa_safe s a) -> PAGE_SIZE <= mgr < 2 ^ 64 -> osz mod 8 = 0 ->
  ld64 (mem s) (mgr + 8) = osz -> 0 <= ord < MAX_MEM_ORDER -> ord < Z.of_nat fuel ->
  (forall s', page_step s s' -> Q NULL s') ->
  (forall s' b ord', page_step s s' -> fresh_block s s' ord' b -> ob_free b <> [] -> Q (ob b) s') ->
  wp (new_block fuel mgr usz ord) Q s.
Proof.
  revert ord Q s. induction fuel as [|fuel IH]; intros ord Q s Hh Hok Hsafe Hmg Hm8 Eo Ho Hf HN HB; [lia|].
  cbn [new_block]. destruct (Z.leb_spec usz (capacity ord)) as [Hc|Hc]; [|wp_step; by apply HN, page_step_refl].
  do 2 wp_step. rewrite Eo. wp_step. apply wp_create_block; try done; [unfold PAGE_SIZE in *; lia| |].
  - intros s1 P1. simpl negb. destruct (Z.ltb_spec 0 ord); [|wp_step; by apply HN].
    assert (Hh1 : hart_ok s1) by exact (quiet_can 1 _ _ (ps_quiet _ _ P1) Hh).
    apply IH; try done; try lia.
    + apply P1.
    + intros a Ha. by apply P1, Hsafe.
    + rewrite <- Eo. apply ld_agree. eapply agree_weaken; [|apply P1]. intros a Ha. apply Hsafe. unfold in_range in *. simpl in Ha. lia.
    + intros s2 P2. apply HN. by eapply page_step_trans.
    + intros s2 b o' P2 (F1 & F2 & F3 & F4 & F5 & F6) Hne. apply (HB s2 b o'); [by eapply page_step_trans| |done].
      split_and!; try done. intros a Ha Hs. apply (F5 a Ha). by apply P1.
  - intros s1 b P1 Fb. pose proof Fb as (B & _ & _ & _ & _ & Hne). pose proof (block_addr b 0 (bk_run _ _ _ _ B) ltac:(lia)).
    rewrite (proj2 (Z.eqb_neq _ NULL)) by (unfold NULL, PAGE_SIZE in *; lia). simpl negb. wp_step. apply (HB s1 b ord); try done.
    apply Hne. pose proof (capacity_le ord Ho). lia.
Qed.

Lemma next_order_bound fuel ord sum : 0 <= ord < MAX_MEM_ORDER -> 0 <= next_order fuel ord sum < MAX_MEM_ORDER.
Proof.
  revert ord. induction fuel as [|fuel IH]; intros ord Ho; [done|]. cbn [next_order].
  destruct (Z.ltb_spec (ord + 1) MAX_MEM_ORDER), (capacity ord <=? sum); simpl; try done. apply IH. lia.
Qed.

(** The result of an allocation: no slot left, or an object that was not
    allocated before. *)
Definition alloc_result (bl bl' : list oblock) (r : Z) : Prop :=
  (r = NULL /\ bl' = bl /\ forall b, b ∈ bl -> ob_free b = []) \/
  (exists x, r = x + 24 /\ (x ∉ objects bl) /\ objects bl' ≡ₚ (x :: objects bl)).

(** A block after an operation: one the manager had, or one made of pages
    that were the page allocator's. *)
Definition grown (s : kst) (bl : list oblock) (b' : oblock) : Prop :=
  (exists b, b ∈ bl /\ ob b' = ob b /\ ob_pages b' = ob_pages b) \/
  (forall a, in_range (ob b') (ob_size b') a -> ~ pa_safe s a).

Lemma grown_refl s bl b : b ∈ bl -> grown s bl b.
Proof. intros Hb. left. by exists b. Qed.

Record alloc_step (bl : list oblock) (r : Z) (s s' : kst) : Prop := {
  as_quiet : quiet s s';
  as_ok : pa_ok s';
  as_mem : agree (fun a => pa_safe s a /\ ~ list_meta mgr bl a) (mem s) (mem s');
  as_safe : forall a, pa_safe s a -> pa_safe s' a;
  as_owned : forall r n, pa_owned s r n -> pa_owned s' r n;
  as_blocks : exists bl', blocks_ok mgr osz (mem s') bl' /\ (forall b, b ∈ bl' -> pa_owned s' (ob b) (ob_pages b)) /\ alloc_result bl bl' r /\
    forall b, b ∈ bl' -> grown s bl b;
}.

(** Blocks of a manager are the page allocator's clients. *)
Lemma block_safe s b a : pa_ok s -> pa_owned s (ob b) (ob_pages b) -> in_range (ob b) (ob_size b) a -> pa_safe s a.
Proof. intros Hok Ho Ha. by apply (pa_owned_safe s (ob b) (ob_pages b)). Qed.

Lemma objects_app bl1 bl2 : objects (bl1 ++ bl2) = objects bl1 ++ objects bl2.
Proof. unfold objects. apply bind_app. Qed.

Lemma in_objects bl x : x ∈ objects bl <-> exists b, b ∈ bl /\ x ∈ ob_used b.
Proof. unfold objects. rewrite list_elem_of_bind. naive_solver. Qed.

Lemma nodup_fmap_inj {A} (f : A -> Z) l a b : NoDup (f <$> l) -> a ∈ l -> b ∈ l -> f a = f b -> a = b.
Proof.
  induction l as [|c l IH]; [by intros _ ?%elem_of_nil|]. rewrite fmap_cons. intros [Hn Hd]%NoDup_cons.
  intros [->|Ha]%elem_of_cons [->|Hb]%elem_of_cons E; [done| | |auto]; exfalso; apply Hn; [rewrite E|rewrite <- E];
    apply list_elem_of_fmap; eauto.
Qed.

(** A slot of a block is no object of another block. *)
Lemma slot_not_object m bl b x :
  blocks_ok mgr osz m bl -> b ∈ bl -> x ∈ ob_free b -> x ∉ objects bl.
Proof.
  intros Bs Hb Hx (c & Hc & Hxc)%in_objects. pose proof (bs_each _ _ _ _ Bs b Hb) as B. pose proof (bs_each _ _ _ _ Bs c Hc) as Bc.
  assert (Sx : is_slot osz b x) by (apply B; apply elem_of_app; auto).
  assert (Sc : is_slot osz c x) by (apply Bc; apply elem_of_app; auto).
  destruct (Z.eq_dec (ob b) (ob c)) as [E|E].
  - assert (b = c) as <- by (apply (nodup_fmap_inj ob bl); try done; apply Bs).
    pose proof (bk_nodup _ _ _ _ B) as (_ & N & _)%NoDup_app. by apply (N x).
  - pose proof (bs_apart _ _ _ _ Bs b c Hb Hc E) as Ha. apply slot_bound in Sx; [|lia]. apply slot_bound in Sc; [|lia].
    unfold apart, disjoint in Ha. lia.
Qed.

Lemma taken_step m m' bl r :
  blocks_ok mgr osz m bl -> taken m m' bl r ->
  agree (fun a => ~ list_meta mgr bl a) m m' /\
  exists bl', blocks_ok mgr osz m' bl' /\ (forall b', b' ∈ bl' -> exists b, b ∈ bl /\ ob b' = ob b /\ ob_pages b' = ob_pages b) /\
    exists x, r = x + 24 /\ (x ∉ objects bl) /\ objects bl' ≡ₚ (x :: objects bl).
Proof.
  intros Bs (bl1 & b & bl2 & x & fl & -> & Ef & -> & B' & K). split.
  - eapply agree_weaken; [|exact K]. intros a Hn. left. intros Hm. apply Hn. right. exists b. split; [set_solver|done].
  - exists (bl1 ++ mk_oblock (ob b) (ob_pages b) fl (x :: ob_used b) :: bl2). split_and!.
    + by apply (blocks_replace m _ bl1 b).
    + intros b' Hb'. assert (Hi : b' = mk_oblock (ob b) (ob_pages b) fl (x :: ob_used b) \/ b' ∈ bl1 ++ b :: bl2) by set_solver.
      destruct Hi as [->|Hi]; [exists b; split_and!; [set_solver|done|done]|by exists b'].
    + exists x. split_and!; [done| |].
      * apply (slot_not_object m _ b); [done|set_solver|rewrite Ef; set_solver].
      * rewrite !objects_app. unfold objects. simpl. by rewrite <- Permutation_middle.
Qed.

(** Linking a fresh block into the manager. *)
Lemma blocks_cons m m' bl b :
  blocks_ok mgr osz m bl -> PAGE_SIZE <= mgr -> mgr + 56 < 2 ^ 64 -> block_ok mgr osz m b ->
  (forall c, c ∈ bl -> apart b c) -> disjoint mgr 56 (ob b) (ob_size b) ->
  m' = st64 (st64 m (ob b + 48) (ld64 m (mgr + 40))) (mgr + 40) (ob b) ->
  blocks_ok mgr osz m' (b :: bl) /\ agree (fun a => ~ in_range (mgr + 40) 8 a /\ ~ in_range (ob b) (ob_size b) a) m m'.
Proof.
  intros Bs Hm1 Hm2 B Hap Hmb ->. pose proof (block_addr b 0 (bk_run _ _ _ _ B) ltac:(lia)) as A0.
  pose proof (bk_run _ _ _ _ B) as (Hpg & _ & _ & _). assert (Hsz : 4096 <= ob_size b) by (unfold ob_size, PAGE_SIZE; lia).
  set (m' := st64 _ _ _). pose proof (ld64_bound m (mgr + 40)) as Hbd. unfold disjoint in Hmb. unfold PAGE_SIZE in A0.
  assert (K : agree (fun a => ~ in_range (mgr + 40) 8 a /\ ~ in_range (ob b + 48) 8 a) m m').
  { unfold m'. etrans; apply agree_st; intros a Hr [H1 H2]; unfold in_range in *; simpl in Hr; lia. }
  split; [|eapply agree_weaken; [|exact K]; intros a [H1 H2]; unfold in_range in *; lia].
  assert (Kc : forall c, c ∈ bl -> agree (in_range (ob c) (ob_size c)) m m').
  { intros c Hc. eapply agree_weaken; [|exact K]. intros a Hr. pose proof (Hap c Hc) as Ha. pose proof (bs_out _ _ _ _ Bs c Hc).
    unfold apart, disjoint, in_range in *. lia. }
  assert (Hc96 : forall c, c ∈ bl -> 4096 <= ob_size c).
  { intros c Hc. pose proof (bk_run _ _ _ _ (bs_each _ _ _ _ Bs c Hc)) as (? & _). unfold ob_size, PAGE_SIZE. lia. }
  assert (El : ld64 m' (mgr + 40) = ob b) by (unfold m'; apply ld64_st64; lia).
  assert (En : ld64 m' (ob b + 48) = ld64 m (mgr + 40)) by (unfold m'; lds).
  assert (Hns : forall c, c ∈ bl -> ob c <> ob b).
  { intros c Hc E. pose proof (Hap c Hc) as Ha. specialize (Hc96 c Hc). unfold apart, disjoint in Ha. lia. }
  split.
  - rewrite El. cbn [fmap list_fmap bchain]. split; [done|]. rewrite En. eapply bchain_frame; [|apply Bs].
    intros x (c & -> & Hc)%list_elem_of_fmap. apply ld_agree. eapply agree_weaken; [|by apply Kc].
    intros a Hr. specialize (Hc96 c Hc). unfold in_range in *. simpl in Hr. lia.
  - intros c [->|Hc]%elem_of_cons; (eapply block_frame; [lia|first [exact B|by apply Bs]|]).
    + eapply agree_weaken; [|exact K]. intros a [Hm Hx]. split; [|done]. apply (meta_in_block m) in Hm; [|done].
      unfold in_range in *. lia.
    + eapply agree_weaken; [|by apply Kc]. intros a [Hm _]. eapply meta_in_block; [|exact Hm]. by apply Bs.
  - rewrite fmap_cons. constructor; [|apply Bs]. intros (c & E & Hc)%list_elem_of_fmap. by apply (Hns c).
  - intros c d [->|Hc]%elem_of_cons [->|Hd]%elem_of_cons Hne; [done|by apply Hap| |by apply Bs].
    pose proof (Hap c Hc). unfold apart, disjoint in *. lia.
  - intros c [->|Hc]%elem_of_cons; [done|by apply Bs].
Qed.

Lemma ranges_apart x n y k :
  0 < n -> 0 < k -> (forall a, in_range x n a -> ~ in_range y k a) -> disjoint x n y k.
Proof. intros Hn Hk H. pose proof (H (Z.max x y)). unfold in_range, disjoint in *. lia. Qed.

(** The facts about the manager that hold throughout its operations. *)
Record mgr_here (t : kst) (bl : list oblock) : Prop := {
  mh_addr : PAGE_SIZE <= mgr /\ mgr + 56 < 2 ^ 64;
  mh_ok : pa_ok t;
  mh_safe : forall a, in_range mgr 56 a -> pa_safe t a;
  mh_osz : ld64 (mem t) (mgr + 8) = osz /\ osz mod 8 = 0;
  mh_blocks : blocks_ok mgr osz (mem t) bl;
  mh_owned : forall b, b ∈ bl -> pa_owned t (ob b) (ob_pages b);
}.

Lemma list_meta_safe t bl a : mgr_here t bl -> list_meta mgr bl a -> pa_safe t a.
Proof.
  intros H [Ha|(b & Hb & Ha)]; [apply H; unfold in_range in *; lia|].
  eapply block_safe; [apply H|by apply (mh_owned _ _ H)|]. eapply meta_in_block; [|exact Ha]. by apply (mh_blocks _ _ H).
Qed.

Lemma wp_grow bl sum t :
  hart_ok t -> mgr_here t bl -> (forall b, b ∈ bl -> ob_free b = []) ->
  wp (grow mgr usz sum) (fun r t' => alloc_step bl r t t') t.
Proof.
  intros Hh H Hfull. pose proof H as [[Hm1 Hm2] Hok Hsafe [Eo Ho8] Bs Hown]. unfold grow. cbv zeta. wp_step.
  assert (Frame : forall s1, page_step t s1 -> blocks_ok mgr osz (mem s1) bl).
  { intros s1 P. eapply blocks_frame; [lia|exact Bs|]. eapply agree_weaken; [|apply P]. intros a Ha. by apply (list_meta_safe t bl). }
  apply wp_new_block; try done; [unfold PAGE_SIZE in *; lia|apply next_order_bound; unfold MAX_MEM_ORDER; lia| | |].
  { rewrite Z2Nat.id by (unfold MAX_MEM_ORDER; lia). apply next_order_bound. unfold MAX_MEM_ORDER; lia. }
  - intros s1 P. simpl. wp_step. split; try apply P.
    + eapply agree_weaken; [|apply P]. tauto.
    + exists bl. split_and!; [by apply Frame|intros b Hb; by apply P, Hown|by left|apply grown_refl].
  - intros s1 b ord P (B & Eu & Ep & Ob & Hns & _) Hne.
    pose proof (block_addr b 0 (bk_run _ _ _ _ B) ltac:(lia)) as A0. pose proof (bk_run _ _ _ _ B) as (Hpg & _).
    assert (Hsz : 4096 <= ob_size b) by (unfold ob_size, PAGE_SIZE; lia).
    rewrite (proj2 (Z.eqb_neq _ NULL)) by (unfold NULL, PAGE_SIZE in *; lia). wp_steps. cbn [mem set_mem]. rewrite set_mem_twice.
    set (m2 := st64 (st64 (mem s1) (ob b + 48) (ld64 (mem s1) (mgr + 40))) (mgr + 40) (ob b)).
    destruct (blocks_cons (mem s1) m2 bl b (Frame s1 P) Hm1 Hm2 B) as [Bs' K1]; [..|done|].
    { intros c Hc. apply ranges_apart; [lia| |].
      - pose proof (bk_run _ _ _ _ (bs_each _ _ _ _ Bs c Hc)) as (? & _). unfold ob_size, PAGE_SIZE. lia.
      - intros a Ha Hca. apply (Hns a Ha). by apply (block_safe t c); [..|done]; [|apply Hown]. }
    { apply ranges_apart; [lia|lia|]. intros a Ha Hba. by apply (Hns a Hba), Hsafe. }
    destruct (ob_free b) as [|x fl] eqn:Ef; [done|].
    apply (wp_alloc_from_block b x fl); [apply Bs'; set_solver|done|].
    intros m3 B3 K3. cbn [mem set_mem] in K3. rewrite set_mem_twice.
    pose proof (blocks_replace m2 m3 [] b _ bl Bs' B3 eq_refl eq_refl K3) as Bs3.
    assert (Kt : agree (fun a => ~ (in_range (mgr + 40) 8 a \/ in_range (ob b) (ob_size b) a)) (mem s1) m3).
    { etrans; [eapply agree_weaken; [|exact K1]; tauto|]. eapply agree_weaken; [|exact K3]. intros a Ha. left. intros Hm.
      apply Ha. right. by apply (meta_in_block (mem s1)). }
    destruct (pa_write s1 m3 (fun a => in_range (mgr + 40) 8 a \/ in_range (ob b) (ob_size b) a)) as (O3 & S3 & W3); [apply P| |done|].
    { intros a [Ha|Ha]; [apply P, Hsafe; unfold in_range in *; lia|]. by apply (block_safe s1 b); [apply P|..]. }
    split; try done.
    + etrans; [apply P|apply quiet_set_mem].
    + cbn [mem set_mem]. etrans; [eapply agree_weaken; [|apply P]; tauto|]. eapply agree_weaken; [|exact Kt].
      intros a [Ha Hl] [Hr|Hr]; [apply Hl; by left|]. by apply (Hns a).
    + intros a Ha. by apply S3, P.
    + intros r n Hrn. by apply W3, P.
    + exists (mk_oblock (ob b) (ob_pages b) fl (x :: ob_used b) :: bl). split_and!; [done| | |].
      * intros c [->|Hc]%elem_of_cons; apply W3; [done|by apply P, Hown].
      * right. exists x. split_and!; [done| |].
        -- intros (c & Hc & Hx)%in_objects.
           assert (Sx : is_slot osz b x) by (apply B; unfold ob_slots; rewrite Ef; set_solver).
           assert (Sc : is_slot osz c x) by (apply (bs_each _ _ _ _ Bs c Hc); apply elem_of_app; auto).
           apply slot_bound in Sx, Sc; [|lia..]. apply (Hns x); [unfold in_range; lia|].
           apply (block_safe t c); [done|by apply Hown|unfold in_range; lia].
        -- unfold objects. simpl. by rewrite Eu.
      * intros c [->|Hc]%elem_of_cons; [right; exact Hns|by apply grown_refl].
Qed.

(** The lock of a manager is none of the data its blocks depend on. *)
Lemma lock_not_meta m bl a :
  blocks_ok mgr osz m bl -> list_meta mgr bl a -> ~ in_range (mgr + 16) sizeof_spinlock a.
Proof.
  intros Bs [Ha|(b & Hb & Ha)] Hl; [unfold in_range, sizeof_spinlock in *; lia|].
  apply (meta_in_block m) in Ha; [|by apply Bs]. pose proof (bs_out _ _ _ _ Bs b Hb).
  unfold in_range, disjoint, sizeof_spinlock in *. lia.
Qed.

Lemma list_meta_meta bl a : list_meta mgr bl a -> meta mgr bl a.
Proof. intros [Ha|Ha]; [left; unfold in_range in *; lia|by right]. Qed.

(** Taking the lock does not disturb the allocators. *)
Lemma mgr_locked s bl :
  hart_can 2 s -> pa_ok s -> mgr_ok mgr osz s bl ->
  let s0 := set_mem (lock_mem (mem s) (mgr + 16) (my_hart s)) (pushed s) in
  hart_ok s0 /\ mgr_here s0 bl /\ (forall a, pa_safe s a -> pa_safe s0 a) /\
  (forall r n, pa_owned s r n -> pa_owned s0 r n) /\ agree (fun a => ~ in_range (mgr + 16) sizeof_spinlock a) (mem s) (mem s0).
Proof.
  intros Hh Hok [Ha Hs (E1 & _ & E2) Hl Bs Ho] s0.
  pose proof (lock_mem_agree (mem s) (mgr + 16) (my_hart s)) as K.
  destruct (pa_frame s s0 Hok eq_refl) as (O0 & S0 & _ & W0).
  { eapply agree_weaken; [|exact K]. intros a Hn Hr. apply Hn, Hs. unfold in_range, sizeof_spinlock in *. lia. }
  split_and!; [exact (pushed_can 2 _ s Hh)| |done|done|done]. split; [done|done|auto| | |auto].
  - split; [|done]. rewrite <- E1. apply ld_agree. eapply agree_weaken; [|exact K]. intros a Hr.
    unfold in_range, sizeof_spinlock in *. simpl in Hr. lia.
  - eapply blocks_frame; [lia|exact Bs|]. eapply agree_weaken; [|exact K]. intros a. by apply (lock_not_meta (mem s)).
Qed.

(** Releasing it gives the manager back to its clients. *)
Lemma mgr_unlocked s s1 s2 bl bl' :
  mgr_ok mgr osz s bl -> pa_ok s1 -> kmem s2 = kmem s1 -> mem s2 = unlock_mem (mem s1) (mgr + 16) ->
  (forall a, pa_safe s a -> pa_safe s1 a) -> ld64 (mem s1) (mgr + 8) = osz ->
  blocks_ok mgr osz (mem s1) bl' -> (forall b, b ∈ bl' -> pa_owned s1 (ob b) (ob_pages b)) ->
  pa_ok s2 /\ mgr_ok mgr osz s2 bl' /\ (forall a, pa_safe s1 a -> pa_safe s2 a) /\
  (forall r n, pa_owned s1 r n -> pa_owned s2 r n).
Proof.
  intros [Ha Hs (E1 & E2 & E3) Hl Bs Ho] O1 Ek Em S1 Eo Bs' Ho'.
  pose proof (unlock_mem_agree (mem s1) (mgr + 16)) as K. rewrite <- Em in K.
  destruct (pa_frame s1 s2 O1 Ek) as (O2 & S2 & _ & W2).
  { eapply agree_weaken; [|exact K]. intros a Hn Hr. apply Hn, S1, Hs. unfold in_range, sizeof_spinlock in *. lia. }
  split_and!; [done| |done|done]. split; [done|auto| | | |auto].
  - split; [|done]. rewrite <- Eo. apply ld_agree. eapply agree_weaken; [|exact K]. intros a Hr.
    unfold in_range, sizeof_spinlock in *. simpl in Hr. lia.
  - rewrite Em. apply unlock_mem_free.
  - eapply blocks_frame; [lia|exact Bs'|]. eapply agree_weaken; [|exact K]. intros a. by apply (lock_not_meta (mem s1)).
Qed.

(** What an operation of the manager does to the rest of the machine. *)
Record mgr_step (bl bl' : list oblock) (s s' : kst) : Prop := {
  ms_quiet : quiet s s';
  ms_ok : pa_ok s';
  ms_safe : forall a, pa_safe s a -> pa_safe s' a;
  ms_owned : forall r n, pa_owned s r n -> pa_owned s' r n;
  ms_mem : agree (fun a => pa_safe s a /\ ~ meta mgr bl a) (mem s) (mem s');
  ms_mgr : mgr_ok mgr osz s' bl';
  ms_grown : forall b, b ∈ bl' -> grown s bl b;
}.

Lemma kmem_object_alloc_step bl s :
  hart_can 2 s -> pa_ok s -> mgr_ok mgr osz s bl ->
  wp (kmem_object_alloc mgr) (fun r s' => exists bl', mgr_step bl bl' s s' /\ alloc_result bl bl' r) s.
Proof.
  intros Hh Hok Hm. pose proof Hm as [[Hm1 Hm2] Hs (E1 & _ & E2) Hl Bs Ho].
  destruct (mgr_locked s bl Hh Hok Hm) as (Hh0 & H0 & S0 & W0 & K0). unfold kmem_object_alloc. do 2 wp_step. rewrite E1.
  unfold sizeof_header. cbv zeta. rewrite add64_small by lia.
  apply wp_critical; [by apply (hart_can_weaken 2); [|lia]|lia|done|]. cbv zeta. set (s0 := set_mem _ _) in *.
  eapply (wp_mono _ (fun r s1 => alloc_step bl r s0 s1)).
  - wp_step. apply wp_find_slot with (bl := bl); [done|apply H0| |].
    + intros r sum m' Ht. wp_step. pose proof (taken_step _ _ _ _ (mh_blocks _ _ H0) Ht) as (K & bl' & Bs' & Eb & x & Hx).
      destruct (pa_write s0 m' (list_meta mgr bl) (mh_ok _ _ H0)) as (O1 & S1 & W1); [intros a; by apply list_meta_safe|done|].
      split; [apply quiet_set_mem|done|eapply agree_weaken; [|exact K]; tauto|done|done|].
      exists bl'. split_and!; [done| |by right; exists x|intros b' Hb'; by left; apply Eb].
      intros b' Hb'. destruct (Eb b' Hb') as (b & Hb & -> & ->). by apply W1, H0.
    + intros sum Hf. by apply wp_grow.
  - intros r s1 [Q1 O1 M1 S1 W1 (bl' & Bs' & Ho' & Hr & Hg)]. split_and!; [done| |].
    + eapply agree_weaken; [|exact M1]. intros a Ha. split.
      * apply S0, Hs. unfold in_range, sizeof_spinlock in *. lia.
      * intros Hlm. by apply (lock_not_meta _ _ _ Bs Hlm).
    + intros s2 Q2 Em. pose proof (quiet_kmem _ _ Q1) as Ek1. pose proof (quiet_kmem _ _ Q2) as Ek2.
      destruct (mgr_unlocked s s1 s2 bl bl' Hm O1) as (O2 & M2 & S2 & W2); try done; [by rewrite Ek1, Ek2|auto| |].
      { rewrite <- (proj1 (mh_osz _ _ H0)). apply ld_agree. eapply agree_weaken; [|exact M1]. intros a Hra. simpl in Hra. split.
        - apply S0, Hs. unfold in_range in *. lia.
        - intros [Hx|(b & Hb & Hx)]; [unfold in_range in *; lia|]. apply (meta_in_block (mem s)) in Hx; [|by apply Bs].
          pose proof (bs_out _ _ _ _ Bs b Hb). unfold in_range, disjoint in *. lia. }
      exists bl'. split; [|done]. split; [done|done|auto|auto| |done|].
      2: { intros b Hb. destruct (Hg b Hb) as [?|Hn]; [by left|right; intros a Ha Hsa; apply (Hn a Ha); auto]. }
      rewrite Em. etrans; [|etrans]; (eapply agree_weaken; [|first [exact K0|exact M1|apply unlock_mem_agree]]); intros a [Ha Hn].
      * intros Hra. apply Hn. left. unfold in_range, sizeof_spinlock in *. lia.
      * split; [auto|]. intros Hx. by apply Hn, list_meta_meta.
      * intros Hra. apply Hn. left. unfold in_range, sizeof_spinlock in *. lia.
Qed.

Lemma wp_kmem_object_alloc bl s :
  hart_can 2 s -> pa_ok s -> mgr_ok mgr osz s bl ->
  wp (kmem_object_alloc mgr) (fun r s' => quiet s s' /\ pa_ok s' /\ (forall a, pa_safe s a -> pa_safe s' a) /\
    agree (fun a => pa_safe s a /\ ~ meta mgr bl a) (mem s) (mem s') /\
    exists bl', mgr_ok mgr osz s' bl' /\ alloc_result bl bl' r) s.
Proof.
  intros Hh Hok Hm. eapply wp_mono; [by apply kmem_object_alloc_step|]. intros r s' (bl' & [] & Hr). split_and!; try done. by exists bl'.
Qed.

Lemma kmem_object_free_step bl x s :
  hart_can 2 s -> pa_ok s -> mgr_ok mgr osz s bl -> x ∈ objects bl ->
  wp (kmem_object_free (x + 24)) (fun _ s' => exists bl', mgr_step bl bl' s s' /\
    agree (fun a => ~ meta mgr bl a) (mem s) (mem s') /\ (objects bl ≡ₚ (x :: objects bl'))) s.
Proof.
  intros Hh Hok Hm (b & Hb & Hx)%in_objects. pose proof Hm as [[Hm1 Hm2] Hs (E1 & _ & E2) Hl Bs Ho].
  pose proof (bs_each _ _ _ _ Bs b Hb) as B. pose proof (block_addr b 0 (bk_run _ _ _ _ B) ltac:(lia)) as A0.
  assert (Hxs : x ∈ ob_slots b) by (apply elem_of_app; auto).
  pose proof (proj1 (bk_slots _ _ _ _ B x) Hxs) as Sx. apply slot_bound in Sx; [|lia].
  pose proof (bk_run _ _ _ _ B) as (_ & _ & _ & Hend). fold (ob_size b) in Hend. unfold VA_KERNEL_BEGIN in Hend.
  destruct (mgr_locked s bl Hh Hok Hm) as (Hh0 & H0 & S0 & W0 & K0).
  unfold kmem_object_free, sizeof_header. cbv zeta. rewrite sub64_small by (unfold PAGE_SIZE in *; lia).
  replace (x + 24 - 24) with x by lia. do 2 wp_step. rewrite (bk_parent _ _ _ _ B) by done. do 2 wp_step. rewrite (bk_mgr _ _ _ _ B).
  apply wp_critical; [by apply (hart_can_weaken 2); [|lia]|lia|done|]. cbv zeta. set (s0 := set_mem _ _) in *.
  apply list_elem_of_split in Hb as (bl1 & bl2 & ->). apply list_elem_of_split in Hx as (l1 & l2 & Eu).
  pose proof (mh_blocks _ _ H0) as Bs0.
  apply (wp_free_slot b l1 x l2); [apply Bs0; set_solver|done|]. intros m1 B1 K1.
  pose proof (blocks_replace (mem s0) m1 bl1 b _ bl2 Bs0 B1 eq_refl eq_refl K1) as Bs1. set (b1 := mk_oblock _ _ _ _) in *.
  set (bl := bl1 ++ b :: bl2) in *.
  assert (K2 : agree (fun a => ~ list_meta mgr bl a) (mem s0) m1).
  { eapply agree_weaken; [|exact K1]. intros a Hn. left. intros Hbm. apply Hn. right. exists b. split; [unfold bl; set_solver|done]. }
  destruct (pa_write s0 m1 (list_meta mgr bl) (mh_ok _ _ H0)) as (O1 & S1 & W1); [intros a; by apply list_meta_safe|done|].
  split_and!; [apply quiet_set_mem| |].
  - eapply agree_weaken; [|exact K2]. intros a Ha Hlm. by apply (lock_not_meta _ _ _ Bs Hlm).
  - intros s2 Q2 Em. destruct (mgr_unlocked s (set_mem m1 s0) s2 bl (bl1 ++ b1 :: bl2) Hm O1) as (O2 & M2 & S2 & W2); try done.
    { by rewrite (quiet_kmem _ _ Q2). } { auto. }
    { rewrite <- (proj1 (mh_osz _ _ H0)). apply ld_agree. eapply agree_weaken; [|exact K2]. intros a Hra. simpl in Hra.
      intros [Hy|(c & Hc & Hy)]; [unfold in_range in *; lia|]. apply (meta_in_block (mem s)) in Hy; [|by apply Bs].
      pose proof (bs_out _ _ _ _ Bs c Hc). unfold in_range, disjoint in *. lia. }
    { intros c Hc. assert (Hi : c = b1 \/ c ∈ bl) by (unfold bl in *; set_solver). apply W1.
      destruct Hi as [->|Hi]; [apply (mh_owned _ _ H0 b); unfold bl; set_solver|by apply H0]. }
    assert (Ks : agree (fun a => ~ meta mgr bl a) (mem s) (mem s2)).
    { rewrite Em. etrans; [|etrans]; (eapply agree_weaken; [|first [exact K0|exact K2|apply unlock_mem_agree]]); intros a Hn.
      * intros Hr. apply Hn. left. unfold in_range, sizeof_spinlock in *. lia.
      * intros Hy. by apply Hn, list_meta_meta.
      * intros Hr. apply Hn. left. unfold in_range, sizeof_spinlock in *. lia. }
    exists (bl1 ++ b1 :: bl2). split_and!; [split; [done|done|auto|auto|eapply agree_weaken; [|exact Ks]; tauto|done|]|done|].
    + intros c Hc. assert (Hi : c = b1 \/ c ∈ bl) by (unfold bl in *; set_solver).
      destruct Hi as [->|Hi]; [left; exists b; split_and!; [unfold bl; set_solver|done|done]|by apply grown_refl].
    + unfold bl. rewrite !objects_app. unfold objects. simpl. rewrite Eu.
      rewrite <- !app_assoc. simpl. by rewrite <- !Permutation_middle.
Qed.

Lemma wp_kmem_object_free bl x s :
  hart_can 2 s -> pa_ok s -> mgr_ok mgr osz s bl -> x ∈ objects bl ->
  wp (kmem_object_free (x + 24)) (fun _ s' => quiet s s' /\ pa_ok s' /\ (forall a, pa_safe s a -> pa_safe s' a) /\
    agree (fun a => ~ meta mgr bl a) (mem s) (mem s') /\
    exists bl', mgr_ok mgr osz s' bl' /\ (objects bl ≡ₚ (x :: objects bl'))) s.
Proof.
  intros Hh Hok Hm Hx. eapply wp_mono; [by apply kmem_object_free_step|]. intros [] s' (bl' & [] & K & P). split_and!; try done. by exists bl'.
Qed.

(** ** Objects *)

Lemma objects_slot m bl x : blocks_ok mgr osz m bl -> x ∈ objects bl ->
  exists b, b ∈ bl /\ x ∈ ob_used b /\ is_slot osz b x /\ ob b + 96 <= x /\ x + usz <= ob b + ob_size b.
Proof.
  intros Bs (b & Hb & Hx)%in_objects. exists b. pose proof (bs_each _ _ _ _ Bs b Hb) as B.
  assert (S : is_slot osz b x) by (apply B; apply elem_of_app; auto). split_and!; try done; apply slot_bound in S; lia.
Qed.

Lemma objects_apart m bl x y : blocks_ok mgr osz m bl -> x ∈ objects bl -> y ∈ objects bl -> x <> y -> disjoint x usz y usz.
Proof.
  intros Bs Hx Hy Hne. destruct (objects_slot m bl x Bs Hx) as (b & Hb & _ & Sx & Bx). destruct (objects_slot m bl y Bs Hy) as (c & Hc & _ & Sy & By).
  destruct (Z.eq_dec (ob b) (ob c)) as [E|E].
  - assert (b = c) as <- by (apply (nodup_fmap_inj ob bl); try done; apply Bs). apply (slots_apart osz ltac:(lia) b); done.
  - pose proof (bs_apart _ _ _ _ Bs b c Hb Hc E). unfold apart, disjoint in *. lia.
Qed.

(** The bytes of an object are not the allocator's. *)
Lemma object_not_meta m bl x a : blocks_ok mgr osz m bl -> x ∈ objects bl -> in_range (x + 24) osz a -> ~ meta mgr bl a.
Proof.
  intros Bs Hx Hr. destruct (objects_slot m bl x Bs Hx) as (b & Hb & Hu & Sx & Bx). intros [Ha|(c & Hc & Ha)].
  - pose proof (bs_out _ _ _ _ Bs b Hb). unfold disjoint, in_range in *. lia.
  - pose proof (meta_in_block m c a ltac:(by apply Bs) Ha) as Hca.
    assert (b = c) as <-.
    { destruct (Z.eq_dec (ob b) (ob c)) as [E|E]; [apply (nodup_fmap_inj ob bl); try done; apply Bs|].
      pose proof (bs_apart _ _ _ _ Bs b c Hb Hc E). unfold apart, disjoint, in_range in *. lia. }
    destruct Ha as [Ha|(z & Hz & Ha)]; [unfold in_range in *; lia|].
    apply (bk_slots _ _ _ _ (bs_each _ _ _ _ Bs b Hb)) in Hz. destruct (Z.eq_dec x z) as [->|Hne]; [unfold in_range in *; lia|].
    pose proof (slots_apart osz ltac:(lia) b x z Sx Hz Hne). unfold disjoint, in_range in *. lia.
Qed.

Lemma object_safe s bl x a : pa_ok s -> mgr_ok mgr osz s bl -> x ∈ objects bl -> in_range x usz a -> pa_safe s a.
Proof.
  intros Hok Hm Hx Hr. destruct (objects_slot _ bl x (mk_blocks _ _ _ _ Hm) Hx) as (b & Hb & _ & _ & Bx).
  apply (block_safe s b); [done|by apply Hm|unfold in_range in *; lia].
Qed.

Lemma objects_nodup m bl : blocks_ok mgr osz m bl -> NoDup (objects bl).
Proof.
  intros Bs. pose proof (bs_each _ _ _ _ Bs) as He. pose proof (bs_nodup _ _ _ _ Bs) as Hn. pose proof (bs_apart _ _ _ _ Bs) as Ha.
  clear Bs. induction bl as [|b bl IH]; [constructor|]. unfold objects. simpl. apply NoDup_app.
  rewrite fmap_cons in Hn. apply NoDup_cons in Hn as [Hn1 Hn2]. split_and!.
  - pose proof (bk_nodup _ _ _ _ (He b ltac:(set_solver))) as (_ & _ & ?)%NoDup_app. done.
  - intros x Hx (c & Hc & Hxc)%(in_objects bl). pose proof (He b ltac:(set_solver)) as B. pose proof (He c ltac:(set_solver)) as Bc.
    assert (Sx : is_slot osz b x) by (apply B; apply elem_of_app; auto).
    assert (Sc : is_slot osz c x) by (apply Bc; apply elem_of_app; auto).
    assert (Hne : ob b <> ob c) by (intros E; apply Hn1; rewrite E; apply list_elem_of_fmap; eauto).
    pose proof (Ha b c ltac:(set_solver) ltac:(set_solver) Hne). apply slot_bound in Sx; [|lia]. apply slot_bound in Sc; [|lia].
    unfold apart, disjoint in *. lia.
  - apply IH; [intros c Hc; apply He; set_solver|done|intros c d Hc Hd; apply Ha; set_solver].
Qed.
End proofs.
