(* ===== verification/Vmem.v ===== *)
(** * memory/vmem.c, boot/setup_mmu.c: Sv39 page tables

    A page table is a page of 512 eight-byte entries in the direct map; an
    entry holds a physical page number above ten flag bits.  The three-level
    tables live in the flat memory, so every function here reads and writes
    the same bytes the page allocator hands out.

    The kernel is built in its default mode, Sv39: three levels
    ([VA_N_VPN] = 3), hence the one-element array [pkernel_pgtbl].  The boot
    code's table of the same name lies at a physical address, [boot_pgtbl]. *)

From S2P Require Import Prelude Memory Machine Lists Strings Hal Lock Console Csr Buddy.

(** ** vmem.h *)

Definition VMEM_MODE : Z := 8.
Definition VMEM_MODE_SHIFT : Z := 60.
Definition VA_N_VPN : Z := 3.
Definition VA_USER_BEGIN : Z := 0x200000.
Definition VA_USER_USER_HANDLER_BEGIN : Z := 0x3FFFFF0000.
Definition VA_USER_TRAPFRAME_BEGIN : Z := 0x3FFFFF8000.
Definition VA_USER_USER_HANDLER_SIZE : Z := 0x8000.
Definition VA_USER_TRAPFRAME_SIZE : Z := 0x8000.
Definition VA_USER_STACK_AUTO_EXPAND_THRESHOLD : Z := 64.
Definition PTE_FLAG_V : Z := 2 ^ 0.
Definition PTE_FLAG_R : Z := 2 ^ 1.
Definition PTE_FLAG_W : Z := 2 ^ 2.
Definition PTE_FLAG_X : Z := 2 ^ 3.
Definition PTE_FLAG_U : Z := 2 ^ 4.
Definition PTE_FLAGS_WIDTH : Z := 10.
Definition PAGE_OFFSET_WIDTH : Z := 12.
Definition PN_WIDTH : Z := 9.

Definition VA_GET_PN (lv va : Z) : Z := (va >>l (PN_WIDTH * lv + PAGE_OFFSET_WIDTH)) &l 0x1FF.
Definition PA_PTE (pa : Z) : Z := (pa >>l PAGE_OFFSET_WIDTH) <<l PTE_FLAGS_WIDTH.
Definition PTE_PA (pte : Z) : Z := (pte >>l PTE_FLAGS_WIDTH) <<l PAGE_OFFSET_WIDTH.
Definition SATP (mode pgtbl : Z) : Z := (mode <<l VMEM_MODE_SHIFT) |l (pgtbl >>l PAGE_OFFSET_WIDTH).

(** Does the entry have any of the given flags? *)
Definition has (pte flags : Z) : bool := negb (pte &l flags =? 0).

Section vmem.
Context {L : KernelLayout} {C : Code}.

(** ** Walking, mapping, unmapping *)

(** The loop of [vm_walk], with [lv] levels to go. *)
Fixpoint walk_from (lv : nat) (pgtbl va : Z) (alloc : bool) : M Z :=
  match lv with
  | O => mret (pgtbl + 8 * VA_GET_PN 0 va)
  | S lv' =>
      let e := pgtbl + 8 * VA_GET_PN (Z.of_nat lv) va in
      pte ← rd 8 e;
      if has pte PTE_FLAG_V then walk_from lv' (PMA_PA2VA (PTE_PA pte)) va alloc
      else if negb alloc then mret NULL else
      pgtbl' ← kmem_alloc_pages 0;
      if pgtbl' =? 0 then mret NULL else
      memset pgtbl' 0 PAGE_SIZE;;
      wr 8 e (PA_PTE (PMA_VA2PA pgtbl') |l PTE_FLAG_V);;
      walk_from lv' pgtbl' va alloc
  end.

Definition vm_walk (pgtbl va : Z) (alloc : bool) : M Z := walk_from (Z.to_nat (VA_N_VPN - 1)) pgtbl va alloc.

(** Returns 0 or -1, as the code does. *)
Definition vm_mappages (pgtbl va pa siz flags : Z) : M Z :=
  if siz =? 0 then mret (-1) else
  while (fun '(current_pg, pa) =>
      if current_pg =? PAGE_ROUND_UP (va +l siz) then mret (inr 0) else
      entry ← vm_walk pgtbl current_pg true;
      if entry =? NULL then mret (inr (-1)) else
      e ← rd 8 entry;
      (if has e PTE_FLAG_V then panic "vm_mappages - overlapped" else mret tt);;
      wr 8 entry (PA_PTE pa |l PTE_FLAG_V |l flags);;
      mret (inl (current_pg +l PAGE_SIZE, pa +l PAGE_SIZE)))
    (PAGE_ROUND_DOWN va, pa).

Definition vm_unmappages (pgtbl va page_count : Z) (do_free : bool) : M unit :=
  (if has va ((1 <<l PN_WIDTH) -l 1) then panic "vm_unmappages - broken alignment" else mret tt);;
  let bound := va +l PAGE_SIZE *l page_count in
  while (fun v_addr =>
      if v_addr <? bound then
        entry ← vm_walk pgtbl v_addr false;
        (if entry =? NULL then panic "vm_unmappages - broken entry" else
         e ← rd 8 entry;
         if negb (has e PTE_FLAG_V) || (e &l ((1 <<l PTE_FLAGS_WIDTH) -l 1) =? PTE_FLAG_V)
         then panic "vm_unmappages - broken entry" else mret tt);;
        when do_free (e ← rd 8 entry; kmem_free_page (PMA_PA2VA (PTE_PA e)));;
        wr 8 entry 0;;
        mret (inl (v_addr +l PAGE_SIZE))
      else mret (inr tt)) va.

(** ** Freeing tables

    The recursion follows the entries of the table; Sv39 tables are three
    levels deep, so a recursion deeper than [depth] counts as one that never
    returns. *)

Definition RWX : Z := PTE_FLAG_R |l PTE_FLAG_W |l PTE_FLAG_X.

Fixpoint reap_pagetable (depth : nat) (pgtbl : Z) : M unit :=
  match depth with
  | O => hang
  | S d =>
      for_up 512 0 (fun i =>
        pte ← rd 8 (pgtbl + 8 * i);
        if has pte PTE_FLAG_V && negb (has pte RWX) then
          reap_pagetable d (PMA_PA2VA (PTE_PA pte));;
          wr 8 (pgtbl + 8 * i) 0
        else if has pte PTE_FLAG_V then panic "vm_reap_pagetable - leaves"
        else mret tt);;
      kmem_free_page pgtbl
  end.
Definition vm_reap_pagetable (pgtbl : Z) : M unit := reap_pagetable 64 pgtbl.

Fixpoint reap_pagetable_force (depth : nat) (pgtbl : Z) : M unit :=
  match depth with
  | O => hang
  | S d =>
      for_up 512 0 (fun i =>
        pte ← rd 8 (pgtbl + 8 * i);
        when (has pte PTE_FLAG_V && negb (has pte RWX))
          (reap_pagetable_force d (PMA_PA2VA (PTE_PA pte));;
           wr 8 (pgtbl + 8 * i) 0));;
      kmem_free_page pgtbl
  end.
Definition vm_reap_pagetable_force (pgtbl : Z) : M unit := reap_pagetable_force 64 pgtbl.

(** ** The trap handler's page, kernel and user tables *)

Definition vm_map_user_handler (pgtbl : Z) : M unit :=
  vm_mappages pgtbl VA_USER_USER_HANDLER_BEGIN (kimage "KERNEL_USER_HANDLER_PA_BEGIN") VA_USER_USER_HANDLER_SIZE
    (PTE_FLAG_R |l PTE_FLAG_X);;
  mret tt.

Definition vm_unmap_user_handler (pgtbl : Z) : M unit :=
  vm_unmappages pgtbl VA_USER_USER_HANDLER_BEGIN (VA_USER_USER_HANDLER_SIZE >>l PAGE_SHIFT) false.

Definition vm_kernel_init : M unit :=
  satp ← r_satp;
  wr 8 sym_kernel_pagetable (PMA_PA2VA ((satp &l ((1 <<l VMEM_MODE_SHIFT) -l 1)) <<l PAGE_SHIFT));;
  base ← rd 8 sym_kernel_pagetable;
  for_up (Z.to_nat (VA_N_VPN - 2)) 0 (fun i =>
    wr 8 (sym_pkernel_pgtbl + 8 * i) (base -l (VA_N_VPN - 3) * 2 ^ PN_WIDTH +l i * 2 ^ PN_WIDTH));;
  printf ("[vm]kernel pagetable binded in vkernel" ++ nl) [].

Definition vm_kernel_remove_idmap : M unit :=
  for_up (Z.to_nat (2 ^ (PN_WIDTH - 1))) 0 (fun phy_pn =>
    t ← rd 8 (sym_pkernel_pgtbl + 8 * (VA_N_VPN - 3));
    wr 8 (t + 8 * phy_pn) 0);;
  printf ("[vm]temporary user-space mapping removed" ++ nl) [];;
  kpt ← rd 8 sym_kernel_pagetable;
  vm_map_user_handler kpt;;
  printf ("[vm]mapped the trapframe" ++ nl) [].

Definition vm_hart_enable : M unit :=
  sfence_vma;;
  t ← rd 8 (sym_pkernel_pgtbl + 8 * (VA_N_VPN - 3));
  w_satp (SATP VMEM_MODE (PMA_VA2PA t));;
  sfence_vma.

Definition vm_user_make_pagetable : M Z :=
  ret ← kmem_alloc_pages 0;
  memset ret 0 PAGE_SIZE;;
  (if ret =? NULL then panic "vm_user_make_pagetable - no space" else mret tt);;
  vm_map_user_handler ret;;
  mret ret.

(** ** Using a table that is not the current one *)

Definition vm_translate (pgtbl addr : Z) : M Z :=
  entry ← vm_walk pgtbl addr false;
  if entry =? NULL then mret NULL else
  e ← rd 8 entry;
  mret (PMA_PA2VA (PTE_PA e |l (addr &l (PAGE_SIZE - 1)))).

Fixpoint vm_uvmcpy_recursive (level : nat) (pgtbl new_pgtbl : Z) (overwrite : bool) : M unit :=
  for_up 512 0 (fun pn =>
    pte ← rd 8 (pgtbl + 8 * pn);
    if has pte PTE_FLAG_V then
      if has pte (PTE_FLAG_R |l PTE_FLAG_X) then
        skip ← (if overwrite then mret false else n ← rd 8 (new_pgtbl + 8 * pn); mret (negb (n =? 0)));
        when (negb skip)
          (new_page ← kmem_alloc_pages 0;
           memcpy new_page (PMA_PA2VA (PTE_PA pte)) PAGE_SIZE;;
           wr 8 (new_pgtbl + 8 * pn) (PA_PTE (PMA_VA2PA new_page) |l (pte &l ((1 <<l PTE_FLAGS_WIDTH) -l 1))))
      else match level with
      | O => mret tt
      | S level' =>
          n ← rd 8 (new_pgtbl + 8 * pn);
          when (n =? 0)
            (sub ← kmem_alloc_pages 0;
             wr 8 (new_pgtbl + 8 * pn) (PA_PTE (PMA_VA2PA sub) |l (pte &l ((1 <<l PTE_FLAGS_WIDTH) -l 1))));;
          e ← rd 8 (pgtbl + 8 * pn);
          e' ← rd 8 (new_pgtbl + 8 * pn);
          vm_uvmcpy_recursive level' (PMA_PA2VA (PTE_PA e)) (PMA_PA2VA (PTE_PA e')) overwrite
      end
    else mret tt).

Definition vm_uvmcpy (pgtbl new_pgtbl : Z) (overwrite : bool) : M unit :=
  vm_uvmcpy_recursive (Z.to_nat (VA_N_VPN - 1)) pgtbl new_pgtbl overwrite.

Definition vm_memcpyin (pgtbl dst vsrc size : Z) : M Z :=
  let dst_end := dst +l size in
  while (fun '(dst, vsrc) =>
      if dst =? dst_end then mret (inr 0) else
      tmp_ptr ← vm_translate pgtbl vsrc;
      if negb (tmp_ptr =? NULL) then
        c ← rd 1 tmp_ptr; wr 1 dst c;; mret (inl (dst +l 1, vsrc +l 1))
      else mret (inr (-1))) (dst, vsrc).

Definition vm_memcpyout (pgtbl vdst src size : Z) : M Z :=
  let vdst_end := vdst +l size in
  while (fun '(vdst, src) =>
      if vdst =? vdst_end then mret (inr 0) else
      tmp_ptr ← vm_translate pgtbl vdst;
      if negb (tmp_ptr =? NULL) then
        c ← rd 1 src; wr 1 tmp_ptr c;; mret (inl (vdst +l 1, src +l 1))
      else mret (inr (-1))) (vdst, src).

(** ** boot/setup_mmu.c

    Runs at physical addresses before translation is on. *)

Definition boot_started : Z := kimage "started".
Definition boot_pgtbl : Z := kimage "pkernel_pgtbl".
Definition boot_table (i : Z) : Z := boot_pgtbl + PAGE_SIZE * i.

(** One 1 GiB leaf entry. *)
Definition gigapage (flags p_addr : Z) : Z := flags |l PA_PTE p_addr.

Definition map_identity : M unit :=
  for_up (Z.to_nat (2 ^ (PN_WIDTH - 1))) 0 (fun phy_pn =>
    wr 8 (boot_table (VA_N_VPN - 3) + 8 * phy_pn)
      (gigapage (PTE_FLAG_V |l PTE_FLAG_R |l PTE_FLAG_W |l PTE_FLAG_X)
        (phy_pn <<l ((VA_N_VPN - 1) * PN_WIDTH + PAGE_OFFSET_WIDTH)))).

Definition map_pma : M unit :=
  for_up (Z.to_nat (2 ^ (PN_WIDTH - 2))) 0 (fun phy_pn =>
    wr 8 (boot_table (VA_N_VPN - 3) + 8 * (phy_pn |l (1 <<l (PN_WIDTH - 1))))
      (gigapage (PTE_FLAG_V |l PTE_FLAG_R |l PTE_FLAG_W)
        (phy_pn <<l ((VA_N_VPN - 1) * PN_WIDTH + PAGE_OFFSET_WIDTH)))).

(** [for (i = VA_N_VPN - 3; i != 0; i--)]: the k-th round works on table
    [VA_N_VPN - 3 - k]; Sv39 has one table and no round. *)
Definition connect_high : M unit :=
  for_up (Z.to_nat (VA_N_VPN - 3)) 0 (fun k =>
    let i := VA_N_VPN - 3 - k in
    wr 8 (boot_table i + 8 * (2 ^ PN_WIDTH - 1)) (PTE_FLAG_V |l PA_PTE (boot_table (i - 1)))).

Definition map_image : M unit :=
  let step := 1 <<l (PAGE_OFFSET_WIDTH + PN_WIDTH * 2) in
  while (fun '(kimage_va, kimage_pa) =>
      if kimage_va <? kimage "__KERNEL_IMG_VA_END" then
        wr 8 (boot_table 0 + 8 * VA_GET_PN 2 kimage_va)
          (gigapage (PTE_FLAG_V |l PTE_FLAG_R |l PTE_FLAG_W |l PTE_FLAG_X) kimage_pa);;
        mret (inl (kimage_va +l step, kimage_pa +l step))
      else mret (inr tt))
    (kimage "__KERNEL_IMG_VA_BEGIN", kimage "__KERNEL_IMG_PA_BEGIN").

Definition setup_mmu : M unit :=
  started ← rd 4 boot_started;
  when (started =? 0)
    (map_identity;; map_pma;; connect_high;; map_image;; wr 4 boot_started 1);;
  sfence_vma;;
  w_satp (SATP VMEM_MODE (boot_table (VA_N_VPN - 3)));;
  sfence_vma.
End vmem.
