(* ===== verification/PageTable.v ===== *)
(** * Page tables as trees

    What a page table in memory means, independently of the code that edits
    it: [reach] follows a path of indices from the root to a table, [mapped]
    is the leaf entry of an address, [sv39] is the walk the hardware performs.
    [pt_ok] is the invariant of the kernel's tables: the tables are pages
    handed out by the page allocator, distinct paths lead to distinct tables,
    and inner entries are pointers.  The lemmas say how writing one entry and
    adding one table change [reach] and [mapped]. *)

From S2P Require Import Prelude Memory Machine Lists Strings Hal Lock Console Csr Buddy BuddyInv PageAlloc Vmem.

(** ** Entries *)

Lemma VA_GET_PN_spec lv va : 0 <= lv -> VA_GET_PN lv va = (va / 2 ^ (9 * lv + 12)) mod 512.
Proof.
  intros. unfold VA_GET_PN, PN_WIDTH, PAGE_OFFSET_WIDTH. change 0x1FF with (2 ^ 9 - 1).
  rewrite land_mask, Z.shiftr_div_pow2 by lia. done.
Qed.

Lemma PA_PTE_spec pa : 0 <= pa < 2 ^ 56 -> PA_PTE pa = pa / 4096 * 1024.
Proof.
  intros. unfold PA_PTE, PAGE_OFFSET_WIDTH, PTE_FLAGS_WIDTH, shl64. rewrite Z.shiftl_mul_pow2, Z.shiftr_div_pow2 by lia.
  change (2 ^ 12) with 4096. change (2 ^ 10) with 1024. apply u64_small. zdm.
Qed.

Lemma pte_sum pa f : 0 <= pa < 2 ^ 56 -> 0 <= f < 1024 -> PA_PTE pa |l f = pa / 4096 * 1024 + f.
Proof.
  intros. rewrite PA_PTE_spec by done. apply (lor_add_disjoint _ _ 10); [lia|done|]. change (2 ^ 10) with 1024. apply Z.mod_mul. lia.
Qed.

Lemma pte_pa pa f : 0 <= pa < 2 ^ 56 -> 0 <= f < 1024 -> PTE_PA (PA_PTE pa |l f) = pa - pa mod 4096.
Proof.
  intros. rewrite pte_sum by done. unfold PTE_PA, PAGE_OFFSET_WIDTH, PTE_FLAGS_WIDTH, shl64.
  rewrite Z.shiftl_mul_pow2, Z.shiftr_div_pow2 by lia. change (2 ^ 10) with 1024. change (2 ^ 12) with 4096.
  rewrite Z.add_comm, Z.div_add, (Z.div_small f) by lia. rewrite u64_small; zdm.
Qed.

Lemma pte_bits pa f : 0 <= pa < 2 ^ 56 -> 0 <= f < 1024 -> (PA_PTE pa |l f) &l 1023 = f.
Proof.
  intros. rewrite pte_sum by done. change 1023 with (2 ^ 10 - 1). rewrite land_mask by lia. change (2 ^ 10) with 1024.
  rewrite Z.add_comm, Z.mod_add by lia. by apply Z.mod_small.
Qed.

Lemma pte_has pa f g : 0 <= pa < 2 ^ 56 -> 0 <= f < 1024 -> 1023 &l g = g -> has (PA_PTE pa |l f) g = has f g.
Proof. intros. unfold has. do 2 f_equal. rewrite <- H1 at 1. by rewrite Z.land_assoc, pte_bits. Qed.

Lemma pte_bound pa f : 0 <= pa < 2 ^ 56 -> 0 <= f < 1024 -> 0 <= PA_PTE pa |l f < 2 ^ 64.
Proof. intros. rewrite pte_sum by done. zdm. Qed.

Definition next_table (pte : Z) : Z := PMA_PA2VA (PTE_PA pte).
Definition table_pte (t : Z) : Z := PA_PTE (PMA_VA2PA t) |l PTE_FLAG_V.

Lemma table_pte_spec t : page_run t 1 ->
  0 <= table_pte t < 2 ^ 64 /\ next_table (table_pte t) = t /\ has (table_pte t) PTE_FLAG_V = true /\ has (table_pte t) RWX = false.
Proof.
  intros (_ & Ha & Hl & Hu). unfold PAGE_SIZE in *. set (pa := t - VA_KERNEL_BEGIN).
  assert (Hpa : 0 <= pa < 2 ^ 37) by (unfold pa; lia).
  assert (Et : t = pa + VA_KERNEL_BEGIN) by (unfold pa; lia).
  assert (Hm : pa mod 4096 = 0).
  { rewrite Et in Ha. unfold VA_KERNEL_BEGIN in Ha. zdm. }
  unfold next_table, table_pte. rewrite Et, PMA_VA2PA_spec by lia. unfold PTE_FLAG_V, RWX. split_and!.
  - apply pte_bound; [|done]. lia.
  - apply pte_bound; [|done]. lia.
  - rewrite pte_pa, Hm by lia. rewrite Z.sub_0_r. apply PMA_PA2VA_spec. lia.
  - rewrite pte_has by (try done; lia). done.
  - rewrite pte_has by (try done; lia). done.
Qed.

(** ** Virtual page numbers *)

Definition vpn_path (va : Z) : list Z := [VA_GET_PN 2 va; VA_GET_PN 1 va].
Definition index (i : Z) : Prop := 0 <= i < 512.
Definition path_ok (p : list Z) : Prop := (length p <= 2)%nat /\ Forall index p.

Lemma index_vpn lv va : 0 <= lv -> index (VA_GET_PN lv va).
Proof. intros. rewrite VA_GET_PN_spec by done. unfold index. apply Z.mod_pos_bound. lia. Qed.

Lemma vpn_path_ok va : path_ok (vpn_path va).
Proof. split; [done|]. repeat constructor; apply index_vpn; lia. Qed.

Lemma path_snoc p i : path_ok (p ++ [i]) <-> (length p <= 1)%nat /\ Forall index p /\ index i.
Proof.
  unfold path_ok. rewrite length_app, Forall_app, Forall_singleton. simpl. intuition lia.
Qed.

Lemma path_prefix p q : path_ok (p ++ q) -> path_ok p.
Proof. unfold path_ok. rewrite length_app, Forall_app. intuition lia. Qed.

(** Two addresses of the Sv39 range are on the same page exactly when their
    indices at the three levels agree. *)
Lemma same_page va va' : 0 <= va < 2 ^ 39 -> 0 <= va' < 2 ^ 39 ->
  vpn_path va = vpn_path va' -> VA_GET_PN 0 va = VA_GET_PN 0 va' -> va / 4096 = va' / 4096.
Proof.
  intros H H' [= E2 E1] E0. rewrite !VA_GET_PN_spec in * by lia.
  change (2 ^ (9 * 2 + 12)) with (4096 * 512 * 512) in *. change (2 ^ (9 * 1 + 12)) with (4096 * 512) in *.
  change (2 ^ (9 * 0 + 12)) with 4096 in *. change (2 ^ 39) with (4096 * 512 * 512 * 512) in *.
  assert (D : forall z, z / (4096 * 512 * 512) = z / 4096 / 512 / 512 /\ z / (4096 * 512) = z / 4096 / 512).
  { intros z. by rewrite <- !Z.div_div by lia. }
  rewrite !(proj1 (D _)) in E2. rewrite !(proj2 (D _)) in E1. set (a := va / 4096) in *. set (b := va' / 4096) in *.
  assert (0 <= a < 512 * 512 * 512) by (unfold a; zdm). assert (0 <= b < 512 * 512 * 512) by (unfold b; zdm). clearbody a b. clear H H'.
  pose proof (Z.div_mod a 512 ltac:(lia)). pose proof (Z.div_mod b 512 ltac:(lia)).
  set (c := a / 512) in *. set (d := b / 512) in *.
  assert (0 <= c < 512 * 512) by (unfold c; zdm). assert (0 <= d < 512 * 512) by (unfold d; zdm). clearbody c d.
  enough (c = d) by lia. rewrite (Z.mod_small (c / 512)), (Z.mod_small (d / 512)) in E2 by zdm. zdm.
Qed.

Lemma page_base_vpn va lv : 0 <= lv -> VA_GET_PN lv (va - va mod 4096) = VA_GET_PN lv va.
Proof.
  intros. rewrite !VA_GET_PN_spec by done. f_equal. rewrite Z.add_comm, Z.pow_add_r by lia. change (2 ^ 12) with 4096.
  rewrite <- !Z.div_div by (try apply Z.pow_pos_nonneg; lia). f_equal. zdm.
Qed.

(** ** The tree in memory *)

Definition pt_entry (m : memory) (t i : Z) : Z := ld64 m (t + 8 * i).

Fixpoint reach (m : memory) (t : Z) (p : list Z) : option Z :=
  match p with
  | [] => Some t
  | i :: p' => if has (pt_entry m t i) PTE_FLAG_V then reach m (next_table (pt_entry m t i)) p' else None
  end.

Definition leaf (m : memory) (t i : Z) : option Z :=
  let e := pt_entry m t i in if has e PTE_FLAG_V then Some e else None.

Definition mapped (m : memory) (root va : Z) : option Z :=
  t ← reach m root (vpn_path va); leaf m t (VA_GET_PN 0 va).

Definition is_table (m : memory) (root x : Z) : Prop := exists p, path_ok p /\ reach m root p = Some x.
Definition in_tables (m : memory) (root a : Z) : Prop := exists x, is_table m root x /\ in_range x PAGE_SIZE a.

(** The hardware's walk for a load or fetch, from the privileged architecture:
    an invalid or reserved entry faults, an entry with R or X is a leaf, of a
    superpage above the last level (faulting when misaligned), any other
    entry points to the next table. *)
Fixpoint sv39 (lv : nat) (m : memory) (t va : Z) : option Z :=
  let e := pt_entry m t (VA_GET_PN (Z.of_nat lv) va) in
  let span := 2 ^ (9 * Z.of_nat lv + 12) in
  if negb (has e PTE_FLAG_V) || (negb (has e PTE_FLAG_R) && has e PTE_FLAG_W) then None
  else if has e (PTE_FLAG_R |l PTE_FLAG_X) then
    if PTE_PA e mod span =? 0 then Some (PTE_PA e + va mod span) else None
  else match lv with O => None | S lv' => sv39 lv' m (next_table e) va end.

Lemma reach_app m t p q : reach m t (p ++ q) = x ← reach m t p; reach m x q.
Proof. revert t. induction p as [|i p IH]; intros t; [done|]. simpl. by destruct (has _ _). Qed.

Lemma reach_snoc m t p i : reach m t (p ++ [i]) =
  x ← reach m t p; if has (pt_entry m x i) PTE_FLAG_V then Some (next_table (pt_entry m x i)) else None.
Proof. apply reach_app. Qed.

Section tables.
Context {L : KernelLayout} {PA : PageAllocator}.

Record pt_ok (s : kst) (root : Z) : Prop := {
  pt_inj p q x : path_ok p -> path_ok q -> reach (mem s) root p = Some x -> reach (mem s) root q = Some x -> p = q;
  pt_own x : is_table (mem s) root x -> pa_owned s x 1;
  pt_inner p x i : path_ok (p ++ [i]) -> reach (mem s) root p = Some x ->
    has (pt_entry (mem s) x i) PTE_FLAG_V = true -> has (pt_entry (mem s) x i) RWX = false;
}.

Section one.
Context (s : kst) (root : Z) (Hpa : pa_ok s) (Hpt : pt_ok s root).

Lemma table_run x : is_table (mem s) root x -> page_run x 1.
Proof. intros H. by apply (pa_run s), (pt_own s root Hpt). Qed.

Lemma table_addr x i : is_table (mem s) root x -> index i -> PAGE_SIZE <= x + 8 * i /\ x + 8 * i <> NULL /\ x + 8 * i + 8 < 2 ^ 64.
Proof.
  intros Hx Hi. destruct (table_run x Hx) as (_ & _ & H & H'). unfold index, VA_KERNEL_BEGIN, PAGE_SIZE, NULL in *. lia.
Qed.

Lemma root_table : is_table (mem s) root root.
Proof. exists []. split; [|done]. split; [simpl; lia|constructor]. Qed.

Lemma tables_safe a : in_tables (mem s) root a -> pa_safe s a.
Proof.
  intros (x & Hx & Ha). apply (pa_owned_safe s x 1); [done|by apply (pt_own s root Hpt)|]. unfold run_at. by rewrite Z.mul_1_l.
Qed.

Lemma slot_in_tables x i a : is_table (mem s) root x -> index i -> in_range (x + 8 * i) 8 a -> in_tables (mem s) root a.
Proof. intros Hx Hi Ha. exists x. split; [done|]. unfold index, in_range, PAGE_SIZE in *. lia. Qed.

(** Different entries do not overlap. *)
Lemma entry_slots_apart p x i q y j :
  path_ok p -> reach (mem s) root p = Some x -> index i -> path_ok q -> reach (mem s) root q = Some y -> index j ->
  (p = q -> i <> j) -> disjoint (x + 8 * i) 8 (y + 8 * j) 8.
Proof.
  intros Hp Ex Hi Hq Ey Hj Hne.
  assert (Hx : is_table (mem s) root x) by (by exists p). assert (Hy : is_table (mem s) root y) by (by exists q).
  destruct (Z.eq_dec x y) as [<-|Hxy].
  - assert (p = q) as <- by (by eapply (pt_inj s root Hpt)). specialize (Hne eq_refl). unfold disjoint. lia.
  - destruct (table_run x Hx) as (_ & Hxa & _). destruct (table_run y Hy) as (_ & Hya & _).
    unfold index, disjoint, PAGE_SIZE in *. zdm.
Qed.

Section write.
Context (p : list Z) (x i : Z) (m' : memory).
Context (Hp : path_ok p) (Ex : reach (mem s) root p = Some x) (Hi : index i).
Context (Hag : agree (fun a => in_tables (mem s) root a /\ ~ in_range (x + 8 * i) 8 a) (mem s) m').

(** Writing entry [i] of the table at [p] changes no other entry, *)
Lemma entry_other q y j : path_ok q -> reach (mem s) root q = Some y -> index j -> (p = q -> i <> j) ->
  pt_entry m' y j = pt_entry (mem s) y j.
Proof.
  intros Hq Ey Hj Hne. apply ld_agree. eapply agree_weaken; [|exact Hag]. intros a Ha.
  pose proof (entry_slots_apart p x i q y j Hp Ex Hi Hq Ey Hj Hne). split.
  - apply (slot_in_tables y j); [by exists q|done|done].
  - unfold in_range, disjoint in *. simpl in *. lia.
Qed.

(** and redirects only the paths through it. *)
Lemma reach_other q : path_ok q -> ~ (p ++ [i]) `prefix_of` q -> reach m' root q = reach (mem s) root q.
Proof.
  induction q as [|j q IH] using rev_ind; intros Hq Hn; [done|].
  rewrite !reach_snoc, IH.
  - destruct (reach (mem s) root q) as [y|] eqn:Ey; [|done]. simpl. apply path_snoc in Hq as (Hl & Hf & Hj).
    rewrite (entry_other q y j); try done; [split; [lia|done]|]. intros -> ->. by apply Hn.
  - by apply path_prefix in Hq.
  - intros H. apply Hn. by apply prefix_app_r.
Qed.

Lemma reach_through q : reach m' root (p ++ i :: q) =
  if has (pt_entry m' x i) PTE_FLAG_V then reach m' (next_table (pt_entry m' x i)) q else None.
Proof.
  rewrite reach_app, reach_other, Ex; [done|done|]. intros [k E]. apply (f_equal length) in E. rewrite !length_app in E. simpl in E. lia.
Qed.

(** Writing a last-level entry changes the meaning of one page. *)
Lemma mapped_write va va' : p = vpn_path va -> i = VA_GET_PN 0 va ->
  mapped m' root va' = if decide (vpn_path va' = vpn_path va /\ VA_GET_PN 0 va' = VA_GET_PN 0 va)
                       then leaf m' x i else mapped (mem s) root va'.
Proof.
  intros E1 E2. unfold mapped. rewrite reach_other; [|apply vpn_path_ok|].
  - destruct (decide _) as [[E3 E4]|Hne].
    + rewrite E3, <- E1, Ex. simpl. by rewrite E4, E2.
    + destruct (reach (mem s) root (vpn_path va')) as [y|] eqn:Ey; [|done]. simpl. unfold leaf.
      rewrite (entry_other (vpn_path va') y); try done; [apply vpn_path_ok|apply index_vpn; lia|]. intros E5 E6. apply Hne. by rewrite <- E5, <- E6.
  - intros [k E]. apply (f_equal length) in E. rewrite !length_app, E1 in E. simpl in E. lia.
Qed.
End write.
End one.
End tables.
