(* ===== verification/VmemProofs.v ===== *)
(** * Proofs about the page-table code

    [pt_step] is what editing one page table does to everything else: the
    page allocator's invariant, the table's invariant and all memory outside
    the table and the allocator are kept; tables only come from pages the
    allocator had not handed out.  The rules for [vm_walk] and the page loops
    are stated with it. *)

From S2P Require Import Prelude Memory Machine Lists Strings Hal Lock Console Csr Buddy BuddyInv BuddyProofs PageAlloc Vmem PageTable.

Section vm.
Context {L : KernelLayout} {C : Code} {PA : PageAllocator}.

Record pt_step (root : Z) (s s' : kst) : Prop := {
  vs_quiet : quiet s s';
  vs_pa : pa_ok s';
  vs_pt : pt_ok s' root;
  vs_mem : agree (fun a => pa_safe s a /\ ~ in_tables (mem s) root a) (mem s) (mem s');
  vs_safe a : pa_safe s a -> pa_safe s' a;
  vs_owned r n : pa_owned s r n -> pa_owned s' r n;
  vs_keep x : is_table (mem s) root x -> is_table (mem s') root x;
  vs_new x : is_table (mem s') root x ->
    is_table (mem s) root x \/ forall a, in_range x PAGE_SIZE a -> ~ pa_safe s a;
}.

Lemma pt_step_refl root s : pa_ok s -> pt_ok s root -> pt_step root s s.
Proof. intros. split; auto; done. Qed.

Lemma pt_step_trans root s1 s2 s3 : pt_step root s1 s2 -> pt_step root s2 s3 -> pt_step root s1 s3.
Proof.
  intros [Q1 A1 T1 M1 S1 O1 K1 N1] [Q2 A2 T2 M2 S2 O2 K2 N2]. split; auto; [by etrans| |].
  - etrans; [exact M1|]. eapply agree_weaken; [|exact M2]. intros a [Ha Hn]. split; [auto|].
    intros (x & Hx & Hr). destruct (N1 x Hx) as [H|H]; [apply Hn; by exists x|by apply (H a)].
  - intros x Hx. destruct (N2 x Hx) as [H|H]; [auto|right]. intros a Ha Hs. apply (H a Ha). auto.
Qed.

(** A table is determined by its paths. *)
Lemma tables_same root s m' :
  (forall q, path_ok q -> reach m' root q = reach (mem s) root q) -> forall x, is_table m' root x <-> is_table (mem s) root x.
Proof. intros H x. split; intros (q & Hq & E); exists q; (split; [done|]); [by rewrite <- H|by rewrite H]. Qed.

(** ** Writing a last-level entry *)

Lemma slot_agree s root x i v :
  agree (fun a => in_tables (mem s) root a /\ ~ in_range (x + 8 * i) 8 a) (mem s) (st64 (mem s) (x + 8 * i) v).
Proof. apply agree_st. intros b Hb [_ Hn]. by apply Hn. Qed.

Lemma wide_path p i (q : list Z) : length p = 2%nat -> path_ok q -> ~ (p ++ [i]) `prefix_of` q.
Proof. intros Hp [Hq _] [k E]. apply (f_equal length) in E. rewrite !length_app in E. simpl in E. lia. Qed.

Lemma slot_write root s x va v :
  pa_ok s -> pt_ok s root -> reach (mem s) root (vpn_path va) = Some x ->
  pt_step root s (set_mem (st64 (mem s) (x + 8 * VA_GET_PN 0 va) v) s).
Proof.
  intros Hpa Hpt Ex. set (i := VA_GET_PN 0 va). set (m' := st64 _ _ _).
  assert (Hp : path_ok (vpn_path va)) by apply vpn_path_ok. assert (Hi : index i) by (apply index_vpn; lia).
  pose proof (slot_agree s root x i v) as Hag. fold m' in Hag.
  assert (Hr : forall q, path_ok q -> reach m' root q = reach (mem s) root q).
  { intros q Hq. apply (reach_other s root Hpa Hpt (vpn_path va) x i); try done. by apply wide_path. }
  destruct (pa_write s m' (in_tables (mem s) root) Hpa) as (O' & S' & W').
  { intros a. by apply (tables_safe s root Hpa Hpt). }
  { apply agree_st. intros b Hb Hn. apply Hn. apply (slot_in_tables s root x i); [by exists (vpn_path va)|done|done]. }
  split; cbn [mem set_mem]; try done; [apply quiet_set_mem|..].
  - split; cbn [mem set_mem].
    + intros p q y Hp' Hq. rewrite !Hr by done. by apply (pt_inj s root Hpt).
    + intros y Hy. apply W', (pt_own s root Hpt). by apply (tables_same root s m').
    + intros p y j Hpj. rewrite Hr by (by apply path_prefix in Hpj). intros Ey. pose proof Hpj as (Hl & Hf & Hj)%path_snoc.
      rewrite (entry_other s root Hpa Hpt (vpn_path va) x i m' Hp Ex Hi Hag p y j); try done.
      * by apply (pt_inner s root Hpt p).
      * by apply path_prefix in Hpj.
      * intros <-. simpl in Hl. lia.
  - apply agree_st. intros b Hb [_ Hn]. apply Hn. apply (slot_in_tables s root x i); [by exists (vpn_path va)|done|done].
  - intros y. apply (tables_same root s m' Hr).
  - intros y Hy. left. by apply (tables_same root s m' Hr).
Qed.

Lemma slot_mapped root s x va va' v :
  pa_ok s -> pt_ok s root -> reach (mem s) root (vpn_path va) = Some x -> 0 <= v < 2 ^ 64 ->
  mapped (st64 (mem s) (x + 8 * VA_GET_PN 0 va) v) root va' =
    if decide (vpn_path va' = vpn_path va /\ VA_GET_PN 0 va' = VA_GET_PN 0 va)
    then (if has v PTE_FLAG_V then Some v else None) else mapped (mem s) root va'.
Proof.
  intros Hpa Hpt Ex Hv.
  rewrite (mapped_write s root Hpa Hpt (vpn_path va) x (VA_GET_PN 0 va) _ (vpn_path_ok va) Ex (index_vpn 0 va ltac:(lia))
    (slot_agree s root x (VA_GET_PN 0 va) v) va va') by done.
  destruct (decide _); [|done]. unfold leaf, pt_entry. by rewrite ld64_st64.
Qed.

(** ** Adding a table *)

Section extend.
Context (root : Z) (s s1 : kst) (p : list Z) (x i y : Z) (m2 : memory).
Context (Hpa : pa_ok s) (Hpt : pt_ok s root) (Hpi : path_ok (p ++ [i])) (Ex : reach (mem s) root p = Some x).
Context (Hno : has (pt_entry (mem s) x i) PTE_FLAG_V = false).
Context (Hps : page_step s s1) (Hown : pa_owned s1 y 1) (Hnew : forall a, in_range y PAGE_SIZE a -> ~ pa_safe s a).
Context (Hm2 : forall a, ldb m2 a = filled (mem s1) y PAGE_SIZE 0 a).

Let m3 : memory := st64 m2 (x + 8 * i) (table_pte y).

Lemma x_path : path_ok p.
Proof. by apply path_prefix in Hpi. Qed.
Lemma x_table : is_table (mem s) root x.
Proof. exists p. split; [apply x_path|done]. Qed.
Lemma i_index : index i.
Proof. apply (proj1 (path_snoc p i) Hpi). Qed.

Lemma slot_safe a : in_range (x + 8 * i) 8 a -> in_tables (mem s) root a.
Proof. apply slot_in_tables; [apply x_table|apply i_index]. Qed.

Lemma not_fresh a : in_tables (mem s) root a -> ~ in_range y PAGE_SIZE a.
Proof. intros Ht Ha. apply (Hnew a Ha). by apply (tables_safe s root). Qed.

Lemma m3_outside a : ~ in_range y PAGE_SIZE a -> ~ in_range (x + 8 * i) 8 a -> ldb m3 a = ldb (mem s1) a.
Proof.
  intros Hy Hx. unfold m3. rewrite ldb_st_out by done. rewrite Hm2. unfold filled.
  destruct (Z.leb_spec y a), (Z.ltb_spec a (y + PAGE_SIZE)); try done. destruct Hy. unfold in_range. lia.
Qed.

Lemma m3_agree : agree (fun a => in_tables (mem s) root a /\ ~ in_range (x + 8 * i) 8 a) (mem s) m3.
Proof.
  intros a [Ht Hn]. rewrite m3_outside by (try done; by apply not_fresh). apply (ps_mem s s1 Hps). by apply (tables_safe s root).
Qed.

Lemma m3_slot : pt_entry m3 x i = table_pte y.
Proof. unfold m3, pt_entry. apply ld64_st64. apply table_pte_spec. apply (pa_run s1); [apply Hps|done]. Qed.

Lemma m3_fresh j : index j -> pt_entry m3 y j = 0.
Proof.
  intros Hj. assert (Hb : forall a, in_range (y + 8 * j) 8 a -> ldb m3 a = 0).
  { intros a Ha. assert (Hy : in_range y PAGE_SIZE a) by (unfold in_range, index, PAGE_SIZE in *; lia).
    unfold m3. rewrite ldb_st_out by (intros Hx; by apply (not_fresh a); [apply slot_safe|]).
    rewrite Hm2. unfold filled. unfold in_range in Hy. rewrite (proj2 (Z.leb_le _ _)), (proj2 (Z.ltb_lt _ _)) by lia. done. }
  unfold pt_entry. rewrite (ld_agree 8 ∅ m3); [reflexivity|]. intros a Ha. by rewrite Hb.
Qed.

Lemma fresh_not_table z : is_table (mem s) root z -> z <> y.
Proof.
  intros Hz ->. apply (not_fresh y); [exists y; split; [done|]|]; unfold in_range, PAGE_SIZE; lia.
Qed.

Lemma reach_m3 q z : path_ok q -> reach m3 root q = Some z ->
  (q = p ++ [i] /\ z = y) \/ (~ (p ++ [i]) `prefix_of` q /\ reach (mem s) root q = Some z).
Proof.
  intros Hq Ez. destruct (decide ((p ++ [i]) `prefix_of` q)) as [[k ->]|Hn].
  - left. rewrite <- app_assoc in *. simpl in *.
    rewrite (reach_through s root Hpa Hpt p x i m3 x_path Ex i_index m3_agree), m3_slot in Ez.
    destruct (table_pte_spec y) as (_ & E1 & E2 & _); [apply (pa_run s1); [apply Hps|done]|]. rewrite E1, E2 in Ez.
    destruct k as [|j k]; [simpl in Ez; by split; [|injection Ez]|]. exfalso. simpl in Ez. rewrite m3_fresh in Ez; [done|].
    destruct Hq as [_ Hf]. rewrite Forall_app, !Forall_cons in Hf. tauto.
  - right. split; [done|]. by rewrite <- (reach_other s root Hpa Hpt p x i m3 x_path Ex i_index m3_agree).
Qed.

Lemma reach_new : reach m3 root (p ++ [i]) = Some y.
Proof.
  rewrite (reach_through s root Hpa Hpt p x i m3 x_path Ex i_index m3_agree), m3_slot.
  destruct (table_pte_spec y) as (_ & E1 & E2 & _); [apply (pa_run s1); [apply Hps|done]|]. by rewrite E1, E2.
Qed.

Lemma reach_kept q z : path_ok q -> reach (mem s) root q = Some z -> reach m3 root q = Some z.
Proof.
  intros Hq Ez. rewrite (reach_other s root Hpa Hpt p x i m3 x_path Ex i_index m3_agree); try done.
  intros [k ->]. rewrite <- app_assoc, reach_app, Ex in Ez. simpl in Ez. by rewrite Hno in Ez.
Qed.

Lemma extend_ok s3 : quiet s1 s3 -> mem s3 = m3 -> pt_step root s s3 /\ reach (mem s3) root (p ++ [i]) = Some y.
Proof.
  intros Q3 Em. rewrite Em. split; [|apply reach_new].
  assert (Hyr : forall a, in_range y PAGE_SIZE a -> pa_safe s1 a).
  { intros a Ha. apply (pa_owned_safe s1 y 1); [apply Hps|done|]. unfold run_at. by rewrite Z.mul_1_l. }
  assert (Hxr : forall a, in_range (x + 8 * i) 8 a -> pa_safe s1 a).
  { intros a Ha. apply Hps, (tables_safe s root); [done|done|]. by apply slot_safe. }
  destruct (pa_frame s1 s3) as (O3 & S3 & _ & W3); [apply Hps|by apply quiet_kmem| |].
  { rewrite Em. intros a Hn. apply m3_outside; auto. }
  assert (Htab : forall z, is_table m3 root z -> is_table (mem s) root z \/ z = y).
  { intros z (q & Hq & Ez). destruct (reach_m3 q z Hq Ez) as [[_ ->]|[_ E]]; [by right|left; by exists q]. }
  split; rewrite ?Em; auto.
  - etrans; [apply Hps|done].
  - split; rewrite ?Em.
    + intros q1 q2 z H1 H2 E1 E2. destruct (reach_m3 q1 z H1 E1) as [[-> E3]|[_ F1]], (reach_m3 q2 z H2 E2) as [[-> E4]|[_ F2]]; try done.
      * destruct (fresh_not_table z); [by exists q2|done].
      * destruct (fresh_not_table z); [by exists q1|done].
      * by apply (pt_inj s root Hpt q1 q2 z).
    + intros z Hz. apply W3. destruct (Htab z Hz) as [H| ->]; [|done]. by apply Hps, (pt_own s root Hpt).
    + intros q z j Hqj Ez HV. pose proof Hqj as Hq. apply path_prefix in Hq. pose proof Hqj as (_ & _ & Hj)%path_snoc.
      destruct (reach_m3 q z Hq Ez) as [[-> ->]|[_ E]]; [by rewrite m3_fresh in HV|].
      destruct (decide (p = q /\ i = j)) as [[<- <-]|Hne].
      * rewrite Ex in E. injection E as <-. rewrite m3_slot. apply table_pte_spec, (pa_run s1); [apply Hps|done].
      * assert (Eo : pt_entry m3 z j = pt_entry (mem s) z j).
        { apply (entry_other s root Hpa Hpt p x i m3 x_path Ex i_index m3_agree q z j); try done. intros -> ->. by apply Hne. }
        rewrite Eo in *. by apply (pt_inner s root Hpt q z j).
  - intros a [Hs Hn]. rewrite m3_outside; [by apply Hps|intros Ha; by apply (Hnew a)|]. intros Ha. apply Hn. by apply slot_safe.
  - intros a Ha. by apply S3, Hps.
  - intros r n Hr. by apply W3, Hps.
  - intros z (q & Hq & Ez). exists q. split; [done|]. by apply reach_kept.
  - intros z Hz. destruct (Htab z Hz) as [H| ->]; [by left|by right].
Qed.

Lemma extend_mapped va : mapped m3 root va = mapped (mem s) root va.
Proof.
  unfold mapped. destruct (reach m3 root (vpn_path va)) as [z|] eqn:Ez.
  - destruct (reach_m3 _ z (vpn_path_ok va) Ez) as [[E ->]|[_ E]].
    + assert (En : reach (mem s) root (vpn_path va) = None) by (rewrite E, reach_snoc, Ex; simpl; by rewrite Hno).
      rewrite En. simpl. unfold leaf. by rewrite m3_fresh by (apply index_vpn; lia).
    + rewrite E. simpl. unfold leaf.
      rewrite (entry_other s root Hpa Hpt p x i m3 x_path Ex i_index m3_agree (vpn_path va) z); try done; [apply vpn_path_ok|apply index_vpn; lia|].
      intros Ep. destruct (proj1 (path_snoc p i) Hpi) as [Hl _]. rewrite Ep in Hl. simpl in Hl. lia.
  - destruct (reach (mem s) root (vpn_path va)) as [z|] eqn:Ey; [|done]. apply reach_kept in Ey; [congruence|apply vpn_path_ok].
Qed.
End extend.

(** Code that leaves safe memory alone does not disturb the tables. *)
Lemma reach_agree root s m' : pa_ok s -> pt_ok s root -> agree (in_tables (mem s) root) (mem s) m' ->
  forall q, path_ok q -> reach m' root q = reach (mem s) root q.
Proof.
  intros Hpa Hpt Hag q. induction q as [|j q IH] using rev_ind; intros Hq; [done|]. rewrite !reach_snoc, IH by (by apply path_prefix in Hq).
  destruct (reach (mem s) root q) as [y|] eqn:Ey; [|done]. simpl. assert (E : pt_entry m' y j = pt_entry (mem s) y j); [|by rewrite E].
  apply ld_agree. eapply agree_weaken; [|exact Hag]. intros a. apply slot_in_tables; [|apply (proj1 (path_snoc q j) Hq)].
  exists q. split; [by apply path_prefix in Hq|done].
Qed.

(** Code that leaves the tables alone, and their ownership, keeps what they
    mean. *)
Lemma tables_kept root s s' : pa_ok s -> pt_ok s root -> agree (in_tables (mem s) root) (mem s) (mem s') ->
  (forall r n, pa_owned s r n -> pa_owned s' r n) ->
  pt_ok s' root /\ (forall q, path_ok q -> reach (mem s') root q = reach (mem s) root q) /\
  (forall x, is_table (mem s') root x <-> is_table (mem s) root x) /\
  (forall x i, is_table (mem s) root x -> index i -> pt_entry (mem s') x i = pt_entry (mem s) x i) /\
  forall va, mapped (mem s') root va = mapped (mem s) root va.
Proof.
  intros Hpa Hpt Hag Hown. pose proof (reach_agree root s (mem s') Hpa Hpt Hag) as Hr.
  pose proof (tables_same root s (mem s') Hr) as Ht.
  assert (He : forall x i, is_table (mem s) root x -> index i -> pt_entry (mem s') x i = pt_entry (mem s) x i).
  { intros x i Hx Hi. apply ld_agree. eapply agree_weaken; [|exact Hag]. intros a. by apply slot_in_tables. }
  split_and!; [|done|done|done|].
  - split.
    + intros p q x Hp Hq. rewrite !Hr by done. by apply (pt_inj s root Hpt).
    + intros x Hx. by apply Hown, (pt_own s root Hpt), Ht.
    + intros p x i Hpi. pose proof Hpi as (_ & _ & Hi)%path_snoc. pose proof (path_prefix p [i] Hpi) as Hp. rewrite Hr by done. intros Ex.
      rewrite (He x i) by (try done; by exists p). by apply (pt_inner s root Hpt p).
  - intros va. unfold mapped. rewrite Hr by apply vpn_path_ok. destruct (reach _ _ _) as [x|] eqn:Ex; [|done]. simpl. unfold leaf.
    rewrite He; [done| |apply index_vpn; lia]. exists (vpn_path va). split; [apply vpn_path_ok|done].
Qed.

Lemma page_step_pt root s s' : pa_ok s -> pt_ok s root -> page_step s s' ->
  pt_step root s s' /\ forall va, mapped (mem s') root va = mapped (mem s) root va.
Proof.
  intros Hpa Hpt PS. assert (Hag : agree (in_tables (mem s) root) (mem s) (mem s')).
  { eapply agree_weaken; [|apply PS]. intros a. by apply tables_safe. }
  destruct (tables_kept root s s' Hpa Hpt Hag ltac:(apply PS)) as (Hpt' & _ & Ht & _ & Hm). split; [|done]. split; try apply PS; [done| | |].
  - eapply agree_weaken; [|apply PS]. tauto.
  - intros x. by apply Ht.
  - intros x Hx. left. by apply Ht.
Qed.

(** ** Walking *)

(** The indices still to follow with [lv] levels to go. *)
Fixpoint rest (lv : nat) (va : Z) : list Z :=
  match lv with O => [] | S lv' => VA_GET_PN (Z.of_nat lv) va :: rest lv' va end.

Lemma wp_walk_from_read root s va lv p x :
  pa_ok s -> pt_ok s root -> vpn_path va = p ++ rest lv va -> reach (mem s) root p = Some x ->
  wp (walk_from lv x va false) (fun r s' => s' = s /\
    r = match reach (mem s) x (rest lv va) with Some t => t + 8 * VA_GET_PN 0 va | None => NULL end) s.
Proof.
  intros Hpa Hpt. revert p x. induction lv as [|lv IH]; intros p x Ep Ex; [done|]. cbn [walk_from rest reach].
  set (i := VA_GET_PN (Z.of_nat (S lv)) va). assert (Hpi : path_ok (p ++ [i])).
  { apply (path_prefix _ (rest lv va)). rewrite <- app_assoc. simpl. unfold i. cbn [rest] in Ep. rewrite <- Ep. apply vpn_path_ok. }
  assert (Hx : is_table (mem s) root x) by (exists p; split; [by apply path_prefix in Hpi|done]).
  pose proof Hpi as (_ & _ & Hi)%path_snoc. destruct (table_addr s root Hpa Hpt x i Hx Hi) as [Ha _]. wp_steps.
  fold (pt_entry (mem s) x i). destruct (has _ _) eqn:HV; [|by wp_steps].
  apply (IH (p ++ [i])); [rewrite <- app_assoc; exact Ep|]. rewrite reach_snoc, Ex. simpl. by rewrite HV.
Qed.

Lemma wp_walk_read root va (Q : Z -> kst -> Prop) s : pa_ok s -> pt_ok s root ->
  Q (match reach (mem s) root (vpn_path va) with Some t => t + 8 * VA_GET_PN 0 va | None => NULL end) s ->
  wp (vm_walk root va false) Q s.
Proof.
  intros Hpa Hpt HQ. eapply wp_mono; [by apply (wp_walk_from_read root s va 2 [] root)|]. by intros r s' [-> ->].
Qed.

(** [vm_walk] that may add tables, from a state [s] reached from [s0]. *)
Lemma wp_walk_from_alloc root va lv p x (Q : Z -> kst -> Prop) s :
  hart_ok s -> pa_ok s -> pt_ok s root -> vpn_path va = p ++ rest lv va -> reach (mem s) root p = Some x ->
  (forall r s', pt_step root s s' -> (forall va', mapped (mem s') root va' = mapped (mem s) root va') ->
     r = NULL \/ (exists t, reach (mem s') root (vpn_path va) = Some t /\ r = t + 8 * VA_GET_PN 0 va) -> Q r s') ->
  wp (walk_from lv x va true) Q s.
Proof.
  revert p x Q s. induction lv as [|lv IH]; intros p x Q s Hh Hpa Hpt Ep Ex HQ.
  { cbn [walk_from]. wp_step. apply HQ; [by apply pt_step_refl|done|]. right. exists x. split; [|done]. rewrite Ep. simpl. by rewrite app_nil_r. }
  cbn [walk_from]. cbn [rest] in Ep.
  set (i := VA_GET_PN (Z.of_nat (S lv)) va) in *. assert (Hpi : path_ok (p ++ [i])).
  { apply (path_prefix _ (rest lv va)). rewrite <- app_assoc. simpl. rewrite <- Ep. apply vpn_path_ok. }
  assert (Hx : is_table (mem s) root x) by (exists p; split; [by apply path_prefix in Hpi|done]).
  pose proof Hpi as (_ & _ & Hi)%path_snoc. destruct (table_addr s root Hpa Hpt x i Hx Hi) as [Ha _]. wp_steps.
  fold (pt_entry (mem s) x i). destruct (has _ _) eqn:HV.
  { apply (IH (p ++ [i])); try done; [rewrite <- app_assoc; exact Ep|]. rewrite reach_snoc, Ex. simpl. by rewrite HV. }
  cbn [negb]. wp_step. eapply wp_mono; [apply pa_alloc; try done; unfold order_ok, MAX_MEM_ORDER; lia|].
  intros y s1 (Q1 & O1 & M1 & S1 & W1 & Hy). assert (PS : page_step s s1) by (by split).
  destruct Hy as [->|[Hown Hnew]].
  { simpl. wp_step. destruct (page_step_pt root s s1 Hpa Hpt PS). apply HQ; [done|done|by left]. }
  change (2 ^ 0) with 1 in *. destruct (pa_run s1 y 1 O1 Hown) as (_ & _ & Hy1 & Hy2). unfold VA_KERNEL_BEGIN, PAGE_SIZE in Hy1, Hy2.
  rewrite (proj2 (Z.eqb_neq y 0)) by lia. wp_step. apply wp_memset; [unfold PAGE_SIZE; lia|unfold PAGE_SIZE; lia|].
  intros m2 Hm2. wp_steps. rewrite set_mem_twice. cbn [mem set_mem]. fold (table_pte y).
  assert (Hnew' : forall a, in_range y PAGE_SIZE a -> ~ pa_safe s a).
  { intros a Ha'. apply Hnew. unfold run_at. by rewrite Z.mul_1_l. }
  set (s3 := set_mem _ s1).
  destruct (extend_ok root s s1 p x i y m2 Hpa Hpt Hpi Ex HV PS Hown Hnew' Hm2 s3) as [ST Er]; [apply quiet_set_mem|done|].
  pose proof (extend_mapped root s s1 p x i y m2 Hpa Hpt Hpi Ex HV PS Hown Hnew' Hm2) as Hm.
  apply (IH (p ++ [i])).
  - exact (quiet_can 1 _ _ (vs_quiet _ _ _ ST) Hh).
  - apply ST.
  - apply ST.
  - rewrite <- app_assoc. exact Ep.
  - exact Er.
  - intros r s' ST' Hm' Hr. apply HQ; [by eapply pt_step_trans| |done]. intros va'. rewrite Hm'. apply Hm.
Qed.

Lemma wp_walk_alloc root va (Q : Z -> kst -> Prop) s :
  hart_ok s -> pa_ok s -> pt_ok s root ->
  (forall r s', pt_step root s s' -> (forall va', mapped (mem s') root va' = mapped (mem s) root va') ->
     r = NULL \/ (exists t, reach (mem s') root (vpn_path va) = Some t /\ r = t + 8 * VA_GET_PN 0 va) -> Q r s') ->
  wp (vm_walk root va true) Q s.
Proof. intros. by apply (wp_walk_from_alloc root va 2 [] root). Qed.

(** ** Mapping and unmapping a range *)

Definition leaf_pte (pa flags : Z) : Z := PA_PTE pa |l PTE_FLAG_V |l flags.

(** The mapping [f] with the pages from [v0] to [v1] mapped to the pages
    from [pa] on, and with them unmapped. *)
Definition map_range (v0 v1 pa flags : Z) (f : Z -> option Z) (va : Z) : option Z :=
  if (v0 <=? va) && (va <? v1) then Some (leaf_pte (pa + (va - v0) / 4096 * 4096) flags) else f va.
Definition unmap_range (v0 v1 : Z) (f : Z -> option Z) (va : Z) : option Z :=
  if (v0 <=? va) && (va <? v1) then None else f va.

Lemma leaf_pte_spec pa flags : 0 <= pa < 2 ^ 56 -> 0 <= flags < 1024 ->
  0 <= leaf_pte pa flags < 2 ^ 64 /\ has (leaf_pte pa flags) PTE_FLAG_V = true /\
  PTE_PA (leaf_pte pa flags) = pa - pa mod 4096 /\ leaf_pte pa flags &l 1023 = PTE_FLAG_V |l flags.
Proof.
  intros Hp Hf. unfold leaf_pte. rewrite <- Z.lor_assoc.
  assert (Hb : 0 <= PTE_FLAG_V |l flags < 1024).
  { split; [apply Z.lor_nonneg; unfold PTE_FLAG_V; lia|].
    destruct (Z.eq_dec flags 0) as [->|]; [done|]. change 1024 with (2 ^ 10). 
    assert (0 < PTE_FLAG_V |l flags).
    { assert (0 <= PTE_FLAG_V |l flags) by (apply Z.lor_nonneg; unfold PTE_FLAG_V; lia).
      enough (PTE_FLAG_V |l flags <> 0) by lia. intros [E _]%Z.lor_eq_0_iff. done. }
    apply Z.log2_lt_pow2; [done|]. rewrite Z.log2_lor by (unfold PTE_FLAG_V; lia). change (Z.log2 PTE_FLAG_V) with 0.
    assert (Z.log2 flags < 10) by (apply Z.log2_lt_pow2; lia). pose proof (Z.log2_nonneg flags). lia. }
  split_and!; [by apply pte_bound|by apply pte_bound| |by apply pte_pa|by apply pte_bits].
  rewrite pte_has by done. unfold has. apply negb_true_iff, Z.eqb_neq. intros E. apply (f_equal (fun z => Z.testbit z 0)) in E.
  by rewrite Z.land_spec, Z.lor_spec in E.
Qed.

(** Indices agree exactly on pages, for page-aligned addresses. *)
Lemma page_decide va va' : 0 <= va < 2 ^ 39 -> va mod 4096 = 0 -> 0 <= va' < 2 ^ 39 ->
  vpn_path va' = vpn_path va /\ VA_GET_PN 0 va' = VA_GET_PN 0 va <-> va <= va' < va + 4096.
Proof.
  intros H Hm H'. split.
  - intros [E1 E2]. pose proof (same_page va' va H' H E1 E2). zdm.
  - intros Hr. assert (E : va = va' - va' mod 4096) by zdm. rewrite E. unfold vpn_path. by rewrite !page_base_vpn by lia.
Qed.

Lemma wp_mappages root va pa siz flags (Q : Z -> kst -> Prop) s :
  let v0 := va - va mod 4096 in let v1 := va + siz + 4095 - (va + siz + 4095) mod 4096 in
  hart_ok s -> pa_ok s -> pt_ok s root -> 0 <= va -> 0 < siz -> v1 <= 2 ^ 39 -> 0 <= pa -> pa + siz < 2 ^ 55 -> 0 <= flags < 1024 ->
  (forall v, v0 <= v < v1 -> mapped (mem s) root v = None) ->
  (forall r s' v, pt_step root s s' -> v0 <= v <= v1 -> v mod 4096 = 0 -> (r = 0 /\ v = v1 \/ r = -1 /\ v < v1) ->
     (forall va', 0 <= va' < 2 ^ 39 -> mapped (mem s') root va' = map_range v0 v pa flags (mapped (mem s) root) va') -> Q r s') ->
  wp (vm_mappages root va pa siz flags) Q s.
Proof.
  intros v0 v1 Hh Hpa Hpt Hva Hsiz Hv1 Hp Hps Hf Hun HQ. unfold vm_mappages.
  assert (v0 mod 4096 = 0 /\ v1 mod 4096 = 0 /\ 0 <= v0 /\ v0 < v1 /\ v1 - v0 <= siz + 8192) as (A0 & A1 & B0 & B1 & B2).
  { unfold v0, v1. split_and!; zdm. }
  assert (E1 : PAGE_ROUND_UP (va +l siz) = v1).
  { rewrite add64_small by (unfold v1 in *; zdm). rewrite PAGE_ROUND_UP_spec by (unfold PAGE_SIZE, v1 in *; zdm). unfold v1, PAGE_SIZE. f_equal; [|f_equal]; lia. }
  assert (E0 : PAGE_ROUND_DOWN va = v0) by (apply PAGE_ROUND_DOWN_spec; unfold v1 in *; zdm).
  rewrite E0, E1, (proj2 (Z.eqb_neq siz 0)) by lia. clearbody v0 v1.
  apply (wp_while (fun '(cur, pa') s' => pt_step root s s' /\ v0 <= cur <= v1 /\ cur mod 4096 = 0 /\ pa' = pa + (cur - v0) /\
    forall va', 0 <= va' < 2 ^ 39 -> mapped (mem s') root va' = map_range v0 cur pa flags (mapped (mem s) root) va')
    (fun '(cur, _) _ => v1 - cur)).
  - split_and!; try lia; [by apply pt_step_refl|]. intros va' _. unfold map_range. zcases; done || lia.
  - lia.
  - intros [cur pa'] s1 (ST & Hc & Hc' & -> & Hm) _. destruct (Z.eqb_spec cur v1) as [->|Hne].
    { wp_step. apply (HQ 0 s1 v1); auto; lia. }
    wp_step. apply wp_walk_alloc; [exact (quiet_can 1 _ _ (vs_quiet _ _ _ ST) Hh)|apply ST|apply ST|].
    intros r s2 ST2 Hm2 Hr. assert (ST' : pt_step root s s2) by (by eapply pt_step_trans).
    destruct Hr as [->|(t & Et & ->)].
    { wp_step. apply (HQ (-1) s2 cur); try done; try lia. intros va' Hva'. by rewrite Hm2, Hm. }
    destruct (table_addr s2 root (vs_pa _ _ _ ST') (vs_pt _ _ _ ST') t (VA_GET_PN 0 cur)) as (Ha & Hn & _);
      [exists (vpn_path cur); split; [apply vpn_path_ok|done]|apply index_vpn; lia|].
    rewrite (proj2 (Z.eqb_neq _ _)) by done. do 2 wp_step.
    assert (Hnone : has (ld64 (mem s2) (t + 8 * VA_GET_PN 0 cur)) PTE_FLAG_V = false).
    { assert (E : mapped (mem s2) root cur = None).
      { rewrite Hm2, Hm by lia. unfold map_range. rewrite (proj2 (Z.ltb_ge cur cur)), andb_false_r by lia. apply Hun. lia. }
      unfold mapped in E. rewrite Et in E. simpl in E. unfold leaf, pt_entry in E. by destruct (has _ _). }
    rewrite Hnone. wp_steps. assert (Hw : cur +l PAGE_SIZE = cur + 4096) by (unfold PAGE_SIZE; apply add64_small; lia).
    assert (Hw' : pa + (cur - v0) +l PAGE_SIZE = pa + (cur + 4096 - v0)).
    { unfold PAGE_SIZE. rewrite add64_small; lia. }
    rewrite Hw, Hw'. fold (leaf_pte (pa + (cur - v0)) flags).
    destruct (leaf_pte_spec (pa + (cur - v0)) flags ltac:(lia) Hf) as (Hb & HV & _).
    split; [|zdm]. split_and!; try zdm; [eapply pt_step_trans; [exact ST'|apply slot_write; try done; apply ST']|].
    intros va' Hva'. cbn [mem set_mem]. rewrite (slot_mapped root s2) by (try done; apply ST'). rewrite HV, Hm2, Hm by done. unfold map_range.
    destruct (decide _) as [Hd|Hd]; rewrite page_decide in Hd by (try done; lia).
    + rewrite (proj2 (Z.leb_le _ _)), (proj2 (Z.ltb_lt _ _)) by lia. simpl. do 2 f_equal. zdm.
    + destruct (Z.leb_spec v0 va'), (Z.ltb_spec va' cur), (Z.ltb_spec va' (cur + 4096)); simpl; done || lia.
Qed.

Lemma mapped_slot root s va e : pa_ok s -> pt_ok s root -> mapped (mem s) root va = Some e ->
  exists t, reach (mem s) root (vpn_path va) = Some t /\ ld64 (mem s) (t + 8 * VA_GET_PN 0 va) = e /\ has e PTE_FLAG_V = true /\
    PAGE_SIZE <= t + 8 * VA_GET_PN 0 va /\ t + 8 * VA_GET_PN 0 va <> NULL.
Proof.
  intros Hpa Hpt E. unfold mapped in E. destruct (reach _ _ _) as [t|] eqn:Et; [|done]. simpl in E. unfold leaf, pt_entry in E.
  destruct (has _ _) eqn:HV; [|done]. injection E as <-. exists t.
  destruct (table_addr s root Hpa Hpt t (VA_GET_PN 0 va)) as (Ha & Hn & _);
    [exists (vpn_path va); split; [apply vpn_path_ok|done]|apply index_vpn; lia|done].
Qed.

Lemma wp_unmappages root va n (Q : unit -> kst -> Prop) s :
  let v1 := va + 4096 * n in
  pa_ok s -> pt_ok s root -> 0 <= va -> va mod 4096 = 0 -> 0 <= n -> v1 <= 2 ^ 39 ->
  (forall v, va <= v < v1 -> exists e, mapped (mem s) root v = Some e /\ e &l 1023 <> PTE_FLAG_V) ->
  (forall s', pt_step root s s' ->
     (forall va', 0 <= va' < 2 ^ 39 -> mapped (mem s') root va' = unmap_range va v1 (mapped (mem s) root) va') -> Q tt s') ->
  wp (vm_unmappages root va n false) Q s.
Proof.
  intros v1 Hpa Hpt Hva Hal Hn Hv1 Hmap HQ. unfold vm_unmappages.
  assert (E0 : has va ((1 <<l PN_WIDTH) -l 1) = false).
  { unfold has. change ((1 <<l PN_WIDTH) -l 1) with (2 ^ 9 - 1). rewrite land_mask by lia. change (2 ^ 9) with 512.
    replace (va mod 512) with 0 by zdm. done. }
  rewrite E0. wp_step. wp_step.
  assert (E1 : va +l PAGE_SIZE *l n = v1).
  { unfold mul64, PAGE_SIZE. rewrite (u64_small (4096 * n)) by lia. apply add64_small. lia. }
  rewrite E1. change ((1 <<l PTE_FLAGS_WIDTH) -l 1) with 1023.
  assert (Hvm : v1 mod 4096 = 0) by (unfold v1; zdm). clearbody v1.
  apply (wp_while (fun cur s' => pt_step root s s' /\ va <= cur /\ (cur <= v1 \/ cur = va) /\ cur mod 4096 = 0 /\
    forall va', 0 <= va' < 2 ^ 39 -> mapped (mem s') root va' = unmap_range va cur (mapped (mem s) root) va')
    (fun cur _ => Z.max 0 (v1 - cur))).
  - split_and!; try lia; [by apply pt_step_refl|]. intros va' _. unfold unmap_range. zcases; done || lia.
  - lia.
  - intros cur s1 (ST & Hc & Hc' & Hcm & Hm) _. destruct (Z.ltb_spec cur v1) as [Hlt|Hge].
    2:{ wp_step. apply HQ; [done|]. intros va' H'. rewrite Hm by done. unfold unmap_range.
        destruct (Z.leb_spec va va'), (Z.ltb_spec va' cur), (Z.ltb_spec va' v1); simpl; done || lia. }
    destruct (Hmap cur ltac:(lia)) as (e & Ee & He).
    assert (Ee1 : mapped (mem s1) root cur = Some e).
    { rewrite Hm by lia. unfold unmap_range. by rewrite (proj2 (Z.ltb_ge cur cur)), andb_false_r by lia. }
    destruct (mapped_slot root s1 cur e (vs_pa _ _ _ ST) (vs_pt _ _ _ ST) Ee1) as (t & Et & El & HV & Ha & Hnn).
    wp_step. apply wp_walk_read; [apply ST|apply ST|]. rewrite Et, (proj2 (Z.eqb_neq _ _)) by done. wp_steps.
    rewrite El, HV, (proj2 (Z.eqb_neq _ _)) by done. wp_steps. unfold PAGE_SIZE. rewrite add64_small by lia.
    split; [|zdm]. split_and!; try zdm; [eapply pt_step_trans; [exact ST|apply slot_write; try done; apply ST]|].
    intros va' Hva'. cbn [mem set_mem]. rewrite (slot_mapped root s1) by (try done; apply ST). rewrite Hm by done. unfold unmap_range.
    destruct (decide _) as [Hd|Hd]; rewrite page_decide in Hd by (try done; lia).
    + rewrite (proj2 (Z.leb_le _ _)), (proj2 (Z.ltb_lt _ _)) by lia. done.
    + destruct (Z.leb_spec va va'), (Z.ltb_spec va' cur), (Z.ltb_spec va' (cur + 4096)); simpl; done || lia.
Qed.

(** ** Translation *)

Lemma wp_translate root va (Q : Z -> kst -> Prop) s : pa_ok s -> pt_ok s root ->
  Q (match reach (mem s) root (vpn_path va) with
     | Some t => PMA_PA2VA (PTE_PA (pt_entry (mem s) t (VA_GET_PN 0 va)) |l (va &l (PAGE_SIZE - 1)))
     | None => NULL end) s ->
  wp (vm_translate root va) Q s.
Proof.
  intros Hpa Hpt HQ. unfold vm_translate. wp_step. apply wp_walk_read; [done|done|].
  destruct (reach _ _ _) as [t|] eqn:Et; [|by wp_step].
  destruct (table_addr s root Hpa Hpt t (VA_GET_PN 0 va)) as (Ha & Hn & _);
    [exists (vpn_path va); split; [apply vpn_path_ok|done]|apply index_vpn; lia|].
  rewrite (proj2 (Z.eqb_neq _ _)) by done. by wp_steps.
Qed.

(** On the kernel's tables the hardware's walk is a look-up of the leaf. *)
Lemma sv39_mapped root s va : pt_ok s root ->
  sv39 2 (mem s) root va = e ← mapped (mem s) root va; 
    if (negb (has e PTE_FLAG_R) && has e PTE_FLAG_W) || negb (has e (PTE_FLAG_R |l PTE_FLAG_X)) then None
    else Some (PTE_PA e + va mod 4096).
Proof.
  intros Hpt.
  assert (Hin : forall e f, has e RWX = false -> f &l RWX = f -> has e f = false).
  { intros e f H Hf. unfold has in *. apply negb_false_iff, Z.eqb_eq in H. rewrite <- Hf, (Z.land_comm f), Z.land_assoc, H. done. }
  assert (H2 : path_ok ([] ++ [VA_GET_PN 2 va])) by (apply path_snoc; split_and!; [simpl; lia|done|apply index_vpn; lia]).
  assert (H1 : path_ok ([VA_GET_PN 2 va] ++ [VA_GET_PN 1 va])) by apply vpn_path_ok.
  unfold mapped, vpn_path. cbn [sv39 reach]. change (Z.of_nat 2) with 2. change (Z.of_nat 1) with 1. change (Z.of_nat 0) with 0.
  destruct (has (pt_entry (mem s) root (VA_GET_PN 2 va)) PTE_FLAG_V) eqn:V2; [|done].
  pose proof (pt_inner s root Hpt [] root (VA_GET_PN 2 va) H2 eq_refl V2) as I2. rewrite !(Hin _ _ I2) by done. simpl negb.
  cbn [orb andb]. set (t1 := next_table _).
  destruct (has (pt_entry (mem s) t1 (VA_GET_PN 1 va)) PTE_FLAG_V) eqn:V1; [|done].
  assert (R1 : reach (mem s) root [VA_GET_PN 2 va] = Some t1) by (simpl; by rewrite V2).
  pose proof (pt_inner s root Hpt _ t1 (VA_GET_PN 1 va) H1 R1 V1) as I1. rewrite !(Hin _ _ I1) by done. cbn [orb andb negb].
  set (t0 := next_table _). cbn [mbind option_bind]. unfold leaf. set (e := pt_entry (mem s) t0 _).
  destruct (has e PTE_FLAG_V) eqn:V0; [|done]. cbn [negb orb]. 
  assert (Ez : PTE_PA e mod 2 ^ (9 * 0 + 12) = 0).
  { unfold PTE_PA, PAGE_OFFSET_WIDTH, shl64, u64. change (2 ^ (9 * 0 + 12)) with 4096. rewrite Z.shiftl_mul_pow2 by lia.
    change (2 ^ 64) with (4096 * 2 ^ 52). change (2 ^ 12) with 4096. zdm. }
  rewrite Ez. cbn [mbind option_bind]. destruct (negb (has e PTE_FLAG_R) && has e PTE_FLAG_W) eqn:W; cbn [orb]; [done|].
  by destruct (has e (PTE_FLAG_R |l PTE_FLAG_X)).
Qed.

(** A zeroed page is an empty table. *)
Lemma fresh_table s r m : pa_ok s -> pa_owned s r 1 -> (forall a, ldb m a = filled (mem s) r PAGE_SIZE 0 a) ->
  pa_ok (set_mem m s) /\ pt_ok (set_mem m s) r /\ (forall va, mapped m r va = None) /\
  (forall x, is_table m r x -> x = r) /\ forall r' n, pa_owned s r' n -> pa_owned (set_mem m s) r' n.
Proof.
  intros Hpa Ho Hm. destruct (pa_write s m (in_range r PAGE_SIZE) Hpa) as (O' & _ & W').
  { intros a Ha. by apply (pa_owned_safe s r 1). }
  { intros a Ha. rewrite Hm. unfold filled. destruct (Z.leb_spec r a), (Z.ltb_spec a (r + PAGE_SIZE)); try done. by destruct Ha. }
  assert (He : forall j, index j -> pt_entry m r j = 0).
  { intros j Hj. unfold pt_entry. rewrite (ld_agree 8 ∅ m); [reflexivity|]. intros a Ha. rewrite Hm. unfold filled.
    rewrite (proj2 (Z.leb_le _ _)), (proj2 (Z.ltb_lt _ _)) by (unfold index, in_range, PAGE_SIZE in *; lia). done. }
  assert (Hr : forall q x, path_ok q -> reach m r q = Some x -> q = [] /\ x = r).
  { intros [|i q] x [_ Hf] E; [by injection E as <-|]. simpl in E. apply Forall_cons in Hf as [Hi _]. by rewrite He in E. }
  split_and!; [done| | | |].
  - split; cbn [mem set_mem].
    + intros p q x Hp Hq E1 E2. by destruct (Hr p x Hp E1) as [-> _], (Hr q x Hq E2) as [-> _].
    + intros x (q & Hq & E). destruct (Hr q x Hq E) as [_ ->]. by apply W'.
    + intros p x i Hpi E. destruct (Hr p x (path_prefix _ _ Hpi) E) as [-> ->]. rewrite He; [done|]. by apply (proj1 (path_snoc [] i)).
  - intros va. unfold mapped. simpl. by rewrite He by (apply index_vpn; lia).
  - intros x (q & Hq & E). by destruct (Hr q x Hq E).
  - done.
Qed.
End vm.
