(* ===== verification/UserCopy.v ===== *)
(** * Copying between the kernel and a user address space

    [vm_memcpyin] and [vm_memcpyout] translate every byte's address with the
    user's page table.  [user_addr] is where the hardware finds a user byte,
    [user_byte] what it holds; [va_addr] is where [vm_translate] looks for it,
    which is the same for a byte that is mapped.  [copy_bytes] is a byte-wise
    copy in increasing order, of which both loops are instances; [copied] is
    its effect when the bytes written are apart from each other and from those
    still to be read. *)

From S2P Require Import Prelude Memory Machine Lists Strings Hal Lock Console Csr Buddy BuddyInv BuddyProofs PageAlloc Vmem PageTable VmemProofs.

(** ** User memory *)

Definition user_addr (m : memory) (root va : Z) : option Z := pa ← sv39 2 m root va; Some (PMA_PA2VA pa).
Definition user_byte (m : memory) (root va : Z) : option Z := a ← user_addr m root va; Some (ldb m a).

(** What [vm_translate] returns. *)
Definition va_addr (m : memory) (root va : Z) : Z :=
  match reach m root (vpn_path va) with
  | Some t => PMA_PA2VA (PTE_PA (pt_entry m t (VA_GET_PN 0 va)) |l (va &l (PAGE_SIZE - 1)))
  | None => NULL
  end.

Lemma offset_mask va : va &l (PAGE_SIZE - 1) = va mod 4096.
Proof. change (PAGE_SIZE - 1) with (2 ^ 12 - 1). by rewrite land_mask. Qed.

Lemma PTE_PA_aligned e : PTE_PA e mod 4096 = 0.
Proof.
  unfold PTE_PA, PAGE_OFFSET_WIDTH, shl64, u64. rewrite Z.shiftl_mul_pow2 by lia.
  change (2 ^ 64) with (4096 * 2 ^ 52). change (2 ^ 12) with 4096. zdm.
Qed.

(** ** Byte-wise copies *)

(** The first [n] bytes were copied from the addresses [e] to the addresses
    [d]. *)
Record copied (d e : Z -> Z) (n : Z) (m m' : memory) : Prop := {
  cp_new i : 0 <= i < n -> ldb m' (d i) = ldb m (e i);
  cp_old : agree (fun a => forall i, 0 <= i < n -> a <> d i) m m';
}.

Lemma copied_0 d e m : copied d e 0 m m.
Proof. split; [lia|done]. Qed.

Lemma ld1 m a : ld 1 m a mod 256 = ldb m a.
Proof. rewrite <- (Z.add_0_r a) at 2. rewrite <- (byte_of_ld 1) by lia. unfold byte_of. by rewrite Z.pow_0_r, Z.div_1_r. Qed.

Lemma copied_S d e n m m' : 0 <= n -> copied d e n m m' ->
  (forall i, 0 <= i < n -> d i <> d n) -> (forall i, 0 <= i < n -> e n <> d i) ->
  copied d e (n + 1) m (st 1 m' (d n) (ld 1 m' (e n))).
Proof.
  intros Hn [H1 H2] Hd He. split.
  - intros i Hi. rewrite ldb_st1. destruct (Z.eq_dec i n) as [->|Hne].
    + rewrite Z.eqb_refl, ld1. apply H2. intros i Hi'. by apply He.
    + rewrite (proj2 (Z.eqb_neq _ _)) by (apply Hd; lia). apply H1. lia.
  - intros a Ha. rewrite ldb_st1, (proj2 (Z.eqb_neq _ _)) by (apply Ha; lia). apply H2. intros i Hi. apply Ha. lia.
Qed.

Fixpoint copy_bytes (d e : Z -> Z) (n : nat) (m : memory) : memory :=
  match n with
  | O => m
  | S n' => let m' := copy_bytes d e n' m in st 1 m' (d (Z.of_nat n')) (ld 1 m' (e (Z.of_nat n')))
  end.

Lemma copy_bytes_agree d e n m : agree (fun a => forall i, 0 <= i < Z.of_nat n -> a <> d i) m (copy_bytes d e n m).
Proof.
  induction n as [|n IH]; [done|]. intros a Ha. simpl. rewrite ldb_st1, (proj2 (Z.eqb_neq _ _)) by (apply Ha; lia). apply IH. intros i Hi. apply Ha. lia.
Qed.

Lemma copy_bytes_copied d e n m : (forall i j, 0 <= i < j -> j < Z.of_nat n -> d i <> d j /\ e j <> d i) -> copied d e (Z.of_nat n) m (copy_bytes d e n m).
Proof.
  induction n as [|n IH]; intros H; [apply copied_0|]. replace (Z.of_nat (S n)) with (Z.of_nat n + 1) by lia.
  apply copied_S; [lia|apply IH; intros i j Hi Hj; apply H; lia| |]; intros i Hi; by apply H; lia.
Qed.

Lemma PTE_PA_bound e : 0 <= PTE_PA e.
Proof. unfold PTE_PA, shl64. apply u64_bound. Qed.

Section copy.
Context {L : KernelLayout} {C : Code} {PA : PageAllocator}.

Lemma va_addr_user root s va a : pt_ok s root -> user_addr (mem s) root va = Some a -> va_addr (mem s) root va = a.
Proof.
  intros Hpt. unfold user_addr, va_addr. rewrite (sv39_mapped root s va Hpt), offset_mask. unfold mapped.
  destruct (reach _ _ _) as [t|]; [|done]. simpl. unfold leaf. set (e := pt_entry _ _ _). destruct (has e PTE_FLAG_V); [|done]. simpl.
  destruct (_ || _); [done|]. intros [= <-]. f_equal. apply (lor_add_disjoint _ _ 12); [lia|zdm|apply PTE_PA_aligned].
Qed.

Lemma user_addr_reach root s va a : pt_ok s root -> user_addr (mem s) root va = Some a -> reach (mem s) root (vpn_path va) <> None.
Proof. intros Hpt. unfold user_addr. rewrite (sv39_mapped root s va Hpt). unfold mapped. by destruct (reach _ _ _). Qed.

(** An address that holds neither the allocator's nor the tables' data. *)
Definition data_addr (s : kst) (root a : Z) : Prop := PAGE_SIZE <= a /\ pa_safe s a /\ ~ in_tables (mem s) root a.

(** Writing there changes no translation. *)
Lemma data_kept root s m' (P : Z -> Prop) : pa_ok s -> pt_ok s root ->
  (forall a, P a -> data_addr s root a) -> agree (fun a => ~ P a) (mem s) m' ->
  pa_ok (set_mem m' s) /\ pt_ok (set_mem m' s) root /\
  (forall va, va_addr m' root va = va_addr (mem s) root va) /\ forall va, user_addr m' root va = user_addr (mem s) root va.
Proof.
  intros Hpa Hpt HP Hag. destruct (pa_write s m' P Hpa) as (O & S & W); [intros a Ha; by apply HP|done|].
  destruct (tables_kept root s (set_mem m' s) Hpa Hpt) as (Hpt' & Hr & _ & He & Hm); [|done|].
  { eapply agree_weaken; [|exact Hag]. intros a Hin Ha. by apply (HP a Ha). }
  cbn [mem set_mem] in *. split_and!; [done|done| |].
  - intros va. unfold va_addr. rewrite Hr by apply vpn_path_ok. destruct (reach _ _ _) as [t|] eqn:Et; [|done].
    rewrite He; [done| |apply index_vpn; lia]. exists (vpn_path va). split; [apply vpn_path_ok|done].
  - intros va. unfold user_addr. change m' with (mem (set_mem m' s)) at 1. by rewrite (sv39_mapped root _ va Hpt'), (sv39_mapped root s va Hpt), Hm.
Qed.

(** The walk finds an entry for the first [k] bytes of the user's [n] bytes at
    [va], and none for the next, unless [k] is [n].  The entry need not be
    valid. *)
Record user_range (s : kst) (root va n k : Z) : Prop := {
  ur_k : 0 <= k <= n;
  ur_va : 0 <= va /\ va + n <= 2 ^ 39;
  ur_walk v : va <= v < va + k -> reach (mem s) root (vpn_path v) <> None;
  ur_stop : k < n -> reach (mem s) root (vpn_path (va + k)) = None;
}.

(** There is always such a [k]. *)
Lemma user_range_exists s root va n : 0 <= n -> 0 <= va -> va + n <= 2 ^ 39 -> exists k, user_range s root va n k.
Proof.
  intros Hn Hva. pattern n. apply natlike_ind; [| |done].
  - intros Hle. exists 0. split; [lia|lia|lia|lia].
  - clear n Hn. intros n Hn IH Hle. destruct IH as (k & [H1 H2 H3 H4]); [lia|].
    destruct (Z.eq_dec k n) as [->|Hne]; [|exists k; split; [lia|lia|done|intros _; apply H4; lia]].
    destruct (reach (mem s) root (vpn_path (va + n))) as [t|] eqn:E.
    + exists (Z.succ n). split; [lia|lia| |lia]. intros v Hv. destruct (Z.eq_dec v (va + n)) as [->|]; [by rewrite E|apply H3; lia].
    + exists n. split; [lia|lia|done|done].
Qed.

(** An entry, valid or not, is never translated to a null pointer. *)
Lemma va_addr_kernel m root va : reach m root (vpn_path va) <> None -> VA_KERNEL_BEGIN <= va_addr m root va.
Proof.
  unfold va_addr. destruct (reach m root (vpn_path va)) as [t|]; [|done]. intros _. unfold PMA_PA2VA. set (x := _ |l (va &l _)).
  assert (Hx : 0 <= x).
  { apply Z.lor_nonneg. split; [apply PTE_PA_bound|rewrite offset_mask; zdm]. }
  pose proof (Z.add_lor_land x VA_KERNEL_BEGIN). rewrite <- (Z2N.id x Hx) in H |- *. change VA_KERNEL_BEGIN with (Z.of_N (Z.to_N VA_KERNEL_BEGIN)) in H |- *.
  rewrite <- N2Z.inj_land in H. pose proof (N.land_le_l (Z.to_N x) (Z.to_N VA_KERNEL_BEGIN)). lia.
Qed.

Lemma range_addr s root va n k i : user_range s root va n k -> 0 <= i < k -> PAGE_SIZE <= va_addr (mem s) root (va + i).
Proof.
  intros H Hi. pose proof (va_addr_kernel (mem s) root (va + i) (ur_walk _ _ _ _ _ H (va + i) ltac:(lia))). unfold VA_KERNEL_BEGIN, PAGE_SIZE in *. lia.
Qed.

Lemma range_stop s root va n k : user_range s root va n k -> k < n -> va_addr (mem s) root (va + k) = NULL.
Proof. intros H Hk. unfold va_addr. by rewrite (ur_stop _ _ _ _ _ H Hk). Qed.

(** The loop both functions are: while bytes are left, translate the user
    address, and copy one byte or give up. *)
Lemma wp_copy_loop {X} (body : X -> M (X + Z)) (at_ : Z -> X) (d e : Z -> Z) (n k : Z) root (Q : Z -> kst -> Prop) s :
  pa_ok s -> pt_ok s root -> 0 <= k <= n -> n < 2 ^ 63 ->
  (forall i, 0 <= i < k -> data_addr s root (d i)) ->
  (forall i m' (Q' : X + Z -> kst -> Prop), 0 <= i <= k -> pa_ok (set_mem m' s) -> pt_ok (set_mem m' s) root ->
     (forall va, va_addr m' root va = va_addr (mem s) root va) ->
     (if i <? k then Q' (inl (at_ (i + 1))) (set_mem (st 1 m' (d i) (ld 1 m' (e i))) s)
      else Q' (inr (if k =? n then 0 else -1)) (set_mem m' s)) -> wp (body (at_ i)) Q' (set_mem m' s)) ->
  (let m' := copy_bytes d e (Z.to_nat k) (mem s) in pa_ok (set_mem m' s) -> pt_ok (set_mem m' s) root ->
     (forall va, user_addr m' root va = user_addr (mem s) root va) -> Q (if k =? n then 0 else -1) (set_mem m' s)) ->
  wp (while body (at_ 0)) Q s.
Proof.
  intros Hpa Hpt Hk Hn HP Hbody HQ.
  assert (Hkept : forall i, 0 <= i <= k -> agree (fun a => ~ exists j, 0 <= j < k /\ a = d j) (mem s) (copy_bytes d e (Z.to_nat i) (mem s))).
  { intros i Hi. eapply agree_weaken; [|apply copy_bytes_agree]. intros a Ha j Hj ->. apply Ha. exists j. split; [lia|done]. }
  assert (HP' : forall a, (exists j, 0 <= j < k /\ a = d j) -> data_addr s root a) by (intros a (j & Hj & ->); by apply HP).
  apply (wp_while_n (fun r x s' => exists i, x = at_ i /\ r = k - i /\ 0 <= i <= k /\ s' = set_mem (copy_bytes d e (Z.to_nat i) (mem s)) s) _ k); [|lia|].
  - exists 0. split_and!; try done; try lia. simpl. by rewrite set_mem_id.
  - intros r x s' (i & -> & -> & Hi & ->) _.
    destruct (data_kept root s _ _ Hpa Hpt HP' (Hkept i Hi)) as (O & T & A & U).
    apply Hbody; try done. destruct (Z.ltb_spec i k) as [Hlt|Hge].
    + exists (k - (i + 1)). split; [lia|]. exists (i + 1). split_and!; [done|done|lia|lia|].
      replace (Z.to_nat (i + 1)) with (S (Z.to_nat i)) by lia. cbn [copy_bytes]. by rewrite Z2Nat.id by lia.
    + assert (i = k) as -> by lia. by apply HQ.
Qed.

Lemma wp_memcpyout root vdst src n k (Q : Z -> kst -> Prop) s :
  pa_ok s -> pt_ok s root -> user_range s root vdst n k -> PAGE_SIZE <= src -> src + n < 2 ^ 64 ->
  (forall i, 0 <= i < k -> data_addr s root (va_addr (mem s) root (vdst + i))) ->
  (let m' := copy_bytes (fun i => va_addr (mem s) root (vdst + i)) (fun i => src + i) (Z.to_nat k) (mem s) in
     pa_ok (set_mem m' s) -> pt_ok (set_mem m' s) root -> (forall va, user_addr m' root va = user_addr (mem s) root va) ->
     Q (if k =? n then 0 else -1) (set_mem m' s)) ->
  wp (vm_memcpyout root vdst src n) Q s.
Proof.
  intros Hpa Hpt R Hs Hs' Hd HQ. pose proof R as [Hk Hva _ _]. unfold vm_memcpyout. set (tr := fun i => va_addr (mem s) root (vdst + i)).
  replace (vdst, src) with (vdst + 0, src + 0) by (by rewrite !Z.add_0_r).
  apply (wp_copy_loop _ (fun i => (vdst + i, src + i)) tr (fun i => src + i) n k root); [done|done|done|lia|exact Hd| |exact HQ].
  intros i m' Q' Hi O T A HQ'. rewrite (add64_small vdst n) by lia. destruct (Z.eqb_spec (vdst + i) (vdst + n)) as [E|E].
  - wp_step. rewrite (proj2 (Z.ltb_ge i k)), (proj2 (Z.eqb_eq k n)) in HQ' by lia. done.
  - wp_step. apply wp_translate; [done|done|]. change (match reach _ _ _ with Some _ => _ | None => _ end) with (va_addr m' root (vdst + i)). rewrite A. fold (tr i).
    destruct (Z.ltb_spec i k) as [Hlt|Hge].
    + pose proof (range_addr s root vdst n k i R ltac:(lia)) as Hp. fold (tr i) in Hp. rewrite (proj2 (Z.eqb_neq (tr i) NULL)) by (unfold NULL, PAGE_SIZE in *; lia). cbn [negb].
      wp_steps. rewrite (add64_small (vdst + i) 1), (add64_small (src + i) 1), <- !Z.add_assoc by (unfold PAGE_SIZE in *; lia). exact HQ'.
    + assert (i = k) as -> by lia. rewrite (proj2 (Z.eqb_neq k n)) in HQ' by lia. unfold tr. rewrite (range_stop s root vdst n k R) by lia. by wp_step.
Qed.

Lemma wp_memcpyin root dst vsrc n k (Q : Z -> kst -> Prop) s :
  pa_ok s -> pt_ok s root -> user_range s root vsrc n k -> 0 <= dst -> dst + n < 2 ^ 64 ->
  (forall i, 0 <= i < k -> data_addr s root (dst + i)) ->
  (let m' := copy_bytes (fun i => dst + i) (fun i => va_addr (mem s) root (vsrc + i)) (Z.to_nat k) (mem s) in
     pa_ok (set_mem m' s) -> pt_ok (set_mem m' s) root -> (forall va, user_addr m' root va = user_addr (mem s) root va) ->
     Q (if k =? n then 0 else -1) (set_mem m' s)) ->
  wp (vm_memcpyin root dst vsrc n) Q s.
Proof.
  intros Hpa Hpt R Hs0 Hs Hd HQ. pose proof R as [Hk Hva _ _]. unfold vm_memcpyin. set (tr := fun i => va_addr (mem s) root (vsrc + i)).
  replace (dst, vsrc) with (dst + 0, vsrc + 0) by (by rewrite !Z.add_0_r).
  apply (wp_copy_loop _ (fun i => (dst + i, vsrc + i)) (fun i => dst + i) tr n k root); [done|done|done|lia|exact Hd| |exact HQ].
  intros i m' Q' Hi O T A HQ'. rewrite (add64_small dst n) by lia. destruct (Z.eqb_spec (dst + i) (dst + n)) as [E|E].
  - wp_step. rewrite (proj2 (Z.ltb_ge i k)), (proj2 (Z.eqb_eq k n)) in HQ' by lia. done.
  - wp_step. apply wp_translate; [done|done|]. change (match reach _ _ _ with Some _ => _ | None => _ end) with (va_addr m' root (vsrc + i)). rewrite A. fold (tr i).
    destruct (Z.ltb_spec i k) as [Hlt|Hge].
    + pose proof (range_addr s root vsrc n k i R ltac:(lia)) as Hp. fold (tr i) in Hp. destruct (Hd i ltac:(lia)) as (Hdi & _).
      rewrite (proj2 (Z.eqb_neq (tr i) NULL)) by (unfold NULL, PAGE_SIZE in *; lia). cbn [negb].
      wp_steps. rewrite (add64_small (dst + i) 1), (add64_small (vsrc + i) 1), <- !Z.add_assoc by (unfold PAGE_SIZE in *; lia). exact HQ'.
    + assert (i = k) as -> by lia. rewrite (proj2 (Z.eqb_neq k n)) in HQ' by lia. unfold tr. rewrite (range_stop s root vsrc n k R) by lia. by wp_step.
Qed.
End copy.
