(* ===== verification/Reap.v ===== *)
(** * Freeing a page table: [vm_reap_pagetable]

    The recursion of [reap_pagetable] over a table with no leaves left: it
    returns, and every table of the tree has gone back to the page allocator.
    [tree_ok lv] is the invariant of a subtree with [lv] levels of pointers,
    [span] the bytes of its tables, [shrink D W] what code does to the rest of
    memory that frees the pages of [D] and writes to [W]. *)

From S2P Require Import Prelude Memory Machine Lists Strings Hal Lock Console Csr Buddy BuddyInv BuddyProofs PageAlloc Vmem PageTable VmemProofs.

Section reap.
Context {L : KernelLayout} {C : Code} {PA : PageAllocator}.

Definition rel_path (lv : nat) (p : list Z) : Prop := (length p <= lv)%nat /\ Forall index p.
Definition tabs (lv : nat) (m : memory) (x z : Z) : Prop := exists p, rel_path lv p /\ reach m x p = Some z.
Definition span (lv : nat) (m : memory) (x a : Z) : Prop := exists z, tabs lv m x z /\ in_range z PAGE_SIZE a.

Record tree_ok (lv : nat) (s : kst) (x : Z) : Prop := {
  tr_inj p q z : rel_path lv p -> rel_path lv q -> reach (mem s) x p = Some z -> reach (mem s) x q = Some z -> p = q;
  tr_own z : tabs lv (mem s) x z -> pa_owned s z 1;
  tr_inner p z i : rel_path lv (p ++ [i]) -> reach (mem s) x p = Some z ->
    has (pt_entry (mem s) z i) PTE_FLAG_V = true -> has (pt_entry (mem s) z i) RWX = false;
  tr_empty p z i : length p = lv -> Forall index p -> reach (mem s) x p = Some z -> index i ->
    has (pt_entry (mem s) z i) PTE_FLAG_V = false;
}.

Record shrink (D W : Z -> Prop) (s s' : kst) : Prop := {
  sh_quiet : quiet s s';
  sh_pa : pa_ok s';
  sh_mem : agree (fun a => pa_safe s a /\ ~ D a /\ ~ W a) (mem s) (mem s');
  sh_safe a : pa_safe s' a <-> pa_safe s a /\ ~ D a;
  sh_owned r n : pa_owned s r n -> (forall a, run_at r n a -> ~ D a) -> pa_owned s' r n;
}.

Lemma shrink_refl W s : pa_ok s -> shrink (fun _ => False) W s s.
Proof. intros. split; auto; try done. tauto. Qed.

Lemma shrink_trans D1 D2 W1 W2 s1 s2 s3 :
  shrink D1 W1 s1 s2 -> shrink D2 W2 s2 s3 -> shrink (fun a => D1 a \/ D2 a) (fun a => W1 a \/ W2 a) s1 s3.
Proof.
  intros [Q1 A1 M1 S1 O1] [Q2 A2 M2 S2 O2]. split; [by etrans|done| | |].
  - etrans; [eapply agree_weaken; [|exact M1]; tauto|]. eapply agree_weaken; [|exact M2]. intros a (H1 & H2 & H3). rewrite S1. tauto.
  - intros a. rewrite S2, S1. tauto.
  - intros r n Hr Hn. apply O2; [apply O1; [done|]|]; intros a Ha; specialize (Hn a Ha); tauto.
Qed.

Lemma shrink_weaken D D' W W' s s' :
  (forall a, D a <-> D' a) -> (forall a, pa_safe s a -> W a -> D' a \/ W' a) -> shrink D W s s' -> shrink D' W' s s'.
Proof.
  intros HD HW [Q1 A1 M1 S1 O1]. split; try done.
  - eapply agree_weaken; [|exact M1]. intros a (H1 & H2 & H3). split_and!; [done|by rewrite HD|]. intros Hw. destruct (HW a H1 Hw); tauto.
  - intros a. by rewrite S1, HD.
  - intros r n Hr Hn. apply O1; [done|]. intros a Ha. rewrite HD. auto.
Qed.

(** Returning one page. *)
Lemma wp_free_page r (Q : unit -> kst -> Prop) s :
  hart_ok s -> pa_ok s -> pa_owned s r 1 ->
  (forall s', shrink (in_range r PAGE_SIZE) (fun _ => False) s s' -> Q tt s') -> wp (kmem_free_page r) Q s.
Proof.
  intros Hh Hpa Hown HQ. pose proof (pa_free r 1 s Hh Hpa Hown) as H. destruct (pa_run s r 1 Hpa Hown) as (_ & Hal & Hlo & Hhi).
  unfold kmem_free_pages in H. assert (E : r &l (PAGE_SIZE - 1) = 0).
  { unfold PAGE_SIZE in *. change (4096 - 1) with (2 ^ 12 - 1). rewrite land_mask by lia. exact Hal. }
  rewrite E in H. unfold wp in *. unfold mbind, M_bind in H. cbn [Z.to_nat Pos.to_nat Pos.iter_op negb Z.eqb mret M_ret] in H.
  change (for_up (Z.to_nat 1) 0 ?f) with (f 0;; mret tt) in H. unfold mbind, M_bind in H. cbn beta in H.
  assert (Er : r +l 0 *l PAGE_SIZE = r).
  { change (0 *l PAGE_SIZE) with 0. rewrite add64_small; [lia|]. unfold VA_KERNEL_BEGIN, PAGE_SIZE in *. lia. }
  rewrite Er in H. destruct (kmem_free_page r s) as [[] s'| | |]; try done. simpl in H.
  destruct H as (H1 & H2 & H3 & H4 & H5). apply HQ. unfold run_at in *. rewrite Z.mul_1_l in *. split; try done.
  - eapply agree_weaken; [|exact H3]. tauto.
  - intros r' n' Hr Hn. apply H5; [done|]. unfold disjoint. destruct (pa_run s r' n' Hpa Hr) as (Hn' & Hal' & _).
    unfold PAGE_SIZE in *. destruct (Z.le_gt_cases (r + 4096) r'); [lia|]. destruct (Z.le_gt_cases (r' + n' * 4096) r); [lia|]. exfalso.
    apply (Hn (Z.max r r')); unfold run_at, in_range, PAGE_SIZE; lia.
Qed.

(** ** Subtrees *)

Section tree.
Context (lv : nat) (s : kst) (x : Z) (Hpa : pa_ok s) (Hx : tree_ok (S lv) s x).

Definition child (i : Z) : Z := next_table (pt_entry (mem s) x i).
Definition present (i : Z) : Prop := index i /\ has (pt_entry (mem s) x i) PTE_FLAG_V = true.

Lemma child_path i p : present i -> rel_path lv p -> rel_path (S lv) (i :: p).
Proof. intros [Hi _] [H1 H2]. split; [simpl; lia|by constructor]. Qed.

Lemma child_reach i p : present i -> reach (mem s) x (i :: p) = reach (mem s) (child i) p.
Proof. intros [_ E]. simpl. by rewrite E. Qed.

Lemma child_ok i : present i -> tree_ok lv s (child i).
Proof.
  intros Hi. pose proof (child_reach i) as R. split.
  - intros p q z Hp Hq. rewrite <- !R by done. intros E1 E2. by injection (tr_inj _ _ _ Hx (i :: p) (i :: q) z (child_path i p Hi Hp) (child_path i q Hi Hq) E1 E2).
  - intros z (p & Hp & E). apply (tr_own _ _ _ Hx). exists (i :: p). split; [by apply child_path|by rewrite R].
  - intros p z j Hp E. rewrite <- R in E by done. apply (tr_inner _ _ _ Hx (i :: p)); [|done]. exact (child_path i (p ++ [j]) Hi Hp).
  - intros p z j Hl Hf E Hj. rewrite <- R in E by done. apply (tr_empty _ _ _ Hx (i :: p)); try done; [simpl; lia|].
    constructor; [apply Hi|done].
Qed.

Lemma tree_page z a : tabs (S lv) (mem s) x z -> in_range z PAGE_SIZE a -> pa_safe s a /\ z mod PAGE_SIZE = 0.
Proof.
  intros Hz Ha. pose proof (tr_own _ _ _ Hx z Hz) as Ho. split.
  - apply (pa_owned_safe s z 1 a Hpa Ho). unfold run_at. by rewrite Z.mul_1_l.
  - by apply (pa_run s z 1 Hpa Ho).
Qed.

(** Two tables of the tree that share a byte are the same. *)
Lemma tree_apart p q z z' a : rel_path (S lv) p -> rel_path (S lv) q -> reach (mem s) x p = Some z -> reach (mem s) x q = Some z' ->
  in_range z PAGE_SIZE a -> in_range z' PAGE_SIZE a -> p = q.
Proof.
  intros Hp Hq E E' Ha Ha'. apply (tr_inj _ _ _ Hx p q z); try done.
  destruct (tree_page z a (ex_intro _ p (conj Hp E)) Ha) as [_ H1]. destruct (tree_page z' a (ex_intro _ q (conj Hq E')) Ha') as [_ H2].
  assert (z' = z) as <- by (unfold in_range, PAGE_SIZE in *; zdm). done.
Qed.

Lemma children_apart i j a : present i -> present j -> span lv (mem s) (child i) a -> span lv (mem s) (child j) a -> i = j.
Proof.
  intros Hi Hj (z & (p & Hp & E) & Ha) (z' & (q & Hq & E') & Ha'). rewrite <- child_reach in E, E' by done.
  by injection (tree_apart (i :: p) (j :: q) z z' a (child_path i p Hi Hp) (child_path j q Hj Hq) E E' Ha Ha').
Qed.

Lemma child_root_apart i a : present i -> span lv (mem s) (child i) a -> ~ in_range x PAGE_SIZE a.
Proof.
  intros Hi (z & (p & Hp & E) & Ha) Hr. rewrite <- child_reach in E by done.
  assert (H0 : rel_path (S lv) []) by (split; [simpl; lia|constructor]).
  by pose proof (tree_apart (i :: p) [] z x a (child_path i p Hi Hp) H0 E eq_refl Ha Hr).
Qed.

Lemma child_safe i a : present i -> span lv (mem s) (child i) a -> pa_safe s a.
Proof.
  intros Hi (z & (p & Hp & E) & Ha). rewrite <- child_reach in E by done.
  apply (tree_page z); [exists (i :: p); split; [by apply child_path|done]|done].
Qed.

Lemma span_children a : span (S lv) (mem s) x a <-> in_range x PAGE_SIZE a \/ exists i, present i /\ span lv (mem s) (child i) a.
Proof.
  split.
  - intros (z & ([|i p] & [Hl Hf] & E) & Ha); [left; simpl in E; by injection E as <-|right]. apply Forall_cons in Hf as [Hi Hf]. exists i.
    assert (Hp : present i) by (split; [done|]; simpl in E; by destruct (has _ _)). rewrite child_reach in E by done.
    split; [done|]. exists z. split; [|done]. exists p. split; [split; [simpl in Hl; lia|done]|done].
  - intros [Ha|(i & Hi & z & (p & Hp & E) & Ha)].
    + exists x. split; [|done]. exists []. split; [split; [simpl; lia|constructor]|done].
    + exists z. split; [|done]. exists (i :: p). split; [by apply child_path|by rewrite child_reach].
Qed.
End tree.

(** A subtree survives code that leaves its tables alone. *)
Lemma tree_frame lv s s' x : tree_ok lv s x -> agree (span lv (mem s) x) (mem s) (mem s') ->
  (forall z, tabs lv (mem s) x z -> pa_owned s' z 1) ->
  tree_ok lv s' x /\ forall a, span lv (mem s') x a <-> span lv (mem s) x a.
Proof.
  intros H Hag Hown.
  assert (He : forall p z j, rel_path lv p -> reach (mem s) x p = Some z -> index j -> pt_entry (mem s') z j = pt_entry (mem s) z j).
  { intros p z j Hp E Hj. apply ld_agree. eapply agree_weaken; [|exact Hag]. intros a Ha. exists z. split; [by exists p|].
    unfold index, in_range, PAGE_SIZE in *. lia. }
  assert (Hr : forall p, rel_path lv p -> reach (mem s') x p = reach (mem s) x p).
  { intros p. induction p as [|j p IH] using rev_ind; [done|]. intros [Hl Hf]. rewrite length_app in Hl. apply Forall_app in Hf as [Hf Hj].
    assert (Hp : rel_path lv p) by (split; [lia|done]). rewrite !reach_snoc, IH by done. destruct (reach (mem s) x p) as [z|] eqn:E; [|done].
    simpl. rewrite (He p z j); try done. exact (Forall_inv Hj). }
  assert (Ht : forall z, tabs lv (mem s') x z <-> tabs lv (mem s) x z).
  { intros z. split; intros (p & Hp & E); exists p; (split; [done|]); [by rewrite <- Hr|by rewrite Hr]. }
  split.
  - split.
    + intros p q z Hp Hq. rewrite !Hr by done. by apply (tr_inj _ _ _ H).
    + intros z Hz. by apply Hown, Ht.
    + intros p z i Hpi. assert (Hp : rel_path lv p /\ index i).
      { destruct Hpi as [Hl Hf]. rewrite length_app in Hl. apply Forall_app in Hf as [Hf Hi]. split; [split; [lia|done]|exact (Forall_inv Hi)]. }
      destruct Hp as [Hp Hi]. rewrite Hr by done. intros E. rewrite (He p z i) by done. by apply (tr_inner _ _ _ H p).
    + intros p z i Hl Hf. assert (Hp : rel_path lv p) by (split; [lia|done]). rewrite Hr by done. intros E Hi.
      rewrite (He p z i) by done. by apply (tr_empty _ _ _ H p).
  - intros a. split; intros (z & Hz & Ha); exists z; (split; [by apply Ht|done]).
Qed.

Lemma root_addr lv s x i : pa_ok s -> tree_ok lv s x -> index i -> pa_owned s x 1 /\ PAGE_SIZE <= x + 8 * i.
Proof.
  intros Hpa Hx Hi. assert (Ho : pa_owned s x 1).
  { apply (tr_own _ _ _ Hx). exists []. split; [split; [simpl; lia|constructor]|done]. }
  split; [done|]. destruct (pa_run s x 1 Hpa Ho) as (_ & _ & H & _). unfold index, VA_KERNEL_BEGIN, PAGE_SIZE in *. lia.
Qed.

(** The bytes freed by the first [i] rounds. *)
Definition freed (lv : nat) (s : kst) (x i a : Z) : Prop :=
  exists j, j < i /\ present s x j /\ span lv (mem s) (child s x j) a.

(** The state before round [i]. *)
Definition reaping (lv : nat) (s : kst) (x i : Z) (s' : kst) : Prop :=
  shrink (freed lv s x i) (in_range x PAGE_SIZE) s s' /\
  forall j, i <= j -> index j -> pt_entry (mem s') x j = pt_entry (mem s) x j.

Lemma reaping_child lv s x i s' : pa_ok s -> tree_ok (S lv) s x -> present s x i -> reaping lv s x i s' ->
  tree_ok lv s' (child s x i) /\ (forall a, span lv (mem s') (child s x i) a <-> span lv (mem s) (child s x i) a) /\ pa_owned s' x 1.
Proof.
  intros Hpa Hx Hi [SH _]. pose proof (child_ok lv s x Hx i Hi) as Hc.
  assert (Hnf : forall a, span lv (mem s) (child s x i) a -> ~ freed lv s x i a).
  { intros a Ha (j & Hj & Hp & Hs). pose proof (children_apart lv s x Hpa Hx i j a Hi Hp Ha Hs). lia. }
  destruct (tree_frame lv s s' (child s x i) Hc) as [H1 H2].
  - eapply agree_weaken; [|apply SH]. intros a Ha. split_and!; [by apply (child_safe lv s x Hpa Hx i)|auto|].
    by apply (child_root_apart lv s x Hpa Hx i).
  - intros z Hz. apply SH; [by apply (tr_own _ _ _ Hc)|]. intros a Ha. apply Hnf. exists z. split; [done|].
    unfold run_at in Ha. by rewrite Z.mul_1_l in Ha.
  - split_and!; [done|done|]. apply SH; [by apply (root_addr (S lv) s x 0)|]. intros a Ha (j & _ & Hj & Hs).
    apply (child_root_apart lv s x Hpa Hx j a Hj Hs). unfold run_at in Ha. by rewrite Z.mul_1_l in Ha.
Qed.

Lemma shrink_write (W : Z -> Prop) s m : pa_ok s -> (forall a, W a -> pa_safe s a) -> agree (fun a => ~ W a) (mem s) m ->
  shrink (fun _ => False) W s (set_mem m s).
Proof.
  intros Hpa HW Hag. destruct (pa_frame s (set_mem m s)) as (H1 & H2 & H3 & H4); [done|done| |].
  { eapply agree_weaken; [|exact Hag]. intros a Hn Hw. by apply Hn, HW. }
  split; [apply quiet_set_mem|done| | |auto].
  - eapply agree_weaken; [|exact Hag]. tauto.
  - intros a. split; [intros Ha; split; [by apply H3|tauto]|intros [Ha _]; by apply H2].
Qed.

Lemma reaping_next lv s x i s' s1 : pa_ok s -> tree_ok (S lv) s x -> present s x i -> reaping lv s x i s' ->
  shrink (span lv (mem s') (child s x i)) (fun _ => False) s' s1 ->
  reaping lv s x (i + 1) (set_mem (st64 (mem s1) (x + 8 * i) 0) s1).
Proof.
  intros Hpa Hx Hp HR SH1. destruct (reaping_child lv s x i s' Hpa Hx Hp HR) as (_ & Hsp & Ho). pose proof HR as [SH He]. pose proof Hp as [Hi _].
  assert (Ho1 : pa_owned s1 x 1).
  { apply SH1; [done|]. intros a Ha. rewrite Hsp. intros Hs. apply (child_root_apart lv s x Hpa Hx i a Hp Hs).
    unfold run_at in Ha. by rewrite Z.mul_1_l in Ha. }
  assert (Hxs : forall a, in_range x PAGE_SIZE a -> pa_safe s1 a).
  { intros a Ha. apply (pa_owned_safe s1 x 1); [apply SH1|done|]. unfold run_at. by rewrite Z.mul_1_l. }
  assert (SH2 := shrink_write (in_range x PAGE_SIZE) s1 (st64 (mem s1) (x + 8 * i) 0) (sh_pa _ _ _ _ SH1) Hxs).
  split.
  - refine (shrink_weaken _ _ _ _ _ _ _ _ (shrink_trans _ _ _ _ _ _ _ SH (shrink_trans _ _ _ _ _ _ _ SH1 (SH2 _)))).
    + intros a. rewrite Hsp. unfold freed. split.
      * intros [(j & Hj & H)|[H|[]]]; [exists j; split; [lia|done]|exists i; split; [lia|done]].
      * intros (j & Hj & H1 & H2). destruct (Z.eq_dec j i) as [->|]; [right; by left|left; exists j; split; [lia|done]].
    + intros a _ [H|[[]|H]]; by right.
    + apply agree_st. intros b Hb Hn. apply Hn. unfold index, in_range, PAGE_SIZE in *. lia.
  - intros j Hj Hij. cbn [mem set_mem]. rewrite <- (He j) by (try done; lia). unfold pt_entry. rewrite ld64_st64_ne by (unfold disjoint; lia).
    apply ld_agree. eapply agree_weaken; [|apply SH1]. intros a Ha.
    assert (Hax : in_range x PAGE_SIZE a) by (unfold index, in_range, PAGE_SIZE in *; lia). specialize (Hxs a Hax).
    apply (sh_safe _ _ _ _ SH1) in Hxs. tauto.
Qed.

Lemma reaping_end lv s x s' (Q : unit -> kst -> Prop) : hart_ok s -> pa_ok s -> tree_ok (S lv) s x -> reaping lv s x 512 s' ->
  (forall s'', shrink (span (S lv) (mem s) x) (fun _ => False) s s'' -> Q tt s'') -> wp (kmem_free_page x) Q s'.
Proof.
  intros Hh Hpa Hx [SH _] HQ. apply wp_free_page; [exact (quiet_can 1 _ _ (sh_quiet _ _ _ _ SH) Hh)|apply SH| |].
  - apply SH; [by apply (root_addr (S lv) s x 0)|]. intros a Ha (j & _ & Hj & Hs).
    apply (child_root_apart lv s x Hpa Hx j a Hj Hs). unfold run_at in Ha. by rewrite Z.mul_1_l in Ha.
  - intros s'' SH2. apply HQ. eapply shrink_weaken; [| |eapply shrink_trans; [exact SH|exact SH2]].
    + intros a. rewrite span_children. unfold freed. split; [|intros [Ha|(j & Hj & Hs)]; [by right|left]].
      * intros [(j & _ & H)|H]; [right; by exists j|by left].
      * exists j. split_and!; try done. by destruct Hj as [[_ Hj] _].
    + intros a _ [Ha|[]]. left. rewrite span_children. by left.
Qed.

Lemma wp_reap_pagetable lv d x (Q : unit -> kst -> Prop) s :
  (lv < d)%nat -> hart_ok s -> pa_ok s -> tree_ok lv s x ->
  (forall s', shrink (span lv (mem s) x) (fun _ => False) s s' -> Q tt s') ->
  wp (reap_pagetable d x) Q s.
Proof.
  revert d x Q s. induction lv as [|lv IH]; intros [|d] x Q s Hd Hh Hpa Hx HQ; try lia; cbn [reap_pagetable]; wp_step.
  - apply (wp_for_up (fun _ s' => s' = s)); [done| |].
    + intros i s' Hi ->. destruct (root_addr 0 s x i Hpa Hx ltac:(unfold index; lia)) as [_ Ha]. wp_steps. fold (pt_entry (mem s) x i).
      rewrite (tr_empty _ _ _ Hx [] x i eq_refl ltac:(constructor) eq_refl) by (unfold index; lia). simpl. by wp_step.
    + intros s' ->. apply wp_free_page; try done; [by apply (root_addr 0 s x 0)|]. intros s' SH. apply HQ.
      refine (shrink_weaken _ _ _ _ _ _ _ _ SH); [|by intros a _ []]. intros a. split.
      * intros Ha. exists x. split; [|done]. exists []. split; [split; [simpl; lia|constructor]|done].
      * intros (z & ([|i p] & [Hl _] & E) & Ha); [|simpl in Hl; lia]. simpl in E. by injection E as ->.
  - apply (wp_for_up (reaping lv s x)).
    + split; [|done]. refine (shrink_weaken _ _ _ _ _ _ _ _ (shrink_refl (fun _ => False) s Hpa)).
      * intros a. split; [done|]. intros (j & Hj & [[Hj' _] _] & _). lia.
      * by intros a _ [].
    + intros i s' Hi HR. pose proof HR as [SH He]. assert (Hix : index i) by (unfold index; lia).
      destruct (root_addr (S lv) s x i Hpa Hx Hix) as [_ Ha]. wp_steps. fold (pt_entry (mem s') x i). rewrite He by (try done; lia).
      destruct (has (pt_entry (mem s) x i) PTE_FLAG_V) eqn:HV.
      2:{ simpl. wp_step. split; [|intros j Hj; apply He; lia]. refine (shrink_weaken _ _ _ _ _ _ _ _ SH); [|by right].
          intros a. split; intros (j & Hj & Hp & Hs).
          - exists j. split_and!; try done. lia.
          - exists j. split_and!; try done. destruct (Z.eq_dec j i) as [->|]; [|lia]. destruct Hp as [_ Hp]. congruence. }
      assert (Hp : present s x i) by done.
      assert (Hpi : rel_path (S lv) [i]) by (split; [simpl; lia|by apply Forall_singleton]).
      rewrite (tr_inner _ _ _ Hx [] x i Hpi eq_refl HV). simpl. wp_step.
      fold (next_table (pt_entry (mem s) x i)). fold (child s x i).
      destruct (reaping_child lv s x i s' Hpa Hx Hp HR) as (Hc & Hsp & Ho).
      apply IH; [lia|exact (quiet_can 1 _ _ (sh_quiet _ _ _ _ SH) Hh)|apply SH|done|]. intros s1 SH1. wp_step.
      by apply (reaping_next lv s x i s').
    + intros s' HR. by apply (reaping_end lv s x).
Qed.
End reap.
