(* ===== verification/MmuSpec.v ===== *)
(** * The boot page table

    boot/setup_mmu.c fills one Sv39 root table with 1 GiB leaves before
    translation is switched on.  The theorem relates the entries it writes to
    the hardware's walk: the identity map, the direct map of physical memory
    and the kernel image are translated as the rest of the kernel assumes. *)

From S2P Require Import Prelude Memory Machine Lists Strings Hal Lock Console Csr Buddy BuddyInv PageAlloc Vmem PageTable.

Section mmu.
Context {L : KernelLayout}.

(** Filling entries of a table with a counted loop. *)
Lemma wp_fill_entries (n : nat) t (g f : Z -> Z) (Q : unit -> kst -> Prop) s :
  PAGE_SIZE <= t -> (forall i, 0 <= i < Z.of_nat n -> index (g i) /\ 0 <= f i < 2 ^ 64) ->
  (forall i j, 0 <= i < Z.of_nat n -> 0 <= j < Z.of_nat n -> g i = g j -> i = j) ->
  (forall m', (forall i, 0 <= i < Z.of_nat n -> pt_entry m' t (g i) = f i) ->
    (forall j, (forall i, 0 <= i < Z.of_nat n -> g i <> j) -> pt_entry m' t j = pt_entry (mem s) t j) ->
    agree (fun a => ~ in_range t PAGE_SIZE a) (mem s) m' -> Q tt (set_mem m' s)) ->
  wp (for_up n 0 (fun i => wr 8 (t + 8 * g i) (f i))) Q s.
Proof.
  intros Ht Hg Hinj HQ.
  apply (wp_for_up (fun k s' => exists m', s' = set_mem m' s /\ (forall i, 0 <= i < k -> pt_entry m' t (g i) = f i) /\
    (forall j, (forall i, 0 <= i < k -> g i <> j) -> pt_entry m' t j = pt_entry (mem s) t j) /\
    agree (fun a => ~ in_range t PAGE_SIZE a) (mem s) m')).
  - exists (mem s). rewrite set_mem_id. split_and!; try done. lia.
  - intros k s' Hk (m' & -> & H1 & H2 & H3). destruct (Hg k ltac:(lia)) as [Hi Hf]. apply wp_wr; [unfold index in *; lia|].
    rewrite set_mem_twice. eexists. split_and!; [done| | |].
    + intros i Hi'. unfold pt_entry. cbn [mem set_mem]. destruct (Z.eq_dec i k) as [->|Hne]; [by apply ld64_st64|].
      rewrite ld64_st64_ne; [apply H1; lia|]. destruct (Z.eq_dec (g k) (g i)) as [E|E]; [|unfold disjoint; lia].
      apply Hinj in E; lia.
    + intros j Hj. unfold pt_entry. cbn [mem set_mem]. pose proof (Hj k ltac:(lia)).
      rewrite ld64_st64_ne by (unfold disjoint; lia). apply H2. intros i Hi'. apply Hj. lia.
    + etrans; [exact H3|]. apply agree_st. intros b Hb Hn. apply Hn. unfold index, in_range, PAGE_SIZE in *. lia.
  - intros s' (m' & -> & H1 & H2 & H3). by apply HQ.
Qed.

(** The walk through a 1 GiB leaf. *)
Lemma sv39_gigapage m t va flags p :
  pt_entry m t (VA_GET_PN 2 va) = gigapage flags p -> 0 <= flags < 1024 -> has flags PTE_FLAG_V = true -> has flags PTE_FLAG_R = true ->
  0 <= p < 2 ^ 56 -> p mod 2 ^ 30 = 0 -> sv39 2 m t va = Some (p + va mod 2 ^ 30).
Proof.
  intros E Hf HV HR Hp Ha. cbn [sv39]. change (Z.of_nat 2) with 2. rewrite E. unfold gigapage. rewrite Z.lor_comm.
  assert (HRX : has flags (PTE_FLAG_R |l PTE_FLAG_X) = true).
  { unfold has in *. rewrite Z.land_lor_distr_r. apply negb_true_iff, Z.eqb_neq. intros [E' _]%Z.lor_eq_0_iff. by rewrite E' in HR. }
  rewrite !pte_has by done. rewrite HV, HR, HRX, pte_pa by done. cbn [negb orb andb]. change (9 * 2 + 12) with 30.
  change (2 ^ 30) with 1073741824 in *. replace (p mod 4096) with 0 by zdm. rewrite Z.sub_0_r, Ha. done.
Qed.

(** What the linker script fixes: the image is loaded at 0x80000000, runs at
    [VA_KERNEL_IMG_BEGIN], and is not empty and at most 1 GiB; the table is a
    page of physical memory apart from the flag [started]. *)
Record boot_layout : Prop := {
  bl_pa : kimage "__KERNEL_IMG_PA_BEGIN" = 0x80000000;
  bl_va : kimage "__KERNEL_IMG_VA_BEGIN" = VA_KERNEL_IMG_BEGIN;
  bl_end : VA_KERNEL_IMG_BEGIN < kimage "__KERNEL_IMG_VA_END" <= VA_KERNEL_IMG_BEGIN + 2 ^ 30;
  bl_pgtbl : PAGE_SIZE <= boot_pgtbl /\ boot_pgtbl + PAGE_SIZE <= 2 ^ 38 /\ boot_pgtbl mod PAGE_SIZE = 0;
  bl_started : PAGE_SIZE <= boot_started /\ disjoint boot_started 4 boot_pgtbl PAGE_SIZE;
}.

Lemma shl_30 j : 0 <= j < 512 -> j <<l ((VA_N_VPN - 1) * PN_WIDTH + PAGE_OFFSET_WIDTH) = j * 2 ^ 30.
Proof. intros. change ((VA_N_VPN - 1) * PN_WIDTH + PAGE_OFFSET_WIDTH) with 30. unfold shl64. rewrite Z.shiftl_mul_pow2 by lia. apply u64_small. lia. Qed.

Lemma gigapage_bound flags p : 0 <= flags < 1024 -> 0 <= p < 2 ^ 56 -> 0 <= gigapage flags p < 2 ^ 64.
Proof. intros. unfold gigapage. rewrite Z.lor_comm. by apply pte_bound. Qed.

Lemma lor_256 i : 0 <= i < 128 -> i |l (1 <<l (PN_WIDTH - 1)) = i + 256.
Proof. intros. change (1 <<l (PN_WIDTH - 1)) with 256. rewrite Z.lor_comm, (lor_add_disjoint _ _ 8); [lia|lia|lia|done]. Qed.

(** The whole loop over the image is one round. *)
Lemma wp_map_image (Q : unit -> kst -> Prop) s : boot_layout ->
  Q tt (set_mem (st64 (mem s) (boot_pgtbl + 8 * 510) (gigapage (PTE_FLAG_V |l PTE_FLAG_R |l PTE_FLAG_W |l PTE_FLAG_X) 0x80000000)) s) ->
  wp map_image Q s.
Proof.
  intros [E1 E2 E3 E4 _] HQ. unfold map_image. rewrite E1, E2. set (vend := kimage "__KERNEL_IMG_VA_END") in *.
  change (1 <<l (PAGE_OFFSET_WIDTH + PN_WIDTH * 2)) with (2 ^ 30). unfold VA_KERNEL_IMG_BEGIN in *.
  assert (Eb : boot_table 0 = boot_pgtbl) by (unfold boot_table, PAGE_SIZE; lia). rewrite Eb.
  apply (wp_while_n (fun n '(va, pa) s' => n = 1 /\ va = 0xFFFFFFFF80000000 /\ pa = 0x80000000 /\ s' = s \/
    n = 0 /\ vend <= va /\ Q tt s') _ 1); [by left|lia|].
  intros n [va pa] s' [(-> & -> & -> & ->)|(-> & Hv & HQ')] _.
  - rewrite (proj2 (Z.ltb_lt _ _)) by lia. change (VA_GET_PN 2 _) with 510. wp_steps.
    exists 0. split; [lia|]. right. split_and!; [done| |exact HQ]. rewrite add64_small; lia.
  - rewrite (proj2 (Z.ltb_ge _ _)) by lia. by wp_step.
Qed.

Abbreviation rwx := (PTE_FLAG_V |l PTE_FLAG_R |l PTE_FLAG_W |l PTE_FLAG_X).
Abbreviation rw := (PTE_FLAG_V |l PTE_FLAG_R |l PTE_FLAG_W).

(** The entries of the finished table. *)
Record boot_entries (m : memory) : Prop := {
  be_identity : forall i, 0 <= i < 256 -> pt_entry m boot_pgtbl i = gigapage rwx (i * 2 ^ 30);
  be_pma : forall i, 0 <= i < 128 -> pt_entry m boot_pgtbl (i + 256) = gigapage rw (i * 2 ^ 30);
  be_image : pt_entry m boot_pgtbl 510 = gigapage rwx 0x80000000;
}.

Lemma boot_table_0 : boot_table (VA_N_VPN - 3) = boot_pgtbl.
Proof. unfold boot_table, VA_N_VPN, PAGE_SIZE. lia. Qed.

Lemma wp_map_identity (Q : unit -> kst -> Prop) s : boot_layout ->
  (forall m', (forall i, 0 <= i < 256 -> pt_entry m' boot_pgtbl i = gigapage rwx (i * 2 ^ 30)) ->
    agree (fun a => ~ in_range boot_pgtbl PAGE_SIZE a) (mem s) m' -> Q tt (set_mem m' s)) ->
  wp map_identity Q s.
Proof.
  intros [_ _ _ (Hb & _) _] HQ. unfold map_identity. rewrite boot_table_0. apply (wp_fill_entries _ boot_pgtbl (fun i => i)); [lia| |done|].
  - intros i Hi. change (Z.of_nat _) with 256 in Hi. split; [unfold index; lia|]. rewrite shl_30 by lia. apply gigapage_bound; [done|lia].
  - change (Z.of_nat _) with 256. intros m' F _ A. apply HQ; [|done]. intros i Hi. by rewrite F, shl_30 by lia.
Qed.

Lemma wp_map_pma (Q : unit -> kst -> Prop) s : boot_layout ->
  (forall m', (forall i, 0 <= i < 128 -> pt_entry m' boot_pgtbl (i + 256) = gigapage rw (i * 2 ^ 30)) ->
    (forall i, 0 <= i < 256 -> pt_entry m' boot_pgtbl i = pt_entry (mem s) boot_pgtbl i) ->
    agree (fun a => ~ in_range boot_pgtbl PAGE_SIZE a) (mem s) m' -> Q tt (set_mem m' s)) ->
  wp map_pma Q s.
Proof.
  intros [_ _ _ (Hb & _) _] HQ. unfold map_pma. rewrite boot_table_0.
  apply (wp_fill_entries _ boot_pgtbl (fun i => i |l (1 <<l (PN_WIDTH - 1)))); change (Z.of_nat (Z.to_nat (2 ^ (PN_WIDTH - 2)))) with 128; [lia| | |].
  - intros i Hi. rewrite lor_256, shl_30 by lia. split; [unfold index; lia|]. apply gigapage_bound; [done|lia].
  - intros i j Hi Hj. rewrite !lor_256 by lia. lia.
  - intros m' F G A. apply HQ; [| |done]; intros i Hi.
    + by rewrite <- lor_256, F, shl_30 by lia.
    + apply G. intros k Hk. rewrite lor_256 by lia. lia.
Qed.

(** The four steps and the flag. *)
Lemma wp_boot_entries (Q : unit -> kst -> Prop) s : boot_layout ->
  (forall m', boot_entries m' -> agree (fun a => ~ in_range boot_pgtbl PAGE_SIZE a /\ ~ in_range boot_started 4 a) (mem s) m' -> Q tt (set_mem m' s)) ->
  wp (map_identity;; map_pma;; connect_high;; map_image;; wr 4 boot_started 1) Q s.
Proof.
  intros HL HQ. pose proof HL as [_ _ _ (Hb1 & Hb2 & Hb3) (Hs1 & Hs2)].
  wp_step. apply wp_map_identity; [done|]. intros m1 F1 A1. wp_step. apply wp_map_pma; [done|]. intros m2 F2 G2 A2.
  unfold connect_high. change (Z.to_nat (VA_N_VPN - 3)) with 0%nat. cbn [for_up]. wp_steps. apply wp_map_image; [done|]. wp_steps.
  rewrite !set_mem_twice. cbn [mem set_mem] in *. set (m3 := st64 m2 _ _). set (m4 := st32 m3 _ _).
  assert (Ho : forall j, index j -> pt_entry m4 boot_pgtbl j = pt_entry m3 boot_pgtbl j).
  { intros j Hj. unfold m4. apply ld_st_other. unfold disjoint, index, PAGE_SIZE in *. simpl. lia. }
  assert (H3 : forall j, index j -> j <> 510 -> pt_entry m4 boot_pgtbl j = pt_entry m2 boot_pgtbl j).
  { intros j Hj Hne. rewrite Ho by done. unfold m3, pt_entry. apply ld64_st64_ne. unfold disjoint. lia. }
  apply HQ; [split|].
  - intros i Hi. rewrite H3, G2 by (unfold index; lia). by apply F1.
  - intros i Hi. rewrite H3 by (unfold index; lia). by apply F2.
  - rewrite Ho by (unfold index; lia). unfold m3, pt_entry. by apply ld64_st64, gigapage_bound.
  - etrans; [eapply agree_weaken; [|exact A1]; tauto|]. etrans; [eapply agree_weaken; [|exact A2]; tauto|]. transitivity m3.
    + apply agree_st. intros b Hb [Hn _]. apply Hn. unfold in_range, PAGE_SIZE in *. lia.
    + apply agree_st. intros b Hb [_ Hn]. by apply Hn.
Qed.

(** What the hardware makes of them. *)
Lemma boot_entries_sv39 m : boot_entries m ->
  (forall va, 0 <= va < 2 ^ 38 -> sv39 2 m boot_pgtbl va = Some va) /\
  (forall pa, 0 <= pa < VA_KERNEL_PMA_SIZE -> sv39 2 m boot_pgtbl (VA_KERNEL_BEGIN + pa) = Some pa) /\
  (forall off, 0 <= off < 2 ^ 30 -> sv39 2 m boot_pgtbl (VA_KERNEL_IMG_BEGIN + off) = Some (0x80000000 + off)).
Proof.
  intros [F1 F2 F3]. unfold VA_KERNEL_PMA_SIZE.
  assert (Hpn : forall va, VA_GET_PN 2 va = va / 2 ^ 30 mod 512) by (intros; by rewrite VA_GET_PN_spec by lia). split_and!.
  - intros va Hva. assert (Hj : 0 <= va / 2 ^ 30 < 256) by zdm.
    rewrite (sv39_gigapage m boot_pgtbl va rwx (va / 2 ^ 30 * 2 ^ 30)); try done; try zdm.
    + f_equal. zdm.
    + rewrite Hpn, Z.mod_small by lia. by apply F1.
  - intros pa Hpa. assert (Hj : 0 <= pa / 2 ^ 30 < 128) by zdm.
    rewrite (sv39_gigapage m boot_pgtbl _ rw (pa / 2 ^ 30 * 2 ^ 30)); try done; try zdm.
    + f_equal. unfold VA_KERNEL_BEGIN. zdm.
    + rewrite <- F2 by done. f_equal. rewrite Hpn. unfold VA_KERNEL_BEGIN. zdm.
  - intros off Hoff. rewrite (sv39_gigapage m boot_pgtbl _ rwx 0x80000000); try done.
    + f_equal. unfold VA_KERNEL_IMG_BEGIN. zdm.
    + rewrite <- F3. f_equal. rewrite Hpn. unfold VA_KERNEL_IMG_BEGIN. zdm.
Qed.

Lemma satp_boot s : boot_layout ->
  csr_get 0x180 (set_csr (<[0x180 := SATP VMEM_MODE boot_pgtbl]> (csr s)) s) = VMEM_MODE * 2 ^ 60 + boot_pgtbl / PAGE_SIZE.
Proof.
  intros [_ _ _ (Hb1 & Hb2 & Hb3) _]. rewrite csr_get_set, Z.eqb_refl. unfold SATP, PAGE_OFFSET_WIDTH. rewrite Z.shiftr_div_pow2 by lia.
  change (VMEM_MODE <<l VMEM_MODE_SHIFT) with (VMEM_MODE * 2 ^ 60). change (2 ^ 12) with PAGE_SIZE.
  rewrite (lor_add_disjoint _ _ 44); [|lia|unfold PAGE_SIZE in *; zdm|done]. apply u64_small. unfold VMEM_MODE, PAGE_SIZE in *. zdm.
Qed.

(** C34: on the first hart, [setup_mmu] builds a table under which the
    hardware translates the low 256 GiB to themselves, the direct map
    [VA_KERNEL_BEGIN + pa] to [pa] for all 128 GiB of supported physical
    memory, and the kernel image's virtual addresses to where the image was
    loaded; it points satp at the table in Sv39 mode and writes nothing but
    the table and the started flag.  On later harts it only sets satp. *)
Theorem setup_mmu_correct s : boot_layout ->
  wp setup_mmu (fun _ s' =>
    csr_get 0x180 s' = VMEM_MODE * 2 ^ 60 + boot_pgtbl / PAGE_SIZE /\
    agree (fun a => ~ in_range boot_pgtbl PAGE_SIZE a /\ ~ in_range boot_started 4 a) (mem s) (mem s') /\
    (ld32 (mem s) boot_started <> 0 -> mem s' = mem s) /\
    (ld32 (mem s) boot_started = 0 ->
      (forall va, 0 <= va < 2 ^ 38 -> sv39 2 (mem s') boot_pgtbl va = Some va) /\
      (forall pa, 0 <= pa < VA_KERNEL_PMA_SIZE -> sv39 2 (mem s') boot_pgtbl (VA_KERNEL_BEGIN + pa) = Some pa) /\
      (forall off, 0 <= off < 2 ^ 30 -> sv39 2 (mem s') boot_pgtbl (VA_KERNEL_IMG_BEGIN + off) = Some (0x80000000 + off)))) s.
Proof.
  intros HL. pose proof HL as [_ _ _ _ (Hs1 & _)]. pose proof boot_table_0 as Eb. unfold setup_mmu, sfence_vma. wp_steps. rewrite Eb.
  destruct (Z.eqb_spec (ld32 (mem s) boot_started) 0) as [E0|E0]; cbn [when].
  - apply wp_boot_entries; [done|]. intros m' F A. wp_steps. split_and!; [by apply satp_boot|done|done|].
    intros _. by apply boot_entries_sv39.
  - wp_steps. split_and!; [by apply satp_boot|done|done|done].
Qed.
End mmu.

#[local] Existing Instance sample_layout.

Lemma sample_boot_layout : boot_layout.
Proof. split; vm_compute; intuition congruence. Qed.

Lemma setup_mmu_correct_witness : let s := sample_state ∅ in
  wp setup_mmu (fun _ s' =>
    csr_get 0x180 s' = VMEM_MODE * 2 ^ 60 + boot_pgtbl / PAGE_SIZE /\
    agree (fun a => ~ in_range boot_pgtbl PAGE_SIZE a /\ ~ in_range boot_started 4 a) (mem s) (mem s') /\
    (ld32 (mem s) boot_started <> 0 -> mem s' = mem s) /\
    (ld32 (mem s) boot_started = 0 ->
      (forall va, 0 <= va < 2 ^ 38 -> sv39 2 (mem s') boot_pgtbl va = Some va) /\
      (forall pa, 0 <= pa < VA_KERNEL_PMA_SIZE -> sv39 2 (mem s') boot_pgtbl (VA_KERNEL_BEGIN + pa) = Some pa) /\
      (forall off, 0 <= off < 2 ^ 30 -> sv39 2 (mem s') boot_pgtbl (VA_KERNEL_IMG_BEGIN + off) = Some (0x80000000 + off)))) s.
Proof. exact (setup_mmu_correct (sample_state ∅) sample_boot_layout). Defined.
