(* ===== verification/BuddyInit.v ===== *)
(** * memory/buddy.c: [kmem_page_manager_init]

    The bitmaps come from the boot allocator; then every page the boot
    allocator has not handed out is freed into the buddy lists.  Shown here:
    from a fresh state that loop establishes the allocator's invariant, with
    exactly the unreserved pages managed and free. *)

From S2P Require Import Prelude Memory Machine Bytes Lists Strings Hal Lock Console Bootmem.
From S2P Require Import Buddy BuddyMem BuddyInv BuddyProofs.

Section init.
Context {L : KernelLayout} {C : Code}.

Definition area_map_size (k : kmem_node_struct) (ord : Z) : Z :=
  ((num_ppn k >>l (ord + 1)) +l 8 -l 1) >>l 3.

Definition set_area_size (ord size : Z) (k : kmem_node_struct) : kmem_node_struct :=
  mk_kmem_node (begin_ppn k) (num_ppn k) (mem_map k) (mem_map_size k) (free_area_map k)
    (<[Z.to_nat ord := size]> (free_area_map_size k)).
Definition set_area_map (ord map : Z) (k : kmem_node_struct) : kmem_node_struct :=
  mk_kmem_node (begin_ppn k) (num_ppn k) (mem_map k) (mem_map_size k)
    (<[Z.to_nat ord := map]> (free_area_map k)) (free_area_map_size k).

(** Free all unreserved pages. *)
Definition free_unreserved : M unit :=
  n ← gets (fun s => num_ppn (kmem s));
  for_up (Z.to_nat n) 0 (fun pn =>
    mm ← gets (fun s => mem_map (kmem s));
    b ← test_bit mm pn;
    if b =? 0 then
      mm ← gets (fun s => mem_map (kmem s));
      test_and_set_bit mm pn;;
      va ← gets (fun s => pn_va s pn);
      kmem_free_page va
    else mret tt).

Definition alloc_area_map (ord : Z) : M unit :=
  size ← gets (fun s => area_map_size (kmem s) ord);
  modify (fun s => set_kmem (set_area_size ord size (kmem s)) s);;
  size ← gets (fun s => default 0 (free_area_map_size (kmem s) !! Z.to_nat ord));
  map ← bootmem_alloc size 1 0;
  modify (fun s => set_kmem (set_area_map ord map (kmem s)) s).

Definition kmem_page_manager_init : M unit :=
  printf ("[kmem_page_manager]initializing" +:+ nl) [];;
  spinlock_init page_manager_lock (sym_str "page_manager_lock");;
  for_up (Z.to_nat MAX_MEM_ORDER) 0 alloc_area_map;;
  free_unreserved.

(** ** Changing the managed set *)

Lemma meta_weaken k (mg mg' : Z -> Prop) :
  (forall x, mg' x -> mg x) -> BuddyMeta k mg -> BuddyMeta k mg'.
Proof. intros H []. split; try done. intros. eauto. Qed.

Lemma buddy_ok_ext (mg mg' : Z -> Prop) s : (forall x, mg x <-> mg' x) -> buddy_ok mg s -> buddy_ok mg' s.
Proof.
  intros H [BM Hl (fl & bv & HR & HA & HC)]. split; [|done|].
  - apply (meta_weaken _ mg); [|done]. intros x. apply H.
  - exists fl, bv. split_and!; [| |done].
    + destruct HR. split; try done. intros o p Ho Hp. destruct (R_page o p Ho Hp) as (? & ? & ?).
      split_and!; try done. by apply H.
    + destruct HA. split; try done.
      * intros o p x B I. destruct (A_free o p x B I). split; [by apply H|done].
      * intros x Hx Hm. apply A_cov; [done|by apply H].
Qed.

(** Before its first page is freed the allocator manages none. *)
Lemma buddy_ok_empty s mg :
  BuddyMeta (kmem s) mg -> lock_free (mem s) page_manager_lock ->
  (forall o, order_ok o -> ld64 (mem s) (free_page_list o + 8) = NULL) ->
  (forall o j, order_ok o -> 0 <= j < blen (kmem s) o -> bit (mem s) (bmap (kmem s) o) j = false) ->
  buddy_ok (fun _ => False) s.
Proof.
  intros BM Hl Hh Hb. split; [by apply (meta_weaken _ mg)|done|].
  exists (fun _ => []), (fun i j => bit (mem s) (bmap (kmem s) i) j). split_and!.
  - split; try done.
    + intros o Ho. split; [done|]. apply (Hh o Ho).
    + intros; constructor.
    + intros o1 o2 p _ _ H. by apply elem_of_nil in H.
    + intros o p _ H. by apply elem_of_nil in H.
  - assert (Hno : forall o p, ~ blk (fun _ => []) [] o p).
    { intros o p [_ [H|H]]; by apply elem_of_nil in H. }
    split; try (intros; exfalso; match goal with H : blk _ _ _ _ |- _ => exact (Hno _ _ H) end).
    + intros o p H. by apply elem_of_nil in H.
    + done.
    + intros o p Ho Hp _ Hlt. rewrite Hb; [by rewrite !bool_decide_eq_false_2 by (intros H; by apply elem_of_nil in H)|done|].
      split; [|done]. apply Z.div_pos; [done|]. apply pow2_pos. unfold order_ok in Ho. lia.
  - intros o p _ _ _ H. by apply elem_of_nil in H.
Qed.

(** Marking an unmanaged page allocated lets the allocator manage it. *)
Lemma buddy_grow mg s pn :
  buddy_ok mg s -> page_ok (kmem s) pn -> ~ mg pn -> BuddyMeta (kmem s) (fun x => mg x \/ x = pn) ->
  buddy_ok (fun x => mg x \/ x = pn) (set_mem (upd_bit (mem s) (mem_map (kmem s)) pn true) s).
Proof.
  intros [BM Hl (fl & bv & HR & HA & HC)] Hp Hn BM'.
  assert (Hj : 0 <= pn < blen (kmem s) (-1)) by (unfold blen; rewrite Z.div_1_r; unfold page_ok in Hp; lia).
  assert (Hi : -1 <= -1 < MAX_MEM_ORDER) by (unfold MAX_MEM_ORDER; lia).
  destruct (R_upd_bit (kmem s) mg _ _ _ _ (-1) pn true HR Hi Hj) as [HR' Hk].
  change (bmap (kmem s) (-1)) with (mem_map (kmem s)) in *. split; [done| |].
  - unfold lock_free in *. rewrite <- Hl. apply ld_agree. eapply agree_weaken; [|exact Hk]. intros a Ha.
    apply (lock_keep mg); try done. unfold in_range, sizeof_spinlock in *. simpl in *. lia.
  - exists fl, (bv_upd bv (-1) pn true). simpl. split_and!; [| |done].
    + destruct HR'. split; try done. intros o p Ho Hpp. destruct (R_page o p Ho Hpp) as (? & ? & ?). auto.
    + assert (Hbv : forall x, bv_upd bv (-1) pn true (-1) x = if x =? pn then true else bv (-1) x) by done.
      assert (Hpar : forall o j, order_ok o -> bv_upd bv (-1) pn true o j = bv o j).
      { intros o j Ho. unfold bv_upd. destruct (Z.eqb_spec o (-1)); [unfold order_ok in Ho; lia|done]. }
      split; try apply HA.
      * intros o p x B I. destruct (A_free _ _ _ _ _ HA o p x B I) as [Hm Hf]. rewrite Hbv.
        destruct (Z.eqb_spec x pn) as [->|]; [done|auto].
      * intros x Hx [Hm| ->]; rewrite Hbv; [|by rewrite Z.eqb_refl]. destruct (x =? pn); [done|].
        by apply (A_cov _ _ _ _ _ HA).
      * by apply (parity_ext _ _ bv), HA.
Qed.

(** The unreserved pages of [s]. *)
Definition unreserved (s : kst) (x : Z) : Prop := page_ok (kmem s) x /\ allocated s x = false.

Lemma free_one_unreserved s s' j :
  let mg := unreserved s in
  BuddyMeta (kmem s) mg -> mg j ->
  buddy_step (fun x => x < j /\ mg x) mg s s' ->
  (forall x, page_ok (kmem s) x -> allocated s' x = allocated s x) ->
  wp (mm ← gets (fun s => mem_map (kmem s)); test_and_set_bit mm j;; va ← gets (fun s => pn_va s j); kmem_free_page va)
    (fun _ s2 => buddy_step (fun x => x < j + 1 /\ mg x) mg s s2 /\
       forall x, page_ok (kmem s) x -> allocated s2 x = allocated s x) s'.
Proof.
  intros mg BM Hj B1 E1. pose proof (bs_kmem _ _ _ _ B1) as Ek. pose proof Hj as [Hpj Haj]. wp_steps.
  assert (Hmm : PAGE_SIZE <= mem_map (kmem s')).
  { rewrite Ek. apply (bm_base (kmem s) (-1)). unfold MAX_MEM_ORDER. lia. }
  apply wp_test_and_set_bit; [done|unfold page_ok in Hpj; lia|]. wp_steps.
  set (s1 := set_mem _ s'). set (mg1 := fun x => (x < j /\ mg x) \/ x = j).
  assert (Hsub : forall x, mg1 x -> mg x) by (intros x [[_ ?]| ->]; done).
  assert (BM1 : BuddyMeta (kmem s') mg1) by (rewrite Ek; by apply (meta_weaken _ mg)).
  assert (O1 : buddy_ok mg1 s1).
  { apply buddy_grow; [apply B1|by rewrite Ek| |done]. intros [? _]. lia. }
  assert (A1 : forall x, allocated s1 x = if j =? x then true else allocated s' x).
  { intros x. unfold allocated, s1. simpl. by rewrite bit_upd. }
  rewrite (pn_va_nd mg1 s1 j) by first [exact BM1 | simpl; by rewrite Ek].
  eapply wp_mono; [apply (wp_kmem_free_page mg1)|].
  - apply (bs_hart _ _ _ _ B1).
  - done.
  - simpl. by rewrite Ek.
  - by right.
  - rewrite A1. by rewrite Z.eqb_refl.
  - intros [] s2 [B2 E2]. simpl kmem in E2. rewrite Ek in E2. split.
    + split; try apply B2.
      * apply (buddy_ok_ext mg1); [|apply B2]. intros x. unfold mg1. split; [intros [[? ?]| ->]|intros [? ?]].
        -- split; [lia|done].
        -- split; [lia|done].
        -- destruct (Z.eq_dec x j); [auto|left; split; [lia|done]].
      * etrans; [apply B1|]. exact (bs_globals _ _ _ _ B2).
      * etrans; [apply B1|]. exact (bs_harts _ _ _ _ B2).
      * etrans; [apply (bs_mem _ _ _ _ B1)|]. apply (agree_trans _ _ (mem s1)).
        -- unfold s1. rewrite Ek. apply (upd_bit_agree _ (mem s')). intros (_ & K & _). apply (K (-1)); [unfold MAX_MEM_ORDER; lia|].
           apply (byte_in (kmem s) (-1)). unfold blen. rewrite Z.div_1_r. unfold page_ok in Hpj. lia.
        -- eapply agree_weaken; [|apply (bs_mem _ _ _ _ B2)]. simpl kmem. rewrite Ek. apply untouched_weaken.
           intros x _ [[Hx _]| ->]; [by apply Hsub|done].
    + intros x Hx. rewrite E2, A1, <- E1 by done. destruct (Z.eqb_spec j x) as [->|Hne].
      * rewrite Z.eqb_refl, E1 by done. by rewrite Haj.
      * rewrite (proj2 (Z.eqb_neq x j)) by done. by rewrite andb_true_r.
Qed.

Lemma wp_free_unreserved s :
  let mg := unreserved s in
  hart_ok s -> BuddyMeta (kmem s) mg -> lock_free (mem s) page_manager_lock ->
  (forall o, order_ok o -> ld64 (mem s) (free_page_list o + 8) = NULL) ->
  (forall o j, order_ok o -> 0 <= j < blen (kmem s) o -> bit (mem s) (bmap (kmem s) o) j = false) ->
  wp free_unreserved (fun _ s' => buddy_step mg mg s s' /\
    forall x, page_ok (kmem s) x -> allocated s' x = allocated s x) s.
Proof.
  intros mg Hok BM Hl Hh Hb. unfold free_unreserved. wp_step. wp_step. pose proof (bm_num (kmem s)) as Hnum.
  apply (wp_for_up (fun j s' => buddy_step (fun x => x < j /\ mg x) mg s s' /\
    forall x, page_ok (kmem s) x -> allocated s' x = allocated s x)).
  - split; [|done]. split; try done. apply (buddy_ok_ext (fun _ => False)); [|by apply (buddy_ok_empty s mg)].
    intros x. split; [done|]. intros [? [[? _] _]]. lia.
  - intros j s' Hj [B1 E1]. rewrite Z2Nat.id in Hj by lia. pose proof (bs_kmem _ _ _ _ B1) as Ek. wp_steps.
    assert (Hmm : PAGE_SIZE <= mem_map (kmem s')).
    { rewrite Ek. apply (bm_base (kmem s) (-1)). unfold MAX_MEM_ORDER. lia. }
    assert (Hpj : page_ok (kmem s) j) by (unfold page_ok; lia).
    apply wp_test_bit; [done|lia|]. fold (allocated s' j). rewrite E1 by done.
    destruct (allocated s j) eqn:Ea; simpl.
    + wp_steps. split; [|done]. destruct B1. split; try done. apply (buddy_ok_ext (fun x => x < j /\ mg x)); [|done].
      intros x. split; [intros [? ?]; split; [lia|done]|]. intros [? Hm]. split; [|done].
      destruct (Z.eq_dec x j) as [->|]; [|lia]. destruct Hm as [_ Hm]. congruence.
    + by apply free_one_unreserved.
  - intros s' [B1 E1]. rewrite Z.add_0_l, Z2Nat.id in B1 by lia. split; [|done]. destruct B1. split; try done.
    apply (buddy_ok_ext (fun x => x < num_ppn (kmem s) /\ mg x)); [|done].
    intros x. split; [by intros [_ ?]|]. intros Hm. split; [|done]. destruct Hm as [[_ ?] _]. done.
Qed.
End init.
