(* ===== verification/Kmem.v ===== *)
(** * memory/kmem.c: the kernel heap

    [kmem_alloc] serves a request from the first universal manager whose
    objects are large enough and that has one left; [kmem_init] builds the
    page allocator, the object allocator and the universal managers.  A
    [struct list_node] has [prv] at 0, [nxt] at 8 and [val] at 16. *)

From S2P Require Import Prelude Memory Machine Lists Hal Lock Console Bootmem Buddy BuddyInit Object.

Section kmem.
Context {L : KernelLayout} {C : Code}.

Definition uni_manager_sizes : list Z :=
  [131072; 65536; 32768; 16384; 8192; 4096; 2048; 1024; 512; 256; 128; 64; 32].
Definition uni_manager_names : list string :=
  ["umgr-128k"; "umgr-64k"; "umgr-32k"; "umgr-16k"; "umgr-8k"; "umgr-4k"; "umgr-2k"; "umgr-1k"; "umgr-512"; "umgr-256";
   "umgr-128"; "umgr-64"; "umgr-32"]%string.

Definition kmem_alloc (size : Z) : M Z :=
  first ← rd 8 (sym_uni_managers + 8);
  while (fun '(mgr_node, ret_vaddr) =>
      if negb (mgr_node =? NULL) && (ret_vaddr =? NULL) then
        mgr ← rd 8 (mgr_node + 16);
        osz ← rd 8 (mgr + 8);
        r ← (if size <=? osz then kmem_object_alloc mgr else mret ret_vaddr);
        nxt ← rd 8 (mgr_node + 8);
        mret (inl (nxt, r))
      else mret (inr ret_vaddr)) (first, NULL).

Definition kmem_free (vaddr : Z) : M unit := kmem_object_free vaddr.

(** One universal manager: sizes are inserted from the largest down, so the
    list is sorted from the smallest up. *)
Definition add_manager (size : Z) (name : string) : M unit :=
  lm ← rd 8 sym_list_node_mgr;
  node ← kmem_object_alloc lm;
  mgr ← kmem_object_create_manager size (sym_str name);
  wr 8 (node + 16) mgr;;
  list_insert sym_uni_managers node.

Fixpoint add_managers (l : list (Z * string)) : M unit :=
  match l with
  | [] => mret tt
  | (size, name) :: l' => add_manager size name;; add_managers l'
  end.

Definition kmem_init : M unit :=
  printf ("[kmem]initializing" ++ nl) [];;
  modify (fun s => set_kmem (mk_kmem_node (b_begin_ppn (uma_node s)) (b_num_ppn (uma_node s)) (b_mem_map (uma_node s))
                               (b_mem_map_size (uma_node s)) (free_area_map (kmem s)) (free_area_map_size (kmem s))) s);;
  kmem_page_manager_init;;
  kmem_object_init;;
  lm ← kmem_object_create_manager 24 (sym_str "list_node");
  wr 8 sym_list_node_mgr lm;;
  add_managers (zip uni_manager_sizes uni_manager_names).
End kmem.
