(* ===== verification/Heap.v ===== *)
(** * The kernel heap as one abstract object

    memory/kmem.c puts a list of object managers, one for each size, in front
    of the object allocator.  The heap abstracts to the list of its managers,
    each with its object size and its blocks; its live objects are pairs of an
    address and a size.  [heap_step] is the one lemma every operation needs:
    what a manager does to its own blocks disturbs none of the others. *)

From S2P Require Import Prelude Memory Machine Lists Lock Buddy BuddyMem PageAlloc Object ObjectInv ObjectProofs Kmem.

(** A manager of the list [uni_managers] and the list node that holds it. *)
Record umgr := mk_umgr { um_node : Z; um_mgr : Z; um_size : Z; um_blocks : list oblock }.

Definition with_blocks (u : umgr) (bl : list oblock) : umgr := mk_umgr (um_node u) (um_mgr u) (um_size u) bl.

(** The objects handed out: where they begin and their size. *)
Definition live (u : umgr) : list (Z * Z) := (fun x => (x + 24, um_size u)) <$> objects (um_blocks u).
Definition heap_objects (h : list umgr) : list (Z * Z) := h ≫= live.

(** No free slot is left in a manager's blocks. *)
Definition full (u : umgr) : Prop := forall b, b ∈ um_blocks u -> ob_free b = [].

(** The memory of a manager: its descriptor and its blocks. *)
Definition um_owns (u : umgr) (a : Z) : Prop :=
  in_range (um_mgr u) 56 a \/ exists b, b ∈ um_blocks u /\ in_range (ob b) (ob_size b) a.
Definition heap_meta (h : list umgr) (a : Z) : Prop := exists u, u ∈ h /\ meta (um_mgr u) (um_blocks u) a.

(** The list of managers. *)
Fixpoint nchain (m : memory) (p : Z) (h : list umgr) : Prop :=
  match h with
  | [] => p = NULL
  | u :: h' => p = um_node u /\ ld64 m (p + 16) = um_mgr u /\ nchain m (ld64 m (p + 8)) h'
  end.

Section heap.
Context {L : KernelLayout} {PA : PageAllocator}.
Implicit Types (h : list umgr) (u v : umgr) (i j : nat).

Definition list_area (h : list umgr) (a : Z) : Prop :=
  in_range sym_uni_managers 24 a \/ exists u, u ∈ h /\ in_range (um_node u) 24 a.

Record heap_ok (s : kst) (h : list umgr) : Prop := {
  hp_list : nchain (mem s) (ld64 (mem s) (sym_uni_managers + 8)) h;
  hp_nodes : forall u, u ∈ h -> PAGE_SIZE <= um_node u;
  hp_each : forall u, u ∈ h -> mgr_ok (um_mgr u) (um_size u) s (um_blocks u);
  hp_area : forall a, list_area h a -> pa_safe s a;
  hp_out : forall u a, u ∈ h -> list_area h a -> ~ um_owns u a;
  hp_apart : forall i j u v a, h !! i = Some u -> h !! j = Some v -> i <> j -> um_owns u a -> ~ um_owns v a;
  hp_sorted : StronglySorted Z.le (um_size <$> h);
}.

(** ** What a manager owns *)

Lemma mgr_size mgr osz s bl : mgr_ok mgr osz s bl -> 0 < osz < 2 ^ 32.
Proof. intros H. apply (mk_osz _ _ _ _ H). Qed.

Lemma meta_owned u s a : mgr_ok (um_mgr u) (um_size u) s (um_blocks u) -> meta (um_mgr u) (um_blocks u) a -> um_owns u a.
Proof.
  intros H [Ha|(b & Hb & Ha)]; [by left|right]. exists b. split; [done|].
  apply (meta_in_block (um_mgr u) (um_size u) (mgr_size _ _ _ _ H) (mem s)); [by apply (mk_blocks _ _ _ _ H)|done].
Qed.

Lemma owned_safe u s a : pa_ok s -> mgr_ok (um_mgr u) (um_size u) s (um_blocks u) -> um_owns u a -> pa_safe s a.
Proof.
  intros Hok H [Ha|(b & Hb & Ha)]; [by apply (mk_safe _ _ _ _ H)|]. eapply block_safe; [done|by apply (mk_owned _ _ _ _ H)|done].
Qed.

Lemma object_owned u s x a :
  mgr_ok (um_mgr u) (um_size u) s (um_blocks u) -> x ∈ objects (um_blocks u) -> in_range x (um_size u + 24) a -> um_owns u a.
Proof.
  intros H Hx Ha. destruct (objects_slot _ _ (mgr_size _ _ _ _ H) _ _ x (mk_blocks _ _ _ _ H) Hx) as (b & Hb & _ & _ & Bx).
  right. exists b. split; [done|]. unfold in_range in *. lia.
Qed.

(** A manager does not notice what happens outside its memory. *)
Lemma mgr_frame u s s' :
  mgr_ok (um_mgr u) (um_size u) s (um_blocks u) -> agree (um_owns u) (mem s) (mem s') ->
  (forall a, pa_safe s a -> pa_safe s' a) -> (forall r n, pa_owned s r n -> pa_owned s' r n) ->
  mgr_ok (um_mgr u) (um_size u) s' (um_blocks u).
Proof.
  intros H K S W. pose proof H as [Ha Hs (E1 & E2 & E3) Hl Bs Ho].
  assert (D : agree (in_range (um_mgr u) 56) (mem s) (mem s')) by (eapply agree_weaken; [|exact K]; intros a Hr; by left).
  split; [done|auto| | | |auto].
  - split; [|done]. rewrite <- E1. apply ld_agree. eapply agree_weaken; [|exact D]. unfold in_range. simpl. lia.
  - unfold lock_free in *. rewrite <- Hl. apply ld_agree. eapply agree_weaken; [|exact D]. unfold in_range. simpl. lia.
  - eapply blocks_frame; [lia|exact Bs|]. eapply agree_weaken; [|exact K]. intros a Hm.
    apply (meta_owned u s); [done|]. by apply list_meta_meta.
Qed.

(** What a step adds to a manager was the page allocator's. *)
Lemma grown_owned u bl' s s' a :
  mgr_step (um_mgr u) (um_size u) (um_blocks u) bl' s s' -> um_owns (with_blocks u bl') a -> um_owns u a \/ ~ pa_safe s a.
Proof.
  intros St [Ha|(b & Hb & Ha)]; [by left; left|]. destruct (ms_grown _ _ _ _ _ _ St b Hb) as [(c & Hc & E1 & E2)|Hn]; [|right; auto].
  left. right. exists c. split; [done|]. unfold ob_size in *. cbn in *. by rewrite E1, E2 in Ha.
Qed.

Lemma nchain_frame h (m m' : memory) p (P : Z -> Prop) :
  (forall u a, u ∈ h -> in_range (um_node u) 24 a -> P a) -> agree P m m' -> nchain m p h -> nchain m' p h.
Proof.
  intros HP K. revert p. induction h as [|u h IH]; intros p; [done|]. cbn [nchain]. intros (-> & E & Hc).
  assert (F : forall o, 0 <= o <= 16 -> ld64 m' (um_node u + o) = ld64 m (um_node u + o)).
  { intros o Ho. apply ld_agree. eapply agree_weaken; [|exact K]. intros a Ha. apply (HP u); [set_solver|].
    unfold in_range in *. simpl in Ha. lia. }
  rewrite !F by lia. split_and!; [done|done|]. apply IH; [|done]. intros v a Hv. apply (HP v). set_solver.
Qed.

(** ** One manager's step is a step of the heap *)

Lemma list_area_blocks h i u bl a : h !! i = Some u -> list_area (<[i := with_blocks u bl]> h) a <-> list_area h a.
Proof.
  intros Hi. unfold list_area. assert (E : forall x, (exists v, v ∈ <[i := with_blocks u bl]> h /\ in_range (um_node v) 24 x) <->
    (exists v, v ∈ h /\ in_range (um_node v) 24 x)); [|by rewrite E].
  intros x. split; intros (v & Hv & Hx).
  - apply list_elem_of_lookup in Hv as (j & Hj). destruct (decide (i = j)) as [<-|Hne].
    + rewrite list_lookup_insert_eq in Hj by (by eapply lookup_lt_Some). injection Hj as <-. exists u. split; [by eapply list_elem_of_lookup_2|done].
    + rewrite list_lookup_insert_ne in Hj by done. exists v. split; [by eapply list_elem_of_lookup_2|done].
  - apply list_elem_of_lookup in Hv as (j & Hj). destruct (decide (i = j)) as [<-|Hne].
    + rewrite Hi in Hj. injection Hj as <-. exists (with_blocks u bl). split; [|done]. eapply list_elem_of_lookup_2.
      apply list_lookup_insert_eq. by eapply lookup_lt_Some.
    + exists v. split; [|done]. eapply list_elem_of_lookup_2. by rewrite list_lookup_insert_ne.
Qed.

Lemma insert_blocks_cases h i u bl j v : h !! i = Some u -> <[i := with_blocks u bl]> h !! j = Some v ->
  (j = i /\ v = with_blocks u bl) \/ (j <> i /\ h !! j = Some v).
Proof.
  intros Hi Hj. destruct (decide (i = j)) as [<-|Hne].
  - rewrite list_lookup_insert_eq in Hj by (by eapply lookup_lt_Some). injection Hj as <-. by left.
  - rewrite list_lookup_insert_ne in Hj by done. right. done.
Qed.

Lemma nchain_blocks h i u bl (m : memory) p : h !! i = Some u -> nchain m p h -> nchain m p (<[i := with_blocks u bl]> h).
Proof.
  revert i p. induction h as [|v h IH]; intros i p Hi Hc; [done|]. destruct Hc as (-> & E & Hc). destruct i as [|i].
  - injection Hi as ->. done.
  - split_and!; [done|done|by apply IH].
Qed.

Lemma sizes_blocks h i u bl : h !! i = Some u -> um_size <$> <[i := with_blocks u bl]> h = um_size <$> h.
Proof. intros Hi. rewrite list_fmap_insert. apply list_insert_id. by rewrite list_lookup_fmap, Hi. Qed.

(** Memory outside the step's manager that was safe is unchanged. *)
Lemma step_keeps h i u bl' s s' v j :
  pa_ok s -> heap_ok s h -> h !! i = Some u -> mgr_step (um_mgr u) (um_size u) (um_blocks u) bl' s s' ->
  h !! j = Some v -> j <> i -> agree (um_owns v) (mem s) (mem s').
Proof.
  intros Hok H Hi St Hj Hne. eapply agree_weaken; [|apply (ms_mem _ _ _ _ _ _ St)]. intros a Ha.
  pose proof (hp_each _ _ H v (list_elem_of_lookup_2 _ _ _ Hj)) as Hv. pose proof (hp_each _ _ H u (list_elem_of_lookup_2 _ _ _ Hi)) as Hu.
  split; [by apply (owned_safe v)|]. intros Hm. apply (hp_apart _ _ H j i v u a Hj Hi Hne Ha). by apply (meta_owned u s).
Qed.

Lemma heap_step h i u bl' s s' :
  pa_ok s -> heap_ok s h -> h !! i = Some u -> mgr_step (um_mgr u) (um_size u) (um_blocks u) bl' s s' ->
  heap_ok s' (<[i := with_blocks u bl']> h).
Proof.
  intros Hok H Hi St. pose proof (list_elem_of_lookup_2 _ _ _ Hi) as Hui. pose proof (hp_each _ _ H u Hui) as Hu.
  assert (Ka : agree (list_area h) (mem s) (mem s')).
  { eapply agree_weaken; [|apply (ms_mem _ _ _ _ _ _ St)]. intros a Ha. split; [by apply (hp_area _ _ H)|].
    intros Hm. apply (hp_out _ _ H u a Hui Ha). by apply (meta_owned u s). }
  split.
  - apply nchain_blocks; [done|]. replace (ld64 (mem s') (sym_uni_managers + 8)) with (ld64 (mem s) (sym_uni_managers + 8)).
    + eapply nchain_frame; [|exact Ka|apply H]. intros v a Hv Ha. right. by exists v.
    + symmetry. apply ld_agree. eapply agree_weaken; [|exact Ka]. intros a Ha. left. unfold in_range in *. simpl in Ha. lia.
  - intros v (j & [[-> ->]|[_ Hj]]%(insert_blocks_cases _ _ _ _ _ _ Hi))%list_elem_of_lookup; [by apply (hp_nodes _ _ H u)|].
    apply (hp_nodes _ _ H v). by eapply list_elem_of_lookup_2.
  - intros v (j & [[-> ->]|[Hne Hj]]%(insert_blocks_cases _ _ _ _ _ _ Hi))%list_elem_of_lookup; [apply St|].
    apply (mgr_frame v s); [apply (hp_each _ _ H v); by eapply list_elem_of_lookup_2|by apply (step_keeps h i u bl' s s' v j)|apply St|apply St].
  - intros a Ha. apply list_area_blocks in Ha; [|done]. by apply (ms_safe _ _ _ _ _ _ St), (hp_area _ _ H).
  - intros v a Hv Ha Hvo. apply list_area_blocks in Ha; [|done].
    apply list_elem_of_lookup in Hv as (j & [[-> ->]|[_ Hj]]%(insert_blocks_cases _ _ _ _ _ _ Hi)).
    + destruct (grown_owned u bl' s s' a St Hvo) as [Ho|Hn]; [by apply (hp_out _ _ H u a)|by apply Hn, (hp_area _ _ H)].
    + apply (hp_out _ _ H v a); [by eapply list_elem_of_lookup_2|done|done].
  - assert (X : forall j v a, h !! j = Some v -> j <> i -> um_owns (with_blocks u bl') a -> ~ um_owns v a).
    { intros j v a Hj Hne Ha Hva. destruct (grown_owned u bl' s s' a St Ha) as [Ho|Hn]; [by apply (hp_apart _ _ H j i v u a)|].
      apply Hn. apply (owned_safe v); [done|apply (hp_each _ _ H v); by eapply list_elem_of_lookup_2|done]. }
    intros j k v w a Hj Hk Hne Ha Hwa.
    destruct (insert_blocks_cases _ _ _ _ _ _ Hi Hj) as [[-> ->]|[Hj1 Hj2]], (insert_blocks_cases _ _ _ _ _ _ Hi Hk) as [[-> ->]|[Hk1 Hk2]];
      [done|by apply (X k w a)|by apply (X j v a)|by apply (hp_apart _ _ H j k v w a)].
  - rewrite sizes_blocks by done. apply H.
Qed.

(** ** Live objects *)

Lemma in_heap_objects h x n :
  (x, n) ∈ heap_objects h <-> exists u y, u ∈ h /\ y ∈ objects (um_blocks u) /\ x = y + 24 /\ n = um_size u.
Proof.
  unfold heap_objects, live. rewrite list_elem_of_bind. split.
  - intros (u & (y & [= -> ->] & Hy)%list_elem_of_fmap & Hu). by exists u, y.
  - intros (u & y & Hu & Hy & -> & ->). exists u. split; [|done]. apply list_elem_of_fmap. by exists y.
Qed.

(** The objects of one manager and those of the others. *)
Lemma heap_objects_split h i u : h !! i = Some u ->
  exists rest, forall bl, heap_objects (<[i := with_blocks u bl]> h) ≡ₚ live (with_blocks u bl) ++ rest.
Proof.
  intros Hi. exists (heap_objects (take i h) ++ heap_objects (drop (S i) h)). intros bl.
  rewrite insert_take_drop by (by eapply lookup_lt_Some). unfold heap_objects. rewrite bind_app, bind_cons.
  by rewrite (assoc_L (++)), (Permutation_app_comm (_ ≫= live) (live _)), <- (assoc_L (++)).
Qed.

Lemma with_same u : with_blocks u (um_blocks u) = u.
Proof. by destruct u. Qed.

Lemma insert_same h i u : h !! i = Some u -> <[i := with_blocks u (um_blocks u)]> h = h.
Proof. rewrite with_same. apply list_insert_id. Qed.

Lemma heap_objects_add h i u bl x :
  h !! i = Some u -> objects bl ≡ₚ x :: objects (um_blocks u) ->
  heap_objects (<[i := with_blocks u bl]> h) ≡ₚ (x + 24, um_size u) :: heap_objects h.
Proof.
  intros Hi P. destruct (heap_objects_split h i u Hi) as (rest & E). rewrite (E bl).
  rewrite <- (insert_same h i u Hi) at 1. rewrite (E (um_blocks u)). unfold live. simpl. by rewrite P.
Qed.

Lemma heap_objects_remove h i u bl x :
  h !! i = Some u -> objects (um_blocks u) ≡ₚ x :: objects bl ->
  heap_objects h ≡ₚ (x + 24, um_size u) :: heap_objects (<[i := with_blocks u bl]> h).
Proof.
  intros Hi P. destruct (heap_objects_split h i u Hi) as (rest & E). rewrite (E bl).
  rewrite <- (insert_same h i u Hi) at 1. rewrite (E (um_blocks u)). unfold live. simpl. by rewrite P.
Qed.

(** Live objects are the clients' memory, and no two overlap. *)
Lemma heap_object_client s h x n a :
  pa_ok s -> heap_ok s h -> (x, n) ∈ heap_objects h -> in_range x n a -> pa_safe s a /\ ~ heap_meta h a.
Proof.
  intros Hok H (u & y & Hu & Hy & -> & ->)%in_heap_objects Ha. pose proof (hp_each _ _ H u Hu) as Um.
  assert (Ho : um_owns u a) by (apply (object_owned u s y); [done|done|unfold in_range in *; lia]).
  split; [by apply (owned_safe u)|]. intros (v & Hv & Hm). apply list_elem_of_lookup in Hu as (i & Hi), Hv as (j & Hj).
  destruct (decide (i = j)) as [<-|Hne].
  - rewrite Hi in Hj. injection Hj as <-. revert Hm. by apply (object_not_meta _ _ (mgr_size _ _ _ _ Um) (mem s) _ y); [apply Um|..].
  - apply (hp_apart _ _ H i j u v a Hi Hj Hne Ho). apply (meta_owned v s); [|done]. apply (hp_each _ _ H). by eapply list_elem_of_lookup_2.
Qed.

Lemma heap_objects_apart s h x n y k :
  heap_ok s h -> (x, n) ∈ heap_objects h -> (y, k) ∈ heap_objects h -> x <> y -> disjoint x n y k.
Proof.
  intros H (u & p & Hu & Hp & -> & ->)%in_heap_objects (v & q & Hv & Hq & -> & ->)%in_heap_objects Hne.
  pose proof (hp_each _ _ H u Hu) as Um. pose proof (hp_each _ _ H v Hv) as Vm.
  pose proof (mgr_size _ _ _ _ Um). pose proof (mgr_size _ _ _ _ Vm).
  apply list_elem_of_lookup in Hu as (i & Hi), Hv as (j & Hj). destruct (decide (i = j)) as [<-|Hij].
  - rewrite Hi in Hj. injection Hj as <-.
    pose proof (objects_apart _ _ (mgr_size _ _ _ _ Um) (mem s) _ p q (mk_blocks _ _ _ _ Um) Hp Hq ltac:(lia)). unfold disjoint in *. lia.
  - apply ranges_apart; [lia|lia|]. intros a Ha Hb. apply (hp_apart _ _ H i j u v a Hi Hj Hij).
    + apply (object_owned u s p); [done|done|unfold in_range in *; lia].
    + apply (object_owned v s q); [done|done|unfold in_range in *; lia].
Qed.

(** An address is that of one object only. *)
Lemma same_address s h x n k : heap_ok s h -> (x, n) ∈ heap_objects h -> (x, k) ∈ heap_objects h -> n = k.
Proof.
  intros H (u & p & Hu & Hp & -> & ->)%in_heap_objects (v & q & Hv & Hq & E & ->)%in_heap_objects. assert (q = p) as -> by lia.
  pose proof (hp_each _ _ H u Hu) as Um. pose proof (hp_each _ _ H v Hv) as Vm.
  apply list_elem_of_lookup in Hu as (i & Hi), Hv as (j & Hj). destruct (decide (i = j)) as [<-|Hij]; [rewrite Hi in Hj; by injection Hj as ->|].
  pose proof (mgr_size _ _ _ _ Um). pose proof (mgr_size _ _ _ _ Vm).
  destruct (hp_apart _ _ H i j u v (p + 24) Hi Hj Hij); [apply (object_owned u s p)|apply (object_owned v s p)]; try done; unfold in_range; lia.
Qed.

Lemma heap_length s h : heap_ok s h -> Z.of_nat (length h) <= 2 ^ 64 - 4096.
Proof.
  intros H. rewrite <- (length_fmap um_mgr). apply (nodup_range_length _ 4096); [|lia|].
  - apply NoDup_alt. intros i j x. rewrite !list_lookup_fmap. intros Hi Hj.
    destruct (h !! i) as [u|] eqn:Ei, (h !! j) as [v|] eqn:Ej; simplify_eq/=. destruct (decide (i = j)) as [|Hne]; [done|].
    destruct (hp_apart _ _ H i j u v (um_mgr u) Ei Ej Hne); left; unfold in_range; simplify_eq; lia.
  - intros x (u & -> & Hu)%list_elem_of_fmap. pose proof (mk_addr _ _ _ _ (hp_each _ _ H u Hu)). unfold PAGE_SIZE in *. lia.
Qed.

Lemma nchain_drop h (m : memory) p i u : nchain m p h -> h !! i = Some u ->
  nchain m (um_node u) (drop i h).
Proof.
  revert p i. induction h as [|v h IH]; intros p i; [done|]. cbn [nchain]. intros (-> & E & Hc) Hi. destruct i as [|i].
  - injection Hi as ->. done.
  - simpl. by apply (IH (ld64 m (um_node v + 8))).
Qed.

(** ** The operations *)

(** What an operation leaves of the rest of the machine. *)
Record heap_frame (h : list umgr) (s s' : kst) : Prop := {
  hf_quiet : quiet s s';
  hf_ok : pa_ok s';
  hf_safe : forall a, pa_safe s a -> pa_safe s' a;
  hf_owned : forall r n, pa_owned s r n -> pa_owned s' r n;
  hf_mem : agree (fun a => pa_safe s a /\ ~ heap_meta h a) (mem s) (mem s');
}.

Lemma heap_frame_refl h s : pa_ok s -> heap_frame h s s.
Proof. by split. Qed.

Lemma heap_frame_step h s t t' i u bl' :
  heap_frame h s t -> h !! i = Some u -> mgr_step (um_mgr u) (um_size u) (um_blocks u) bl' t t' -> heap_frame h s t'.
Proof.
  intros [Q O S W K] Hi St. split; [etrans; [exact Q|apply St]|apply St|intros a Ha; by apply St, S|intros r n Hr; by apply St, W|].
  etrans; [exact K|]. eapply agree_weaken; [|apply St]. intros a [Ha Hn]. split; [by apply S|]. intros Hm. apply Hn. exists u.
  split; [by eapply list_elem_of_lookup_2|done].
Qed.

(** The managers with objects of at least [size] bytes, but less than
    [limit], are used up. *)
Definition used_up (h : list umgr) (size limit : Z) : Prop := forall u, u ∈ h -> size <= um_size u < limit -> full u.

Definition alloc_post (size : Z) (h : list umgr) (s : kst) (r : Z) (s' : kst) : Prop :=
  exists h', heap_ok s' h' /\ heap_frame h s s' /\ um_size <$> h' = um_size <$> h /\
    ((r = NULL /\ h' = h /\ forall limit, used_up h size limit) \/
     (exists osz, r <> NULL /\ size <= osz /\ heap_objects h' ≡ₚ (r, osz) :: heap_objects h /\
        ((r, osz) ∉ heap_objects h) /\ used_up h size osz)).

(** A new object of one manager is none of the objects there were. *)
Lemma new_not_live s s' h i u bl' x :
  pa_ok s' -> heap_ok s h -> h !! i = Some u -> heap_ok s' (<[i := with_blocks u bl']> h) ->
  (x ∉ objects (um_blocks u)) -> x ∈ objects bl' -> (x + 24, um_size u) ∉ heap_objects h.
Proof.
  intros Hok H Hi H' Hx Hx' (v & y & Hv & Hy & E & E2)%in_heap_objects. assert (y = x) as -> by lia.
  apply list_elem_of_lookup in Hv as (j & Hj). destruct (decide (i = j)) as [<-|Hne]; [rewrite Hi in Hj; by injection Hj as <-|].
  assert (Hi' : <[i := with_blocks u bl']> h !! i = Some (with_blocks u bl')) by (apply list_lookup_insert_eq; by eapply lookup_lt_Some).
  assert (Hj' : <[i := with_blocks u bl']> h !! j = Some v) by (by rewrite list_lookup_insert_ne).
  pose proof (hp_each _ _ H' _ (list_elem_of_lookup_2 _ _ _ Hi')) as Um. pose proof (mgr_size _ _ _ _ Um).
  apply (hp_apart _ _ H' i j _ v (x + 24) Hi' Hj' Hne).
  - apply (object_owned _ s' x); [done|done|unfold in_range; simpl in *; lia].
  - apply (object_owned _ s x); [apply (hp_each _ _ H); by eapply list_elem_of_lookup_2|done|unfold in_range; simpl in *; lia].
Qed.

Lemma sorted_before h i j u v : StronglySorted Z.le (um_size <$> h) -> h !! i = Some u -> h !! j = Some v ->
  um_size v < um_size u -> (j < i)%nat.
Proof.
  intros Hs Hi Hj Hlt. destruct (decide (j < i)%nat) as [|Hn]; [done|]. exfalso. destruct (decide (i = j)) as [<-|Hne].
  { rewrite Hi in Hj. injection Hj as <-. lia. }
  assert (um_size u <= um_size v); [|lia]. revert i j Hi Hj Hn Hne Hlt. induction h as [|w h IH]; intros i j Hi Hj Hn Hne Hlt; [done|].
  rewrite fmap_cons in Hs. apply StronglySorted_inv in Hs as [Hs Hf]. destruct i as [|i], j as [|j]; [lia| |lia|].
  - injection Hi as ->. rewrite Forall_forall in Hf. apply Hf. apply list_elem_of_fmap. exists v. split; [done|]. by eapply list_elem_of_lookup_2.
  - by apply (IH Hs i j); [..|lia|lia|].
Qed.

(** The object allocator called on a manager of the heap. *)
Lemma wp_heap_object_alloc h s t i u size :
  hart_can 2 s -> heap_frame h s t -> heap_ok t h -> h !! i = Some u -> size <= um_size u ->
  wp (kmem_object_alloc (um_mgr u)) (fun r t' => heap_frame h s t' /\
    ((r = NULL /\ heap_ok t' h /\ full u) \/
     (exists h', r <> NULL /\ heap_ok t' h' /\ um_size <$> h' = um_size <$> h /\
        heap_objects h' ≡ₚ (r, um_size u) :: heap_objects h /\ ((r, um_size u) ∉ heap_objects h)))) t.
Proof.
  intros Hh F H Hi Hsz. pose proof (hf_ok _ _ _ F) as Hok. pose proof (hp_each _ _ H u (list_elem_of_lookup_2 _ _ _ Hi)) as Um.
  eapply wp_mono; [apply (kmem_object_alloc_step _ _ (mgr_size _ _ _ _ Um) (um_blocks u)); [by eapply quiet_can; [apply F|]|done|done]|].
  intros r t' (bl' & St & Hr). pose proof (heap_step h i u bl' t t' Hok H Hi St) as H'. split; [by eapply heap_frame_step|].
  destruct Hr as [(-> & -> & Hf)|(x & -> & Hx & P)].
  - left. rewrite insert_same in H' by done. done.
  - right. exists (<[i := with_blocks u bl']> h). assert (Hin : x ∈ objects bl') by (rewrite P; set_solver). split_and!.
    + pose proof (ms_mgr _ _ _ _ _ _ St) as Um'. pose proof Um' as [_ _ _ _ Bs _].
      destruct (objects_slot _ _ (mgr_size _ _ _ _ Um) _ _ x Bs Hin) as (b & Hb & _ & _ & Bx).
      pose proof (bk_run _ _ _ _ (bs_each _ _ _ _ Bs b Hb)) as (_ & _ & Hlo & _). unfold VA_KERNEL_BEGIN, NULL in *. lia.
    + done.
    + by apply sizes_blocks.
    + by apply heap_objects_add.
    + apply (new_not_live t t' h i u bl' x); try done. apply St.
Qed.

(** [kmem_alloc] walks the managers until one has an object left. *)
Definition alloc_walk (size : Z) (h : list umgr) (s : kst) (n : Z) (x : Z * Z) (t : kst) : Prop :=
  let '(node, r) := x in
  (r = NULL /\ exists k, (k <= length h)%nat /\ n = Z.of_nat (length h - k) + 1 /\ nchain (mem t) node (drop k h) /\
     heap_ok t h /\ heap_frame h s t /\ forall j u, h !! j = Some u -> (j < k)%nat -> size <= um_size u -> full u) \/
  (n = 0 /\ r <> NULL /\ alloc_post size h s r t).

Lemma walk_next size h s t k u :
  h !! k = Some u -> heap_ok t h -> heap_frame h s t ->
  (forall j v, h !! j = Some v -> (j < S k)%nat -> size <= um_size v -> full v) ->
  alloc_walk size h s (Z.of_nat (length h - S k) + 1) (ld64 (mem t) (um_node u + 8), NULL) t.
Proof.
  intros Hk H F Hf. left. split; [done|]. exists (S k). pose proof (lookup_lt_Some _ _ _ Hk). split_and!; [lia|done| |done|done|done].
  pose proof (nchain_drop h _ _ k u (hp_list _ _ H) Hk) as Hc. rewrite (drop_S h u k Hk) in Hc. by destruct Hc as (_ & _ & Hc).
Qed.

Lemma wp_kmem_alloc size h s :
  hart_can 2 s -> pa_ok s -> heap_ok s h -> wp (kmem_alloc size) (alloc_post size h s) s.
Proof.
  intros Hh Hok H. unfold kmem_alloc. pose proof sym_data_image as Hsym. rewrite Forall_forall in Hsym.
  destruct (Hsym (sym_uni_managers, 24)) as [Hlo Hhi]; [set_solver|]. unfold VA_KERNEL_IMG_BEGIN in Hlo.
  wp_step. wp_step; [unfold PAGE_SIZE; lia|]. pose proof (heap_length s h H).
  apply (wp_while_n (alloc_walk size h s) _ (Z.of_nat (length h) + 1)); [|lia|].
  { left. split; [done|]. exists 0%nat. split_and!; [lia|lia|apply H|done|by apply heap_frame_refl|intros j u _ Hj; lia]. }
  intros n [node r] t [(-> & k & Hk & -> & Hc & Ht & F & Hf)|(-> & Hr & Hpost)] _; [|rewrite (proj2 (Z.eqb_neq _ _) Hr), andb_false_r; by wp_steps].
  destruct (h !! k) as [u|] eqn:Ek.
  2: { rewrite drop_ge in Hc by (by apply lookup_ge_None). simpl in Hc. subst node. simpl. wp_steps. exists h. split_and!; [done|done|done|].
       left. split_and!; [done|done|]. intros limit u Hu Hs. apply list_elem_of_lookup in Hu as (j & Hj). apply (Hf j); [done| |lia].
       apply lookup_ge_None in Ek. apply lookup_lt_Some in Hj. lia. }
  rewrite (drop_S h u k Ek) in Hc. destruct Hc as (-> & Em & _). pose proof (list_elem_of_lookup_2 _ _ _ Ek) as Hu.
  pose proof (hp_nodes _ _ Ht u Hu) as Hn. pose proof (hp_each _ _ Ht u Hu) as Um. pose proof (mk_addr _ _ _ _ Um) as [Ha _].
  rewrite (proj2 (Z.eqb_neq _ NULL)) by (unfold NULL, PAGE_SIZE in *; lia). wp_steps. rewrite Em. wp_steps.
  rewrite (proj1 (mk_osz _ _ _ _ Um)). pose proof (lookup_lt_Some _ _ _ Ek). destruct (Z.leb_spec size (um_size u)) as [Hle|Hgt].
  - eapply wp_mono; [by apply (wp_heap_object_alloc h s t k u size)|].
    intros r t' (F' & [(-> & Ht' & Hfull)|(h' & Hr & Ht' & E & P & Hnew)]); wp_steps.
    + exists (Z.of_nat (length h - S k) + 1). split; [lia|]. apply walk_next; try done. intros j v Hj Hjk Hs.
      destruct (decide (j = k)) as [->|]; [rewrite Ek in Hj; by injection Hj as <-|apply (Hf j); [done|lia|done]].
    + exists 0. split; [lia|]. right. split_and!; [done|done|]. exists h'. split_and!; [done|done|done|]. right. exists (um_size u).
      split_and!; [done|done|done|done|]. intros v Hv Hs. apply list_elem_of_lookup in Hv as (j & Hj). apply (Hf j); [done| |lia].
      apply (sorted_before h k j u v); [apply H|done|done|lia].
  - wp_steps. exists (Z.of_nat (length h - S k) + 1). split; [lia|]. apply walk_next; try done. intros j v Hj Hjk Hs.
    destruct (decide (j = k)) as [->|]; [rewrite Ek in Hj; injection Hj as <-; lia|apply (Hf j); [done|lia|done]].
Qed.

(** [kmem_free] takes one live object back. *)
Lemma wp_kmem_free h s x n :
  hart_can 2 s -> pa_ok s -> heap_ok s h -> (x, n) ∈ heap_objects h ->
  wp (kmem_free x) (fun _ s' => exists h', heap_ok s' h' /\ heap_frame h s s' /\
    agree (fun a => ~ heap_meta h a) (mem s) (mem s') /\ um_size <$> h' = um_size <$> h /\
    heap_objects h ≡ₚ (x, n) :: heap_objects h') s.
Proof.
  intros Hh Hok H (u & y & Hu & Hy & -> & ->)%in_heap_objects. apply list_elem_of_lookup in Hu as (i & Hi).
  pose proof (hp_each _ _ H u (list_elem_of_lookup_2 _ _ _ Hi)) as Um. unfold kmem_free.
  eapply wp_mono; [by apply (kmem_object_free_step (um_mgr u) (um_size u) (mgr_size _ _ _ _ Um) (um_blocks u))|].
  intros [] s' (bl' & St & K & P). exists (<[i := with_blocks u bl']> h). split_and!.
  - by eapply heap_step.
  - by apply (heap_frame_step h s s s' i u bl' (heap_frame_refl h s Hok) Hi).
  - eapply agree_weaken; [|exact K]. intros a Hn Hm. apply Hn. exists u. split; [by eapply list_elem_of_lookup_2|done].
  - by apply sizes_blocks.
  - by apply heap_objects_remove.
Qed.
End heap.
