(* ===== verification/Proc.v ===== *)
(** * proc/proc.c, proc/scheduler.c, sleeplock.c: processes

    [struct proc_struct]: [pid] 0, [state] 4, [killed] 8, [exit_state] 12,
    [prv_proc] 16, [nxt_proc] 24, [sleeping_chan] 32, [parent] 40,
    [kstack_vaddr] 48, [stack_vaddr] 56, [heap_vaddr] 64, [program_break] 72,
    [pgtbl] 80, [trapframe] 88, [context] 96; 208 bytes.
    [struct proc_manager_struct]: [lock] 0, [pid_counter] 24, [proc_list] 32
    (a process used as list head), [root_proc] 240, [proc_object_manager] 248.
    [struct trapframe_struct]: 36 eight-byte fields, [kernel_sp] 8, [user_pc]
    24, [sp] 48, [a0] 112.

    Switching contexts hands the hart to other code until the saved context
    is resumed; what that code does is the parameter [proc_switch]. *)

From S2P Require Import Prelude Memory Machine Lists Strings Hal Lock Console Buddy Object Kmem Csr Vmem.

(** [enum proc_state] *)
Inductive proc_state := PROC_SLEEPING | PROC_RUNNABLE | PROC_RUNNING | PROC_STOPPED | PROC_ZOMBIE | PROC_ALLOCATED.

Definition state_code (st : proc_state) : Z :=
  match st with
  | PROC_SLEEPING => 0 | PROC_RUNNABLE => 1 | PROC_RUNNING => 2
  | PROC_STOPPED => 3 | PROC_ZOMBIE => 4 | PROC_ALLOCATED => 5
  end.

Definition SCHEDULING_TIME_SPAN : Z := 1000000.
Definition sizeof_proc : Z := 208.
Definition sizeof_trapframe : Z := 288.
Definition sizeof_context : Z := 112.

Class Switch := proc_switch : Z -> Z -> M unit.

Section proc.
Context {L : KernelLayout} {C : Code} {W : Switch}.

(** Fields of a process. *)
Definition p_pid (p : Z) : Z := p.
Definition p_state (p : Z) : Z := p + 4.
Definition p_killed (p : Z) : Z := p + 8.
Definition p_exit_state (p : Z) : Z := p + 12.
Definition p_nxt (p : Z) : Z := p + 24.
Definition p_chan (p : Z) : Z := p + 32.
Definition p_parent (p : Z) : Z := p + 40.
Definition p_kstack (p : Z) : Z := p + 48.
Definition p_stack (p : Z) : Z := p + 56.
Definition p_heap (p : Z) : Z := p + 64.
Definition p_brk (p : Z) : Z := p + 72.
Definition p_pgtbl (p : Z) : Z := p + 80.
Definition p_trapframe (p : Z) : Z := p + 88.
Definition p_context (p : Z) : Z := p + 96.
Definition tf_kernel_sp (f : Z) : Z := f + 8.
Definition tf_user_pc (f : Z) : Z := f + 24.
Definition tf_sp (f : Z) : Z := f + 48.
Definition tf_a0 (f : Z) : Z := f + 112.

Definition pm_lock : Z := sym_proc_manager.
Definition pm_pid_counter : Z := sym_proc_manager + 24.
Definition pm_proc_list : Z := sym_proc_manager + 32.
Definition pm_root_proc : Z := sym_proc_manager + 240.
Definition pm_object_manager : Z := sym_proc_manager + 248.

Definition set_state (p : Z) (st : proc_state) : M unit := wr 4 (p_state p) (state_code st).
Definition is_state (p : Z) (st : proc_state) : M bool := x ← rd 4 (p_state p); mret (x =? state_code st).

(** [current_hart()->running_proc] and [current_hart()->running_proc = p] *)
Definition get_running : M Z := current_hart;; gets (fun s => running_proc (this_hart s)).
Definition set_running (p : Z) : M unit := current_hart;; modify (fun s =>
  let h := this_hart s in put_hart (mk_hart (enabled h) p (context h) (trap_pushoff_dep h) (trap_enabled h)) s).

(** ** The list of processes *)

Definition proc_insert (head node : Z) : M unit := dl_insert 16 24 "proc_insert - null parameters" head node.
Definition proc_detach (node : Z) : M unit := dl_detach 16 24 "proc_detach - null parameters" node.

Definition proc_link (p : Z) : M unit :=
  spinlock_acquire pm_lock;;
  r ← proc_insert pm_proc_list p;
  spinlock_release pm_lock;;
  mret r.

Definition proc_unlink (p : Z) : M unit :=
  spinlock_acquire pm_lock;;
  r ← proc_detach p;
  spinlock_release pm_lock;;
  mret r.

(** [for (p = proc_manager.proc_list.nxt_proc; p != NULL; p = p->nxt_proc)]
    with a body that may stop the loop with a result. *)
Definition for_procs {R} (body : Z -> M (option R)) : M (option R) :=
  first ← rd 8 (p_nxt pm_proc_list);
  while (fun p =>
      if p =? NULL then mret (inr None) else
      r ← body p;
      match r with
      | Some r => mret (inr (Some r))
      | None => nxt ← rd 8 (p_nxt p); mret (inl nxt)
      end) first.

(** The process is returned with the manager's lock held. *)
Definition proc_lock_and_find (pid : Z) : M Z :=
  spinlock_acquire pm_lock;;
  found ← for_procs (fun i => x ← rd 4 (p_pid i); mret (if x =? u32 pid then Some i else None));
  match found with
  | None => spinlock_release pm_lock;; mret NULL
  | Some p => mret p
  end.

(** ** Creating and destroying *)

Definition proc_create : M Z :=
  mgr ← rd 8 pm_object_manager;
  p ← kmem_object_alloc mgr;
  if p =? NULL then mret (-1) else
  spinlock_acquire pm_lock;;
  c ← rd 4 pm_pid_counter;
  wr 4 pm_pid_counter (u32 (c + 1));;
  new_pid ← rd 4 pm_pid_counter;
  spinlock_release pm_lock;;
  wr 4 (p_pid p) new_pid;;
  set_state p PROC_ALLOCATED;;
  wr 4 (p_killed p) 0;;
  wr 4 (p_exit_state p) 0;;
  root ← rd 8 pm_root_proc;
  wr 8 (p_parent p) root;;
  wr 8 (p_stack p) VA_USER_USER_HANDLER_BEGIN;;
  wr 8 (p_heap p) VA_USER_BEGIN;;
  pgtbl ← vm_user_make_pagetable;
  wr 8 (p_pgtbl p) pgtbl;;
  kstack ← kmem_alloc_pages 0;
  wr 8 (p_kstack p) kstack;;
  frame ← kmem_alloc_pages 0;
  wr 8 (p_trapframe p) frame;;
  frame ← rd 8 (p_trapframe p);
  memset frame 0 sizeof_trapframe;;
  wr 8 (tf_user_pc frame) VA_USER_BEGIN;;
  stack ← rd 8 (p_stack p);
  wr 8 (tf_sp frame) stack;;
  kstack ← rd 8 (p_kstack p);
  wr 8 (tf_kernel_sp frame) (kstack +l PAGE_SIZE);;
  pgtbl ← rd 8 (p_pgtbl p);
  vm_mappages pgtbl VA_USER_TRAPFRAME_BEGIN (PMA_VA2PA frame) sizeof_trapframe (PTE_FLAG_R |l PTE_FLAG_W);;
  memset (p_context p) 0 sizeof_context;;
  kstack ← rd 8 (p_kstack p);
  wr 8 (p_context p + 8) (kstack +l PAGE_SIZE);;
  wr 8 (p_context p) (sym_fn "utrap_return");;
  proc_link p;;
  pid ← rd 4 (p_pid p);
  mret (s32 pid).

Definition proc_reap_detached (p : Z) : M unit :=
  pgtbl ← rd 8 (p_pgtbl p);
  vm_unmappages pgtbl VA_USER_TRAPFRAME_BEGIN (PAGE_ROUND_UP sizeof_trapframe >>l PAGE_SHIFT) true;;
  pgtbl ← rd 8 (p_pgtbl p);
  vm_unmap_user_handler pgtbl;;
  kstack ← rd 8 (p_kstack p);
  kmem_free_pages kstack 1;;
  pgtbl ← rd 8 (p_pgtbl p);
  stack ← rd 8 (p_stack p);
  vm_unmappages pgtbl stack ((VA_USER_USER_HANDLER_BEGIN -l stack) >>l PAGE_SHIFT) true;;
  pgtbl ← rd 8 (p_pgtbl p);
  heap ← rd 8 (p_heap p);
  vm_unmappages pgtbl VA_USER_BEGIN ((heap -l VA_USER_BEGIN) >>l PAGE_SHIFT) true;;
  kmem_free p.

Definition proc_reap (pid : Z) : M unit :=
  p ← proc_lock_and_find pid;
  if p =? NULL then mret tt else
  proc_detach p;;
  spinlock_release pm_lock;;
  proc_reap_detached p.

Definition proc_set_state (pid : Z) (st : proc_state) : M unit :=
  p ← proc_lock_and_find pid;
  if p =? NULL then mret tt else
  set_state p st;;
  spinlock_release pm_lock.

Definition proc_extend_stack (pid page_order : Z) : M Z :=
  p ← proc_lock_and_find pid;
  if p =? NULL then mret NULL else
  extended_pages ← kmem_alloc_pages page_order;
  let size := 1 <<l (page_order + PAGE_SHIFT) in
  stack ← rd 8 (p_stack p);
  wr 8 (p_stack p) (stack -l size);;
  pgtbl ← rd 8 (p_pgtbl p);
  stack ← rd 8 (p_stack p);
  vm_mappages pgtbl stack (PMA_VA2PA extended_pages) size (PTE_FLAG_R |l PTE_FLAG_W |l PTE_FLAG_U);;
  spinlock_release pm_lock;;
  mret extended_pages.

Definition proc_extend_heap (pid page_order mem_flag : Z) : M Z :=
  p ← proc_lock_and_find pid;
  if p =? NULL then mret NULL else
  extended_pages ← kmem_alloc_pages page_order;
  let size := 1 <<l (page_order + PAGE_SHIFT) in
  pgtbl ← rd 8 (p_pgtbl p);
  heap ← rd 8 (p_heap p);
  vm_mappages pgtbl heap (PMA_VA2PA extended_pages) size (mem_flag |l PTE_FLAG_U);;
  heap ← rd 8 (p_heap p);
  wr 8 (p_heap p) (heap +l size);;
  spinlock_release pm_lock;;
  mret extended_pages.

Definition proc_is_killed (p : Z) : M Z :=
  spinlock_acquire pm_lock;;
  killed ← rd 4 (p_killed p);
  spinlock_release pm_lock;;
  mret killed.

(** ** scheduler.c *)

Definition scheduler_switch : M unit :=
  p ← get_running;
  current_hart;;
  interrupt_status ← gets (fun s => trap_enabled (this_hart s));
  h ← current_hart;
  proc_switch (p_context p) (h + 16);;
  current_hart;;
  modify (fun s => put_hart (set_trap_enabled interrupt_status (this_hart s)) s).

Definition scheduler_yield : M unit :=
  p ← get_running;
  spinlock_acquire pm_lock;;
  set_state p PROC_RUNNABLE;;
  spinlock_release pm_lock;;
  scheduler_switch.

(** One round of the scheduler's endless loop on hart [h]: every process found
    runnable is run once.  The lock is held whenever the loop over the
    processes ends, so the code's flag [locked] is then always set. *)
Definition run_enter (p : Z) : M unit :=
  set_state p PROC_RUNNING;;
  spinlock_release pm_lock;;
  set_running p.

Definition run_proc (h p : Z) : M unit :=
  run_enter p;;
  proc_switch (h + 16) (p_context p);;
  set_running NULL;;
  spinlock_acquire pm_lock.

Definition scheduler_round (h : Z) : M unit :=
  enable_interrupt;;
  spinlock_acquire pm_lock;;
  for_procs (fun p =>
    b ← is_state p PROC_RUNNABLE;
    (if b : bool then run_proc h p else mret tt);;
    mret (@None unit));;
  spinlock_release pm_lock.

Definition scheduler : M unit :=
  h ← current_hart;
  set_running NULL;;
  while (fun _ => scheduler_round h;; mret (inl tt)) tt.

(** ** Sleeping and waking *)

(** Going to sleep, up to the switch to the scheduler, and waking up again. *)
Definition sleep_enter (p chan lk : Z) : M unit :=
  (if negb (lk =? pm_lock) then
     spinlock_acquire pm_lock;;
     (if negb (lk =? NULL) then spinlock_release lk else mret tt)
   else mret tt);;
  wr 8 (p_chan p) chan;;
  set_state p PROC_SLEEPING;;
  spinlock_release pm_lock.

Definition sleep_leave (p lk : Z) : M unit :=
  spinlock_acquire pm_lock;;
  wr 8 (p_chan p) NULL;;
  spinlock_release pm_lock;;
  (if negb (lk =? NULL) then spinlock_acquire lk else mret tt).

Definition proc_sleep (chan lk : Z) : M unit :=
  p ← get_running;
  sleep_enter p chan lk;;
  scheduler_switch;;
  sleep_leave p lk.

Definition wake_one (chan p : Z) : M unit :=
  c ← rd 8 (p_chan p);
  if c =? chan then
    b ← is_state p PROC_SLEEPING;
    if b : bool then set_state p PROC_RUNNABLE else mret tt
  else mret tt.

Definition proc_wakeup (chan : Z) : M unit :=
  spinlock_acquire pm_lock;;
  r ← (for_procs (fun p => wake_one chan p;; mret (@None unit));; mret tt);
  spinlock_release pm_lock;;
  mret r.

Definition proc_exit (status_code : Z) : M unit :=
  spinlock_acquire pm_lock;;
  p ← get_running;
  for_procs (fun e =>
    par ← rd 8 (p_parent e);
    (if par =? p then
       root ← rd 8 pm_root_proc;
       wr 8 (p_parent e) root;;
       par ← rd 8 (p_parent e);
       proc_wakeup par
     else mret tt);;
    mret (@None unit));;
  set_state p PROC_ZOMBIE;;
  wr 4 (p_exit_state p) status_code;;
  spinlock_release pm_lock;;
  par ← rd 8 (p_parent p);
  proc_wakeup par;;
  scheduler_switch.

Definition proc_kill (pid : Z) : M Z :=
  p ← proc_lock_and_find pid;
  if p =? NULL then mret (-1) else
  wr 4 (p_killed p) 1;;
  b ← is_state p PROC_SLEEPING;
  (if b : bool then set_state p PROC_RUNNABLE else mret tt);;
  spinlock_release pm_lock;;
  mret 0.

(** ** Forking and starting *)

Definition proc_fork : M Z :=
  p ← get_running;
  dup_pid ← proc_create;
  if dup_pid =? -1 then mret (-1) else
  dup ← proc_lock_and_find dup_pid;
  wr 8 (p_parent dup) p;;
  stack ← rd 8 (p_stack p);
  wr 8 (p_stack dup) stack;;
  heap ← rd 8 (p_heap p);
  wr 8 (p_heap dup) heap;;
  dframe ← rd 8 (p_trapframe dup);
  kernel_sp ← rd 8 (tf_kernel_sp dframe);
  frame ← rd 8 (p_trapframe p);
  memcpy dframe frame sizeof_trapframe;;
  wr 8 (tf_a0 dframe) 0;;
  wr 8 (tf_kernel_sp dframe) kernel_sp;;
  pgtbl ← rd 8 (p_pgtbl p);
  dpgtbl ← rd 8 (p_pgtbl dup);
  vm_uvmcpy pgtbl dpgtbl false;;
  set_state dup PROC_RUNNABLE;;
  spinlock_release pm_lock;;
  pid ← rd 4 (p_pid dup);
  mret (s32 pid).

Definition user_prog : list Z :=
  [0x1; 0x11; 0x6; 0xec; 0x22; 0xe8; 0x0; 0x10; 0xaa; 0x87; 0x23; 0x30; 0xb4; 0xfe; 0x23; 0x26; 0xf4; 0xfe; 0x81; 0x48; 0x1; 0x48;
   0x81; 0x47; 0x1; 0x47; 0x81; 0x46; 0x1; 0x46; 0x81; 0x45; 0x1; 0x45; 0x97; 0x0; 0x0; 0x0; 0xe7; 0x80; 0x0; 0x3; 0xe5; 0xb7;
   0x41; 0x11; 0x6; 0xe4; 0x22; 0xe0; 0x0; 0x8; 0x97; 0x0; 0x0; 0x0; 0xe7; 0x80; 0xc0; 0xfc; 0xaa; 0x87; 0x3e; 0x85; 0x97; 0x0;
   0x0; 0x0; 0xe7; 0x80; 0x80; 0x1; 0x1; 0x0; 0xa2; 0x60; 0x2; 0x64; 0x41; 0x1; 0x82; 0x80; 0x73; 0x0; 0x0; 0x0; 0x82; 0x80;
   0x85; 0x48; 0x73; 0x0; 0x0; 0x0; 0x82; 0x80; 0x89; 0x48; 0x73; 0x0; 0x0; 0x0; 0x82; 0x80; 0x8d; 0x48; 0x73; 0x0; 0x0; 0x0;
   0x82; 0x80; 0x91; 0x48; 0x73; 0x0; 0x0; 0x0; 0x82; 0x80; 0x95; 0x48; 0x73; 0x0; 0x0; 0x0; 0x82; 0x80; 0x99; 0x48; 0x73; 0x0;
   0x0; 0x0; 0x82; 0x80; 0x9d; 0x48; 0x73; 0x0; 0x0; 0x0; 0x82; 0x80; 0xa1; 0x48; 0x73; 0x0; 0x0; 0x0; 0x82; 0x80].

Definition proc_spawn_test_prog : M unit :=
  pid ← proc_create;
  image ← proc_extend_heap pid 0 (PTE_FLAG_R |l PTE_FLAG_X);
  proc_extend_stack pid 0;;
  for_up (length user_prog) 0 (fun i => wr 1 (image + i) (default 0 (user_prog !! Z.to_nat i)));;
  p ← proc_lock_and_find pid;
  frame ← rd 8 (p_trapframe p);
  pc ← rd 8 (tf_user_pc frame);
  wr 8 (tf_user_pc frame) (pc +l 0x2c);;
  spinlock_release pm_lock;;
  proc_set_state pid PROC_RUNNABLE.

Definition proc_init : M unit :=
  printf ("[proc]initializing user space" ++ nl) [];;
  spinlock_init pm_lock (sym_str "proc_mgr_lock");;
  mgr ← kmem_object_create_manager sizeof_proc (sym_str "proc_struct");
  wr 8 pm_object_manager mgr;;
  wr 8 (p_nxt pm_proc_list) NULL;;
  wr 8 (pm_proc_list + 16) NULL;;
  proc_spawn_test_prog.

(** ** sleeplock.c: [struct sleeplock { uint locked; struct spinlock lk; char
    *description; int pid; }] at 0, 8, 32 and 40 *)

Definition sl_locked (lk : Z) : Z := lk.
Definition sl_lk (lk : Z) : Z := lk + 8.
Definition sl_pid (lk : Z) : Z := lk + 40.

Definition sleeplock_init (lk description : Z) : M unit :=
  spinlock_init (sl_lk lk) (sym_str "sleeplock_spinlock");;
  wr 8 (lk + 32) description;;
  wr 4 (sl_locked lk) 0;;
  wr 4 (sl_pid lk) 0.

Definition sleeplock_acquire (lk : Z) : M unit :=
  spinlock_acquire (sl_lk lk);;
  while (fun _ =>
      l ← rd 4 (sl_locked lk);
      if negb (l =? 0) then proc_sleep lk (sl_lk lk);; mret (inl tt) else mret (inr tt)) tt;;
  wr 4 (sl_locked lk) 1;;
  p ← get_running;
  pid ← rd 4 (p_pid p);
  wr 4 (sl_pid lk) pid;;
  spinlock_release (sl_lk lk).

Definition sleeplock_release (lk : Z) : M unit :=
  spinlock_acquire (sl_lk lk);;
  proc_wakeup lk;;
  wr 4 (sl_locked lk) 0;;
  wr 4 (sl_pid lk) 0;;
  spinlock_release (sl_lk lk).

Definition is_holding_sleeplock (lk : Z) : M bool :=
  spinlock_acquire (sl_lk lk);;
  l ← rd 4 (sl_locked lk);
  res ← (if negb (l =? 0) then
           pid ← rd 4 (sl_pid lk); p ← get_running; q ← rd 4 (p_pid p); mret (pid =? q)
         else mret false);
  spinlock_release (sl_lk lk);;
  mret res.
End proc.
