(* ===== verification/Trap.v ===== *)
(** * proc/syscall.c, trap/trap.c: system calls and traps

    The system calls read their arguments from the trap frame of the running
    process ([a0] at 112 to [a7] at 168) and put their result into [a0].  The
    tables of handlers is [syscall_handlers]; an index outside it reads past
    the array.  The jump to the user-mode return stub is a call through a
    pointer. *)

From S2P Require Import Prelude Memory Machine Lists Strings Hal Lock Console Buddy Object Kmem Csr Sbi Vmem Proc.

Section trap.
Context {L : KernelLayout} {C : Code} {W : Switch} {F : Firmware}.

Definition running_frame : M Z := p ← get_running; rd 8 (p_trapframe p).

(** ** Clock *)

Definition tick_init : M unit :=
  spinlock_init sym_tick_lock (sym_str "tick_lock");;
  wr 8 sym_tick 0.

Definition tick_handler : M unit :=
  spinlock_acquire sym_tick_lock;;
  r ← (t ← rd 8 sym_tick; wr 8 sym_tick (t +l 1));
  spinlock_release sym_tick_lock;;
  mret r;;
  proc_wakeup sym_tick.

Definition ktrap_schedule_timer (delta : Z) : M unit :=
  nxt ← r_time;
  sbi_set_timer (nxt +l delta);;
  mret tt.

(** ** System calls *)

Definition sys_debug_yell : M Z :=
  p ← get_running;
  pid ← rd 4 (p_pid p);
  printf ("[sys_debug]pid #%d yelling with trapframe: " ++ nl) [AInt pid];;
  f ← rd 8 (p_trapframe p);
  print_buffer f sizeof_trapframe;;
  f ← rd 8 (p_trapframe p);
  a0 ← rd 8 (f + 112); a1 ← rd 8 (f + 120); a2 ← rd 8 (f + 128); a3 ← rd 8 (f + 136);
  a4 ← rd 8 (f + 144); a5 ← rd 8 (f + 152); a6 ← rd 8 (f + 160); a7 ← rd 8 (f + 168);
  printf ("a0 = %p, a1 = %p, a2 = %p, a3 = %p, a4 = %p, a5 = %p, a6 = %p, a7 = %p." ++ nl)
    [AInt a0; AInt a1; AInt a2; AInt a3; AInt a4; AInt a5; AInt a6; AInt a7];;
  c ← getchar;
  printf ("System got an %c" ++ nl) [AInt c];;
  mret 0.

Definition sys_exit : M Z :=
  f ← running_frame;
  a0 ← rd 8 (tf_a0 f);
  proc_exit (s32 a0);;
  mret 0.

Definition sys_fork : M Z := r ← proc_fork; mret (u64 r).

Definition sys_kill : M Z :=
  f ← running_frame;
  a0 ← rd 8 (tf_a0 f);
  r ← proc_kill (s32 a0);
  mret (u64 r).

Definition syscall_sleep : M Z :=
  f ← running_frame;
  ticks ← rd 8 (tf_a0 f);
  spinlock_acquire sym_tick_lock;;
  start ← rd 8 sym_tick;
  r ← while (fun _ =>
      t ← rd 8 sym_tick;
      if t -l start <? ticks then
        p ← get_running;
        k ← proc_is_killed p;
        if negb (k =? 0) then spinlock_release sym_tick_lock;; mret (inr (Some (u64 (-1))))
        else proc_sleep sym_tick sym_tick_lock;; mret (inl tt)
      else mret (inr None)) tt;
  match r with
  | Some r => mret r
  | None => spinlock_release sym_tick_lock;; mret 0
  end.

Definition syscall_uptime : M Z :=
  spinlock_acquire sym_tick_lock;;
  ret ← rd 8 sym_tick;
  spinlock_release sym_tick_lock;;
  mret ret.

(** One search for a terminated child of [cp]: either the call is over with a
    result, or whether [cp] has children at all. *)
Definition wait_scan (cp ret_addr : Z) : M (Z + bool) :=
  first ← rd 8 (p_nxt pm_proc_list);
  while (fun '(p, children) =>
      if p =? NULL then mret (inr (inr children)) else
      par ← rd 8 (p_parent p);
      if par =? cp then
        b ← is_state p PROC_ZOMBIE;
        if b : bool then
          ret_pid ← rd 4 (p_pid p);
          bad ← (if negb (ret_addr =? NULL) then
                   pgtbl ← rd 8 (p_pgtbl cp);
                   r ← vm_memcpyout pgtbl ret_addr (p_exit_state p) 4;
                   mret (negb (r =? 0))
                 else mret false);
          if bad : bool then spinlock_release pm_lock;; mret (inr (inl (u64 (-1))))
          else
            proc_detach p;;
            proc_reap_detached p;;
            spinlock_release pm_lock;;
            mret (inr (inl (u64 (s32 ret_pid))))
        else nxt ← rd 8 (p_nxt p); mret (inl (nxt, true))
      else nxt ← rd 8 (p_nxt p); mret (inl (nxt, children)))
    (first, false).

Definition syscall_wait : M Z :=
  spinlock_acquire pm_lock;;
  while (fun _ =>
      cp ← get_running;
      f ← rd 8 (p_trapframe cp);
      ret_addr ← rd 8 (tf_a0 f);
      r ← wait_scan cp ret_addr;
      match r with
      | inl r => mret (inr r)
      | inr children =>
          killed ← (if children : bool then rd 4 (p_killed cp) else mret 0);
          if negb children || negb (killed =? 0) then spinlock_release pm_lock;; mret (inr (u64 (-1)))
          else proc_sleep cp pm_lock;; mret (inl tt)
      end) tt.

(** The order of the block [sbrk] asks for: [PAGE_SIZE << page_order] is
    computed in [int]. *)
Definition sbrk_order (brk heap : Z) : M Z :=
  while (fun page_order =>
      if heap +l u64 (s32 (Z.shiftl PAGE_SIZE page_order)) <? brk then mret (inl (page_order + 1)) else mret (inr page_order)) 0.

Definition syscall_sbrk : M Z :=
  p ← get_running;
  f ← rd 8 (p_trapframe p);
  a0 ← rd 8 (tf_a0 f);
  let delta := s64 a0 in
  spinlock_acquire pm_lock;;
  heap ← rd 8 (p_heap p);
  if (delta <? 0) && (heap -l VA_USER_BEGIN <? u64 (- delta)) then
    spinlock_release pm_lock;;
    rd 8 (p_brk p)
  else
    brk ← rd 8 (p_brk p);
    heap ← rd 8 (p_heap p);
    (if heap <? brk +l delta then
       page_order ← sbrk_order (brk +l delta) heap;
       addr ← kmem_alloc_pages page_order;
       when (negb (addr =? NULL))
         (pgtbl ← rd 8 (p_pgtbl p);
          heap ← rd 8 (p_heap p);
          vm_mappages pgtbl heap (PMA_VA2PA addr) (u64 (s32 (Z.shiftl PAGE_SIZE page_order)))
            (PTE_FLAG_R |l PTE_FLAG_W |l PTE_FLAG_U);;
          heap ← rd 8 (p_heap p);
          wr 8 (p_heap p) (heap +l u64 (s32 (Z.shiftl PAGE_SIZE page_order)));;
          brk ← rd 8 (p_brk p);
          wr 8 (p_brk p) (brk +l delta))
     else if brk +l delta <=? heap -l PAGE_SIZE then
       wr 8 (p_brk p) (brk +l delta);;
       brk ← rd 8 (p_brk p);
       heap ← rd 8 (p_heap p);
       let new_end := PAGE_ROUND_UP brk in
       let current_end := PAGE_ROUND_DOWN heap in
       let cnt := (current_end -l new_end) >>l PAGE_SHIFT in
       pgtbl ← rd 8 (p_pgtbl p);
       vm_unmappages pgtbl new_end cnt true
     else mret tt);;
    spinlock_release pm_lock;;
    rd 8 (p_brk p).

Definition syscall_getpid : M Z := p ← get_running; rd 4 (p_pid p).

Definition syscall_handlers : list (M Z) :=
  [sys_debug_yell; sys_exit; sys_fork; sys_kill; syscall_sleep; syscall_uptime; syscall_wait; syscall_sbrk; syscall_getpid].

Definition syscall_handler : M unit :=
  frame ← running_frame;
  a7 ← rd 8 (frame + 168);
  let call_typ := s32 a7 in
  r ← (if call_typ <? 0 then fault call_typ else
       match syscall_handlers !! Z.to_nat call_typ with Some f => f | None => fault call_typ end);
  wr 8 (tf_a0 frame) r.

(** ** Traps from the kernel *)

Definition ktrap_install_handler : M unit := w_stvec (sym_fn "kernel_handler").

(** Timer interrupt, up to the point where the two handlers differ. *)
Definition timer_trap : M unit :=
  ktrap_schedule_timer SCHEDULING_TIME_SPAN;;
  id ← current_hart_id;
  (if id =? 0 then tick_handler else mret tt);;
  sip ← r_sip;
  w_sip (sip &l not64 32).

Definition ktrap_handler : M unit :=
  sepc ← r_sepc;
  sstatus ← r_sstatus;
  cause ← r_scause;
  (if cause =? SCAUSE_STI then
     timer_trap;;
     p ← get_running;
     if negb (p =? NULL) then
       p ← get_running;
       b ← is_state p PROC_RUNNING;
       if b : bool then scheduler_yield else mret tt
     else mret tt
   else if cause =? SCAUSE_SEI then hal_trap_handler cause;; mret tt
   else
     tval ← r_stval;
     printf ("[trap]unknown cause: %p, stval: %p, sepc: %p" ++ nl) [AInt cause; AInt tval; AInt sepc];;
     panic ("ktrap_handler" ++ nl));;
  w_sepc sepc;;
  w_sstatus sstatus.

(** ** Traps from user programs *)

Definition utrap_return : M unit :=
  p ← get_running;
  disable_interrupt;;
  let uhdlr_addr := kimage "KERNEL_USER_HANDLER_VA" -l kimage "KERNEL_USER_HANDLER_PA_BEGIN" +l VA_USER_USER_HANDLER_BEGIN in
  w_stvec uhdlr_addr;;
  f ← rd 8 (p_trapframe p);
  satp ← r_satp;
  wr 8 f satp;;
  wr 8 (f + 16) (sym_fn "utrap_handler");;
  id ← r_tp;
  wr 8 (f + 32) id;;
  st ← r_sstatus;
  w_sstatus ((st &l not64 SSTATUS_SPP) |l SSTATUS_SPIE);;
  f ← rd 8 (p_trapframe p);
  pc ← rd 8 (tf_user_pc f);
  w_sepc pc;;
  let uret_addr := kimage "KERNEL_USER_RETURN_VA" -l kimage "KERNEL_USER_HANDLER_PA_BEGIN" +l VA_USER_USER_HANDLER_BEGIN in
  pgtbl ← rd 8 (p_pgtbl p);
  call uret_addr [SATP VMEM_MODE (PMA_VA2PA pgtbl)];;
  mret tt.

(** [Unhandled_Trap] *)
Definition unhandled_trap (p cause : Z) : M unit :=
  pid ← rd 4 (p_pid p);
  sepc ← r_sepc;
  printf ("[proc]user program #%d unexpected interrupted, scause: %p, sepc: %p, killed" ++ nl) [AInt pid; AInt cause; AInt sepc];;
  pid ← rd 4 (p_pid p);
  proc_kill (s32 pid);;
  mret tt.

Definition exit_if_killed (p : Z) : M unit :=
  k ← proc_is_killed p;
  if negb (k =? 0) then proc_exit (-1) else mret tt.

Definition utrap_handler : M unit :=
  ktrap_install_handler;;
  p ← get_running;
  f ← rd 8 (p_trapframe p);
  sepc ← r_sepc;
  wr 8 (tf_user_pc f) sepc;;
  cause ← r_scause;
  tval ← r_stval;
  (if cause =? SCAUSE_STI then timer_trap;; scheduler_yield
   else if cause =? SCAUSE_SEI then hal_trap_handler cause;; mret tt
   else if cause =? SCAUSE_USER_ECALL then
     exit_if_killed p;;
     f ← rd 8 (p_trapframe p);
     pc ← rd 8 (tf_user_pc f);
     wr 8 (tf_user_pc f) (pc +l 4);;
     enable_interrupt;;
     syscall_handler
   else if (cause =? SCAUSE_STORE_PAGE_FAULT) || (cause =? SCAUSE_LOAD_PAGE_FAULT) then
     stack ← rd 8 (p_stack p);
     if (stack -l VA_USER_STACK_AUTO_EXPAND_THRESHOLD <=? tval) && (tval <? VA_USER_TRAPFRAME_BEGIN) then
       pid ← rd 4 (p_pid p); proc_extend_stack (s32 pid) 0;; mret tt
     else unhandled_trap p cause
   else unhandled_trap p cause);;
  exit_if_killed p;;
  utrap_return.
End trap.
