(* ===== verification/Plic.v ===== *)
(** * device/drivers/plic/plic.c: the interrupt controller driver

    The controller's registers are reached through the direct map; an access
    is an event of [mmio].  [struct plic_internal_struct { devId; reg_base;
    reg_size }] at 0, 8 and 16; [struct device_struct { name;
    fdt_node_offset; devId; driver; driver_internal; parent; children; next }]
    at 0, 8, 12, 16, 24, 32, 40 and 48. *)

From S2P Require Import Prelude Memory Machine Strings Fdt FdtRo Hal Lock Kmem.

(** Fields of [struct device_struct]. *)
Definition d_name (d : Z) : Z := d.
Definition d_fdt_node_offset (d : Z) : Z := d + 8.
Definition d_devId (d : Z) : Z := d + 12.
Definition d_driver (d : Z) : Z := d + 16.
Definition d_internal (d : Z) : Z := d + 24.
Definition d_parent (d : Z) : Z := d + 32.
Definition d_children (d : Z) : Z := d + 40.
Definition d_next (d : Z) : Z := d + 48.
Definition sizeof_device : Z := 56.

Section plic.
Context {L : KernelLayout} {C : Code} {D : Devices}.

Definition PLIC_REG (base reg_id : Z) : Z := PMA_PA2VA (base +l reg_id).
Definition PLIC_SENABLE (base hart : Z) : Z := PLIC_REG base (0x2080 + hart * 0x100).
Definition PLIC_SPRIORITY (base hart : Z) : Z := PLIC_REG base (0x201000 + hart * 0x2000).
Definition PLIC_SCLAIM (base hart : Z) : Z := PLIC_REG base (0x201004 + hart * 0x2000).
Definition sizeof_plic_internal : Z := 24.

Definition set_u32_map_volatile_bit (map index : Z) (b : bool) : M unit :=
  let word := map + 4 * (index >>l 5) in
  x ← rdv 4 word;
  wrv 4 word (if b then x |l Z.shiftl 1 (index &l 0x1f) else x &l u32 (Z.lnot (Z.shiftl 1 (index &l 0x1f)))).

Definition plic_base (dev : Z) : M Z := u ← rd 8 (d_internal dev); rd 8 (u + 8).

(** [for (i = 0; i < MAX_CPU; i++) if (harts[i].enabled) body] *)
Definition for_enabled_harts (body : Z -> M unit) : M unit :=
  for_up (Z.to_nat MAX_CPU) 0 (fun i =>
    e ← gets (fun s => enabled (hart_at s i)); if negb (e =? 0) then body i else mret tt).

Definition plic_set_src (dev src_id : Z) (on : bool) : M unit :=
  base ← plic_base dev;
  wrv 4 (PLIC_REG base (u32 (4 * src_id))) (if on then 1 else 0);;
  for_enabled_harts (fun i => set_u32_map_volatile_bit (PLIC_SENABLE base i) src_id on).

Definition plic_driver_hal_enable_src (dev src_id : Z) : M unit := plic_set_src dev src_id true.
Definition plic_driver_hal_disable_src (dev src_id : Z) : M unit := plic_set_src dev src_id false.

Definition plic_driver_hal_check_src_status (dev src_id : Z) : M Z :=
  base ← plic_base dev;
  x ← rdv 4 (PLIC_REG base (u32 (4 * src_id)));
  mret (s32 x).

Definition plic_driver_hal_claim (dev : Z) : M Z :=
  base ← plic_base dev;
  hart ← current_hart_id;
  rdv 4 (PLIC_SCLAIM base hart).

Definition plic_driver_hal_complete (dev irq_id : Z) : M unit :=
  base ← plic_base dev;
  hart ← current_hart_id;
  wrv 4 (PLIC_SCLAIM base hart) irq_id.

Definition plic_driver_hal_init (dev irq_list : Z) : M unit :=
  first ← rd 8 (irq_list + 24);
  while (fun irq =>
    if negb (irq =? NULL) then
      id ← rd 4 irq;
      plic_driver_hal_enable_src dev id;;
      nxt ← rd 8 (irq + 24); mret (inl nxt)
    else mret (inr tt)) first.

Definition plic_driver_recognize_device (fdt node_offset : Z) : M bool :=
  '(name, _) ← fdt_get_name fdt node_offset false;
  '(p, _) ← fdt_get_property fdt node_offset (sym_str "compatible");
  if (p =? NULL) || (name =? NULL) then mret false else
  (c ← strncmp name (sym_str "interrupt-controller@") 21; mret (c =? 0)) &&&
  (c ← strncmp (prop_data p) (sym_str "riscv,plic") 10; mret (c =? 0)).

(** The two 64-bit cells of a "reg" property, if it has that size. *)
Definition read_reg (fdt node_offset : Z) : M (option (Z * Z)) :=
  '(prop, _) ← fdt_get_property fdt node_offset (sym_str "reg");
  ok ← (mret (negb (prop =? NULL)) &&& (len ← fdt32_ld_ (prop_len prop); mret (len =? 2 * 8)));
  if negb ok then mret None else
  base ← rd 8 (prop_data prop);
  size ← rd 8 (prop_data prop + 8);
  mret (Some (fdt64_to_cpu base, fdt64_to_cpu size)).

Definition plic_driver_init (devId fdt node_offset : Z) : M Z :=
  u ← kmem_alloc sizeof_plic_internal;
  if u =? NULL then mret NULL else
  dev ← kmem_alloc sizeof_device;
  if dev =? NULL then kmem_free u;; mret NULL else
  hal_entry ← kmem_alloc 56;
  if hal_entry =? NULL then kmem_free u;; kmem_free dev;; mret NULL else
  wr 4 u devId;;
  reg ← read_reg fdt node_offset;
  match reg with
  | None => kmem_free u;; kmem_free dev;; kmem_free hal_entry;; mret NULL
  | Some (base, size) =>
      wr 8 (u + 8) base;;
      wr 8 (u + 16) size;;
      for_enabled_harts (fun i => wrv 4 (PLIC_SPRIORITY base i) 0);;
      wr 4 (d_devId dev) devId;;
      wr 4 (d_fdt_node_offset dev) node_offset;;
      wr 8 (d_driver dev) (sym_var "plic_driver");;
      wr 8 (d_internal dev) u;;
      wr 8 (d_name dev) (sym_str "RISC-V Platform Level Interrupt Controller");;
      wr 8 (d_next dev) NULL;; wr 8 (d_parent dev) NULL;; wr 8 (d_children dev) NULL;;
      wr 8 hal_entry dev;;
      wr 8 (hal_entry + 8) (sym_fn "plic_driver_hal_init");;
      wr 8 (hal_entry + 16) (sym_fn "plic_driver_hal_enable_src");;
      wr 8 (hal_entry + 24) (sym_fn "plic_driver_hal_disable_src");;
      wr 8 (hal_entry + 32) (sym_fn "plic_driver_hal_check_src_status");;
      wr 8 (hal_entry + 40) (sym_fn "plic_driver_hal_claim");;
      wr 8 (hal_entry + 48) (sym_fn "plic_driver_hal_complete");;
      hal_trap_register_interruptor hal_entry;;
      mret dev
  end.
End plic.
