(* ===== verification/Uart.v ===== *)
(** * device/drivers/ns16550a/ns16550a.c: the serial port driver

    [struct ns16550a_internal_struct]: [devId] 0, [interrupt_src_id] 4,
    [clock_freq] 8, [reg_base] 16, [reg_size] 24, [tx_lock] 32, [rx_lock] 56,
    [tx_buffer] 80, [rx_buffer] 336, [tx_buffer_head] 592, [tx_buffer_tail]
    600, [rx_buffer_head] 608, [rx_buffer_tail] 616; 624 bytes.  The heads and
    tails count characters for ever, a character lies at its count modulo the
    buffer's size. *)

From S2P Require Import Prelude Memory Machine Strings Fdt FdtRo Hal Lock Kmem Proc Plic.

Definition UART_RHR : Z := 0.
Definition UART_THR : Z := 0.
Definition UART_IER : Z := 1.
Definition UART_IER_RX_ENABLE : Z := Z.shiftl 1 0.
Definition UART_IER_TX_ENABLE : Z := Z.shiftl 1 1.
Definition UART_FCR : Z := 2.
Definition UART_FCR_FIFO_ENABLE : Z := Z.shiftl 1 0.
Definition UART_FCR_FIFO_CLEAR : Z := Z.shiftl 3 1.
Definition UART_LCR : Z := 3.
Definition UART_LCR_EIGHT_BITS : Z := Z.shiftl 3 0.
Definition UART_LCR_BAUD_LATCH : Z := Z.shiftl 1 7.
Definition UART_LSR : Z := 5.
Definition UART_LSR_RX_READY : Z := Z.shiftl 1 0.
Definition UART_LSR_TX_IDLE : Z := Z.shiftl 1 5.
Definition TX_BUFFER_SIZE : Z := 256.
Definition RX_BUFFER_SIZE : Z := 256.
Definition sizeof_ns16550a_internal : Z := 624.

Section uart.
Context {L : KernelLayout} {C : Code} {W : Switch} {D : Devices}.

Definition UART_REG (base reg_id : Z) : Z := PMA_PA2VA (base +l reg_id).

Definition u_reg_base (u : Z) : Z := u + 16.
Definition u_tx_lock (u : Z) : Z := u + 32.
Definition u_rx_lock (u : Z) : Z := u + 56.
Definition u_tx_buffer (u : Z) : Z := u + 80.
Definition u_rx_buffer (u : Z) : Z := u + 336.
Definition u_tx_head (u : Z) : Z := u + 592.
Definition u_tx_tail (u : Z) : Z := u + 600.
Definition u_rx_head (u : Z) : Z := u + 608.
Definition u_rx_tail (u : Z) : Z := u + 616.

(** Read or write the register [reg]. *)
Definition uart_rd (u reg : Z) : M Z := base ← rd 8 (u_reg_base u); rdv 1 (UART_REG base reg).
Definition uart_wr (u reg v : Z) : M unit := base ← rd 8 (u_reg_base u); wrv 1 (UART_REG base reg) v.
Definition tx_idle (u : Z) : M bool := x ← uart_rd u UART_LSR; mret (negb (x &l UART_LSR_TX_IDLE =? 0)).

Definition ns16550a_driver_flush (dev : Z) : M unit :=
  u ← rd 8 (d_internal dev);
  while (fun _ =>
    more ← ((head ← rd 8 (u_tx_head u); tail ← rd 8 (u_tx_tail u); mret (negb (head =? tail))) &&& tx_idle u);
    if negb more then mret (inr tt) else
    head ← rd 8 (u_tx_head u);
    c ← rd 1 (u_tx_buffer u + head mod TX_BUFFER_SIZE);
    head ← rd 8 (u_tx_head u);
    wr 8 (u_tx_head u) (head +l 1);;
    uart_wr u UART_THR c;;
    proc_wakeup (u_tx_head u);;
    mret (inl tt)) tt.

Definition ns16550a_driver_putc_async (dev c : Z) : M unit :=
  u ← rd 8 (d_internal dev);
  spinlock_acquire (u_tx_lock u);;
  while (fun _ =>
    head ← rd 8 (u_tx_head u);
    tail ← rd 8 (u_tx_tail u);
    if head +l TX_BUFFER_SIZE =? tail then proc_sleep (u_tx_head u) (u_tx_lock u);; mret (inl tt)
    else mret (inr tt)) tt;;
  tail ← rd 8 (u_tx_tail u);
  wr 1 (u_tx_buffer u + tail mod TX_BUFFER_SIZE) c;;
  tail ← rd 8 (u_tx_tail u);
  wr 8 (u_tx_tail u) (tail +l 1);;
  ns16550a_driver_flush dev;;
  spinlock_release (u_tx_lock u).

Definition ns16550a_driver_putc_sync (dev c : Z) : M unit :=
  u ← rd 8 (d_internal dev);
  pushoff_hart;;
  while (fun _ => idle ← tx_idle u; if negb idle then mret (inl tt) else mret (inr tt)) tt;;
  uart_wr u UART_THR c;;
  popoff_hart.

Definition ns16550a_driver_getc (dev : Z) : M Z :=
  u ← rd 8 (d_internal dev);
  x ← uart_rd u UART_LSR;
  if negb (x &l 0x01 =? 0) then uart_rd u UART_RHR else mret (-1).

Definition ns16550a_driver_readc (dev : Z) : M Z :=
  u ← rd 8 (d_internal dev);
  spinlock_acquire (u_rx_lock u);;
  while (fun _ =>
    head ← rd 8 (u_rx_head u);
    tail ← rd 8 (u_rx_tail u);
    if head =? tail then proc_sleep (u_rx_head u) (u_rx_lock u);; mret (inl tt)
    else mret (inr tt)) tt;;
  head ← rd 8 (u_rx_head u);
  ret ← rd 1 (u_rx_buffer u + head mod RX_BUFFER_SIZE);
  head ← rd 8 (u_rx_head u);
  wr 8 (u_rx_head u) (head +l 1);;
  spinlock_release (u_rx_lock u);;
  mret ret.

Definition ns16550a_driver_interrupt_handler (dev : Z) : M Z :=
  u ← rd 8 (d_internal dev);
  rec_c ← ns16550a_driver_getc dev;
  while (fun rec_c =>
    if rec_c =? -1 then mret (inr tt) else
    tail ← rd 8 (u_rx_tail u);
    wr 1 (u_rx_buffer u + tail mod RX_BUFFER_SIZE) rec_c;;
    tail ← rd 8 (u_rx_tail u);
    wr 8 (u_rx_tail u) (tail +l 1);;
    proc_wakeup (u_rx_head u);;
    rec_c ← ns16550a_driver_getc dev;
    mret (inl rec_c)) rec_c;;
  spinlock_acquire (u_tx_lock u);;
  ns16550a_driver_flush dev;;
  spinlock_release (u_tx_lock u);;
  mret 0.

Definition ns16550a_driver_recognize_device (fdt node_offset : Z) : M bool :=
  '(name, _) ← fdt_get_name fdt node_offset false;
  '(p, _) ← fdt_get_property fdt node_offset (sym_str "compatible");
  if (p =? NULL) || (name =? NULL) then mret false else
  (c ← strncmp name (sym_str "uart@") 5; mret (c =? 0)) &&&
  (c ← strcmp (prop_data p) (sym_str "ns16550a"); mret (c =? 0)).

(** A property holding one [int]. *)
Definition read_int (fdt node_offset name : Z) : M (option Z) :=
  '(prop, _) ← fdt_get_property fdt node_offset name;
  ok ← (mret (negb (prop =? NULL)) &&& (len ← fdt32_ld_ (prop_len prop); mret (len =? 4)));
  if negb ok then mret None else
  x ← rd 4 (prop_data prop);
  mret (Some (fdt32_to_cpu x)).

(** Reading the node, into [u]; whether it has all the properties. *)
Definition uart_read_fdt (u fdt node_offset : Z) : M bool :=
  src ← read_int fdt node_offset (sym_str "interrupts");
  match src with
  | None => mret false
  | Some src =>
      wr 4 (u + 4) src;;
      freq ← read_int fdt node_offset (sym_str "clock-frequency");
      match freq with
      | None => mret false
      | Some freq =>
          wr 4 (u + 8) freq;;
          reg ← read_reg fdt node_offset;
          match reg with
          | None => mret false
          | Some (base, size) => wr 8 (u_reg_base u) base;; wr 8 (u + 24) size;; mret true
          end
      end
  end.

(** Programming the port's registers. *)
Definition uart_setup (u : Z) : M unit :=
  uart_wr u UART_IER 0;;
  uart_wr u UART_LCR UART_LCR_BAUD_LATCH;;
  uart_wr u 0 0x03;;
  uart_wr u 1 0x00;;
  uart_wr u UART_LCR UART_LCR_EIGHT_BITS;;
  uart_wr u UART_FCR (UART_FCR_FIFO_ENABLE |l UART_FCR_FIFO_CLEAR);;
  uart_wr u UART_IER (UART_IER_TX_ENABLE |l UART_IER_RX_ENABLE).

Definition ns16550a_driver_init (devId fdt node_offset : Z) : M Z :=
  u ← kmem_alloc sizeof_ns16550a_internal;
  if u =? NULL then mret NULL else
  dev ← kmem_alloc sizeof_device;
  if dev =? NULL then kmem_free u;; mret NULL else
  u_irq ← kmem_alloc 32;
  if u_irq =? NULL then kmem_free u;; kmem_free dev;; mret NULL else
  hal_u ← kmem_alloc 32;
  let error_cleanup := kmem_free u;; kmem_free dev;; kmem_free hal_u;; mret NULL in
  if u_irq =? NULL then error_cleanup else
  wr 4 u devId;;
  ok ← uart_read_fdt u fdt node_offset;
  if negb ok then error_cleanup else
  wr 8 (d_name dev) (sym_str "NS16550A Compatible UART Device");;
  wr 4 (d_fdt_node_offset dev) node_offset;;
  wr 4 (d_devId dev) devId;;
  wr 8 (d_driver dev) (sym_var "ns16550a_driver");;
  wr 8 (d_internal dev) u;;
  wr 8 (d_next dev) NULL;; wr 8 (d_parent dev) NULL;; wr 8 (d_children dev) NULL;;
  wr 8 (u_irq + 16) (sym_fn "ns16550a_driver_interrupt_handler");;
  src ← rd 4 (u + 4);
  wr 4 u_irq src;;
  wr 8 (u_irq + 8) dev;;
  r ← hal_trap_register_irq u_irq;
  if negb (r =? 0) then kmem_free u_irq;; error_cleanup else
  spinlock_init (u_tx_lock u) (sym_str "ns16550a_tx_lock");;
  spinlock_init (u_rx_lock u) (sym_str "ns16550a_rx_lock");;
  uart_setup u;;
  wr 8 hal_u dev;;
  wr 8 (hal_u + 8) (sym_fn "ns16550a_driver_putc_async");;
  wr 8 (hal_u + 16) (sym_fn "ns16550a_driver_readc");;
  hal_uart_register_device hal_u;;
  mret dev.
End uart.
