(* ===== verification/Virtio.v ===== *)
(** * device/drivers/virtio/virtio.c, virtio_blk.c, virtio.h: VirtIO

    [struct virtio_internal_struct { devId; reg_base; reg_size;
    interrupt_src_id; virtio_device_id }] at 0, 8, 16, 24 and 28.
    [struct virtio_blk_internal_struct { virtio_internal; lock;
    supported_features; virtq { desc; avail; used }; free_map[8]; read_only }]
    at 0, 8, 32, 40, 48, 56, 64 and 96 ([bool] is [int]); [struct
    hal_disk_device_struct { dev; read_only; block_size; num_of_block; read;
    write }] at 0, 8, 16, 24, 32 and 40.

    virtio_blk.c is unfinished: its last two assignments, to
    [hal_interface->read] and [hal_interface->write], lack their right-hand
    sides.  They are left out here; all else is as written. *)

From S2P Require Import Prelude Memory Machine Strings Fdt FdtRo Hal Lock Buddy Kmem Plic.

Definition VIRTIO_MAGIC_VALUE : Z := 0x74726976.
Definition VIRTIO_NETWORK_CARD : Z := 1.
Definition VIRTIO_BLOCK_DEVICE : Z := 2.
Definition sizeof_virtio_internal : Z := 32.
Definition sizeof_virtio_blk_internal : Z := 104.
Definition sizeof_hal_disk_device : Z := 48.
Definition sizeof_virtio_blk_config : Z := 72.

Definition VIRTIO_CONFIG_S_ACKNOWLEDGE : Z := 1.
Definition VIRTIO_CONFIG_S_DRIVER : Z := 2.
Definition VIRTIO_CONFIG_S_DRIVER_OK : Z := 4.
Definition VIRTIO_CONFIG_S_FEATURES_OK : Z := 8.
Definition VIRTIO_F_ANY_LAYOUT : Z := 27.
Definition VIRTIO_F_INDIRECT_DESC : Z := 28.
Definition VIRTIO_F_EVENT_IDX : Z := 29.
Definition VIRTIO_NUM_QUEUE : Z := 8.
Definition VIRTIO_BLK_F_RO : Z := 5.
Definition VIRTIO_BLK_F_SCSI : Z := 7.
Definition VIRTIO_BLK_F_CONFIG_WCE : Z := 11.
Definition VIRTIO_BLK_F_MQ : Z := 12.

Section virtio.
Context {L : KernelLayout} {C : Code} {D : Devices}.

Definition VIRTIO_MMIO_REG (base reg_id : Z) : Z := PMA_PA2VA (base +l reg_id).
Definition VIRTIO_MMIO_MAGIC_VALUE_REG (base : Z) : Z := VIRTIO_MMIO_REG base 0x0.
Definition VIRTIO_MMIO_DEVICE_TYPE_REG (base : Z) : Z := VIRTIO_MMIO_REG base 0x8.
Definition VIRTIO_MMIO_DEVICE_FEATURES_REG (base : Z) : Z := VIRTIO_MMIO_REG base 0x10.
Definition VIRTIO_MMIO_QUEUE_MAX_NUM_REG (base : Z) : Z := VIRTIO_MMIO_REG base 0x34.
Definition VIRTIO_MMIO_QUEUE_NUM_REG (base : Z) : Z := VIRTIO_MMIO_REG base 0x38.
Definition VIRTIO_MMIO_QUEUE_READY_REG (base : Z) : Z := VIRTIO_MMIO_REG base 0x44.
Definition VIRTIO_MMIO_STATUS_REG (base : Z) : Z := VIRTIO_MMIO_REG base 0x70.
Definition VIRTIO_MMIO_QUEUE_DESC_LOW_REG (base : Z) : Z := VIRTIO_MMIO_REG base 0x80.
Definition VIRTIO_MMIO_QUEUE_DESC_HIGH_REG (base : Z) : Z := VIRTIO_MMIO_REG base 0x84.
Definition VIRTIO_MMIO_QUEUE_DRIVER_LOW_REG (base : Z) : Z := VIRTIO_MMIO_REG base 0x90.
Definition VIRTIO_MMIO_QUEUE_DRIVER_HIGH_REG (base : Z) : Z := VIRTIO_MMIO_REG base 0x94.
Definition VIRTIO_MMIO_QUEUE_DEVICE_LOW_REG (base : Z) : Z := VIRTIO_MMIO_REG base 0xa0.
Definition VIRTIO_MMIO_QUEUE_DEVICE_HIGH_REG (base : Z) : Z := VIRTIO_MMIO_REG base 0xa4.
Definition VIRTIO_MMIO_CONFIG_GENERATION_REG (base : Z) : Z := VIRTIO_MMIO_REG base 0xfc.
Definition VIRTIO_MMIO_CONFIG_REG (base : Z) : Z := VIRTIO_MMIO_REG base 0x100.

(** Copies words from device registers to memory; nothing is returned,
    although the source has a [return dst]. *)
Definition virtio_memcpy (dst src siz : Z) : M unit :=
  if negb (siz &l (Z.shiftl 1 2 - 1) =? 0) then panic "virtio_memcpy - size not aligned in 32-bits" else
  while (fun '(dst_ptr, src_ptr, siz) =>
    if 0 <? siz then
      x ← rdv 4 src_ptr;
      wr 4 dst_ptr x;;
      mret (inl (dst_ptr + 4, src_ptr + 4, siz -l 4))
    else mret (inr tt)) (dst, src, siz).

Definition virtio_driver_recognize_device (fdt node_offset : Z) : M bool :=
  '(p, _) ← fdt_get_property fdt node_offset (sym_str "compatible");
  if p =? NULL then mret false else
  c ← strcmp (prop_data p) (sym_str "virtio,mmio");
  mret (c =? 0).

(** ** The block device *)

(** The label [init_failed]: what is [NULL] is freed.  A jump from above a
    local's definition leaves it without a value, here [None], and testing it
    is undefined, here a fault. *)
Definition free_null (p : option Z) : M unit :=
  match p with Some p => when (p =? NULL) (kmem_free p) | None => fault NULL end.

Definition blk_init_failed (dev virtio_info : Z) (blk hal_interface : option Z) : M Z :=
  when (dev =? NULL) (kmem_free dev);;
  when (virtio_info =? NULL) (kmem_free virtio_info);;
  free_null blk;;
  free_null hal_interface;;
  mret NULL.

(** The features the driver leaves switched on. *)
Definition blk_features (feat : Z) : Z :=
  let off feat bit := feat &l u32 (Z.lnot (Z.shiftl 1 bit)) in
  off (off (off (off (off (off feat VIRTIO_BLK_F_CONFIG_WCE) VIRTIO_BLK_F_MQ) VIRTIO_BLK_F_SCSI)
    VIRTIO_F_ANY_LAYOUT) VIRTIO_F_INDIRECT_DESC) VIRTIO_F_EVENT_IDX.

(** Reset, acknowledge, negotiate: the status and whether the device takes
    the features. *)
Definition blk_negotiate (virtio_info blk : Z) : M (Z * bool) :=
  let reg r := (base ← rd 8 (virtio_info + 8); mret (r base)) in
  a ← reg VIRTIO_MMIO_STATUS_REG; wrv 4 a 0;;
  let status := VIRTIO_CONFIG_S_ACKNOWLEDGE in
  a ← reg VIRTIO_MMIO_STATUS_REG; wrv 4 a status;;
  let status := status |l VIRTIO_CONFIG_S_DRIVER in
  a ← reg VIRTIO_MMIO_STATUS_REG; wrv 4 a status;;
  a ← reg VIRTIO_MMIO_DEVICE_FEATURES_REG; f ← rdv 4 a; wr 4 (blk + 32) f;;
  f ← rd 4 (blk + 32); wr 4 (blk + 96) ((f >>l VIRTIO_BLK_F_RO) &l 1);;
  f ← rd 4 (blk + 32);
  let feat := blk_features f in
  a ← reg VIRTIO_MMIO_DEVICE_FEATURES_REG; wrv 4 a feat;;
  let status := status |l VIRTIO_CONFIG_S_FEATURES_OK in
  a ← reg VIRTIO_MMIO_STATUS_REG; wrv 4 a status;;
  a ← reg VIRTIO_MMIO_STATUS_REG; status ← rdv 4 a;
  mret (status, negb (status &l VIRTIO_CONFIG_S_FEATURES_OK =? 0)).

(** The registers of the device that [blk] points to. *)
Definition blk_reg (blk : Z) (r : Z -> Z) : M Z := v ← rd 8 blk; base ← rd 8 (v + 8); mret (r base).
Definition blk_reg_wr (blk : Z) (r : Z -> Z) (v : Z) : M unit := a ← blk_reg blk r; wrv 4 a v.

(** A page of the queue, at [field] of [blk], given to the device as two
    halves. *)
Definition blk_give_page (blk field : Z) (low high : Z -> Z) : M unit :=
  p ← rd 8 (blk + field); blk_reg_wr blk low (u32 (PMA_VA2PA p));;
  p ← rd 8 (blk + field); blk_reg_wr blk high (u32 (PMA_VA2PA p >>l 32)).

Definition blk_set_queue (blk : Z) : M unit :=
  blk_reg_wr blk VIRTIO_MMIO_QUEUE_NUM_REG VIRTIO_NUM_QUEUE;;
  p ← kmem_alloc_pages 0; wr 8 (blk + 40) p;;
  p ← kmem_alloc_pages 0; wr 8 (blk + 48) p;;
  p ← kmem_alloc_pages 0; wr 8 (blk + 56) p;;
  p ← rd 8 (blk + 40); memset p 0 PAGE_SIZE;;
  p ← rd 8 (blk + 48); memset p 0 PAGE_SIZE;;
  p ← rd 8 (blk + 56); memset p 0 PAGE_SIZE;;
  blk_give_page blk 40 VIRTIO_MMIO_QUEUE_DESC_LOW_REG VIRTIO_MMIO_QUEUE_DESC_HIGH_REG;;
  blk_give_page blk 48 VIRTIO_MMIO_QUEUE_DRIVER_LOW_REG VIRTIO_MMIO_QUEUE_DRIVER_HIGH_REG;;
  blk_give_page blk 56 VIRTIO_MMIO_QUEUE_DEVICE_LOW_REG VIRTIO_MMIO_QUEUE_DEVICE_HIGH_REG;;
  blk_reg_wr blk VIRTIO_MMIO_QUEUE_READY_REG 0x1;;
  for_up (Z.to_nat VIRTIO_NUM_QUEUE) 0 (fun i => wr 4 (blk + 64 + 4 * i) 0).

(** Read the configuration into [cfg] until its generation stays the same.
    The source translates the register's address twice. *)
Definition blk_read_config (blk cfg : Z) : M unit :=
  while (fun _ : unit =>
    a ← blk_reg blk VIRTIO_MMIO_CONFIG_GENERATION_REG; cfg_gen_bef ← rdv 4 a;
    a ← blk_reg blk VIRTIO_MMIO_CONFIG_REG; virtio_memcpy cfg (PMA_PA2VA a) sizeof_virtio_blk_config;;
    a ← blk_reg blk VIRTIO_MMIO_CONFIG_GENERATION_REG; cfg_gen_aft ← rdv 4 a;
    if negb (cfg_gen_bef =? cfg_gen_aft) then mret (inl tt) else mret (inr tt)) tt.

(** [cfg] is the address of the local of that name; a block size of zero is
    a division by zero, here a fault. *)
Definition virtio_blk_driver_init (cfg virtio_info : Z) : M Z :=
  dev ← kmem_alloc sizeof_device;
  if dev =? NULL then blk_init_failed dev virtio_info None None else
  blk ← kmem_alloc sizeof_virtio_blk_internal;
  if blk =? NULL then blk_init_failed dev virtio_info (Some blk) None else
  hal_interface ← kmem_alloc sizeof_hal_disk_device;
  if hal_interface =? NULL then blk_init_failed dev virtio_info (Some blk) (Some hal_interface) else
  wr 8 blk virtio_info;;
  spinlock_init (blk + 8) (sym_str "virtio_blk_lock");;
  wr 8 (d_internal dev) blk;;
  devId ← rd 4 virtio_info; wr 4 (d_devId dev) devId;;
  wr 8 (d_next dev) NULL;; wr 8 (d_parent dev) NULL;; wr 8 (d_children dev) NULL;;
  wr 8 (d_driver dev) (sym_var "virtio_driver");;
  wr 8 (d_name dev) (sym_str "VirtIO Block Device");;
  '(status, ok) ← blk_negotiate virtio_info blk;
  if negb ok then blk_init_failed dev virtio_info (Some blk) (Some hal_interface) else
  a ← blk_reg blk VIRTIO_MMIO_QUEUE_MAX_NUM_REG; max_queue_supported ← rdv 4 a;
  if max_queue_supported <? VIRTIO_NUM_QUEUE then blk_init_failed dev virtio_info (Some blk) (Some hal_interface) else
  blk_set_queue blk;;
  blk_reg_wr blk VIRTIO_MMIO_STATUS_REG (status |l VIRTIO_CONFIG_S_DRIVER_OK);;
  blk_read_config blk cfg;;
  wr 8 hal_interface dev;;
  ro ← rd 4 (blk + 96); wr 4 (hal_interface + 8) ro;;
  bs ← rd 4 (cfg + 20); wr 8 (hal_interface + 16) bs;;
  capacity ← rd 8 cfg; bs ← rd 8 (hal_interface + 16);
  if bs =? 0 then fault hal_interface else
  if negb ((capacity <<l 9) mod bs =? 0) then panic "virtio_blk_driver_init - block size alignment" else
  wr 8 (hal_interface + 24) ((capacity <<l 9) / bs);;
  mret dev.

(** ** The transport *)

(** For a network card the function falls off its end: using its result is
    undefined, here a fault.  [cfg] is the stack slot of the block device's
    configuration. *)
Definition virtio_driver_init (cfg devId fdt node_offset : Z) : M Z :=
  virtio_info ← kmem_alloc sizeof_virtio_internal;
  if virtio_info =? NULL then mret NULL else
  wr 4 virtio_info devId;;
  '(prop, _) ← fdt_get_property fdt node_offset (sym_str "reg");
  if prop =? NULL then kmem_free virtio_info;; mret NULL else
  base ← rd 8 (prop_data prop);
  wr 8 (virtio_info + 8) (fdt64_to_cpu base);;
  size ← rd 8 (prop_data prop + 8);
  wr 8 (virtio_info + 16) (fdt64_to_cpu size);;
  '(prop, _) ← fdt_get_property fdt node_offset (sym_str "interrupts");
  if prop =? NULL then kmem_free virtio_info;; mret NULL else
  src ← rd 4 (prop_data prop);
  wr 4 (virtio_info + 24) (fdt32_to_cpu src);;
  base ← rd 8 (virtio_info + 8);
  bad ← ((magic ← rdv 4 (VIRTIO_MMIO_MAGIC_VALUE_REG base); mret (negb (magic =? VIRTIO_MAGIC_VALUE))) |||
         (typ ← rdv 4 (VIRTIO_MMIO_DEVICE_TYPE_REG base); mret (typ =? 0x0)));
  if bad : bool then kmem_free virtio_info;; mret NULL else
  dev_typ ← rdv 4 (VIRTIO_MMIO_DEVICE_TYPE_REG base);
  wr 4 (virtio_info + 28) dev_typ;;
  if dev_typ =? VIRTIO_NETWORK_CARD then fault virtio_info
  else if dev_typ =? VIRTIO_BLOCK_DEVICE then virtio_blk_driver_init cfg virtio_info
  else kmem_free virtio_info;; mret NULL.
End virtio.
