(* ===== verification/Device.v ===== *)
(** * device/device.c, device/drivers/drivers.c, device/memory.c

    Finding the devices the device tree lists.  [struct driver_struct { name;
    version; developer; recognize_device; init; next }] at 0, 8, 16, 24, 32
    and 40; [driver_manager] is one used as a list head.  The walks recurse
    over the tree: [depth] is the number of levels there is stack for, a
    deeper tree overflows it. *)

From S2P Require Import Prelude Memory Machine Qsort DevMemory Strings Fdt FdtRo Hal Lock Console Kmem Plic.

Section device.
Context {L : KernelLayout} {C : Code}.
Variable depth : nat.

Definition sym_flatten_device_tree : Z := sym_var "flatten_device_tree".
Definition sym_fdt_blob : Z := sym_var "fdt_blob".
Definition sizeof_fdt_blob : Z := 4 * Z.shiftl 1 20.
Definition sym_device_counter : Z := sym_var "device_counter".
Definition root_dev : Z := sym_var "device_manager".
Definition sym_chosen : Z := sym_var "fdt_chosen_node_offset".
Definition driver_list : Z := sym_var "driver_manager".

(** [for (node = fdt_first_subnode(fdt, parent); node >= 0; node =
    fdt_next_subnode(fdt, node))], threading a value through the rounds. *)
Definition fdt_for_each_subnode {A} (fdt parent : Z) (a : A) (body : A -> Z -> M A) : M A :=
  first ← fdt_first_subnode fdt parent;
  while (fun '(a, node) =>
    if 0 <=? node then
      a ← body a node;
      next ← fdt_next_subnode fdt node;
      mret (inl (a, next))
    else mret (inr a)) (a, first).

(** ** drivers.c *)

Definition device_drivers_append (drv : Z) : M unit :=
  if drv =? NULL then mret tt else
  first ← rd 8 (driver_list + 40);
  wr 8 (drv + 40) first;;
  wr 8 (driver_list + 40) drv.

Definition device_drivers_load : M unit :=
  device_drivers_append (sym_var "plic_driver");;
  device_drivers_append (sym_var "ns16550a_driver");;
  device_drivers_append (sym_var "virtio_driver").

(** ** device.c *)

Definition device_init_node (fdt node_offset : Z) : M Z :=
  first ← rd 8 (driver_list + 40);
  while (fun drv =>
    if negb (drv =? NULL) then
      recognize ← rd 8 (drv + 24);
      b ← call recognize [fdt; node_offset];
      if negb (u8 b =? 0) then
        init ← rd 8 (drv + 32);
        counter ← rd 4 sym_device_counter;
        dev ← call init [s32 (u32 (counter + 1)); fdt; node_offset];
        (if negb (dev =? NULL) then
           counter ← rd 4 sym_device_counter; wr 4 sym_device_counter (u32 (counter + 1))
         else mret tt);;
        mret (inr dev)
      else nxt ← rd 8 (drv + 40); mret (inl nxt)
    else mret (inr NULL)) first.

Fixpoint find_dev_walk (fuel : nat) (u node_offset : Z) : M Z :=
  match fuel with
  | O => hang
  | S fuel' =>
      off ← rd 4 (d_fdt_node_offset u);
      if s32 off =? node_offset then mret u else
      first ← rd 8 (d_children u);
      while (fun v =>
        if negb (v =? NULL) then
          w ← find_dev_walk fuel' v node_offset;
          if negb (w =? NULL) then mret (inr w) else
          nxt ← rd 8 (d_next v); mret (inl nxt)
        else mret (inr NULL)) first
  end.

Definition device_find_dev_by_fdt_offset_walk (u node_offset : Z) : M Z := find_dev_walk depth u node_offset.

Definition device_find_dev_by_fdt_offset (node_offset : Z) : M Z :=
  children ← rd 8 (d_children root_dev);
  device_find_dev_by_fdt_offset_walk children node_offset.

Definition device_fdt_parse_chosen (fdt node_offset : Z) : M unit :=
  first ← fdt_first_property_offset fdt node_offset;
  while (fun prop_offset =>
    if 0 <=? prop_offset then
      '(prop, _) ← fdt_get_property_by_offset fdt prop_offset;
      nameoff ← fdt32_ld_ (prop_nameoff prop);
      name ← fdt_string fdt (s32 nameoff);
      c ← strcmp name (sym_str "stdout-path");
      (if c =? 0 then
         stdout_path_offset ← fdt_path_offset depth fdt (prop_data prop);
         dev ← device_find_dev_by_fdt_offset stdout_path_offset;
         wr 8 (sym_console + 32) dev
       else mret tt);;
      next ← fdt_next_property_offset fdt prop_offset;
      mret (inl next)
    else mret (inr tt)) first.

(** The descriptor of a node no driver takes; its [fdt_node_offset] is left
    as the allocator returned it. *)
Definition unknown_device : M Z :=
  dev ← kmem_alloc sizeof_device;
  counter ← rd 4 sym_device_counter;
  wr 4 sym_device_counter (u32 (counter + 1));;
  counter ← rd 4 sym_device_counter;
  wr 4 (d_devId dev) counter;;
  wr 8 (d_driver dev) NULL;;
  wr 8 (d_internal dev) NULL;;
  wr 8 (d_name dev) (sym_str "Unknown Device");;
  wr 8 (d_parent dev) NULL;; wr 8 (d_next dev) NULL;; wr 8 (d_children dev) NULL;;
  mret dev.

Fixpoint walk_fdt (fuel : nat) (fdt node_offset : Z) : M Z :=
  match fuel with
  | O => hang
  | S fuel' =>
      '(name, _) ← fdt_get_name fdt node_offset false;
      c ← strcmp name (sym_str "chosen");
      if c =? 0 then wr 4 sym_chosen node_offset;; mret NULL else
      dev ← device_init_node fdt node_offset;
      dev ← (if dev =? NULL then unknown_device else mret dev);
      fdt_for_each_subnode fdt node_offset tt (fun _ subnode_offset =>
        child ← walk_fdt fuel' fdt subnode_offset;
        if child =? NULL then mret tt else
        wr 8 (d_parent child) dev;;
        first ← rd 8 (d_children dev);
        wr 8 (d_next child) first;;
        wr 8 (d_children dev) child);;
      mret dev
  end.

Definition device_walk_fdt (fdt node_offset : Z) : M Z := walk_fdt depth fdt node_offset.

Definition device_discover : M unit :=
  fdt ← rd 8 sym_flatten_device_tree;
  dev ← device_walk_fdt fdt 0;
  wr 8 (d_children root_dev) dev;;
  chosen ← rd 4 sym_chosen;
  if negb (chosen =? 0) then
    fdt ← rd 8 sym_flatten_device_tree;
    device_fdt_parse_chosen fdt (s32 chosen)
  else mret tt.

Definition device_fdt_init (fdt : Z) : M Z :=
  printf ("[device]flattened device tree detected" ++ nl) [];;
  err ← fdt_check_header fdt;
  if negb (err =? 0) then panic "device_fdt_init corrupt fdt" else
  printf ("[device]fdt addr: %p" ++ nl) [AInt fdt];;
  totalsize ← fdt_totalsize fdt;
  printf ("[device]fdt size: %u" ++ nl) [AInt totalsize];;
  version ← fdt_version fdt;
  printf ("[device]fdt version: %u" ++ nl) [AInt version];;
  printf ("[device]copying fdt to kernel, new addr: %p" ++ nl) [AInt sym_fdt_blob];;
  totalsize ← fdt_totalsize fdt;
  (if totalsize <? sizeof_fdt_blob then memmove sym_fdt_blob fdt totalsize
   else panic "device_fdt_init insufficient space for fdt");;
  mret sym_fdt_blob.

Definition device_init : M unit :=
  wr 4 sym_device_counter 0;;
  device_drivers_load;;
  device_discover;;
  hal_init.

(** ** memory.c: RAM and reserved regions in the device tree

    The static arrays are passed along as in [device_calc_available_ram]. *)

Record found := mk_found { f_ram : ram_segment_descriptor_struct; seg_begin : list Z; seg_end : list Z }.

Definition device_fdt_get_reg (fdt node_offset : Z) : M (Z * Z) :=
  '(reg_prop, _) ← fdt_get_property fdt node_offset (sym_str "reg");
  p1 ← rd 8 (prop_data reg_prop);
  p2 ← rd 8 (prop_data reg_prop + 8);
  mret (fdt64_to_cpu p1, fdt64_to_cpu p2).

(** An entry past the end of the arrays is an access out of bounds. *)
Definition add_reserved (f : found) (res_beg res_len : Z) : M found :=
  match append (seg_begin f) res_beg, append (seg_end f) (res_beg +l res_len) with
  | Some b, Some e => mret (mk_found (f_ram f) b e)
  | _, _ => fault MAX_RAM_SEGMENT
  end.

Fixpoint walk_memory (fuel : nat) (fdt node_offset : Z) (f : found) : M found :=
  match fuel with
  | O => hang
  | S fuel' =>
      let children f := fdt_for_each_subnode fdt node_offset f (fun f off => walk_memory fuel' fdt off f) in
      '(name, _) ← fdt_get_name fdt node_offset false;
      n ← strlen (sym_str "memory");
      c ← strncmp name (sym_str "memory") (n -l 1);
      if c =? 0 then
        '(beg, len) ← device_fdt_get_reg fdt node_offset;
        children (mk_found (mk_seg beg len) (seg_begin f) (seg_end f))
      else
        '(name, _) ← fdt_get_name fdt node_offset false;
        n ← strlen (sym_str "reserved-memory");
        c ← strncmp name (sym_str "reserved-memory") (n -l 1);
        if c =? 0 then
          fdt_for_each_subnode fdt node_offset f (fun f res_mem_off =>
            '(res_beg, res_len) ← device_fdt_get_reg fdt res_mem_off;
            add_reserved f res_beg res_len)
        else children f
  end.

Definition device_walk_fdt_for_memory (fdt node_offset : Z) (f : found) : M found := walk_memory depth fdt node_offset f.

Fixpoint print_segments (i : Z) (l : list ram_segment_descriptor_struct) : M unit :=
  match l with
  | [] => mret tt
  | x :: l' =>
      printf ("[device_memory]    [%d]%p - %p" ++ nl) [AInt i; AInt (pa_begin x); AInt (pa_begin x +l pa_len x -l 1)];;
      print_segments (i + 1) l'
  end.

Definition device_memory_init : M unit :=
  fdt ← rd 8 sym_flatten_device_tree;
  r ← gets ram_descriptor;
  f ← device_walk_fdt_for_memory fdt 0 (mk_found (ram r) [] []);
  let rm := f_ram f in
  modify (fun s => set_ram (mk_ram rm (available_ram_segments (ram_descriptor s))) s);;
  printf ("[device_memory]ram ranges from %p to %p" ++ nl) [AInt (pa_begin rm); AInt (pa_begin rm +l pa_len rm -l 1)];;
  match device_calc_available_ram (kimage "KERNEL_IMG_PA_END") (seg_begin f) (seg_end f) rm with
  | None => fault MAX_RAM_SEGMENT
  | Some segs =>
      modify (fun s => set_ram (mk_ram rm segs) s);;
      printf ("[device_memory]available memory segments:" ++ nl) [];;
      print_segments 0 segs
  end.
End device.
