(* ===== verification/Main.v ===== *)
(** * main.c, boot/entrypoint.c, signal.c: starting the kernel

    Every hart enters [kernel_main]; the first one brings the system up and
    starts the others, then all wait for each other.  What the other harts
    do to this hart's memory while it waits is the parameter [other_harts],
    run once per round of a waiting loop. *)

From S2P Require Import Prelude Memory Machine DevMemory Strings Hal Lock Console Csr Sbi Bootmem Buddy Object Vmem Kmem.
From S2P Require Import Proc Trap Plic Device.

Class Others := other_harts : M unit.

Section main.
Context {L : KernelLayout} {C : Code} {W : Switch} {F : Firmware} {O : Others}.
Variable depth : nat.

(** [struct boot_command { int argc; char argv[1024]; }] *)
Definition boot_argc : Z := sym_var "vboot_cmd".
Definition boot_argv : Z := sym_var "vboot_cmd" + 4.
Definition started_hart_count_lock : Z := sym_var "started_hart_count_lock".
Definition started_hart_count : Z := sym_var "started_hart_count".
Definition boot_hart_id : Z := sym_var "boot_hart_id".
Definition is_idmap_removed : Z := sym_var "is_idmap_removed".
Definition hart_count : Z := sym_var "hart_count".

(** signal.c: the message of [panic] on the console, before the loop that
    never ends. *)
Definition panic_message (s : Z) : M unit := printf ("[panic]%s" ++ nl) [APtr s];; hang.

Definition parse_boot_args : M unit :=
  while (fun '(ptr, arg) =>
    argc ← rd 4 boot_argc;
    if arg <? s32 argc then
      c ← strcmp ptr (sym_str "--fdt");
      if (c =? 0) && (arg + 1 <? s32 argc) then
        n ← strlen ptr;
        let ptr := ptr + (n + 1) in
        fdt ← strtoul ptr NULL 16;
        wr 8 sym_flatten_device_tree fdt;;
        mret (inl (ptr, arg + 2))
      else panic "parse_boot_args"
    else mret (inr tt)) (boot_argv, 0).

(** Copying the arguments, one after the other with their terminators. *)
Definition copy_arguments (argc argv : Z) : M unit :=
  wr 4 boot_argc argc;;
  while (fun '(i, argv_ptr) =>
    if i <? argc then
      s ← rd 8 (argv + 8 * i);
      argv_ptr ← while (fun '(ptr, argv_ptr) =>
        c ← rd 1 (s + ptr);
        wr 1 (boot_argv + argv_ptr) c;;
        c ← rd 1 (s + ptr);
        if negb (c =? 0) then mret (inl (ptr + 1, argv_ptr + 1)) else mret (inr (argv_ptr + 1))) (0, argv_ptr);
      mret (inl (i + 1, argv_ptr))
    else mret (inr tt)) (0, 0).

Definition quote : string := String (Ascii.ascii_of_nat 34) EmptyString.

Definition print_arguments : M unit :=
  while (fun '(i, j) =>
    argc ← rd 4 boot_argc;
    if i <? s32 argc then
      printf ("[kernel]- " ++ quote ++ "%s" ++ quote ++ nl) [APtr (boot_argv + j)];;
      n ← strlen (boot_argv + j);
      mret (inl (i + 1, s32 (j + n + 1)))
    else mret (inr tt)) (0, 0).

(** [for (id = 0; id < MAX_CPU; id++) { ret = sbi_hsm_hart_get_status(id); ... }]
    up to the first error. *)
Definition for_harts (body : Z -> sbiret -> M bool) : M unit :=
  while (fun id =>
    if id <? MAX_CPU then
      ret ← sbi_hsm_hart_get_status id;
      go ← body id ret;
      mret (if go : bool then inl (id + 1) else inr tt)
    else mret (inr tt)) 0.

Definition count_harts : M unit :=
  for_harts (fun id ret =>
    if negb (error ret =? 0) then mret false else
    n ← rd 8 hart_count;
    wr 8 hart_count (n +l 1);;
    modify (fun s => let h := hart_at s id in
      set_harts (<[id := mk_hart 1 (running_proc h) (context h) (trap_pushoff_dep h) (trap_enabled h)]> (harts s)) s);;
    mret true).

Definition start_harts : M unit :=
  for_harts (fun id ret =>
    if (error ret =? 0) && (value ret =? 1) then sbi_hsm_hart_start id (kimage "pkernel_hsm_entry") 0;; mret true
    else mret (error ret =? 0)).

Definition hart_started : M unit :=
  spinlock_acquire started_hart_count_lock;;
  n ← rd 4 started_hart_count;
  wr 4 started_hart_count (u32 (n + 1));;
  spinlock_release started_hart_count_lock.

(** The first hart's part. *)
Definition bring_up (argc argv : Z) : M unit :=
  spinlock_init started_hart_count_lock (sym_str EmptyString);;
  id ← r_tp;
  wr 4 boot_hart_id id;;
  copy_arguments argc argv;;
  parse_boot_args;;
  console_init;;
  printf ("[kernel]vkernel running" ++ nl) [];;
  printf ("[kernel]boot argc: %d" ++ nl) [AInt argc];;
  print_arguments;;
  fdt ← rd 8 sym_flatten_device_tree;
  fdt ← device_fdt_init fdt;
  wr 8 sym_flatten_device_tree fdt;;
  device_memory_init depth;;
  bootmem_init;;
  kmem_init;;
  vm_kernel_init;;
  proc_init;;
  ktrap_install_handler;;
  tick_init;;
  count_harts;;
  start_harts;;
  device_init depth;;
  hart_started.

Definition kernel_main (argc argv : Z) : M unit :=
  started ← rd 4 started_hart_count;
  (if started =? 0 then bring_up argc argv
   else ktrap_install_handler;; hart_started);;
  while (fun _ =>
    n ← rd 8 hart_count;
    started ← rd 4 started_hart_count;
    if negb (n =? u64 (s32 started)) then other_harts;; mret (inl tt) else mret (inr tt)) tt;;
  id ← r_tp;
  boot ← rd 4 boot_hart_id;
  (if id =? u64 (s32 boot) then
     vm_kernel_remove_idmap;;
     sfence_vma;;
     wr 1 is_idmap_removed 1;;
     sfence_vma
   else
     while (fun _ =>
       sfence_vma;;
       removed ← rd 1 is_idmap_removed;
       if removed =? 0 then sfence_vma;; other_harts;; mret (inl tt) else mret (inr tt)) tt);;
  sfence_vma;;
  id ← r_tp;
  printf ("[kernel] hart #%d ready" ++ nl) [AInt id];;
  sie ← r_sie;
  w_sie (sie |l SIE_SEIE |l SIE_STIE |l SIE_SSIE);;
  ktrap_schedule_timer SCHEDULING_TIME_SPAN;;
  scheduler.

(** entrypoint.c, in the physical kernel. *)
Definition kernel_entrypoint (argc argv : Z) : M Z :=
  setup_mmu;;
  call (kimage "vkernel_entry") [argc; argv];;
  mret 0.
End main.
