(* ===== verification/ProcProofs.v ===== *)
(** * The process table

    [procs_ok] is the invariant of the process list; [table] reads it as a
    list of [pview], the fields that scheduling depends on.  The rules for
    [for_procs] and [proc_lock_and_find] are shared by the theorems of
    ProcSpec. *)

From S2P Require Import Prelude Memory Machine Lists Strings Hal Lock Console Buddy Object Kmem Csr Vmem Proc.

(** What scheduling sees of a process. *)
Record pview := mk_pview {
  v_addr : Z;
  v_pid : Z;
  v_state : Z;
  v_killed : Z;
  v_chan : Z;
  v_parent : Z;
}.

Section table.
Context {L : KernelLayout} {C : Code} {W : Switch}.

Definition view (m : memory) (p : Z) : pview :=
  mk_pview p (ld32 m (p_pid p)) (ld32 m (p_state p)) (ld32 m (p_killed p)) (ld64 m (p_chan p)) (ld64 m (p_parent p)).
Definition table (m : memory) (l : list Z) : list pview := map (view m) l.

(** ** The specification of the operations on the table *)

Definition with_state (st : proc_state) (v : pview) : pview :=
  mk_pview (v_addr v) (v_pid v) (state_code st) (v_killed v) (v_chan v) (v_parent v).

(** Waking the sleepers on a channel. *)
Definition wake (chan : Z) (v : pview) : pview :=
  if (v_chan v =? chan) && (v_state v =? state_code PROC_SLEEPING) then with_state PROC_RUNNABLE v else v.

(** Killing a process marks it and makes it runnable if it sleeps. *)
Definition kill (v : pview) : pview :=
  let v' := mk_pview (v_addr v) (v_pid v) (v_state v) 1 (v_chan v) (v_parent v) in
  if v_state v =? state_code PROC_SLEEPING then with_state PROC_RUNNABLE v' else v'.

Definition find_pid (pid : Z) (t : list pview) : option pview := List.find (fun v => v_pid v =? u32 pid) t.
Definition at_addr (f : pview -> pview) (p : Z) (v : pview) : pview := if v_addr v =? p then f v else v.

(** ** The list in memory *)

Record procs_ok (m : memory) (l : list Z) : Prop := {
  pr_list : dll 16 24 m pm_proc_list l;
  pr_nodup : NoDup l;
  pr_addr p : p ∈ l -> VA_KERNEL_BEGIN <= p /\ p + sizeof_proc <= VA_KERNEL_BEGIN + 2 ^ 37;
  pr_apart p q : p ∈ l -> q ∈ l -> p <> q -> disjoint p sizeof_proc q sizeof_proc;
  pr_len : Z.of_nat (length l) < 2 ^ 64;
}.

(** The bytes of the processes and of the list head. *)
Definition in_procs (l : list Z) (a : Z) : Prop :=
  in_range pm_proc_list sizeof_proc a \/ exists p, p ∈ l /\ in_range p sizeof_proc a.

Lemma manager_addr : VA_KERNEL_IMG_BEGIN <= sym_proc_manager /\ sym_proc_manager + 256 < 2 ^ 64.
Proof.
  pose proof sym_data_image as H. rewrite Forall_forall in H. apply (H (sym_proc_manager, 256)).
  do 4 apply list_elem_of_further. apply list_elem_of_here.
Qed.

Lemma lock_addr : PAGE_SIZE <= pm_lock.
Proof. pose proof manager_addr. unfold pm_lock, PAGE_SIZE, VA_KERNEL_IMG_BEGIN in *. lia. Qed.

Lemma proc_addr m l p : procs_ok m l -> p ∈ l -> PAGE_SIZE <= p /\ p <> NULL.
Proof. intros H Hp. destruct (pr_addr _ _ H p Hp). unfold VA_KERNEL_BEGIN, PAGE_SIZE, NULL in *. lia. Qed.

(** A process does not overlap the manager. *)
Lemma proc_not_manager m l p : procs_ok m l -> p ∈ l -> disjoint p sizeof_proc sym_proc_manager 256.
Proof.
  intros H Hp. destruct (pr_addr _ _ H p Hp). pose proof manager_addr. unfold disjoint, VA_KERNEL_BEGIN, VA_KERNEL_IMG_BEGIN in *. lia.
Qed.

(** Addresses of the processes other than their states: what links, ids and
    channels depend on. *)
Definition state_field (l : list Z) (a : Z) : Prop := exists p, p ∈ l /\ in_range (p_state p) 4 a.

Lemma link_not_state m l x off k : procs_ok m l -> x ∈ pm_proc_list :: l -> 8 <= off -> 0 <= k -> off + k <= sizeof_proc ->
  forall a, in_range (x + off) k a -> ~ state_field l a.
Proof.
  intros H Hx Ho Hk Hs a Ha (p & Hp & Hr). unfold in_range, p_state, sizeof_proc in *. apply elem_of_cons in Hx as [->|Hx].
  - pose proof (proc_not_manager m l p H Hp). unfold disjoint, pm_proc_list, sizeof_proc in *. lia.
  - destruct (Z.eq_dec x p) as [->|Hne]; [lia|]. pose proof (pr_apart _ _ H x p Hx Hp Hne). unfold disjoint, sizeof_proc in *. lia.
Qed.

Lemma dll_agree m m' l : dll 16 24 m pm_proc_list l ->
  (forall x, x ∈ pm_proc_list :: l -> nxtm 24 m' x = nxtm 24 m x /\ prvm 16 m' x = prvm 16 m x) -> dll 16 24 m' pm_proc_list l.
Proof.
  intros [Hl He] H. split; [|rewrite (proj1 (H _ (lastn_in _ _))); exact He]. clear He.
  revert Hl H. generalize pm_proc_list. induction l as [|x l IH]; intros h Hl H; [done|]. destruct Hl as (H1 & H2 & H3). simpl. split_and!.
  - rewrite (proj1 (H h ltac:(apply list_elem_of_here))). done.
  - rewrite (proj2 (H x ltac:(apply list_elem_of_further, list_elem_of_here))). done.
  - apply IH; [done|]. intros y Hy. apply H. by apply list_elem_of_further.
Qed.

(** Writing process states keeps the list. *)
Lemma procs_states m m' l : procs_ok m l -> agree (fun a => ~ state_field l a) m m' -> procs_ok m' l.
Proof.
  intros H Ha. split; try apply H. apply (dll_agree m); [apply H|]. intros x Hx.
  split; apply ld_agree; (eapply agree_weaken; [|exact Ha]); apply (link_not_state m l x _ _ H Hx); unfold sizeof_proc; simpl; lia.
Qed.

(** Memory outside the table does not matter. *)
Lemma procs_frame m m' l : procs_ok m l -> agree (in_procs l) m m' -> procs_ok m' l /\ table m' l = table m l.
Proof.
  intros H Ha.
  assert (Hf : forall p x n a, p ∈ l -> p <= x -> x + n <= p + sizeof_proc -> in_range x n a -> in_procs l a).
  { intros p x n a Hp Ho Hn Hr. right. exists p. split; [done|]. unfold in_range in *. lia. }
  split.
  - split; try apply H. apply (dll_agree m); [apply H|]. intros x Hx.
    split; apply ld_agree; (eapply agree_weaken; [|exact Ha]); intros a Hr; unfold in_range in Hr; simpl in Hr;
      (apply elem_of_cons in Hx as [->|Hx]; [left|right; exists x; split; [done|]]); unfold in_range, sizeof_proc; lia.
  - unfold table. apply map_ext_in. intros p Hp%list_elem_of_In. unfold view.
    f_equal; apply ld_agree; (eapply agree_weaken; [|exact Ha]); intros a; apply (Hf p); try done;
      unfold p_pid, p_state, p_killed, p_chan, p_parent, sizeof_proc; simpl; lia.
Qed.

(** The lock is apart from the table. *)
Lemma lock_not_procs m l a : procs_ok m l -> in_procs l a -> ~ in_range pm_lock sizeof_spinlock a.
Proof.
  intros H [Ha|(p & Hp & Ha)] Hr; unfold in_range, pm_lock, pm_proc_list, sizeof_spinlock, sizeof_proc in *; [lia|].
  pose proof (proc_not_manager m l p H Hp). unfold disjoint, sizeof_proc in *. lia.
Qed.

Lemma procs_lock m m' l : procs_ok m l -> agree (fun a => ~ in_range pm_lock sizeof_spinlock a) m m' ->
  procs_ok m' l /\ table m' l = table m l.
Proof.
  intros H Ha. apply procs_frame; [done|]. eapply agree_weaken; [|exact Ha]. intros a. by apply (lock_not_procs m l).
Qed.

(** ** Loops over the processes *)

Lemma dll_next m h l1 l2 : dll 16 24 m h (l1 ++ l2) -> nxtm 24 m (lastn h l1) = hd NULL l2.
Proof. intros [Hl He]. apply links_app in Hl as [_ Hl]. destruct l2 as [|x l2]; [by rewrite app_nil_r in He|apply Hl]. Qed.

Lemma lastn_snoc h l x : lastn h (l ++ [x]) = x.
Proof. by rewrite lastn_app. Qed.

Lemma wp_for_procs {R} (I : list Z -> list Z -> kst -> Prop) (body : Z -> M (option R)) l (Q : option R -> kst -> Prop) s :
  I [] l s ->
  (forall l1 l2 s', l = l1 ++ l2 -> I l1 l2 s' -> procs_ok (mem s') l) ->
  (forall l1 p l2 s', l = l1 ++ p :: l2 -> I l1 (p :: l2) s' ->
     wp (body p) (fun r s'' => match r with Some r => Q (Some r) s'' | None => I (l1 ++ [p]) l2 s'' end) s') ->
  (forall s', I l [] s' -> Q None s') ->
  wp (for_procs body) Q s.
Proof.
  intros H0 Hok Hb He. unfold for_procs. pose proof (Hok [] l s eq_refl H0) as P0. pose proof lock_addr.
  wp_steps; [unfold p_nxt, pm_proc_list, pm_lock, PAGE_SIZE in *; lia|].
  apply (wp_while_n (fun n p s' => exists l1 l2, l = l1 ++ l2 /\ p = hd NULL l2 /\ n = Z.of_nat (length l2) /\ I l1 l2 s') _ (Z.of_nat (length l))).
  - exists [], l. split_and!; try done. apply (dll_next (mem s) pm_proc_list [] l). apply P0.
  - pose proof (pr_len _ _ P0). lia.
  - intros n p s' (l1 & [|q l2] & -> & -> & -> & HI) _; simpl.
    { wp_step. rewrite app_nil_r in *. by apply He. }
    assert (Hq : q ∈ l1 ++ q :: l2) by (apply elem_of_app; right; apply list_elem_of_here).
    pose proof (Hok _ _ _ eq_refl HI) as P1. destruct (proc_addr _ _ q P1 Hq) as [Ha Hn]. rewrite (proj2 (Z.eqb_neq _ _)) by done.
    wp_step. eapply wp_mono; [by apply Hb|]. intros [r|] s'' H1; [by wp_step|].
    wp_steps; [unfold p_nxt; lia|]. exists (Z.of_nat (length l2)). split; [lia|]. exists (l1 ++ [q]), l2.
    assert (El : l1 ++ q :: l2 = (l1 ++ [q]) ++ l2) by (by rewrite <- app_assoc). split_and!; try done.
    pose proof (pr_list _ _ (Hok _ _ _ El H1)) as D. rewrite El in D. apply dll_next in D. rewrite lastn_snoc in D. exact D.
Qed.

(** ** Taking the manager's lock *)

Lemma pm_locked s l : hart_ok s -> procs_ok (mem s) l ->
  let s0 := set_mem (lock_mem (mem s) pm_lock (my_hart s)) (pushed s) in
  procs_ok (mem s0) l /\ table (mem s0) l = table (mem s) l /\ lock_mine s (mem s0) pm_lock.
Proof.
  intros Hh H. cbv zeta. rewrite set_mem_mem. destruct (procs_lock (mem s) _ l H (lock_mem_agree (mem s) pm_lock (my_hart s))).
  split_and!; [done|done|]. apply lock_mem_mine, Hh.
Qed.

Lemma wp_proc_lock_and_find pid l (Q : Z -> kst -> Prop) s :
  hart_ok s -> lock_free (mem s) pm_lock -> procs_ok (mem s) l ->
  match find_pid pid (table (mem s) l) with
  | Some v => Q (v_addr v) (set_mem (lock_mem (mem s) pm_lock (my_hart s)) (pushed s))
  | None => forall s', quiet s s' -> mem s' = unlock_mem (lock_mem (mem s) pm_lock (my_hart s)) pm_lock -> Q NULL s'
  end -> wp (proc_lock_and_find pid) Q s.
Proof.
  intros Hh Hf Hok HQ. unfold proc_lock_and_find. wp_step. apply wp_spinlock_acquire; try done; [apply lock_addr|].
  set (s0 := set_mem _ (pushed s)). destruct (pm_locked s l Hh Hok) as (P0 & T0 & M0). fold s0 in P0, T0, M0. rewrite <- T0 in HQ.
  wp_step. apply (wp_for_procs (fun l1 l2 s' => s' = s0 /\ find_pid pid (table (mem s0) l1) = None) _ l).
  - by split.
  - by intros l1 l2 s' _ [-> _].
  - intros l1 p l2 s' -> [-> Hn]. destruct (proc_addr _ _ p P0) as [Ha _]; [apply elem_of_app; right; apply list_elem_of_here|].
    unfold p_pid. wp_steps. unfold find_pid, table in Hn, HQ. rewrite map_app in HQ. 
    assert (E : forall t, List.find (fun v => v_pid v =? u32 pid) (map (view (mem s0)) l1 ++ t) = List.find (fun v => v_pid v =? u32 pid) t).
    { intros t. clear -Hn. induction (map _ l1) as [|v t' IH]; [done|]. simpl in *. destruct (_ =? _); [done|by apply IH]. }
    rewrite E in HQ. cbn [List.find v_pid view map] in HQ. unfold p_pid in HQ. destruct (Z.eqb_spec (ld32 (mem s0) p) (u32 pid)) as [Ep|Ep].
    + wp_step. exact HQ.
    + split; [done|]. unfold find_pid, table. rewrite map_app, E. cbn [List.find v_pid view map]. unfold p_pid. by rewrite (proj2 (Z.eqb_neq _ _)) by done.
  - intros s' [-> Hn]. rewrite Hn in HQ. wp_step. apply (wp_release_quiet pm_lock _ (mem s0) s); [done|apply lock_addr|done|done|].
    intros s' Hq Em. wp_step. by apply HQ.
Qed.

(** Leaving the critical section after changes to the process states. *)
Lemma wp_pm_release l (Q : unit -> kst -> Prop) s t :
  hart_ok s -> procs_ok (mem t) l ->
  let s0 := set_mem (lock_mem (mem s) pm_lock (my_hart s)) (pushed s) in
  quiet s0 t -> agree (in_range pm_lock sizeof_spinlock) (mem s0) (mem t) ->
  (forall s', quiet s s' -> lock_free (mem s') pm_lock -> procs_ok (mem s') l -> table (mem s') l = table (mem t) l ->
     agree (fun a => ~ in_range pm_lock sizeof_spinlock a) (mem t) (mem s') -> Q tt s') ->
  wp (spinlock_release pm_lock) Q t.
Proof.
  intros Hh Hok s0 Hq Ha HQ. pose proof (lock_mem_mine s (mem s) pm_lock ltac:(apply Hh)) as [M1 M2].
  apply (wp_release_quiet pm_lock _ (mem s0) s); try done; [apply lock_addr| |].
  - unfold s0, sizeof_spinlock in Ha. rewrite set_mem_mem in Ha. split; [rewrite <- M1|rewrite <- M2]; apply ld_agree; (eapply agree_weaken; [|exact Ha]);
      unfold in_range; simpl; intros; lia.
  - intros s' Q' Em. destruct (procs_lock (mem t) (mem s') l Hok) as [P' T']; [rewrite Em; apply unlock_mem_agree|].
    apply HQ; try done; rewrite Em; [apply unlock_mem_free|apply unlock_mem_agree].
Qed.

(** ** One process *)

Lemma state_view m l p q st : procs_ok m l -> p ∈ l -> q ∈ l ->
  view (st32 m (p_state p) (state_code st)) q = at_addr (with_state st) p (view m q).
Proof.
  intros H Hp Hq. set (m' := st32 _ _ _).
  assert (Ha : agree (fun a => ~ state_field l a) m m') by (apply agree_st; intros b Hb Hn; apply Hn; by exists p).
  assert (Hst : 0 <= state_code st < 2 ^ 32) by (destruct st; simpl; lia).
  assert (Ho : forall off n, 8 <= off -> Z.of_nat n + off <= sizeof_proc -> ld n m' (q + off) = ld n m (q + off)).
  { intros off n Ho Hs. apply ld_agree. eapply agree_weaken; [|exact Ha].
    apply (link_not_state m l q off (Z.of_nat n) H); [by apply list_elem_of_further|lia|lia|lia]. }
  assert (Hpid : ld32 m' (p_pid q) = ld32 m (p_pid q) /\ ld32 m' (p_state q) = if q =? p then state_code st else ld32 m (p_state q)).
  { unfold m', p_pid, p_state. destruct (Z.eqb_spec q p) as [->|Hne].
    - split; [apply ld_st_other; unfold disjoint; simpl; lia|by apply ld32_st32].
    - pose proof (pr_apart _ _ H q p Hq Hp Hne). split; apply ld_st_other; unfold disjoint, sizeof_proc in *; simpl; lia. }
  destruct Hpid as [Ep Es]. unfold view at 1. rewrite Ep, Es. unfold p_killed, p_chan, p_parent.
  rewrite !Ho by (unfold sizeof_proc; simpl; lia). unfold at_addr. simpl. destruct (Z.eqb_spec q p); done.
Qed.

Lemma state_write m l p st : procs_ok m l -> p ∈ l ->
  procs_ok (st32 m (p_state p) (state_code st)) l /\
  agree (fun a => ~ state_field l a) m (st32 m (p_state p) (state_code st)).
Proof.
  intros H Hp. assert (Ha : agree (fun a => ~ state_field l a) m (st32 m (p_state p) (state_code st))).
  { apply agree_st; intros b Hb Hn; apply Hn; by exists p. }
  split; [by apply (procs_states m)|done].
Qed.

(** The lock is no process's state. *)
Lemma lock_not_state m l a : procs_ok m l -> in_range pm_lock sizeof_spinlock a -> ~ state_field l a.
Proof.
  intros H Ha (p & Hp & Hr). apply (lock_not_procs m l a H); [|done]. right. exists p. split; [done|].
  unfold in_range, p_state, sizeof_proc in *. lia.
Qed.

(** Marking a process killed. *)
Definition mark (v : pview) : pview := mk_pview (v_addr v) (v_pid v) (v_state v) 1 (v_chan v) (v_parent v).

Lemma killed_other m l p q off n : procs_ok m l -> p ∈ l -> q ∈ pm_proc_list :: l -> 0 <= off -> Z.of_nat n + off <= sizeof_proc ->
  off + Z.of_nat n <= 8 \/ 12 <= off \/ q <> p -> ld n (st32 m (p_killed p) 1) (q + off) = ld n m (q + off).
Proof.
  intros H Hp Hq Ho Hs Hd. apply ld_st_other. unfold p_killed, disjoint, sizeof_proc in *.
  destruct (Z.eq_dec q p) as [->|Hne]; [simpl; lia|]. apply elem_of_cons in Hq as [->|Hq].
  - pose proof (proc_not_manager m l p H Hp). unfold disjoint, pm_proc_list, sizeof_proc in *. simpl. lia.
  - pose proof (pr_apart _ _ H q p Hq Hp Hne). unfold disjoint, sizeof_proc in *. simpl. lia.
Qed.

Lemma killed_write m l p : procs_ok m l -> p ∈ l ->
  procs_ok (st32 m (p_killed p) 1) l /\
  (forall q, q ∈ l -> view (st32 m (p_killed p) 1) q = at_addr mark p (view m q)) /\
  agree (in_range pm_lock sizeof_spinlock) m (st32 m (p_killed p) 1).
Proof.
  intros H Hp. set (m' := st32 _ _ _). split_and!.
  - split; try apply H. apply (dll_agree m); [apply H|]. intros x Hx.
    split; apply (killed_other m l); try done; unfold sizeof_proc; simpl; lia.
  - intros q Hq. assert (Hq' : q ∈ pm_proc_list :: l) by (by apply list_elem_of_further).
    assert (Ek : ld32 m' (p_killed q) = if q =? p then 1 else ld32 m (p_killed q)).
    { destruct (Z.eqb_spec q p) as [->|Hne]; [by apply ld32_st32|].
      apply (killed_other m l); try done; by right; right. }
    assert (Ep : ld32 m' (p_pid q) = ld32 m (p_pid q)).
    { unfold p_pid. pose proof (killed_other m l p q 0 4 H Hp Hq' ltac:(lia) ltac:(unfold sizeof_proc; simpl; lia) ltac:(simpl; lia)) as E. by rewrite Z.add_0_r in E. }
    unfold view at 1. rewrite Ek, Ep. unfold p_state, p_chan, p_parent, m'.
    rewrite !(killed_other m l p q) by (done || unfold sizeof_proc; simpl; lia). unfold at_addr. simpl. by destruct (Z.eqb_spec q p).
  - apply agree_st. intros b Hb Hl. apply (lock_not_procs m l b H); [|done]. right. exists p. split; [done|].
    unfold in_range, p_killed, sizeof_proc in *. simpl in Hb. lia.
Qed.

Lemma find_pid_in pid m l v : find_pid pid (table m l) = Some v -> exists p, p ∈ l /\ v = view m p.
Proof.
  intros H. apply List.find_some in H as [H _]. unfold table in H. apply in_map_iff in H as (p & <- & Hp). exists p.
  split; [by apply list_elem_of_In|done].
Qed.
(** ** Waking *)

Lemma wp_wake_one chan l p (Q : unit -> kst -> Prop) s :
  procs_ok (mem s) l -> p ∈ l ->
  (forall s', quiet s s' -> procs_ok (mem s') l -> agree (fun a => ~ state_field l a) (mem s) (mem s') ->
     (forall q, q ∈ l -> view (mem s') q = at_addr (wake chan) p (view (mem s) q)) -> Q tt s') ->
  wp (wake_one chan p) Q s.
Proof.
  intros H Hp HQ. destruct (proc_addr _ _ p H Hp) as [Ha _]. unfold wake_one, is_state, set_state.
  assert (Hno : forall q, wake chan (view (mem s) p) = view (mem s) p -> at_addr (wake chan) p (view (mem s) q) = view (mem s) q).
  { intros q E. unfold at_addr. simpl. by destruct (Z.eqb_spec q p) as [->|]. }
  wp_steps; [unfold p_chan; lia|]. destruct (Z.eqb_spec (ld64 (mem s) (p_chan p)) chan) as [Ec|Ec].
  - wp_steps; [unfold p_state; lia|]. destruct (Z.eqb_spec (ld32 (mem s) (p_state p)) (state_code PROC_SLEEPING)) as [Es|Es].
    + wp_steps; [unfold p_state; lia|]. destruct (state_write (mem s) l p PROC_RUNNABLE H Hp) as [P' A'].
      apply HQ; [apply quiet_set_mem|done|done|]. intros q Hq. cbn [mem set_mem]. rewrite (state_view (mem s) l) by done.
      unfold at_addr. simpl. destruct (Z.eqb_spec q p) as [->|]; [|done]. unfold wake. cbn [v_chan v_state view]. by rewrite Ec, Z.eqb_refl, Es.
    + wp_steps. apply HQ; try done. intros q Hq. rewrite Hno; [done|]. unfold wake. cbn [v_chan v_state view]. by rewrite (proj2 (Z.eqb_neq _ _) Es), andb_false_r.
  - wp_steps. apply HQ; try done. intros q Hq. rewrite Hno; [done|]. unfold wake. cbn [v_chan v_state view]. by rewrite (proj2 (Z.eqb_neq _ _) Ec).
Qed.

Lemma wp_proc_wakeup chan l s :
  hart_ok s -> lock_free (mem s) pm_lock -> procs_ok (mem s) l ->
  wp (proc_wakeup chan) (fun _ s' => quiet s s' /\ lock_free (mem s') pm_lock /\ procs_ok (mem s') l /\
    table (mem s') l = map (wake chan) (table (mem s) l) /\
    agree (fun a => ~ state_field l a /\ ~ in_range pm_lock sizeof_spinlock a) (mem s) (mem s')) s.
Proof.
  intros Hh Hf Hok. unfold proc_wakeup. apply wp_critical; try done; [apply lock_addr|]. cbv zeta. set (s0 := set_mem _ (pushed s)).
  destruct (pm_locked s l Hh Hok) as (P0 & T0 & _). fold s0 in P0, T0. wp_step.
  apply (wp_for_procs (fun l1 l2 s' => quiet s0 s' /\ procs_ok (mem s') l /\ agree (fun a => ~ state_field l a) (mem s0) (mem s') /\
    (forall q, q ∈ l1 -> view (mem s') q = wake chan (view (mem s0) q)) /\ forall q, q ∈ l2 -> view (mem s') q = view (mem s0) q) _ l).
  - split_and!; try done. by intros q Hq%elem_of_nil.
  - by intros l1 l2 s' _ (_ & P & _).
  - intros l1 p l2 s' El (Q1 & P1 & A1 & V1 & V2). assert (Hp : p ∈ l) by (rewrite El; apply elem_of_app; right; apply list_elem_of_here).
    pose proof (pr_nodup _ _ P1) as Hnd. rewrite El in Hnd. apply NoDup_app in Hnd as (_ & Hd & Hnd). apply NoDup_cons in Hnd as [Hp2 _].
    wp_step. apply (wp_wake_one chan l); try done. intros s'' Q2 P2 A2 V. wp_step. split_and!; [by etrans|done|by etrans| |].
    + intros q Hq. apply elem_of_app in Hq as [Hq|Hq].
      * rewrite V by (rewrite El; apply elem_of_app; by left). unfold at_addr. simpl. destruct (Z.eqb_spec q p) as [->|]; [|by apply V1].
        exfalso. apply (Hd p Hq). apply list_elem_of_here.
      * apply list_elem_of_singleton in Hq as ->. rewrite V by done. unfold at_addr. simpl. rewrite Z.eqb_refl. by rewrite V2 by apply list_elem_of_here.
    + intros q Hq. rewrite V by (rewrite El; apply elem_of_app; right; by apply list_elem_of_further). unfold at_addr. simpl.
      destruct (Z.eqb_spec q p) as [->|]; [done|]. apply V2. by apply list_elem_of_further.
  - intros s' (Q1 & P1 & A1 & V1 & _). wp_step. split_and!; [done| |].
    + eapply agree_weaken; [|exact A1]. intros a. by apply (lock_not_state (mem s')).
    + intros s2 Q2 Em. destruct (procs_lock (mem s') (mem s2) l P1) as [P2 T2]; [rewrite Em; apply unlock_mem_agree|].
      split_and!; [done|rewrite Em; apply unlock_mem_free|done| |].
      * rewrite T2, <- T0. unfold table. rewrite map_map. apply map_ext_in. intros q Hq%list_elem_of_In. by apply V1.
      * etrans; [eapply agree_weaken; [|apply (lock_mem_agree (mem s) pm_lock (my_hart s))]; tauto|].
        etrans; [eapply agree_weaken; [|exact A1]; tauto|]. rewrite Em. eapply agree_weaken; [|apply unlock_mem_agree]. tauto.
Qed.
(** ** Killing *)

(** The fields of the processes that killing changes. *)
Definition sched_field (l : list Z) (a : Z) : Prop := exists p, p ∈ l /\ in_range (p_state p) 8 a.

Lemma state_sched l a : state_field l a -> sched_field l a.
Proof. intros (p & Hp & Ha). exists p. split; [done|]. unfold in_range in *. lia. Qed.

Lemma killed_sched m l p : p ∈ l -> agree (fun a => ~ sched_field l a) m (st32 m (p_killed p) 1).
Proof.
  intros Hp. apply agree_st. intros b Hb Hn. apply Hn. exists p. split; [done|]. unfold in_range, p_killed, p_state in *. simpl in Hb. lia.
Qed.

Lemma wp_proc_kill pid l s :
  hart_ok s -> lock_free (mem s) pm_lock -> procs_ok (mem s) l ->
  wp (proc_kill pid) (fun r s' => quiet s s' /\ lock_free (mem s') pm_lock /\ procs_ok (mem s') l /\
    agree (fun a => ~ sched_field l a /\ ~ in_range pm_lock sizeof_spinlock a) (mem s) (mem s') /\
    match find_pid pid (table (mem s) l) with
    | Some v => r = 0 /\ table (mem s') l = map (at_addr kill (v_addr v)) (table (mem s) l)
    | None => r = -1 /\ table (mem s') l = table (mem s) l
    end) s.
Proof.
  intros Hh Hf Hok. unfold proc_kill. wp_step. apply (wp_proc_lock_and_find pid l); try done.
  destruct (pm_locked s l Hh Hok) as (P0 & T0 & _). set (s0 := set_mem _ (pushed s)) in *.
  assert (L0 : agree (fun a => ~ in_range pm_lock sizeof_spinlock a) (mem s) (mem s0)) by apply lock_mem_agree.
  destruct (find_pid pid (table (mem s) l)) as [v|] eqn:Ef.
  2:{ intros s' Q' Em. simpl. wp_step. assert (L1 : agree (fun a => ~ in_range pm_lock sizeof_spinlock a) (mem s0) (mem s')) by (rewrite Em; apply unlock_mem_agree).
      destruct (procs_lock (mem s0) (mem s') l P0 L1) as [P' T'].
      split_and!; try done; [rewrite Em; apply unlock_mem_free| |by rewrite T'].
      eapply agree_weaken; [|etrans; [exact L0|exact L1]]. tauto. }
  rewrite <- T0 in Ef. destruct (find_pid_in pid (mem s0) l v Ef) as (p & Hp & ->). cbn [v_addr view].
  destruct (proc_addr _ _ p P0 Hp) as [Ha Hn]. rewrite (proj2 (Z.eqb_neq _ _)) by done. unfold is_state, set_state.
  wp_steps; [unfold p_killed; lia|unfold p_state; lia|]. destruct (killed_write (mem s0) l p P0 Hp) as (P1 & V1 & A1).
  pose proof (killed_sched (mem s0) l p Hp) as K1. set (m1 := st32 _ _ 1) in *. cbn [mem set_mem]. fold m1.
  assert (Es : ld32 m1 (p_state p) = v_state (view (mem s0) p)).
  { change (ld32 m1 (p_state p)) with (v_state (view m1 p)). rewrite V1 by done. unfold at_addr. simpl. by rewrite Z.eqb_refl. }
  assert (Hend : forall t, quiet s0 t -> procs_ok (mem t) l -> agree (in_range pm_lock sizeof_spinlock) (mem s0) (mem t) ->
    agree (fun a => ~ sched_field l a) (mem s0) (mem t) -> (forall q, q ∈ l -> view (mem t) q = at_addr kill p (view (mem s0) q)) ->
    wp (spinlock_release pm_lock) (fun _ s2 => wp (mret 0) (fun r s' => quiet s s' /\ lock_free (mem s') pm_lock /\ procs_ok (mem s') l /\
      agree (fun a => ~ sched_field l a /\ ~ in_range pm_lock sizeof_spinlock a) (mem s) (mem s') /\
      r = 0 /\ table (mem s') l = map (at_addr kill p) (table (mem s) l)) s2) t).
  { intros t Qt Pt At Kt Vt. apply (wp_pm_release l _ s t Hh Pt Qt At). intros s' Q' F' P' T' L'. wp_step. split_and!; try done.
    - etrans; [eapply agree_weaken; [|exact L0]; tauto|]. etrans; [eapply agree_weaken; [|exact Kt]; tauto|]. eapply agree_weaken; [|exact L']. tauto.
    - rewrite T', <- T0. unfold table. rewrite map_map. apply map_ext_in. intros q Hq%list_elem_of_In. by apply Vt. }
  destruct (Z.eqb_spec (ld32 m1 (p_state p)) (state_code PROC_SLEEPING)) as [Ez|Ez].
  - wp_steps; [unfold p_state; lia|]. destruct (state_write m1 l p PROC_RUNNABLE P1 Hp) as [P2 A2].
    apply Hend; cbn [mem set_mem]; [etrans; apply quiet_set_mem|done| | |].
    + etrans; [exact A1|]. eapply agree_weaken; [|exact A2]. intros a. by apply (lock_not_state m1).
    + etrans; [exact K1|]. eapply agree_weaken; [|exact A2]. intros a Hn' Hs. by apply Hn', state_sched.
    + intros q Hq. rewrite (state_view m1 l), V1 by done. unfold at_addr. cbn [v_addr view].
      destruct (Z.eqb_spec q p) as [->|Hqp]; cbn [v_addr view mark]; [|by rewrite (proj2 (Z.eqb_neq _ _) Hqp)].
      rewrite Z.eqb_refl. unfold kill. rewrite <- Es, Ez. reflexivity.
  - wp_steps. apply Hend; [apply quiet_set_mem|done|done|done|]. cbn [mem set_mem]. intros q Hq. rewrite V1 by done. unfold at_addr. cbn [v_addr view].
    destruct (Z.eqb_spec q p) as [->|]; [|done]. unfold kill. rewrite <- Es, (proj2 (Z.eqb_neq _ _) Ez). by rewrite Es.
Qed.
End table.
