(* ===== verification/ProcHold.v ===== *)
(** * Inside the manager's critical section

    [ready] is a hart that can take the process manager's lock, [holding] one
    that has it; [wp_take] and [wp_give] are the two ends of the critical
    section, for code that leaves it somewhere else than it entered it.  The
    lemmas on the fields of a process say what writing them keeps. *)

From S2P Require Import Prelude Memory Machine Lists Strings Hal Lock Console Buddy Object Kmem Csr Vmem Proc ProcProofs.

Section hold.
Context {L : KernelLayout} {C : Code} {W : Switch}.

(** A hart outside all critical sections, with the table free to take. *)
Record ready (l : list Z) (s : kst) : Prop := {
  rd_hart : hart_can 2 s;
  rd_dep : trap_pushoff_dep (this_hart s) = 0;
  rd_free : lock_free (mem s) pm_lock;
  rd_procs : procs_ok (mem s) l;
}.

Lemma next_proc m l1 p l2 : procs_ok m (l1 ++ p :: l2) -> ld64 m (p_nxt p) = hd NULL l2.
Proof.
  intros P. pose proof (pr_list _ _ P) as D. change (p :: l2) with ([p] ++ l2) in D. rewrite app_assoc in D. apply dll_next in D. by rewrite lastn_snoc in D.
Qed.

Lemma table_app m l1 l2 : table m (l1 ++ l2) = table m l1 ++ table m l2.
Proof. apply map_app. Qed.

Definition on_hart (p : Z) (s : kst) : kst :=
  let h := this_hart s in put_hart (mk_hart (enabled h) p (context h) (trap_pushoff_dep h) (trap_enabled h)) s.

Lemma ready_on_hart l p s : ready l s -> ready l (on_hart p s) /\ running_proc (this_hart (on_hart p s)) = p.
Proof.
  intros [(H1 & H2 & H3 & H4) Hd Hf Hp]. unfold on_hart. split; [|by rewrite this_put]. split; [|by rewrite this_put|done|done].
  refine (conj H1 (conj H2 _)). rewrite this_put. exact (conj H3 H4).
Qed.

Lemma wp_set_running p (Q : unit -> kst -> Prop) s : 0 <= tp s < MAX_CPU -> Q tt (on_hart p s) -> wp (set_running p) Q s.
Proof. intros H HQ. unfold set_running. wp_step. apply wp_current_hart; [done|]. by wp_step. Qed.

Lemma ready_quiet l l' s s' : ready l s -> quiet s s' -> lock_free (mem s') pm_lock -> procs_ok (mem s') l' -> ready l' s'.
Proof.
  intros [H1 H2 _ _] Q Hf Hp. split; [by apply (quiet_can 2 s)| |done|done]. destruct Q as [G Hh]. destruct (same_globals_fields _ _ G) as (Et & _).
  destruct (same_harts_fields _ _ (u32 (tp s)) Hh) as (Ed & _). unfold this_hart, hart_at in *. by rewrite Et, Ed.
Qed.

(** ** Inside the critical section *)

(** The lock was taken at [sb]; since then the memory has become [m]. *)
Definition holding (l : list Z) (sb : kst) (m : memory) : Prop :=
  ready l sb /\ procs_ok m l /\ agree (in_range pm_lock sizeof_spinlock) (lock_mem (mem sb) pm_lock (my_hart sb)) m.

Lemma ready_ok l s : ready l s -> hart_ok s.
Proof. intros H. exact (hart_can_weaken 2 1 s (rd_hart _ _ H) ltac:(lia)). Qed.

Lemma wp_take l (Q : unit -> kst -> Prop) s : ready l s ->
  (forall m, holding l s m -> table m l = table (mem s) l -> agree (fun a => ~ in_range pm_lock sizeof_spinlock a) (mem s) m -> Q tt (set_mem m (pushed s))) -> wp (spinlock_acquire pm_lock) Q s.
Proof.
  intros H HQ. apply wp_spinlock_acquire; [by apply (ready_ok l)|apply lock_addr|apply H|]. destruct (pm_locked s l (ready_ok l s H) (rd_procs _ _ H)) as (P & T & _).
  rewrite set_mem_mem in *. apply HQ; [done|done|apply lock_mem_agree].
Qed.

Lemma wp_give l sb m (Q : unit -> kst -> Prop) : holding l sb m ->
  (forall s', quiet sb s' -> ready l s' -> table (mem s') l = table m l -> agree (fun a => ~ in_range pm_lock sizeof_spinlock a) m (mem s') -> Q tt s') ->
  wp (spinlock_release pm_lock) Q (set_mem m (pushed sb)).
Proof.
  intros (H & P & A) HQ. apply (wp_pm_release l _ sb); [by apply (ready_ok l)|done|exact (quiet_set_mem m (set_mem _ (pushed sb)))|done|]. intros s' Q' F' P' T' A'. apply HQ; [done|by apply (ready_quiet l l sb)|done|done].
Qed.

(** ** Writing a field of a process *)

(** A field behind the links. *)
Lemma field_write m l p off n v : procs_ok m l -> p ∈ l -> off + Z.of_nat n <= 16 \/ 32 <= off -> 0 <= off -> off + Z.of_nat n <= sizeof_proc ->
  let m' := st n m (p + off) v in
  procs_ok m' l /\ agree (in_range pm_lock sizeof_spinlock) m m' /\ (forall q, q ∈ l -> q <> p -> view m' q = view m q).
Proof.
  intros H Hp Ho H0 Hs. cbv zeta. set (m' := st n m (p + off) v).
  assert (Ho' : forall q k x, q ∈ l -> q <> p -> 0 <= x -> x + Z.of_nat k <= sizeof_proc -> ld k m' (q + x) = ld k m (q + x)).
  { intros q k x Hq Hne Hx Hk. apply ld_st_other. pose proof (pr_apart _ _ H q p Hq Hp Hne). unfold disjoint in *. lia. }
  split_and!.
  - split; try apply H. apply (dll_agree m); [apply H|]. intros x Hx.
    assert (Hd : disjoint (x + 16) 16 (p + off) (Z.of_nat n)).
    { apply elem_of_cons in Hx as [->|Hx].
      - pose proof (proc_not_manager m l p H Hp). unfold disjoint, pm_proc_list, sizeof_proc in *. lia.
      - destruct (Z.eq_dec x p) as [->|Hne]; [unfold disjoint; lia|]. pose proof (pr_apart _ _ H x p Hx Hp Hne). unfold disjoint, sizeof_proc in *. lia. }
    split; apply ld_st_other; unfold disjoint in *; simpl; lia.
  - apply agree_st. intros b Hb Hl. apply (lock_not_procs m l b H); [|done]. right. exists p. split; [done|]. unfold in_range in *. lia.
  - intros q Hq Hne. unfold view. pose proof (Ho' q 4%nat 0 Hq Hne ltac:(lia) ltac:(unfold sizeof_proc; simpl; lia)) as E. rewrite Z.add_0_r in E.
    unfold p_pid, p_state, p_killed, p_chan, p_parent. rewrite E, !Ho' by (done || unfold sizeof_proc; simpl; lia). done.
Qed.
End hold.
