(* ===== verification/ProcExit.v ===== *)
(** * Leaving for good

    [proc_exit] on the process table: it stops the kernel if the process has
    a child; otherwise the process becomes a zombie with its exit code, its
    parent is woken, and the hart switches to the scheduler's context. *)

From S2P Require Import Prelude Memory Machine Lists Strings Hal Lock Console Buddy Object Kmem Csr Vmem Proc ProcProofs ProcHold.

(** ** On the table *)

Definition proc_in (t : list pview) (p : Z) : option pview := List.find (fun v => v_addr v =? p) t.
Definition parent_in (t : list pview) (p : Z) : Z := match proc_in t p with Some v => v_parent v | None => NULL end.
Definition killed_in (t : list pview) (p : Z) : bool := match proc_in t p with Some v => negb (v_killed v =? 0) | None => false end.
Definition has_child (t : list pview) (p : Z) : bool := existsb (fun v => v_parent v =? p) t.

(** The process becomes a zombie, then whoever sleeps on its parent is woken. *)
Definition exit_table (p : Z) (t : list pview) : list pview :=
  map (wake (parent_in t p)) (map (at_addr (with_state PROC_ZOMBIE) p) t).

Section exit.
Context {L : KernelLayout} {C : Code} {W : Switch}.

Lemma proc_in_table m l p : p ∈ l -> proc_in (table m l) p = Some (view m p).
Proof.
  unfold proc_in. induction l as [|q l IH]; intros Hp; [by apply elem_of_nil in Hp|]. simpl.
  destruct (Z.eqb_spec q p) as [->|Hne]; [done|]. apply IH. by apply elem_of_cons in Hp as [->|Hp].
Qed.

Lemma parent_in_table m l p : p ∈ l -> parent_in (table m l) p = v_parent (view m p).
Proof. intros Hp. unfold parent_in. by rewrite proc_in_table. Qed.

Lemma killed_in_table m l p : p ∈ l -> killed_in (table m l) p = negb (v_killed (view m p) =? 0).
Proof. intros Hp. unfold killed_in. by rewrite proc_in_table. Qed.

Lemma has_child_in m l p : has_child (table m l) p = true <-> exists e, e ∈ l /\ v_parent (view m e) = p.
Proof.
  unfold has_child, table. rewrite existsb_exists. split.
  - intros (v & Hv & E%Z.eqb_eq). apply in_map_iff in Hv as (e & <- & He). exists e. by rewrite list_elem_of_In.
  - intros (e & He & E). exists (view m e). split; [apply in_map; by apply list_elem_of_In|by apply Z.eqb_eq].
Qed.

(** ** With a child *)

Lemma rd_ok n a s : PAGE_SIZE <= a -> rd n a s = Ok (ld n (mem s) a) s.
Proof. intros. unfold rd. destruct (Z.ltb_spec a PAGE_SIZE); [lia|done]. Qed.

Lemma bind_ok {A B} (c : M A) (f : A -> M B) a s s' : c s = Ok a s' -> (c ≫= f) s = f a s'.
Proof. intros H. unfold mbind, M_bind. by rewrite H. Qed.

Lemma bind_panic {A B} (c : M A) (f : A -> M B) msg s : c s = Panic msg -> (c ≫= f) s = Panic msg.
Proof. intros H. unfold mbind, M_bind. by rewrite H. Qed.

(** A walk over the processes does not return when the body does not on one
    of them and passes by those before. *)
Lemma for_procs_stops {R} (body : Z -> M (option R)) r l1 e l2 s :
  procs_ok (mem s) (l1 ++ e :: l2) -> stops r (body e) s -> (forall q, q ∈ l1 -> body q s = Ok None s) -> stops r (for_procs body) s.
Proof.
  intros P Hbe Hb. pose proof lock_addr as HL. unfold for_procs.
  apply stops_bind. wp_step; [unfold p_nxt, pm_proc_list, pm_lock, PAGE_SIZE in *; lia|].
  apply (while_stops (fun n x s' => s' = s /\ exists l3 k, l1 = l3 ++ k /\ x = hd NULL (k ++ e :: l2) /\ n = Z.of_nat (length (k ++ e :: l2))) _ _ (Z.of_nat (length (l1 ++ e :: l2)))).
  2:{ split; [done|]. exists [], l1. split_and!; try done. apply (dll_next (mem s) pm_proc_list [] _). apply P. }
  2:{ pose proof (pr_len _ _ P). lia. }
  intros n x s' (-> & l3 & k & -> & -> & ->) _.
  assert (Hin : hd NULL (k ++ e :: l2) ∈ (l3 ++ k) ++ e :: l2).
  { rewrite <- app_assoc. apply elem_of_app. right. destruct k; apply list_elem_of_here. }
  destruct (proc_addr _ _ _ P Hin) as [Ha Hn]. rewrite (proj2 (Z.eqb_neq _ _)) by done.
  destruct k as [|q k]; cbn [app hd] in *; [left; by apply stops_first|]. right.
  exists (hd NULL (k ++ e :: l2)), s, (Z.of_nat (length (k ++ e :: l2))). split_and!; [|simpl; lia|simpl; lia|done|].
  - rewrite (bind_ok _ _ None s s) by (apply Hb, elem_of_app; right; apply list_elem_of_here).
    rewrite (bind_ok _ _ _ _ _ (rd_ok 8 (p_nxt q) s ltac:(unfold p_nxt; lia))).
    pose proof (pr_list _ _ P) as D. replace ((l3 ++ q :: k) ++ e :: l2) with ((l3 ++ [q]) ++ k ++ e :: l2) in D by (by rewrite <- !app_assoc).
    apply dll_next in D. rewrite lastn_snoc in D. do 2 f_equal. exact D.
  - exists (l3 ++ [q]), k. split_and!; try done. by rewrite <- app_assoc.
Qed.

(** The first element with a property. *)
Lemma first_in (P : Z -> Prop) `{!forall x, Decision (P x)} l e : e ∈ l -> P e ->
  exists l1 x l2, l = l1 ++ x :: l2 /\ P x /\ forall q, q ∈ l1 -> ~ P q.
Proof.
  induction l as [|y l IH]; intros He Hp; [by apply elem_of_nil in He|]. destruct (decide (P y)) as [Hy|Hy].
  - exists [], y, l. split_and!; try done. by intros q Hq%elem_of_nil.
  - apply elem_of_cons in He as [->|He]; [done|]. destruct (IH He Hp) as (l1 & x & l2 & -> & Hx & Hl).
    exists (y :: l1), x, l2. split_and!; try done. intros q [->|Hq]%elem_of_cons; [done|by apply Hl].
Qed.

(** What [proc_exit] does with one process, given the lock it holds. *)
Abbreviation adopt p := (fun e =>
  par ← rd 8 (p_parent e);
  (if par =? p then root ← rd 8 pm_root_proc; wr 8 (p_parent e) root;; par ← rd 8 (p_parent e); proc_wakeup par else mret tt);;
  mret (@None unit)).

Lemma adopt_skips p q s : PAGE_SIZE <= q -> ld64 (mem s) (p_parent q) <> p -> adopt p q s = Ok None s.
Proof.
  intros Hq E. cbv beta. rewrite (bind_ok _ _ _ _ _ (rd_ok 8 (p_parent q) s ltac:(unfold p_parent; lia))). by rewrite (proj2 (Z.eqb_neq _ _) E).
Qed.

Lemma adopt_panics p q l s :
  hart_ok s -> procs_ok (mem s) l -> q ∈ l -> lock_mine s (mem s) pm_lock -> ld64 (mem s) (p_parent q) = p ->
  adopt p q s = Panic "spinlock_acquire - spinlock held;".
Proof.
  intros Hh P Hq [M1 M2] E. pose proof lock_addr as HL. destruct (proc_addr _ _ q P Hq) as [Ha Hn]. cbv beta.
  rewrite (bind_ok _ _ _ _ _ (rd_ok 8 (p_parent q) s ltac:(unfold p_parent; lia))). rewrite E, Z.eqb_refl.
  apply bind_panic. do 3 (apply bind_panics; wp_step; [unfold p_parent, pm_root_proc, pm_lock, PAGE_SIZE in *; lia|]). set (s1 := set_mem _ s).
  unfold proc_wakeup. apply bind_panic, acquire_held; [exact (quiet_can 1 _ _ (quiet_set_mem _ s) Hh)|done|].
  split; [rewrite <- M1|change (my_hart s1) with (my_hart s); rewrite <- M2]; apply ld_st_other;
    pose proof (proc_not_manager _ _ q P Hq); unfold disjoint, p_parent, pm_lock, sizeof_proc in *; simpl; lia.
Qed.

Lemma proc_exit_child code l e s :
  hart_can 2 s -> lock_free (mem s) pm_lock -> procs_ok (mem s) l ->
  e ∈ l -> v_parent (view (mem s) e) = running_proc (this_hart s) ->
  proc_exit code s = Panic "spinlock_acquire - spinlock held;".
Proof.
  intros Hh Hf Hok He Hpar. assert (Hh1 : hart_ok s) by exact (hart_can_weaken 2 1 s Hh ltac:(lia)).
  assert (Ht : 0 <= tp s < MAX_CPU) by apply Hh. destruct (pm_locked s l Hh1 Hok) as (P0 & T0 & M0).
  pose proof (pushed_can 2 (lock_mem (mem s) pm_lock (my_hart s)) s Hh) as Hh0. change (2 - 1) with 1 in Hh0.
  unfold proc_exit. apply bind_panics. apply wp_spinlock_acquire; try done; [apply lock_addr|]. set (s0 := set_mem _ (pushed s)) in *.
  unfold get_running. apply bind_panics. wp_steps. apply wp_current_hart; [done|]. wp_steps.
  assert (Ep : running_proc (this_hart s0) = running_proc (this_hart s)).
  { change (this_hart s0) with (this_hart (pushed s)). unfold pushed. by rewrite this_put. }
  rewrite Ep, <- Hpar. apply bind_panic.
  assert (He0 : ld64 (mem s0) (p_parent e) = v_parent (view (mem s) e)).
  { change (ld64 (mem s0) (p_parent e)) with (v_parent (view (mem s0) e)). f_equal.
    by apply (proj1 map_ext_in_iff T0), list_elem_of_In. }
  destruct (first_in (fun q => ld64 (mem s0) (p_parent q) = v_parent (view (mem s) e)) l e He He0) as (l1 & x & l2 & -> & Hx & Hl).
  apply (for_procs_stops _ (Panics _) l1 x l2); [done| |].
  - apply (adopt_panics _ x (l1 ++ x :: l2)); [done|done|apply elem_of_app; right; apply list_elem_of_here|done|done].
  - intros q Hq. destruct (proc_addr _ _ q P0) as [Ha _]; [apply elem_of_app; by left|]. apply adopt_skips; [done|by apply Hl].
Qed.

(** ** Without *)

(** The state [s1] in which a process that exits at [s] switches away. *)
Record exiting (code p : Z) (l : list Z) (s s1 : kst) : Prop := {
  ex_quiet : quiet s s1;
  ex_ready : ready l s1;
  ex_table : table (mem s1) l = exit_table p (table (mem s) l);
  ex_code : ld32 (mem s1) (p_exit_state p) = u32 code;
  ex_mem : agree (fun a => ~ state_field l a /\ ~ in_range pm_lock sizeof_spinlock a /\ ~ in_range (p_exit_state p) 4 a) (mem s) (mem s1);
}.

Lemma proc_exit_stops code p l r s :
  ready l s -> running_proc (this_hart s) = p -> p ∈ l -> has_child (table (mem s) l) p = false ->
  (forall s1, exiting code p l s s1 -> stops r (proc_switch (p_context p) (my_hart s + 16)) s1) ->
  stops r (proc_exit code) s.
Proof.
  intros R Er Hp Hc HQ. pose proof (ready_ok l s R) as Hh. assert (Ht : 0 <= tp s < MAX_CPU) by apply Hh.
  destruct (proc_addr _ _ p (rd_procs _ _ R) Hp) as [Ha _]. unfold proc_exit.
  apply stops_bind, (wp_take l); [done|]. intros m0 K0 T0 A0. set (s0 := set_mem m0 (pushed s)).
  assert (Er0 : running_proc (this_hart s0) = p).
  { change (this_hart s0) with (this_hart (pushed s)). unfold pushed. by rewrite this_put. }
  unfold get_running. apply stops_bind. wp_step. apply wp_current_hart; [done|]. wp_step. rewrite Er0.
  apply stops_bind. apply (wp_for_procs (fun _ _ s' => s' = s0) _ l); [done|by intros l1 l2 s' _ ->; apply K0| |].
  { intros l1 q l2 s' El ->. assert (Hq : q ∈ l) by (rewrite El; apply elem_of_app; right; apply list_elem_of_here).
    destruct (proc_addr m0 _ q (proj1 (proj2 K0)) Hq) as [Hqa _]. wp_step. wp_step; [unfold p_parent; lia|].
    rewrite (proj2 (Z.eqb_neq _ _)); [by do 3 wp_step|]. intros E. apply not_true_iff_false in Hc. apply Hc.
    rewrite <- T0. apply has_child_in. by exists q. }
  intros s' ->. unfold set_state. apply stops_bind. wp_step; [unfold p_state; lia|]. set (m1 := st 4 _ (p_state p) _).
  destruct (state_write m0 l p PROC_ZOMBIE (proj1 (proj2 K0)) Hp) as [P1 A1]. change (st32 m0 _ _) with m1 in P1, A1.
  pose proof (fun q Hq => state_view m0 l p q PROC_ZOMBIE (proj1 (proj2 K0)) Hp Hq) as V1. change (st32 m0 _ _) with m1 in V1.
  apply stops_bind. wp_step; [unfold p_exit_state; lia|]. set (m2 := st 4 _ (p_exit_state p) _).
  destruct (field_write m1 l p 12 4 code P1 Hp) as (P2 & A2 & V2); [lia|lia|unfold sizeof_proc; lia|]. change (st 4 m1 (p + 12) code) with m2 in P2, A2, V2.
  assert (B2 : agree (fun a => ~ in_range (p_exit_state p) 4 a) m1 m2) by (apply agree_st; intros b Hb Hn; by apply Hn).
  assert (T2 : table m2 l = map (at_addr (with_state PROC_ZOMBIE) p) (table (mem s) l)).
  { rewrite <- T0. unfold table. rewrite map_map. apply map_ext_in. intros q Hq%list_elem_of_In. rewrite <- V1 by done.
    destruct (Z.eq_dec q p) as [->|Hne]; [|by apply V2]. unfold view, p_pid, p_state, p_killed, p_chan, p_parent.
    f_equal; apply ld_st_other; unfold disjoint; simpl; unfold p_exit_state; lia. }
  assert (L2 : agree (in_range pm_lock sizeof_spinlock) m0 m2).
  { transitivity m1; [|done]. eapply agree_weaken; [|exact A1]. intros a. exact (lock_not_state m0 l a (proj1 (proj2 K0))). }
  apply stops_bind. apply (wp_give l s m2); [split; [done|split; [done|]]; transitivity m0; [apply K0|done]|].
  intros s3 Q3 R3 T3 A3. apply stops_bind. wp_step; [unfold p_parent; lia|].
  assert (Ep : ld64 (mem s3) (p_parent p) = parent_in (table (mem s) l) p).
  { rewrite (parent_in_table _ _ _ Hp). change (ld64 (mem s3) (p_parent p)) with (v_parent (view (mem s3) p)).
    rewrite T2 in T3. unfold table in T3. rewrite map_map in T3. pose proof (proj1 map_ext_in_iff T3 p (proj1 (list_elem_of_In _ _) Hp)) as ->.
    unfold at_addr. by destruct (_ =? _). }
  rewrite Ep. apply stops_bind. eapply wp_mono; [apply (wp_proc_wakeup _ l); [by apply (ready_ok l)|apply R3|apply R3]|].
  intros _ s4 (Q4 & F4 & P4 & T4 & A4). pose proof (ready_quiet l l s3 s4 R3 Q4 F4 P4) as R4.
  assert (Q : quiet s s4) by (by etrans). destruct (same_globals_fields _ _ (proj1 Q)) as (Et & _).
  destruct (same_harts_fields _ _ (u32 (tp s)) (proj2 Q)) as (_ & Er4 & _).
  assert (Eh : my_hart s4 = my_hart s) by (unfold my_hart; by rewrite Et).
  unfold scheduler_switch, get_running. apply stops_bind. wp_step. apply wp_current_hart; [by rewrite Et|]. wp_step.
  replace (running_proc (this_hart s4)) with p by (unfold this_hart, hart_at in *; by rewrite Et, Er4).
  apply stops_bind, wp_current_hart; [by rewrite Et|]. apply stops_bind. wp_step. apply stops_bind, wp_current_hart; [by rewrite Et|].
  rewrite Eh. apply stops_first, HQ. split; [done|done|by rewrite T4, T3, T2| |].
  - transitivity (ld32 m2 (p_exit_state p)); [|unfold m2; by rewrite ld_st_same]. apply ld_agree. transitivity (mem s3).
    + eapply agree_weaken; [|exact A3]. intros a Hr Hl. apply (lock_not_procs m2 l a P2); [|done]. right. exists p. split; [done|].
      unfold in_range, p_exit_state, sizeof_proc in *. simpl in Hr. lia.
    + eapply agree_weaken; [|exact A4]. intros a Hr. split.
      * intros (q & Hq & Hs). unfold p_exit_state, p_state, in_range in *. simpl in Hr. destruct (Z.eq_dec q p) as [->|Hne]; [lia|].
        pose proof (pr_apart _ _ P2 q p Hq Hp Hne). unfold disjoint, sizeof_proc in *. lia.
      * apply (lock_not_procs m2 l a P2). right. exists p. split; [done|]. unfold in_range, p_exit_state, sizeof_proc in *. simpl in Hr. lia.
  - transitivity m0; [eapply agree_weaken; [|exact A0]; tauto|]. transitivity m1; [eapply agree_weaken; [|exact A1]; tauto|].
    transitivity m2; [eapply agree_weaken; [|exact B2]; tauto|]. transitivity (mem s3); [eapply agree_weaken; [|exact A3]; tauto|].
    eapply agree_weaken; [|exact A4]. tauto.
Qed.
End exit.
