(* ===== verification/ProcSleep.v ===== *)
(** * Going to sleep and coming back

    [proc_sleep] inside a critical section: the lock is given up, the process
    sleeps on its channel when the hart switches away, and the lock is taken
    again when the process is resumed, on whatever hart and in whatever state
    the others have left behind. *)

From S2P Require Import Prelude Memory Machine Lists Strings Hal Lock Console Buddy Object Kmem Csr Vmem Proc ProcProofs ProcHold.

(** The table entry of a process that sleeps on [chan], and of one that has
    come back. *)
Definition sleep_on (chan : Z) (v : pview) : pview :=
  mk_pview (v_addr v) (v_pid v) (state_code PROC_SLEEPING) (v_killed v) chan (v_parent v).
Definition no_chan (v : pview) : pview := mk_pview (v_addr v) (v_pid v) (v_state v) (v_killed v) NULL (v_parent v).

Section sleep.
Context {L : KernelLayout} {C : Code} {W : Switch}.

Definition on_channel (p a : Z) : Prop := in_range (p_chan p) 8 a.

(** A lock other than the manager's, and no process's memory. *)
Definition lock_apart (lk : Z) (l : list Z) : Prop :=
  PAGE_SIZE <= lk /\ forall a, in_range lk sizeof_spinlock a -> ~ in_procs l a /\ ~ in_range pm_lock sizeof_spinlock a.

(** The state [s1] in which the hart switches away from [p], which slept in
    the critical section of [lk] entered at [s], when the memory was [m]. *)
Record asleep (p chan lk : Z) (l : list Z) (s : kst) (m : memory) (s1 : kst) : Prop := {
  as_quiet : quiet s s1;
  as_ready : ready l s1;
  as_lock : lock_free (mem s1) lk;
  as_table : table (mem s1) l = map (at_addr (sleep_on (u64 chan)) p) (table m l);
  as_mem : agree (fun a => ~ in_range pm_lock sizeof_spinlock a /\ ~ in_range lk sizeof_spinlock a /\
      ~ in_range (p_state p) 4 a /\ ~ on_channel p a) m (mem s1);
}.

(** The state [s'] in which a process resumed at [s] takes the lock again. *)
Record roused (p : Z) (l : list Z) (s s' : kst) : Prop := {
  rs_quiet : quiet s s';
  rs_ready : ready l s';
  rs_table : table (mem s') l = map (at_addr no_chan p) (table (mem s) l);
  rs_mem : agree (fun a => ~ in_range pm_lock sizeof_spinlock a /\ ~ on_channel p a) (mem s) (mem s');
}.

Lemma chan_write m l p v : procs_ok m l -> p ∈ l -> let m' := st64 m (p_chan p) v in
  procs_ok m' l /\ agree (in_range pm_lock sizeof_spinlock) m m' /\ agree (fun a => ~ on_channel p a) m m' /\
  table m' l = map (at_addr (fun x => mk_pview (v_addr x) (v_pid x) (v_state x) (v_killed x) (u64 v) (v_parent x)) p) (table m l).
Proof.
  intros H Hp. cbv zeta. destruct (field_write m l p 32 8 v H Hp) as (P' & A' & V'); [simpl; lia|lia|unfold sizeof_proc; simpl; lia|].
  change (st 8 m (p + 32) v) with (st64 m (p_chan p) v) in *. split_and!; [done|done|apply agree_st; intros b Hb Hn; by apply Hn|].
  unfold table. rewrite map_map. apply map_ext_in. intros q Hq%list_elem_of_In. unfold at_addr. simpl.
  destruct (Z.eqb_spec q p) as [->|Hne]; [|by apply V']. unfold view. f_equal; [..|by rewrite ld_st_same|]; try apply ld_st_other;
    unfold disjoint, p_pid, p_state, p_killed, p_chan, p_parent; simpl; lia.
Qed.

(** Going to sleep, from the critical section of [lk] to the switch. *)
Lemma wp_sleep_enter p chan lk l m (Q : unit -> kst -> Prop) s :
  ready l s -> p ∈ l -> lock_apart lk l -> procs_ok m l -> lock_free m pm_lock -> lock_mine s m lk ->
  (forall s1, asleep p chan lk l s m s1 -> Q tt s1) ->
  wp (sleep_enter p chan lk) Q (set_mem m (pushed s)).
Proof.
  intros R Hp [Ha Hlk] P F [M1 M2] HQ. pose proof (ready_ok l s R) as Hh. assert (Ht : 0 <= tp s < MAX_CPU) by apply Hh.
  destruct (proc_addr _ _ p P Hp) as [Hpa _]. set (t := set_mem m (pushed s)).
  pose proof (pushed_can 2 m s (rd_hart _ _ R)) as Hh1. change (2 - 1) with 1 in Hh1. fold t in Hh1.
  assert (Hne : lk <> pm_lock).
  { intros ->. apply (Hlk pm_lock); unfold in_range, sizeof_spinlock; lia. }
  unfold sleep_enter. rewrite (proj2 (Z.eqb_neq _ _) Hne). wp_step. wp_step. wp_step.
  apply wp_spinlock_acquire; [exact Hh1|apply lock_addr|exact F|]. change (mem t) with m. change (my_hart t) with (my_hart s).
  set (m1 := lock_mem m pm_lock (my_hart s)). rewrite (proj2 (Z.eqb_neq lk NULL)) by (unfold NULL, PAGE_SIZE in *; lia). wp_step.
  pose proof (lock_mem_agree m pm_lock (my_hart s)) as A1. fold m1 in A1. destruct (lock_mem_mine s m pm_lock Ht) as [N1 N2]. fold m1 in N1, N2.
  assert (Hlk1 : forall n x, lk <= x -> x + Z.of_nat n <= lk + sizeof_spinlock -> ld n m1 x = ld n m x).
  { intros n x H1 H2. apply ld_agree. eapply agree_weaken; [|exact A1]. intros a Hr. refine (proj2 (Hlk a _)). unfold in_range in *. lia. }
  apply (wp_release_quiet lk _ m1 t); [exact Hh1|done|exact (quiet_set_mem m1 (set_mem m1 (pushed t)))| |].
  { cbn [mem set_mem]. split; [rewrite Hlk1; [exact M1|lia|unfold sizeof_spinlock; simpl; lia]|].
    rewrite Hlk1; [exact M2|lia|unfold sizeof_spinlock; simpl; lia]. }
  cbn [mem set_mem]. intros s2 Q2 E2. pose proof (unlock_mem_agree m1 lk) as A2. rewrite <- E2 in A2.
  destruct (procs_lock m m1 l P A1) as [P1 T1].
  destruct (procs_frame m1 (mem s2) l P1) as [P2 T2].
  { eapply agree_weaken; [|exact A2]. intros a Hr Hl. exact (proj1 (Hlk a Hl) Hr). }
  unfold set_state. wp_step. wp_step; [unfold p_chan; lia|]. set (m3 := st 8 _ _ _). wp_step. wp_step; [unfold p_state; lia|].
  cbn [mem set_mem]. set (m4 := st 4 _ _ _). rewrite set_mem_twice.
  destruct (chan_write (mem s2) l p chan P2 Hp) as (P3 & B3 & A3 & T3). change (st64 _ _ chan) with m3 in P3, B3, A3, T3.
  destruct (state_write m3 l p PROC_SLEEPING P3 Hp) as [P4 A4]. change (st32 m3 _ _) with m4 in P4, A4.
  assert (C4 : agree (fun a => ~ in_range (p_state p) 4 a) m3 m4) by (apply agree_st; intros b Hb Hn; by apply Hn).
  assert (T4 : table m4 l = map (at_addr (sleep_on (u64 chan)) p) (table m l)).
  { rewrite <- T1, <- T2. transitivity (map (at_addr (with_state PROC_SLEEPING) p) (table m3 l)).
    - unfold table. rewrite map_map. apply map_ext_in. intros q Hq%list_elem_of_In. by apply (state_view m3 l).
    - rewrite T3, map_map. apply map_ext. intros v. unfold at_addr, sleep_on, with_state. destruct (v_addr v =? p) eqn:E; cbn [v_addr v_pid v_state v_killed v_chan v_parent]; by rewrite E. }
  assert (Hpm : agree (in_range pm_lock sizeof_spinlock) m1 m4).
  { transitivity (mem s2); [eapply agree_weaken; [|exact A2]; intros a Hr Hl; exact (proj2 (Hlk a Hl) Hr)|]. transitivity m3; [done|].
    eapply agree_weaken; [|exact A4]. intros a. exact (lock_not_state m3 l a P3). }
  apply (wp_release_quiet pm_lock _ m s); [done|apply lock_addr|etrans; [exact Q2|apply quiet_set_mem]| |].
  { cbn [mem set_mem]. unfold sizeof_spinlock in Hpm. split; [rewrite <- N1|rewrite <- N2]; apply ld_agree; (eapply agree_weaken; [|exact Hpm]); unfold in_range; simpl; lia. }
  cbn [mem set_mem]. intros s5 Q5 E5. pose proof (unlock_mem_agree m4 pm_lock) as A5. rewrite <- E5 in A5.
  destruct (procs_lock m4 (mem s5) l P4 A5) as [P5 T5]. apply HQ. split; [done| | |by rewrite T5|].
  - apply (ready_quiet l l s); [done|done|rewrite E5; apply unlock_mem_free|done].
  - unfold lock_free. transitivity (ld32 (mem s2) lk); [|rewrite E2; apply unlock_mem_free].
    assert (Hl : forall a, in_range lk (Z.of_nat 4) a -> in_range lk sizeof_spinlock a) by (unfold in_range, sizeof_spinlock; simpl; lia).
    assert (Hp' : forall a, in_range p sizeof_proc a -> in_procs l a) by (intros a Hr; right; by exists p).
    apply ld_agree. transitivity m3; [eapply agree_weaken; [|exact A3]|transitivity m4; [eapply agree_weaken; [|exact C4]|eapply agree_weaken; [|exact A5]]];
      intros a Hr%Hl; [intros Hc; apply (proj1 (Hlk a Hr)), Hp'; unfold on_channel, in_range, p_chan, sizeof_proc in *; lia|
                       intros Hc; apply (proj1 (Hlk a Hr)), Hp'; unfold in_range, p_state, sizeof_proc in *; lia|exact (proj2 (Hlk a Hr))].
  - transitivity m1; [eapply agree_weaken; [|exact A1]; tauto|]. transitivity (mem s2); [eapply agree_weaken; [|exact A2]; tauto|].
    transitivity m3; [eapply agree_weaken; [|exact A3]; tauto|]. transitivity m4; [eapply agree_weaken; [|exact C4]; tauto|].
    eapply agree_weaken; [|exact A5]. tauto.
Qed.

(** Coming back, from the switch to the critical section. *)
Lemma wp_sleep_leave p lk l (Q : unit -> kst -> Prop) s :
  ready l s -> p ∈ l -> lock_apart lk l -> lock_free (mem s) lk ->
  (forall s', roused p l s s' -> Q tt (set_mem (lock_mem (mem s') lk (my_hart s')) (pushed s'))) ->
  wp (sleep_leave p lk) Q s.
Proof.
  intros R Hp [Ha Hlk] F HQ. destruct (proc_addr _ _ p (rd_procs _ _ R) Hp) as [Hpa _]. unfold sleep_leave.
  wp_step. apply (wp_take l); [done|]. intros m0 K0 T0 A0. wp_step. wp_step; [unfold p_chan; lia|]. cbn [mem set_mem]. set (m1 := st 8 _ _ _).
  destruct (chan_write m0 l p NULL (proj1 (proj2 K0)) Hp) as (P1 & B1 & A1 & T1). change (st64 m0 _ _) with m1 in P1, B1, A1, T1.
  wp_step. apply (wp_give l s m1); [split; [done|split; [done|]]; transitivity m0; [apply K0|done]|]. intros s2 Q2 R2 T2 A2.
  assert (X : roused p l s s2).
  { split; [done|done|by rewrite T2, T1, T0|]. transitivity m0; [eapply agree_weaken; [|exact A0]; tauto|].
    transitivity m1; [eapply agree_weaken; [|exact A1]; tauto|]. eapply agree_weaken; [|exact A2]. tauto. }
  rewrite (proj2 (Z.eqb_neq lk NULL)) by (unfold NULL, PAGE_SIZE in *; lia). wp_step.
  apply wp_spinlock_acquire; [by apply (ready_ok l)|done| |by apply HQ].
  unfold lock_free. rewrite <- F. apply ld_agree. eapply agree_weaken; [|apply X]. intros a Hr.
  assert (Hl : in_range lk sizeof_spinlock a) by (unfold in_range, sizeof_spinlock in *; simpl in Hr; lia).
  split; [exact (proj2 (Hlk a Hl))|]. intros Hc. apply (proj1 (Hlk a Hl)). right. exists p. split; [done|].
  unfold on_channel, in_range, p_chan, sizeof_proc in *. lia.
Qed.

Lemma quiet_saved e s : trap_pushoff_dep (this_hart s) = 0 -> quiet s (put_hart (set_trap_enabled e (this_hart s)) s).
Proof.
  intros Hd. split; [done|]. intros i. unfold hart_at, put_hart. simpl. destruct (Z.eq_dec i (u32 (tp s))) as [->|Hne].
  - rewrite lookup_insert_eq. right. by split.
  - rewrite lookup_insert_ne by done. by left.
Qed.

(** The whole of [proc_sleep]: the contract of the switch is that the process
    is resumed, as some time it is, outside all critical sections and with
    the lock free to take. *)
Lemma wp_proc_sleep p chan lk l m (Q : unit -> kst -> Prop) s :
  ready l s -> running_proc (this_hart s) = p -> p ∈ l -> lock_apart lk l -> procs_ok m l -> lock_free m pm_lock -> lock_mine s m lk ->
  (forall s1, asleep p chan lk l s m s1 -> wp (proc_switch (p_context p) (my_hart s + 16)) (fun _ s2 => exists l2,
     ready l2 s2 /\ p ∈ l2 /\ lock_apart lk l2 /\ lock_free (mem s2) lk /\
     forall s', roused p l2 s2 s' -> Q tt (set_mem (lock_mem (mem s') lk (my_hart s')) (pushed s'))) s1) ->
  wp (proc_sleep chan lk) Q (set_mem m (pushed s)).
Proof.
  intros R Er Hp Hlk P F M HQ. assert (Ht : 0 <= tp s < MAX_CPU) by apply R. unfold proc_sleep, get_running.
  wp_step. wp_step. apply wp_current_hart; [done|]. wp_step.
  replace (running_proc (this_hart (set_mem m (pushed s)))) with p.
  2:{ change (this_hart (set_mem m (pushed s))) with (this_hart (pushed s)). unfold pushed. by rewrite this_put. }
  wp_step. apply (wp_sleep_enter p chan lk l); [done..|]. intros s1 X. pose proof X as [Q1 _ _ _ _].
  destruct (same_globals_fields _ _ (proj1 Q1)) as (Et & _). destruct (same_harts_fields _ _ (u32 (tp s)) (proj2 Q1)) as (_ & Er1 & _).
  unfold scheduler_switch, get_running. do 3 wp_step. apply wp_current_hart; [by rewrite Et|]. wp_step.
  replace (running_proc (this_hart s1)) with p by (unfold this_hart, hart_at in *; by rewrite Et, Er1).
  wp_step. apply wp_current_hart; [by rewrite Et|]. wp_step. wp_step. wp_step. apply wp_current_hart; [by rewrite Et|]. wp_step.
  replace (my_hart s1) with (my_hart s) by (unfold my_hart; by rewrite Et).
  eapply wp_mono; [by apply HQ|]. intros _ s2 (l2 & R2 & Hp2 & Hlk2 & F2 & HQ2).
  wp_step. apply wp_current_hart; [apply R2|]. wp_step. pose proof (quiet_saved (trap_enabled (this_hart s1)) s2 (rd_dep _ _ R2)) as Q3.
  set (s3 := put_hart _ s2) in *. assert (R3 : ready l2 s3) by (apply (ready_quiet l2 l2 s2); [done|done|apply R2|apply R2]).
  apply (wp_sleep_leave p lk l2); [done..|]. intros s' [Y1 Y2 Y3 Y4]. apply HQ2. split; [by etrans|done|done|done].
Qed.
End sleep.
