(* ===== verification/UartProofs.v ===== *)
(** * The serial port driver: its queues and what it sends

    The two rings of the driver as queues, the registers of the port as a
    transmitter that is fed from a queue while it reports to be idle
    ([drain]) and a receiver that hands out bytes while it reports to have
    some ([receives]), and the rule for [ns16550a_driver_flush]. *)

From S2P Require Import Prelude Memory Machine Lists Fdt Hal Lock DeviceIo Ring Proc ProcProofs Plic Uart.

Section uart.
Context {L : KernelLayout} {C : Code} {W : Switch} {D : Devices}.
Implicit Types l pl : list Z.

(** ** The port *)

(** What a read of the line status, or of the received byte, returns after
    the accesses in [log], and the log after it. *)
Definition port_read (base reg : Z) (log : list mmio_event) : Z := dev_read log 1 (UART_REG base reg) mod 256.
Definition read_log (base reg : Z) (log : list mmio_event) : list mmio_event :=
  log ++ [MRead 1 (UART_REG base reg) (port_read base reg log)].
Definition send_log (base c : Z) (log : list mmio_event) : list mmio_event := log ++ [MWrite 1 (UART_REG base UART_THR) (c mod 256)].

(** Feeding the transmitter: the bytes left in the queue, and the log. *)
Fixpoint drain (base : Z) (log : list mmio_event) (l : list Z) : list Z * list mmio_event :=
  match l with
  | [] => ([], log)
  | c :: l' =>
      if port_read base UART_LSR log &l UART_LSR_TX_IDLE =? 0 then (l, read_log base UART_LSR log)
      else drain base (send_log base c (read_log base UART_LSR log)) l'
  end.

(** The bytes written to the transmitter. *)
Definition sent (base : Z) (log : list mmio_event) : list Z :=
  omap (fun e => match e with MWrite 1 a v => if a =? UART_REG base UART_THR then Some v else None | _ => None end) log.

(** The receiver hands out [cs] and then reports that there is no more. *)
Inductive receives (base : Z) : list mmio_event -> list Z -> list mmio_event -> Prop :=
| rec_none log : port_read base UART_LSR log &l 0x01 = 0 -> receives base log [] (read_log base UART_LSR log)
| rec_one log cs log' : port_read base UART_LSR log &l 0x01 <> 0 ->
    receives base (read_log base UART_RHR (read_log base UART_LSR log)) cs log' ->
    receives base log (port_read base UART_RHR (read_log base UART_LSR log) :: cs) log'.

Lemma read_sent base reg log : sent base (read_log base reg log) = sent base log.
Proof. unfold sent, read_log. rewrite omap_app. apply app_nil_r. Qed.

Lemma receives_sent base log cs log' : receives base log cs log' -> sent base log' = sent base log.
Proof. induction 1 as [|log cs log' _ _ IH]; [apply read_sent|]. by rewrite IH, !read_sent. Qed.

(** The bytes sent and the bytes left are the queue, in order; bytes are left
    only if the transmitter said it was busy. *)
Lemma drain_fifo base log l : Forall (fun c => 0 <= c < 256) l ->
  exists cs, l = cs ++ fst (drain base log l) /\ sent base (snd (drain base log l)) = sent base log ++ cs /\
    (fst (drain base log l) <> [] -> exists log1, snd (drain base log l) = read_log base UART_LSR log1 /\
       port_read base UART_LSR log1 &l UART_LSR_TX_IDLE = 0).
Proof.
  assert (Es : forall x c, sent base (send_log base c x) = sent base x ++ [c mod 256]).
  { intros. unfold sent, send_log. rewrite omap_app. simpl. by rewrite Z.eqb_refl. }
  intros Hb. revert log. induction Hb as [|c l Hc Hb IH]; intros log; simpl.
  - exists []. split_and!; [done|by rewrite app_nil_r|done].
  - destruct (Z.eqb_spec (port_read base UART_LSR log &l UART_LSR_TX_IDLE) 0) as [E|E].
    + exists []. split_and!; [done|simpl; by rewrite read_sent, app_nil_r|]. intros _. by exists log.
    + destruct (IH (send_log base c (read_log base UART_LSR log))) as (cs & E1 & E2 & E3). exists (c :: cs). split_and!; [by rewrite E1 at 1| |done].
      by rewrite E2, Es, read_sent, <- app_assoc, Z.mod_small.
Qed.

(** ** The driver's memory *)

Definition tx_ring (u : Z) : ring_desc := mk_ring (u_tx_buffer u) TX_BUFFER_SIZE (u_tx_head u) (u_tx_tail u).
Definition rx_ring (u : Z) : ring_desc := mk_ring (u_rx_buffer u) RX_BUFFER_SIZE (u_rx_head u) (u_rx_tail u).

Lemma tx_ring_at u : ring_at (tx_ring u).
Proof. split; unfold tx_ring, u_tx_buffer, u_tx_head, u_tx_tail, TX_BUFFER_SIZE, disjoint; simpl; try lia. by exists (2 ^ 56). Qed.
Lemma rx_ring_at u : ring_at (rx_ring u).
Proof. split; unfold rx_ring, u_rx_buffer, u_rx_head, u_rx_tail, RX_BUFFER_SIZE, disjoint; simpl; try lia. by exists (2 ^ 56). Qed.

Definition in_uart (u a : Z) : Prop := in_range u sizeof_ns16550a_internal a.

(** A port the driver has set up: [dev]'s record is [u], the registers are at
    [base]; the processes [pl] that may wait for it are in the table. *)
Record uart_ok (m : memory) (dev u base : Z) (pl : list Z) : Prop := {
  uo_dev : PAGE_SIZE <= dev;
  uo_u : PAGE_SIZE <= u;
  uo_internal : ld64 m (d_internal dev) = u;
  uo_base : ld64 m (u_reg_base u) = base;
  uo_procs : procs_ok m pl;
  uo_pm_lock : lock_free m pm_lock;
  uo_dev_u : disjoint (d_internal dev) 8 u sizeof_ns16550a_internal;
  uo_lock : disjoint u sizeof_ns16550a_internal pm_lock sizeof_spinlock /\ disjoint (d_internal dev) 8 pm_lock sizeof_spinlock;
  uo_apart a : in_procs pl a -> ~ in_uart u a /\ ~ in_range (d_internal dev) 8 a;
}.

(** Changes to the driver's own record, apart from its first part, and changes
    made by waking processes. *)
Lemma uart_own m m' dev u base pl : uart_ok m dev u base pl ->
  agree (fun a => ~ in_range (u + 32) (sizeof_ns16550a_internal - 32) a) m m' -> uart_ok m' dev u base pl /\ table m' pl = table m pl.
Proof.
  intros H Ha. pose proof (uo_dev_u _ _ _ _ _ H) as D1. destruct (uo_lock _ _ _ _ _ H) as [D2 _]. pose proof lock_addr as Hl.
  assert (Hf : forall x n, (x + Z.of_nat n <= u + 32 \/ u + sizeof_ns16550a_internal <= x) -> ld n m' x = ld n m x).
  { intros x n Hx. apply ld_agree. eapply agree_weaken; [|exact Ha]. unfold in_range, sizeof_ns16550a_internal in *. intros. lia. }
  destruct (procs_frame m m' pl) as [P T]; [apply H| |].
  { eapply agree_weaken; [|exact Ha]. intros a Hp Hr. destruct (uo_apart _ _ _ _ _ H a Hp) as [N _]. apply N.
    unfold in_uart, in_range, sizeof_ns16550a_internal in *. lia. }
  split; [|done]. unfold disjoint, sizeof_ns16550a_internal, sizeof_spinlock in *. split; try apply H; try done.
  - rewrite Hf; [apply H|]. simpl. unfold sizeof_ns16550a_internal. lia.
  - rewrite Hf; [apply H|]. unfold u_reg_base. simpl. lia.
  - unfold lock_free. rewrite Hf; [apply H|]. simpl. unfold sizeof_ns16550a_internal. lia.
Qed.

(** Taking or releasing one of the port's locks. *)
Definition queues_kept (u : Z) (m m' : memory) : Prop := forall l,
  (ring (tx_ring u) m l -> ring (tx_ring u) m' l) /\ (newest (rx_ring u) m l -> newest (rx_ring u) m' l).

Lemma queues_rx u m m' l : queues_kept u m m' -> ring (rx_ring u) m l -> ring (rx_ring u) m' l.
Proof. intros K [H1 H2]%ring_newest. apply ring_newest. split; [by apply K|done]. Qed.

Lemma uart_lock_step m m' dev u base pl lk : uart_ok m dev u base pl -> lk = u_tx_lock u \/ lk = u_rx_lock u ->
  agree (fun a => ~ in_range lk sizeof_spinlock a) m m' ->
  uart_ok m' dev u base pl /\ table m' pl = table m pl /\ queues_kept u m m'.
Proof.
  intros H Hlk Ha. assert (B : u + 32 <= lk <= u + 56) by (unfold u_tx_lock, u_rx_lock in Hlk; lia). clear Hlk.
  destruct (uart_own m m' dev u base pl H) as [H' T'].
  { eapply agree_weaken; [|exact Ha]. unfold in_range, sizeof_ns16550a_internal, sizeof_spinlock. intros. lia. }
  split_and!; [done|done|]. intros l. split; [apply ring_frame; [apply tx_ring_at|] | apply newest_frame; [apply rx_ring_at|]]; (eapply agree_weaken; [|exact Ha]);
    intros a Hr; unfold in_ring, tx_ring, rx_ring, in_range, u_tx_buffer, u_tx_head, u_tx_tail, u_rx_buffer, u_rx_head, u_rx_tail,
      TX_BUFFER_SIZE, RX_BUFFER_SIZE, sizeof_spinlock in *; simpl in Hr; lia.
Qed.

(** What waking leaves alone. *)
Definition not_woken (pl : list Z) (a : Z) : Prop := ~ state_field pl a /\ ~ in_range pm_lock sizeof_spinlock a.

Lemma state_in_procs pl a : state_field pl a -> in_procs pl a.
Proof. intros (p & Hp & Hr). right. exists p. split; [done|]. unfold in_range, p_state, sizeof_proc in *. lia. Qed.

Lemma uart_not_woken m dev u base pl a : uart_ok m dev u base pl -> in_uart u a \/ in_range (d_internal dev) 8 a -> not_woken pl a.
Proof.
  intros H Ha. destruct (uo_lock _ _ _ _ _ H) as [D1 D2]. split.
  - intros Hs%state_in_procs. destruct (uo_apart _ _ _ _ _ H a Hs). tauto.
  - unfold in_uart, in_range, disjoint in *. lia.
Qed.

Lemma uart_agree m m' dev u base pl : uart_ok m dev u base pl -> procs_ok m' pl -> lock_free m' pm_lock ->
  agree (fun a => in_uart u a \/ in_range (d_internal dev) 8 a) m m' -> uart_ok m' dev u base pl.
Proof.
  intros H Hp Hf Ha. split; try apply H; try done.
  - rewrite <- (uo_internal _ _ _ _ _ H). apply ld_agree. eapply agree_weaken; [|exact Ha]. intros a Hr. by right.
  - rewrite <- (uo_base _ _ _ _ _ H). apply ld_agree. eapply agree_weaken; [|exact Ha]. intros a Hr.
    left. unfold in_uart, in_range, u_reg_base, sizeof_ns16550a_internal in *. simpl in Hr. lia.
Qed.

Lemma queues_agree u m m' : agree (in_uart u) m m' -> queues_kept u m m'.
Proof.
  intros Ha l. split; [apply ring_frame; [apply tx_ring_at|] | apply newest_frame; [apply rx_ring_at|]]; (eapply agree_weaken; [|exact Ha]);
    intros a Hr; unfold in_ring, tx_ring, rx_ring, in_uart, in_range, u_tx_buffer, u_tx_head, u_tx_tail, u_rx_buffer, u_rx_head, u_rx_tail,
      TX_BUFFER_SIZE, RX_BUFFER_SIZE, sizeof_ns16550a_internal in *; simpl in Hr; lia.
Qed.

Lemma uart_woken m m' dev u base pl : uart_ok m dev u base pl -> procs_ok m' pl -> lock_free m' pm_lock ->
  agree (not_woken pl) m m' -> uart_ok m' dev u base pl.
Proof.
  intros H Hp Hf Ha. apply (uart_agree m); [done..|]. eapply agree_weaken; [|exact Ha]. intros a Hr. by apply (uart_not_woken m dev u base).
Qed.

(** What neither the driver nor the wake-ups write. *)
Definition serviced_kept (u : Z) (pl : list Z) (a : Z) : Prop := ~ in_uart u a /\ not_woken pl a.

(** The table after waking the sleepers on [chan] if something [happened]. *)
Definition woken (happened : bool) (chan : Z) (t : list pview) : list pview := if happened then map (wake chan) t else t.

Lemma wake_twice chan v : wake chan (wake chan v) = wake chan v.
Proof.
  destruct ((v_chan v =? chan) && (v_state v =? state_code PROC_SLEEPING)) eqn:E; unfold wake; rewrite E; [|by rewrite E].
  clear E. by destruct (_ && _).
Qed.

Lemma woken_killed b chan t : map v_killed (woken b chan t) = map v_killed t.
Proof. destruct b; [|done]. simpl. rewrite map_map. apply map_ext. intros v. unfold wake. by destruct (_ && _). Qed.

Lemma woken_again b chan t : map (wake chan) (woken b chan t) = map (wake chan) t.
Proof. destruct b; [|done]. simpl. rewrite map_map. apply map_ext. intros. apply wake_twice. Qed.

(** ** Register accesses *)

Lemma wp_uart_rd dev u base pl reg (Q : Z -> kst -> Prop) s :
  uart_ok (mem s) dev u base pl -> Q (port_read base reg (mmio s)) (set_mmio (read_log base reg (mmio s)) s) -> wp (uart_rd u reg) Q s.
Proof.
  intros H HQ. pose proof (uo_u _ _ _ _ _ H). unfold uart_rd. wp_steps; [unfold u_reg_base; lia|].
  rewrite (uo_base _ _ _ _ _ H). apply wp_rdv. exact HQ.
Qed.

Lemma wp_uart_send dev u base pl c (Q : unit -> kst -> Prop) s :
  uart_ok (mem s) dev u base pl -> Q tt (set_mmio (send_log base c (mmio s)) s) -> wp (uart_wr u UART_THR c) Q s.
Proof.
  intros H HQ. pose proof (uo_u _ _ _ _ _ H). unfold uart_wr. wp_steps; [unfold u_reg_base; lia|].
  rewrite (uo_base _ _ _ _ _ H). apply wp_wrv. exact HQ.
Qed.

Lemma wp_uart_wakeup dev u base pl chan (Q : unit -> kst -> Prop) s :
  hart_ok s -> uart_ok (mem s) dev u base pl ->
  (forall s', quiet s s' -> uart_ok (mem s') dev u base pl -> agree (not_woken pl) (mem s) (mem s') ->
     table (mem s') pl = map (wake chan) (table (mem s) pl) -> Q tt s') ->
  wp (proc_wakeup chan) Q s.
Proof.
  intros Hh H HQ. eapply wp_mono; [apply (wp_proc_wakeup chan pl); [done|apply H|apply H]|].
  intros [] s' (Hq & Hf & Hp & Ht & Ha). apply HQ; [done| |done|done]. by apply (uart_woken (mem s)).
Qed.

(** ** Sending *)

(** What sending leaves alone. *)
Definition not_sent (u : Z) (pl : list Z) (a : Z) : Prop := ~ in_range (u_tx_head u) 8 a /\ not_woken pl a.

(** The state of a port whose transmit queue is [l], after sending from [l0]
    at [s0]. *)
Record sending (s0 : kst) (dev u base : Z) (pl l0 l : list Z) (s : kst) : Prop := {
  sd_quiet : quiet_io s0 s;
  sd_ok : uart_ok (mem s) dev u base pl;
  sd_ring : ring (tx_ring u) (mem s) l;
  sd_rest : agree (not_sent u pl) (mem s0) (mem s);
  sd_table : table (mem s) pl = woken (length l <? length l0)%nat (u_tx_head u) (table (mem s0) pl);
}.

Lemma sending_log x s0 dev u base pl l0 l s : sending s0 dev u base pl l0 l s -> sending s0 dev u base pl l0 l (set_mmio x s).
Proof. intros [H1 H2 H3 H4 H5]. by split. Qed.

(** One byte: taken from the ring, handed to the transmitter, and whoever
    waits for room woken. *)
Lemma send_one s0 dev u base pl l0 c l (Q : unit + unit -> kst -> Prop) s :
  hart_ok s0 -> (length (c :: l) <= length l0)%nat -> sending s0 dev u base pl l0 (c :: l) s ->
  (forall s', sending s0 dev u base pl l0 l s' -> mmio s' = send_log base c (mmio s) -> Q (inl tt) s') ->
  wp (head ← rd 8 (u_tx_head u);
      c ← rd 1 (u_tx_buffer u + head mod TX_BUFFER_SIZE);
      head ← rd 8 (u_tx_head u);
      wr 8 (u_tx_head u) (head +l 1);;
      uart_wr u UART_THR c;;
      proc_wakeup (u_tx_head u);; mret (inl tt)) Q s.
Proof.
  intros Hh Hl [H1 H2 H3 H4 H5] HQ. pose proof (uo_u _ _ _ _ _ H2) as Hu. pose proof (tx_ring_at u) as RA.
  pose proof (ring_slot _ RA (ld64 (mem s) (u_tx_head u))) as Hsl. unfold in_range in Hsl. cbn [tx_ring rg_buf rg_size] in Hsl.
  assert (Hb : u <= u_tx_head u /\ u <= u_tx_buffer u) by (unfold u_tx_head, u_tx_buffer; lia).
  wp_step. wp_step. wp_step. wp_step. rewrite (ring_head _ _ c l H3 : ld 1 (mem s) (u_tx_buffer u + ld64 (mem s) (u_tx_head u) mod TX_BUFFER_SIZE) = c).
  wp_step. wp_step. wp_step. wp_step. set (m1 := st 8 _ _ _).
  assert (A1 : agree (fun a => ~ in_range (u_tx_head u) 8 a) (mem s) m1) by apply (ring_take_agree (tx_ring u)).
  destruct (uart_own (mem s) m1 dev u base pl H2) as [H2' T'].
  { eapply agree_weaken; [|exact A1]. unfold in_range, u_tx_head, sizeof_ns16550a_internal. intros. lia. }
  wp_step. apply (wp_uart_send dev u base pl); [exact H2'|].
  wp_step. apply (wp_uart_wakeup dev u base pl); [|exact H2'|].
  { apply (quiet_io_can 1 s0); [|exact Hh]. etrans; [exact H1|]. etrans; [apply quiet_quiet_io, (quiet_set_mem m1)|apply quiet_io_log]. }
  cbn [mem set_mem set_mmio]. intros s' Q' U' A' W'. wp_step. apply HQ; [|by rewrite (quiet_mmio _ _ Q')]. split.
  - etrans; [exact H1|]. etrans; [apply quiet_quiet_io, (quiet_set_mem m1)|]. etrans; [apply quiet_io_log|]. apply quiet_quiet_io, Q'.
  - done.
  - apply (ring_frame (tx_ring u) RA m1); [|by apply (ring_take_ok (tx_ring u) RA (mem s) c)].
    eapply agree_weaken; [|exact A']. intros a Ha. apply (uart_not_woken m1 dev u base pl a H2'). left.
    unfold in_ring, tx_ring, in_uart, in_range, u_tx_buffer, u_tx_head, u_tx_tail, TX_BUFFER_SIZE, sizeof_ns16550a_internal in *. simpl in Ha. lia.
  - etrans; [exact H4|]. etrans; [eapply agree_weaken; [|exact A1]|eapply agree_weaken; [|exact A']]; unfold not_sent; tauto.
  - rewrite W', T', H5, woken_again. simpl in Hl. by rewrite (proj2 (Nat.ltb_lt _ _)) by lia.
Qed.

Lemma wp_flush dev u base pl l s :
  hart_ok s -> uart_ok (mem s) dev u base pl -> ring (tx_ring u) (mem s) l ->
  wp (ns16550a_driver_flush dev)
    (fun _ s' => sending s dev u base pl l (fst (drain base (mmio s) l)) s' /\ mmio s' = snd (drain base (mmio s) l)) s.
Proof.
  intros Hh H R. pose proof (uo_dev _ _ _ _ _ H) as Hd. pose proof (uo_u _ _ _ _ _ H) as Hu.
  assert (Hb : u <= u_tx_head u /\ u <= u_tx_tail u) by (unfold u_tx_head, u_tx_tail; lia).
  unfold ns16550a_driver_flush. wp_step. wp_step; [unfold d_internal; lia|]. rewrite (uo_internal _ _ _ _ _ H).
  apply (wp_while_n (fun n _ s' => exists l', n = Z.of_nat (length l') /\ (length l' <= length l)%nat /\
    sending s dev u base pl l l' s' /\ drain base (mmio s') l' = drain base (mmio s) l) _ (Z.of_nat (length l))).
  - exists l. split_and!; try done. split; try done. by rewrite Nat.ltb_irrefl.
  - pose proof (ri_len _ _ _ R). pose proof (ra_size _ (tx_ring_at u)). lia.
  - intros n [] s' (l' & -> & Hl & S & E) _. wp_step. unfold andm, tx_idle. do 4 wp_step. wp_step.
    pose proof (ring_empty _ (tx_ring_at u) _ _ (sd_ring _ _ _ _ _ _ _ _ S)) as Em. cbn [tx_ring rg_head rg_tail] in Em. rewrite Em.
    destruct l' as [|c l']; cbn [length]; simpl negb.
    { do 2 wp_step. rewrite <- E. done. }
    wp_step. wp_step. apply (wp_uart_rd dev u base pl); [apply S|]. wp_step. simpl in E.
    destruct (_ =? 0); simpl negb; cbn match.
    { wp_step. rewrite <- E. split; [by apply sending_log|done]. }
    eapply (send_one s); [done|exact Hl|by apply sending_log|]. intros s2 S2 E2. exists (Z.of_nat (length l')). split; [simpl; lia|].
    exists l'. split_and!; [done|simpl in Hl; lia|done|]. by rewrite E2, <- E.
Qed.

(** Sending inside the critical section entered at [s], and leaving it. *)
Lemma wp_flush_release dev u base pl m1 l (Q : unit -> kst -> Prop) s :
  hart_can 2 s -> uart_ok m1 dev u base pl -> ring (tx_ring u) m1 l -> lock_mine s m1 (u_tx_lock u) ->
  (forall cs rest s', quiet_io s s' -> lock_free (mem s') (u_tx_lock u) -> uart_ok (mem s') dev u base pl ->
     l = cs ++ rest -> sent base (mmio s') = sent base (mmio s) ++ cs -> ring (tx_ring u) (mem s') rest ->
     (rest <> [] -> exists log, mmio s' = read_log base UART_LSR log /\ port_read base UART_LSR log &l UART_LSR_TX_IDLE = 0) ->
     table (mem s') pl = woken (0 <? length cs)%nat (u_tx_head u) (table m1 pl) ->
     agree (in_ring (rx_ring u)) m1 (mem s') -> agree (serviced_kept u pl) m1 (mem s') -> Q tt s') ->
  wp (ns16550a_driver_flush dev;; spinlock_release (u_tx_lock u)) Q (set_mem m1 (pushed s)).
Proof.
  intros Hh H R M HQ. pose proof (uo_u _ _ _ _ _ H) as Hu. wp_step. eapply wp_mono; [apply (wp_flush dev u base pl l); [|done|done]|].
  { apply (pushed_can 2). exact Hh. }
  change (mmio (set_mem m1 (pushed s))) with (mmio s). destruct (drain_fifo base (mmio s) l) as (cs & E1 & E2 & E3).
  { by apply (ring_bytes (tx_ring u) m1). }
  set (rest := fst _) in *. set (log := snd _) in *. intros [] t [[Q1 U1 R1 A1 T1] El]. rewrite set_mem_mem in A1, T1.
  assert (Hcs : (length rest <? length l)%nat = (0 <? length cs)%nat).
  { rewrite E1, length_app. destruct cs; simpl; [apply Nat.ltb_irrefl|apply Nat.ltb_lt; lia]. }
  apply (wp_release_io _ _ m1 s); [apply (hart_can_weaken 2); [done|lia]|unfold u_tx_lock; lia|done| |].
  { destruct M as [M1 M2]. split; [rewrite <- M1|rewrite <- M2]; apply ld_agree; (eapply agree_weaken; [|exact A1]); intros a Ha;
      (split; [unfold in_range, u_tx_lock, u_tx_head in *; simpl in Ha; lia|]; apply (uart_not_woken m1 dev u base pl a H); left;
       unfold in_uart, in_range, u_tx_lock, sizeof_ns16550a_internal in *; simpl in Ha; lia). }
  intros s' Q' El' Em. pose proof (unlock_mem_agree (mem t) (u_tx_lock u)) as A2. rewrite <- Em in A2.
  destruct (uart_own (mem t) (mem s') dev u base pl U1) as [U2 T2].
  { eapply agree_weaken; [|exact A2]. unfold in_range, u_tx_lock, sizeof_ns16550a_internal, sizeof_spinlock. intros. lia. }
  apply (HQ cs rest); try done.
  - rewrite Em. apply unlock_mem_free.
  - by rewrite El', El.
  - apply (ring_frame _ (tx_ring_at u) (mem t)); [|done]. eapply agree_weaken; [|exact A2].
    unfold in_ring, tx_ring, in_range, u_tx_lock, u_tx_buffer, u_tx_head, u_tx_tail, TX_BUFFER_SIZE, sizeof_spinlock. simpl. intros. lia.
  - rewrite El', El. exact E3.
  - by rewrite T2, T1, Hcs.
  - assert (Hin : forall a, in_ring (rx_ring u) a -> in_uart u a /\ ~ in_range (u_tx_head u) 8 a /\ ~ in_range (u_tx_lock u) sizeof_spinlock a).
    { unfold in_ring, rx_ring, in_uart, in_range, u_tx_lock, u_tx_head, u_rx_buffer, u_rx_head, u_rx_tail, RX_BUFFER_SIZE, sizeof_spinlock, sizeof_ns16550a_internal.
      simpl. lia. }
    etrans; [eapply agree_weaken; [|exact A1]|eapply agree_weaken; [|exact A2]]; intros a (I & N1 & N2)%Hin; [|done].
    split; [done|]. apply (uart_not_woken m1 dev u base pl a H). auto.
  - assert (B : forall a, ~ in_uart u a -> ~ in_range (u_tx_head u) 8 a /\ ~ in_range (u_tx_lock u) sizeof_spinlock a).
    { unfold in_uart, in_range, u_tx_lock, u_tx_head, sizeof_spinlock, sizeof_ns16550a_internal. lia. }
    etrans; [eapply agree_weaken; [|exact A1]|eapply agree_weaken; [|exact A2]]; intros a [Hu' Hw]; destruct (B a Hu'); [by split|done].
Qed.

(** ** Receiving *)

Definition not_received (u : Z) (pl : list Z) (a : Z) : Prop :=
  ~ in_range (u_rx_buffer u) RX_BUFFER_SIZE a /\ ~ in_range (u_rx_tail u) 8 a /\ not_woken pl a.

(** The state of a port whose receive queue was [l0] at [s0] and is [l]. *)
Record receiving (s0 : kst) (dev u base : Z) (pl l0 l : list Z) (s : kst) : Prop := {
  rv_quiet : quiet_io s0 s;
  rv_ok : uart_ok (mem s) dev u base pl;
  rv_ring : newest (rx_ring u) (mem s) l;
  rv_rest : agree (not_received u pl) (mem s0) (mem s);
  rv_table : table (mem s) pl = woken (length l0 <? length l)%nat (u_rx_head u) (table (mem s0) pl);
}.

Lemma receiving_log x s0 dev u base pl l0 l s : receiving s0 dev u base pl l0 l s -> receiving s0 dev u base pl l0 l (set_mmio x s).
Proof. intros [H1 H2 H3 H4 H5]. by split. Qed.

(** What [ns16550a_driver_getc] finds. *)
Lemma wp_getc dev u base pl cs log (Q : Z -> kst -> Prop) s :
  uart_ok (mem s) dev u base pl -> receives base (mmio s) cs log ->
  match cs with
  | [] => Q (-1) (set_mmio log s)
  | c :: cs' => forall log', receives base log' cs' log -> 0 <= c < 256 -> Q c (set_mmio log' s)
  end -> wp (ns16550a_driver_getc dev) Q s.
Proof.
  intros H Hr HQ. pose proof (uo_dev _ _ _ _ _ H) as Hd. unfold ns16550a_driver_getc. wp_step. wp_step; [unfold d_internal; lia|].
  rewrite (uo_internal _ _ _ _ _ H). wp_step. apply (wp_uart_rd dev u base pl); [done|]. inversion Hr as [x E E1 E2|x cs' x' E Hr' E1 E2]; subst.
  - rewrite E. simpl negb. by wp_step.
  - rewrite (proj2 (Z.eqb_neq _ _) E). simpl negb. apply (wp_uart_rd dev u base pl); [done|].
    apply (HQ _ Hr'). unfold port_read. apply Z.mod_pos_bound. lia.
Qed.

(** One byte: put into the ring, and whoever waits for it woken. *)
Lemma receive_one s0 dev u base pl l0 l c {R} (f : unit -> M R) (Q : R -> kst -> Prop) s :
  hart_ok s0 -> receiving s0 dev u base pl l0 l s -> (length l0 <= length l)%nat -> 0 <= c < 256 ->
  (forall s', receiving s0 dev u base pl l0 (l ++ [c]) s' -> mmio s' = mmio s -> wp (f tt) Q s') ->
  wp (tail ← rd 8 (u_rx_tail u);
      wr 1 (u_rx_buffer u + tail mod RX_BUFFER_SIZE) c;;
      tail ← rd 8 (u_rx_tail u);
      wr 8 (u_rx_tail u) (tail +l 1);;
      x ← proc_wakeup (u_rx_head u); f x) Q s.
Proof.
  intros Hh [H1 H2 H3 H4 H5] Hl Hc HQ. pose proof (uo_u _ _ _ _ _ H2) as Hu. pose proof (rx_ring_at u) as RA.
  pose proof (ring_slot _ RA (ld64 (mem s) (u_rx_tail u))) as Hsl. unfold in_range in Hsl. cbn [rx_ring rg_buf rg_size] in Hsl.
  assert (Hb : u <= u_rx_tail u /\ u <= u_rx_buffer u) by (unfold u_rx_tail, u_rx_buffer; lia).
  wp_steps. rewrite !set_mem_mem, set_mem_twice. set (m1 := st 8 _ _ _).
  pose proof (ring_put_agree (rx_ring u) RA (mem s) c) as A1. change (ring_put (rx_ring u) (mem s) c) with m1 in A1.
  destruct (uart_own (mem s) m1 dev u base pl H2) as [H2' T'].
  { eapply agree_weaken; [|exact A1]. unfold rx_ring, in_range, u_rx_tail, u_rx_buffer, RX_BUFFER_SIZE, sizeof_ns16550a_internal. simpl. intros. lia. }
  apply (wp_uart_wakeup dev u base pl); [|exact H2'|].
  { apply (quiet_io_can 1 s0); [|exact Hh]. etrans; [exact H1|apply quiet_quiet_io, (quiet_set_mem m1)]. }
  rewrite set_mem_mem. intros s' Q' U' A' W'. apply HQ; [|by rewrite (quiet_mmio _ _ Q')]. split.
  - etrans; [exact H1|]. etrans; [apply quiet_quiet_io, (quiet_set_mem m1)|]. apply quiet_quiet_io, Q'.
  - done.
  - apply (newest_frame (rx_ring u) RA m1).
    + eapply agree_weaken; [|exact A']. intros a Ha. apply (uart_not_woken m1 dev u base pl a H2'). left.
      unfold in_ring, rx_ring, in_uart, in_range, u_rx_buffer, u_rx_head, u_rx_tail, RX_BUFFER_SIZE, sizeof_ns16550a_internal in *. simpl in Ha. lia.
    + rewrite <- (Z.mod_small c 256) by done. by apply (newest_put (rx_ring u) RA (mem s) c).
  - etrans; [exact H4|]. etrans; [eapply agree_weaken; [|exact A1]|eapply agree_weaken; [|exact A']]; unfold not_received; simpl; tauto.
  - rewrite W', T', H5, woken_again, length_app. by rewrite (proj2 (Nat.ltb_lt _ _)) by (simpl; lia).
Qed.

(** Everything the port has is put into the ring. *)
Lemma wp_receive dev u base pl l cs log {R} (f : unit -> M R) (Q : R -> kst -> Prop) s :
  hart_ok s -> uart_ok (mem s) dev u base pl -> newest (rx_ring u) (mem s) l -> receives base (mmio s) cs log ->
  Z.of_nat (length cs) < 2 ^ 64 ->
  (forall s', receiving s dev u base pl l (l ++ cs) s' -> mmio s' = log -> wp (f tt) Q s') ->
  wp (rec_c ← ns16550a_driver_getc dev;
      x ← while (fun rec_c =>
        if rec_c =? -1 then mret (inr tt) else
        tail ← rd 8 (u_rx_tail u);
        wr 1 (u_rx_buffer u + tail mod RX_BUFFER_SIZE) rec_c;;
        tail ← rd 8 (u_rx_tail u);
        wr 8 (u_rx_tail u) (tail +l 1);;
        proc_wakeup (u_rx_head u);;
        rec_c ← ns16550a_driver_getc dev;
        mret (inl rec_c)) rec_c; f x) Q s.
Proof.
  intros Hh H Hri Hr Hlen HQ.
  assert (S0 : receiving s dev u base pl l l s) by (split; try done; by rewrite Nat.ltb_irrefl).
  set (I := fun (n rec_c : Z) (s' : kst) => exists cs1 cs2, cs = cs1 ++ cs2 /\ n = Z.of_nat (length cs2) /\
    receiving s dev u base pl l (l ++ cs1) s' /\
    match cs2 with [] => rec_c = -1 /\ mmio s' = log | c :: cs3 => rec_c = c /\ 0 <= c < 256 /\ receives base (mmio s') cs3 log end).
  wp_step. apply (wp_mono _ (fun c s' => I (Z.of_nat (length cs)) c s')).
  { apply (wp_getc dev u base pl cs log); [done|done|].
    destruct cs as [|c cs]; [|intros log' Hr' Hc]; exists []; eexists; (split_and!; [reflexivity|reflexivity|rewrite app_nil_r; by apply receiving_log|..]); done || lia. }
  intros c s1 HI. wp_step. apply (wp_while_n I _ (Z.of_nat (length cs))); [done|lia|].
  clear c s1 HI.
  intros n c s1 (cs1 & [|c' cs2] & -> & -> & S & HI) _.
  { destruct HI as [-> El]. simpl. wp_step. apply HQ; [|done]. by rewrite app_nil_r. }
  destruct HI as (-> & Hc & Hr2). rewrite (proj2 (Z.eqb_neq _ _)) by lia.
  apply (receive_one s dev u base pl l (l ++ cs1)); [done|done|rewrite length_app; lia|done|].
  intros s2 S2 E2. wp_step. rewrite <- E2 in Hr2. apply (wp_getc dev u base pl cs2 log); [apply S2|done|]. rewrite <- app_assoc in S2.
  assert (Ea : cs1 ++ c' :: cs2 = (cs1 ++ [c']) ++ cs2) by (by rewrite <- app_assoc).
  destruct cs2 as [|c2 cs2]; [|intros log2 Hr3 Hc2]; wp_step; (eexists; split; [|exists (cs1 ++ [c']); eexists; split_and!; [exact Ea|reflexivity|apply receiving_log; exact S2|..]]);
    done || (simpl length; lia).
Qed.

(** What receiving keeps of the sending side. *)
Lemma receiving_kept s0 dev u base pl l0 l s : receiving s0 dev u base pl l0 l s -> uart_ok (mem s0) dev u base pl ->
  (lock_free (mem s0) (u_tx_lock u) -> lock_free (mem s) (u_tx_lock u)) /\
  forall q, ring (tx_ring u) (mem s0) q -> ring (tx_ring u) (mem s) q.
Proof.
  intros S H. assert (Hin : forall a, in_uart u a -> a < u_rx_buffer u \/ u_tx_head u <= a < u_rx_head u -> not_received u pl a).
  { intros a Ha Hd. split_and!; [..|apply (uart_not_woken (mem s0) dev u base pl a H); auto];
      unfold in_range, u_rx_buffer, u_tx_head, u_rx_head, u_rx_tail, RX_BUFFER_SIZE in *; lia. }
  split.
  - unfold lock_free. intros <-. apply ld_agree. eapply agree_weaken; [|apply S]. intros a Ha.
    apply Hin; unfold in_uart, in_range, u_tx_lock, u_rx_buffer, sizeof_ns16550a_internal in *; simpl in Ha; lia.
  - intros q. apply ring_frame; [apply tx_ring_at|]. eapply agree_weaken; [|apply S]. intros a Ha.
    apply Hin; unfold in_ring, tx_ring, in_uart, in_range, u_tx_buffer, u_tx_tail, u_rx_buffer, u_tx_head, u_rx_head, TX_BUFFER_SIZE, sizeof_ns16550a_internal in *;
      simpl in Ha; lia.
Qed.

(** The lock is still this hart's after changes to a ring. *)
Lemma port_lock_kept s m m' u lk (r : ring_desc) : 0 <= tp s < MAX_CPU -> lk = u_tx_lock u \/ lk = u_rx_lock u -> r = tx_ring u \/ r = rx_ring u ->
  agree (fun a => ~ in_ring r a) (lock_mem m lk (my_hart s)) m' -> lock_mine s m' lk.
Proof.
  intros Ht Hlk Hr Ha. apply (lock_kept s m m' lk Ht). eapply agree_weaken; [|exact Ha].
  destruct Hlk as [-> | ->], Hr as [-> | ->]; unfold in_ring, tx_ring, rx_ring, in_range, u_tx_lock, u_rx_lock, u_tx_buffer, u_tx_tail, u_tx_head,
    u_rx_buffer, u_rx_head, u_rx_tail, TX_BUFFER_SIZE, RX_BUFFER_SIZE, sizeof_spinlock; simpl; lia.
Qed.

Lemma wp_assoc {A B E} (c : M A) (d : M B) (f : B -> M E) Q s : wp (x ← (c;; d); f x) Q s -> wp (c;; x ← d; f x) Q s.
Proof. unfold wp, mbind, M_bind. by destruct (c s). Qed.

(** ** The interrupt handler *)

(** What it has done between [s] and [s'], when the queues were [l] and [r]
    and the port had [cs]. *)
Record port_serviced (s : kst) (dev u base : Z) (pl l r cs : list Z) (s' : kst) : Prop := {
  ps_rx : newest (rx_ring u) (mem s') (r ++ cs);
  ps_tx : exists out rest, l = out ++ rest /\ sent base (mmio s') = sent base (mmio s) ++ out /\ ring (tx_ring u) (mem s') rest /\
    (rest <> [] -> exists log, mmio s' = read_log base UART_LSR log /\ port_read base UART_LSR log &l UART_LSR_TX_IDLE = 0) /\
    table (mem s') pl = woken (0 <? length out)%nat (u_tx_head u) (woken (0 <? length cs)%nat (u_rx_head u) (table (mem s) pl));
  ps_ok : uart_ok (mem s') dev u base pl;
  ps_lock : lock_free (mem s') (u_tx_lock u);
  ps_quiet : quiet_io s s';
  ps_mem : agree (serviced_kept u pl) (mem s) (mem s');
}.

Lemma wp_interrupt_handler dev u base pl cs log l r s :
  hart_can 2 s -> uart_ok (mem s) dev u base pl -> lock_free (mem s) (u_tx_lock u) ->
  ring (tx_ring u) (mem s) l -> newest (rx_ring u) (mem s) r ->
  receives base (mmio s) cs log -> Z.of_nat (length cs) < 2 ^ 64 ->
  wp (ns16550a_driver_interrupt_handler dev) (fun x s' => x = 0 /\ port_serviced s dev u base pl l r cs s') s.
Proof.
  intros Hh H Hf Ht Hr Hrec Hlen. pose proof (uo_u _ _ _ _ _ H) as Hu. unfold ns16550a_driver_interrupt_handler.
  wp_step. wp_step; [pose proof (uo_dev _ _ _ _ _ H); unfold d_internal; lia|]. rewrite (uo_internal _ _ _ _ _ H).
  apply (wp_receive dev u base pl r cs log); [exact (hart_can_weaken 2 1 _ Hh ltac:(lia))|done..|].
  intros s1 S1 El. destruct (receiving_kept _ _ _ _ _ _ _ _ S1 H) as [K1 K1']. destruct S1 as [Q1 H1 R1 A1 T1]. wp_step. apply wp_spinlock_acquire; [apply (quiet_io_can 1 s); [done|exact (hart_can_weaken 2 1 _ Hh ltac:(lia))]|unfold u_tx_lock; lia| |].
  { by apply K1. }
  set (m0 := lock_mem _ _ _). destruct (uart_lock_step (mem s1) m0 dev u base pl _ H1 (or_introl eq_refl) (lock_mem_agree _ _ _)) as (H0 & T0 & K0).
  apply wp_assoc. wp_step. pose proof (quiet_io_can 2 _ _ Q1 Hh) as Hh1.
  apply (wp_flush_release dev u base pl m0 l _ s1); [done|done|by apply K0, K1'|apply lock_mem_mine, Hh1|].
  intros out rest s' Q' F' U' Eo Es R' B' T' A' M'. wp_step. split; [done|].
  split; [by apply (newest_frame _ (rx_ring_at u) m0), K0| |done|done|by etrans|].
  - exists out, rest. split_and!; try done; [by rewrite Es, El, (receives_sent base _ _ _ Hrec)|].
    rewrite T', T0, T1, length_app. do 2 f_equal. destruct cs; simpl; [rewrite Nat.add_0_r; apply Nat.ltb_irrefl|apply Nat.ltb_lt; lia].
  - assert (B : forall a, ~ in_uart u a -> ~ in_range (u_rx_buffer u) RX_BUFFER_SIZE a /\ ~ in_range (u_rx_tail u) 8 a /\ ~ in_range (u_tx_lock u) sizeof_spinlock a).
    { unfold in_uart, in_range, u_tx_lock, u_rx_buffer, u_rx_tail, RX_BUFFER_SIZE, sizeof_spinlock, sizeof_ns16550a_internal. lia. }
    transitivity (mem s1); [eapply agree_weaken; [|exact A1]|transitivity m0; [eapply agree_weaken; [|apply lock_mem_agree]|exact M']];
      intros a [Hu' Hw]; destruct (B a Hu') as (B1 & B2 & B3); unfold not_received; tauto.
Qed.
End uart.
