(* ===== verification/ProcSpec.v ===== *)
(** * Properties of the process management

    The theorems about proc/proc.c: waking and killing against updates of the
    process table, and exiting with a child. *)

From S2P Require Import Prelude Memory Machine Lists Strings Hal Lock Console Buddy Object Kmem Csr Vmem Proc Trap ProcProofs ProcHold ProcExit.

Section spec.
Context {L : KernelLayout} {C : Code} {W : Switch}.

(** C35: [proc_wakeup] refines waking on the process table: exactly the
    processes that sleep on the channel become runnable, every other field of
    every process, the list, and all other memory are kept, and the manager's
    lock and the interrupt state are as before. *)
Theorem proc_wakeup_refines chan l s :
  hart_ok s -> lock_free (mem s) pm_lock -> procs_ok (mem s) l ->
  wp (proc_wakeup chan) (fun _ s' => quiet s s' /\ lock_free (mem s') pm_lock /\ procs_ok (mem s') l /\
    table (mem s') l = map (wake chan) (table (mem s) l) /\
    agree (fun a => ~ state_field l a /\ ~ in_range pm_lock sizeof_spinlock a) (mem s) (mem s')) s.
Proof. apply wp_proc_wakeup. Qed.

(** C36: [proc_kill] refines killing in the process table: the first process
    with the given id, if there is one, is marked and, if it sleeps, made
    runnable, and 0 is returned; otherwise nothing changes and -1 is
    returned.  Only the states and marks of processes and the manager's lock
    are written. *)
Theorem proc_kill_refines pid l s :
  hart_ok s -> lock_free (mem s) pm_lock -> procs_ok (mem s) l ->
  wp (proc_kill pid) (fun r s' => quiet s s' /\ lock_free (mem s') pm_lock /\ procs_ok (mem s') l /\
    agree (fun a => ~ sched_field l a /\ ~ in_range pm_lock sizeof_spinlock a) (mem s) (mem s') /\
    match find_pid pid (table (mem s) l) with
    | Some v => r = 0 /\ table (mem s') l = map (at_addr kill (v_addr v)) (table (mem s) l)
    | None => r = -1 /\ table (mem s') l = table (mem s) l
    end) s.
Proof. apply wp_proc_kill. Qed.

(** C37: a process with a child cannot exit: [proc_exit] wakes the new parent
    of each child while it holds the manager's lock, which [proc_wakeup]
    takes again, and the kernel stops. *)
Theorem proc_exit_with_child_panics code l e s :
  hart_can 2 s -> lock_free (mem s) pm_lock -> procs_ok (mem s) l ->
  e ∈ l -> v_parent (view (mem s) e) = running_proc (this_hart s) ->
  proc_exit code s = Panic "spinlock_acquire - spinlock held;".
Proof. apply proc_exit_child. Qed.
End spec.

(** ** Two processes: the first runs, the second, its child, sleeps *)

#[local] Existing Instance sample_layout.
#[local] Instance no_drivers : Code := fun _ _ => hang.
#[local] Instance no_switch : Switch := fun _ _ => hang.

Definition proc_1 : Z := VA_KERNEL_BEGIN + 0x80010000.
Definition proc_2 : Z := VA_KERNEL_BEGIN + 0x80020000.

(** The trap frame of the first, with the arguments of a call of kill. *)
Definition frame_1 : Z := VA_KERNEL_BEGIN + 0x80030000.

Definition sample_procs_mem : memory :=
  fold_left (fun m '(n, a, v) => st n m a v)
    [(8%nat, pm_proc_list + 24, proc_1); (8%nat, proc_1 + 16, pm_proc_list); (8%nat, proc_1 + 24, proc_2);
     (8%nat, proc_2 + 16, proc_1); (8%nat, proc_2 + 24, 0); (4%nat, p_pid proc_1, 1); (4%nat, p_state proc_1, 2);
     (4%nat, p_pid proc_2, 2); (8%nat, p_chan proc_2, 0x5000); (8%nat, p_parent proc_2, proc_1);
     (8%nat, p_trapframe proc_1, frame_1); (8%nat, frame_1 + 112, 2); (8%nat, frame_1 + 168, 3)] ∅.

Definition sample_procs : kst :=
  set_harts {[ 0 := mk_hart 1 proc_1 [] 0 0 ]} (sample_state sample_procs_mem).

Lemma sample_procs_ok : procs_ok (mem sample_procs) [proc_1; proc_2].
Proof.
  split.
  - unfold dll, chain. cbn [links lastn]. split_and!; vm_compute; reflexivity.
  - apply NoDup_cons. split; [|apply NoDup_singleton]. intros H%list_elem_of_singleton. vm_compute in H. congruence.
  - intros p Hp. apply elem_of_cons in Hp as [->|Hp]; [|apply list_elem_of_singleton in Hp as ->]; vm_compute; split; congruence.
  - intros p q Hp Hq Hne. unfold disjoint, sizeof_proc.
    apply elem_of_cons in Hp as [->|Hp]; [|apply list_elem_of_singleton in Hp as ->];
    (apply elem_of_cons in Hq as [->|Hq]; [|apply list_elem_of_singleton in Hq as ->]); unfold proc_1, proc_2 in *; congruence || lia.
  - vm_compute. reflexivity.
Qed.

Lemma sample_procs_hart : hart_can 2 sample_procs.
Proof. split_and!; vm_compute; congruence. Qed.

Lemma proc_wakeup_refines_witness :
  wp (proc_wakeup 0x5000) (fun _ s' => quiet sample_procs s' /\ lock_free (mem s') pm_lock /\ procs_ok (mem s') [proc_1; proc_2] /\
    table (mem s') [proc_1; proc_2] = map (wake 0x5000) (table (mem sample_procs) [proc_1; proc_2]) /\
    agree (fun a => ~ state_field [proc_1; proc_2] a /\ ~ in_range pm_lock sizeof_spinlock a) (mem sample_procs) (mem s')) sample_procs.
Proof.
  apply (proc_wakeup_refines 0x5000 [proc_1; proc_2] sample_procs).
  - exact (hart_can_weaken 2 1 _ sample_procs_hart ltac:(lia)).
  - vm_compute. reflexivity.
  - exact sample_procs_ok.
Defined.

Lemma proc_kill_refines_witness :
  wp (proc_kill 2) (fun r s' => quiet sample_procs s' /\ lock_free (mem s') pm_lock /\ procs_ok (mem s') [proc_1; proc_2] /\
    agree (fun a => ~ sched_field [proc_1; proc_2] a /\ ~ in_range pm_lock sizeof_spinlock a) (mem sample_procs) (mem s') /\
    match find_pid 2 (table (mem sample_procs) [proc_1; proc_2]) with
    | Some v => r = 0 /\ table (mem s') [proc_1; proc_2] = map (at_addr kill (v_addr v)) (table (mem sample_procs) [proc_1; proc_2])
    | None => r = -1 /\ table (mem s') [proc_1; proc_2] = table (mem sample_procs) [proc_1; proc_2]
    end) sample_procs.
Proof.
  apply (proc_kill_refines 2 [proc_1; proc_2] sample_procs).
  - exact (hart_can_weaken 2 1 _ sample_procs_hart ltac:(lia)).
  - vm_compute. reflexivity.
  - exact sample_procs_ok.
Defined.

Lemma proc_exit_with_child_panics_witness : proc_exit 0 sample_procs = Panic "spinlock_acquire - spinlock held;".
Proof.
  apply (proc_exit_with_child_panics 0 [proc_1; proc_2] proc_2 sample_procs).
  - exact sample_procs_hart.
  - vm_compute. reflexivity.
  - exact sample_procs_ok.
  - apply list_elem_of_further, list_elem_of_here.
  - vm_compute. reflexivity.
Defined.
