(* ===== verification/SchedSpec.v ===== *)
(** * A round of the scheduler

    [scheduler_round] against a round on the process table.  What a process
    does while it runs is a relation on tables; it may change any process,
    create some in front of the list and remove others, and comes back with
    the manager's lock free. *)

From S2P Require Import Prelude Memory Machine Lists Strings Hal Lock Console Buddy Object Kmem Csr Vmem Proc ProcProofs ProcHold ProcSpec.

(** The rest of a round: the processes visited, those to visit, the table at
    the end.  [run p t t'] is what the process at [p] may make of [t] while it
    runs. *)
Inductive round (run : Z -> list pview -> list pview -> Prop) : list pview -> list pview -> list pview -> Prop :=
| round_end t : round run t [] t
| round_skip t1 v t2 t' : v_state v <> state_code PROC_RUNNABLE -> round run (t1 ++ [v]) t2 t' -> round run t1 (v :: t2) t'
| round_run t1 v t2 t1' v' t2' t' : v_state v = state_code PROC_RUNNABLE ->
    run (v_addr v) (t1 ++ with_state PROC_RUNNING v :: t2) (t1' ++ v' :: t2') -> v_addr v' = v_addr v ->
    round run (t1' ++ [v']) t2' t' -> round run t1 (v :: t2) t'.

Section sched.
Context {L : KernelLayout} {C : Code} {W : Switch}.

(** The hart [t] switches to a process marked as running, which comes back. *)
Definition resumes (t : Z) (run : Z -> list pview -> list pview -> Prop) : Prop := forall p l1 l2 s,
  ready (l1 ++ p :: l2) s -> tp s = t -> running_proc (this_hart s) = p -> v_state (view (mem s) p) = state_code PROC_RUNNING ->
  wp (proc_switch (my_hart s + 16) (p_context p)) (fun _ s' => tp s' = t /\ exists l1' l2', ready (l1' ++ p :: l2') s' /\
    (length l2' <= length l2)%nat /\ run p (table (mem s) (l1 ++ p :: l2)) (table (mem s') (l1' ++ p :: l2'))) s.

(** ** One process, and the loop *)

Lemma table_running m l1 q l2 : procs_ok m (l1 ++ q :: l2) ->
  table (st32 m (p_state q) (state_code PROC_RUNNING)) (l1 ++ q :: l2) = table m l1 ++ with_state PROC_RUNNING (view m q) :: table m l2.
Proof.
  intros P. assert (Hq : q ∈ l1 ++ q :: l2) by (apply elem_of_app; right; apply list_elem_of_here).
  assert (V : forall x, x ∈ l1 ++ q :: l2 -> view (st32 m (p_state q) (state_code PROC_RUNNING)) x = at_addr (with_state PROC_RUNNING) q (view m x)).
  { intros x Hx. by apply (state_view m (l1 ++ q :: l2)). }
  pose proof (pr_nodup _ _ P) as N. apply NoDup_app in N as (_ & N1 & N2). apply NoDup_cons in N2 as [N2 _].
  rewrite table_app. simpl. rewrite V by done. unfold at_addr at 1. simpl. rewrite Z.eqb_refl.
  assert (Hsame : forall k, (forall x, x ∈ k -> x ∈ l1 ++ q :: l2 /\ x <> q) -> table (st32 m (p_state q) (state_code PROC_RUNNING)) k = table m k).
  { intros k Hk. apply map_ext_in. intros x Hx%list_elem_of_In. destruct (Hk x Hx) as [Hx1 Hx2]. rewrite V by done. unfold at_addr. simpl. by rewrite (proj2 (Z.eqb_neq _ _) Hx2). }
  f_equal; [|f_equal]; apply Hsame; intros x Hx; (split; [apply elem_of_app|]).
  - by left.
  - intros ->. apply (N1 q Hx). apply list_elem_of_here.
  - right. by apply list_elem_of_further.
  - intros ->. done.
Qed.

Lemma wp_run_proc run q l1 l2 sb m (Q : unit -> kst -> Prop) :
  resumes (tp sb) run -> holding (l1 ++ q :: l2) sb m ->
  (forall sb' m' l1' l2', tp sb' = tp sb -> running_proc (this_hart sb') = NULL -> holding (l1' ++ q :: l2') sb' m' -> (length l2' <= length l2)%nat ->
     run q (table m l1 ++ with_state PROC_RUNNING (view m q) :: table m l2) (table m' (l1' ++ q :: l2')) -> Q tt (set_mem m' (pushed sb'))) ->
  wp (run_proc (my_hart sb) q) Q (set_mem m (pushed sb)).
Proof.
  intros HR (H & P & A) HQ. assert (Hq : q ∈ l1 ++ q :: l2) by (apply elem_of_app; right; apply list_elem_of_here). destruct (proc_addr _ _ q P Hq) as [Ha _].
  unfold run_proc, run_enter, set_state. wp_step. wp_step. wp_step; [unfold p_state; lia|]. rewrite set_mem_mem, set_mem_twice.
  destruct (state_write m _ q PROC_RUNNING P Hq) as [P1 A1]. pose proof (table_running m l1 q l2 P) as T1. set (m1 := st32 _ _ _) in *.
  assert (Hs1 : v_state (view m1 q) = state_code PROC_RUNNING) by (unfold m1; rewrite (state_view m (l1 ++ q :: l2)) by done; unfold at_addr; simpl; by rewrite Z.eqb_refl).
  wp_step. apply (wp_give (l1 ++ q :: l2) sb m1).
  { split; [done|]. split; [done|]. etrans; [exact A|]. eapply agree_weaken; [|exact A1]. intros a. by apply (lock_not_state m). }
  intros s2 Q2 R2 T2 _. assert (Et : tp s2 = tp sb) by (destruct (same_globals_fields _ _ (proj1 Q2)) as (-> & _); done).
  apply wp_set_running; [apply (rd_hart _ _ R2)|]. destruct (ready_on_hart _ q s2 R2) as [R3 E3]. wp_step.
  assert (Hv : view (mem s2) q = view m1 q) by (apply (proj1 map_ext_in_iff T2), list_elem_of_In; exact Hq).
  replace (my_hart sb) with (my_hart (on_hart q s2)) by (unfold my_hart; change (tp (on_hart q s2)) with (tp s2); by rewrite Et).
  eapply wp_mono; [apply (HR q l1 l2 (on_hart q s2)); [done|exact Et|exact E3|]|].
  { change (mem (on_hart q s2)) with (mem s2). by rewrite Hv. }
  intros _ s4 (E4 & l1' & l2' & R4 & Hl & HT). change (mem (on_hart q s2)) with (mem s2) in HT. rewrite T2, T1 in HT.
  wp_step. apply wp_set_running; [apply (rd_hart _ _ R4)|]. destruct (ready_on_hart _ NULL s4 R4) as [R5 E5].
  apply (wp_take _ _ _ R5). intros m5 H5 T5 _. change (mem (on_hart NULL s4)) with (mem s4) in T5. rewrite <- T5 in HT.
  by apply (HQ (on_hart NULL s4) m5 l1' l2').
Qed.

(** The end of a round. *)
Definition round_over (run : Z -> list pview -> list pview -> Prop) (t : Z) (t0 : list pview) (s' : kst) : Prop :=
  exists l', ready l' s' /\ tp s' = t /\ running_proc (this_hart s') = NULL /\ round run [] t0 (table (mem s') l').

Lemma wp_round_end run l sb m t0 : holding l sb m -> running_proc (this_hart sb) = NULL -> round run [] t0 (table m l) ->
  wp (spinlock_release pm_lock) (fun _ s' => round_over run (tp sb) t0 s') (set_mem m (pushed sb)).
Proof.
  intros K En HT. apply (wp_give l); [done|]. intros s' Q' R' T' _. exists l. destruct Q' as [G Hh]. destruct (same_globals_fields _ _ G) as (Et & _).
  destruct (same_harts_fields _ _ (u32 (tp sb)) Hh) as (_ & Er & _). split_and!; [done|done| |by rewrite T'].
  unfold this_hart, hart_at in *. by rewrite Et, Er.
Qed.

(** Before the process [p], with [n] of them to visit. *)
Definition visiting (run : Z -> list pview -> list pview -> Prop) (t : Z) (t0 : list pview) (n p : Z) (s' : kst) : Prop :=
  exists sb m l1 l2, s' = set_mem m (pushed sb) /\ tp sb = t /\ running_proc (this_hart sb) = NULL /\ holding (l1 ++ l2) sb m /\
    p = hd NULL l2 /\ n = Z.of_nat (length l2) /\ forall t', round run (table m l1) (table m l2) t' -> round run [] t0 t'.

Lemma visit_next run t t0 l1 q l2 sb m : tp sb = t -> running_proc (this_hart sb) = NULL -> holding (l1 ++ q :: l2) sb m ->
  (forall t', round run (table m l1 ++ [view m q]) (table m l2) t' -> round run [] t0 t') ->
  wp (rd 8 (p_nxt q)) (fun nxt s' => visiting run t t0 (Z.of_nat (length l2)) nxt s') (set_mem m (pushed sb)).
Proof.
  intros Et En K HT. destruct (proc_addr m _ q (proj1 (proj2 K))) as [Ha _]; [apply elem_of_app; right; apply list_elem_of_here|].
  wp_step; [unfold p_nxt; lia ..|]. rewrite set_mem_mem, (next_proc m l1 q l2) by apply K. exists sb, m, (l1 ++ [q]), l2.
  rewrite <- app_assoc. split_and!; [done..|]. intros t' Hr. apply HT. by rewrite table_app in Hr.
Qed.

(** C7: a round of the scheduler refines a round on the process table: the
    processes are visited in order, those found runnable and only those are
    run, each once, marked as running before its context is resumed and the
    lock is released; between them the hart holds the lock and has no process;
    the round ends, with the lock free, if every process comes back. *)
Theorem scheduler_round_refines run l s :
  ready l s -> running_proc (this_hart s) = NULL -> resumes (tp s) run ->
  wp (scheduler_round (my_hart s)) (fun _ s' => exists l', ready l' s' /\ tp s' = tp s /\ running_proc (this_hart s') = NULL /\
    round run [] (table (mem s) l) (table (mem s') l')) s.
Proof.
  intros H Hn HR. unfold scheduler_round, enable_interrupt. wp_step. wp_steps. set (s1 := set_sstatus _ s).
  assert (H1 : ready l s1).
  { destruct H as [(B1 & B2 & B3 & B4) Hd Hf Hp]. split; [|done|done|done]. refine (conj B1 (conj _ (conj B3 _))); [by apply lor_64_bound|]. intros Hd'. by destruct Hd'. }
  apply (wp_take l _ s1 H1). intros m1 K1 T1 _. wp_step. change (mem s1) with (mem s) in T1. rewrite <- T1.
  change (fun _ s' => exists l', _) with (fun (_ : unit) s' => round_over run (tp s) (table m1 l) s').
  pose proof lock_addr as HL. unfold for_procs. wp_step. wp_step; [unfold p_nxt, pm_proc_list, pm_lock, PAGE_SIZE in *; lia|]. rewrite set_mem_mem.
  pose proof (pr_list _ _ (proj1 (proj2 K1))) as D. pose proof (dll_next m1 pm_proc_list [] l D : ld64 m1 (p_nxt pm_proc_list) = hd NULL l) as E. rewrite E.
  apply (wp_while_n (visiting run (tp s) (table m1 l)) _ (Z.of_nat (length l))).
  - by exists s1, m1, [], l.
  - pose proof (pr_len _ _ (proj1 (proj2 K1))). lia.
  - intros n p s' (sb & m & l1 & [|q l2] & -> & Et & En & K & -> & -> & HT) _; simpl hd.
    { wp_step. rewrite app_nil_r in K. rewrite <- Et. apply (wp_round_end run l1); [done|done|]. apply HT, round_end. }
    destruct (proc_addr m _ q (proj1 (proj2 K))) as [Ha Hnz]; [apply elem_of_app; right; apply list_elem_of_here|].
    rewrite (proj2 (Z.eqb_neq _ _)) by done. unfold is_state. do 2 wp_step. wp_step. wp_step; [unfold p_state; lia ..|]. rewrite set_mem_mem. wp_step.
    change (ld32 m (p_state q)) with (v_state (view m q)). destruct (Z.eqb_spec (v_state (view m q)) (state_code PROC_RUNNABLE)) as [Es|Es].
    + wp_step. replace (my_hart s) with (my_hart sb) by (unfold my_hart; by rewrite Et). apply (wp_run_proc run q l1 l2 sb m); [by rewrite Et|done|].
      intros sb' m' l1' l2' Et' En' K' Hl HT'. wp_step. wp_step. eapply wp_mono; [apply (visit_next run (tp s) (table m1 l) l1' q l2' sb' m'); [by rewrite Et'|done|done|]|].
      * intros t' Hr. apply HT. rewrite table_app in HT'. by eapply round_run.
      * intros nxt s' V. wp_step. exists (Z.of_nat (length l2')). split; [simpl; lia|done].
    + do 4 wp_step. eapply wp_mono; [apply (visit_next run (tp s) (table m1 l) l1 q l2 sb m); [done|done|done|]|].
      * intros t' Hr. apply HT. by apply round_skip.
      * intros nxt s' V. wp_step. exists (Z.of_nat (length l2)). split; [simpl; lia|done].
Qed.
End sched.

(** ** One process runs elsewhere, the other runs and goes to sleep *)

#[local] Existing Instance sample_layout.
#[local] Existing Instance no_drivers.

(** Whoever is switched to sleeps at once. *)
#[local] Instance nap : Switch := fun _ ctx => wr 4 (p_state (ctx - 96)) (state_code PROC_SLEEPING).
Definition napping (p : Z) (t t' : list pview) : Prop := t' = map (at_addr (with_state PROC_SLEEPING) p) t.

Lemma nap_resumes : resumes 0 napping.
Proof.
  intros p l1 l2 s [H Hd Hf P] Et _ _. assert (Hp : p ∈ l1 ++ p :: l2) by (apply elem_of_app; right; apply list_elem_of_here).
  destruct (proc_addr _ _ p P Hp) as [Ha _]. unfold proc_switch, nap. replace (p_context p - 96) with p by (unfold p_context; lia).
  apply wp_wr; [unfold p_state; lia|]. destruct (state_write (mem s) _ p PROC_SLEEPING P Hp) as [P' A'].
  split; [done|]. exists l1, l2. split_and!; [split; [done|done| |done]|done|].
  - unfold lock_free. rewrite <- Hf. apply ld_agree. eapply agree_weaken; [|exact A']. intros a Hr. refine (lock_not_state (mem s) _ a P _).
    unfold in_range, sizeof_spinlock in *. change (Z.of_nat 4) with 4 in Hr. lia.
  - unfold napping, table. rewrite map_map. apply map_ext_in. intros q Hq%list_elem_of_In. by apply (state_view (mem s) (l1 ++ p :: l2)).
Qed.

Definition two_procs : kst := set_harts {[ 0 := mk_hart 1 NULL [] 0 0 ]} (set_mem (st 4 sample_procs_mem (p_state proc_2) 1) sample_procs).

Lemma two_procs_ready : ready [proc_1; proc_2] two_procs.
Proof.
  split.
  - split_and!; vm_compute; congruence.
  - vm_compute. reflexivity.
  - vm_compute. reflexivity.
  - apply (procs_states sample_procs_mem); [exact sample_procs_ok|]. apply agree_st. intros b Hb Hn. apply Hn. exists proc_2.
    split; [apply list_elem_of_further, list_elem_of_here|done].
Qed.

Lemma scheduler_round_refines_witness :
  wp (scheduler_round (my_hart two_procs)) (fun _ s' => exists l', ready l' s' /\ tp s' = 0 /\ running_proc (this_hart s') = NULL /\
    round napping [] (table (mem two_procs) [proc_1; proc_2]) (table (mem s') l')) two_procs.
Proof.
  apply (scheduler_round_refines napping [proc_1; proc_2] two_procs).
  - exact two_procs_ready.
  - vm_compute. reflexivity.
  - exact nap_resumes.
Defined.
