(* ===== verification/SleepSpec.v ===== *)
(** * Sleeping on one hart, waking on another

    [proc_sleep] gives the process manager's lock up before it has switched
    away from the process.  The theorem follows two harts through the window
    this opens. *)

From S2P Require Import Prelude Memory Machine Lists Strings Hal Lock Console Buddy Object Kmem Csr Vmem Proc ProcProofs ProcHold ProcExit ProcSleep ProcSpec SchedSpec.

Section race.
Context {L : KernelLayout} {C : Code} {W : Switch}.

(** The code goes on on hart [h], whose [sstatus] is [x]. *)
Definition move_to (h x : Z) (s : kst) : kst :=
  mk_kst (mem s) h x (harts s) (uma_node s) (kmem s) (ram_descriptor s) (console_out s) (csr s) (ecalls s) (mmio s).

(** ** A round up to the first switch *)

(** The state in which a scheduler that was ready at [s] switches to [p]. *)
Record picked (p : Z) (l : list Z) (s s' : kst) : Prop := {
  pk_ready : ready l s';
  pk_tp : tp s' = tp s;
  pk_mine : running_proc (this_hart s') = p;
  pk_others i : i <> u32 (tp s) -> running_proc (hart_at s' i) = running_proc (hart_at s i);
  pk_table : table (mem s') l = map (at_addr (with_state PROC_RUNNING) p) (table (mem s) l);
  pk_mem : agree (fun a => ~ state_field l a /\ ~ in_range pm_lock sizeof_spinlock a) (mem s) (mem s');
}.

Lemma scheduler_round_stops r p l1 l2 s : let l := l1 ++ p :: l2 in
  ready l s -> v_state (view (mem s) p) = state_code PROC_RUNNABLE -> (forall q, q ∈ l1 -> v_state (view (mem s) q) <> state_code PROC_RUNNABLE) ->
  (forall s', picked p l s s' -> stops r (proc_switch (my_hart s + 16) (p_context p)) s') ->
  stops r (scheduler_round (my_hart s)) s.
Proof.
  intros l H Hrun Hnot HQ. unfold scheduler_round, enable_interrupt. apply stops_bind. wp_steps. set (s1 := set_sstatus _ s).
  assert (H1 : ready l s1).
  { destruct H as [(B1 & B2 & B3 & B4) Hd Hf Hp]. split; [|done|done|done]. refine (conj B1 (conj _ (conj B3 _))); [by apply lor_64_bound|]. intros Hd'. by destruct Hd'. }
  apply stops_bind, (wp_take l _ s1 H1). intros m1 K1 T1 A1. change (mem s1) with (mem s) in T1.
  assert (V : forall q, q ∈ l -> view m1 q = view (mem s) q) by (intros q Hq; apply (proj1 map_ext_in_iff T1), list_elem_of_In, Hq).
  assert (Hp : p ∈ l) by (apply elem_of_app; right; apply list_elem_of_here).
  pose proof (proj1 (proj2 K1)) as P1. destruct (proc_addr m1 _ p P1 Hp) as [Ha _].
  apply stops_first, (for_procs_stops _ _ l1 p l2); [exact P1| |].
  - unfold is_state. apply stops_bind. wp_step. wp_step; [unfold p_state; lia|]. wp_step. rewrite set_mem_mem.
    change (ld32 m1 (p_state p)) with (v_state (view m1 p)). rewrite V, Hrun, Z.eqb_refl by done. apply stops_first.
    unfold run_proc, run_enter, set_state. apply stops_bind. wp_step. wp_step; [unfold p_state; lia|]. rewrite set_mem_mem, set_mem_twice.
    destruct (state_write m1 l p PROC_RUNNING P1 Hp) as [P2 A2]. pose proof (fun q Hq => state_view m1 l p q PROC_RUNNING P1 Hp Hq) as V2. set (m2 := st32 _ _ _) in *.
    wp_step. apply (wp_give l s1 m2).
    { split; [done|]. split; [done|]. transitivity m1; [apply K1|]. eapply agree_weaken; [|exact A2]. intros a. exact (lock_not_state m1 l a P1). }
    intros s3 Q3 R3 T3 A3. destruct (same_globals_fields _ _ (proj1 Q3)) as (Et & _). change (tp s1) with (tp s) in Et.
    apply wp_set_running; [apply R3|]. destruct (ready_on_hart _ p s3 R3) as [R4 E4]. apply stops_first, HQ. split; [done|exact Et|exact E4| | |].
    + intros i Hi. unfold hart_at at 1, on_hart, put_hart. cbn [harts set_harts]. rewrite Et, lookup_insert_ne by done.
      apply (same_harts_fields _ _ i (proj2 Q3)).
    + change (mem (on_hart p s3)) with (mem s3). rewrite T3, <- T1. unfold table. rewrite map_map. apply map_ext_in. intros q Hq%list_elem_of_In. by apply V2.
    + change (mem (on_hart p s3)) with (mem s3). transitivity m1; [eapply agree_weaken; [|exact A1]; tauto|].
      transitivity m2; [eapply agree_weaken; [|exact A2]; tauto|]. eapply agree_weaken; [|exact A3]. tauto.
  - intros q Hq. assert (Hql : q ∈ l) by (apply elem_of_app; by left). destruct (proc_addr m1 _ q P1 Hql) as [Hqa _].
    rewrite (bind_ok _ _ false _ (set_mem m1 (pushed s1))); [done|]. unfold is_state.
    rewrite (bind_ok _ _ _ _ _ (rd_ok 4 (p_state q) _ ltac:(unfold p_state; lia))). unfold mret, M_ret. rewrite set_mem_mem.
    change (ld 4 m1 (p_state q)) with (v_state (view m1 q)). rewrite V by done. by rewrite (proj2 (Z.eqb_neq _ _) (Hnot q Hq)).
Qed.

(** ** The race *)

(** C38: [proc_sleep] releases the manager's lock before it has saved the
    process's context.  A process [p] that goes to sleep on hart [tp s] is, at
    that moment, still the hart's running process.  If another hart [h1] wakes
    the channel then, as the interrupt handlers do, and no process before [p]
    in the list is runnable, [h1]'s next round of the scheduler switches to
    [p], marked as running: [p] is the running process of two harts at once,
    on the same kernel stack, and the context it is resumed from is not the
    one it is about to save. *)
Theorem sleep_race p chan lk l1 l2 m s h1 x (r : stop) :
  let l := l1 ++ p :: l2 in
  ready l s -> running_proc (this_hart s) = p -> lock_apart lk l -> procs_ok m l -> lock_free m pm_lock -> lock_mine s m lk -> 0 <= chan < 2 ^ 64 ->
  0 <= h1 < MAX_CPU -> h1 <> tp s -> trap_pushoff_dep (hart_at s h1) = 0 -> 0 <= x < 2 ^ 64 ->
  (forall q, q ∈ l1 -> v_state (wake chan (view m q)) <> state_code PROC_RUNNABLE) ->
  (forall s', tp s' = h1 -> running_proc (hart_at s' (tp s)) = p -> running_proc (hart_at s' h1) = p ->
     v_state (view (mem s') p) = state_code PROC_RUNNING -> lock_free (mem s') pm_lock ->
     agree (fun a => in_range (p_context p) sizeof_context a) m (mem s') ->
     stops r (proc_switch (sym_harts + h1 * sizeof_hart + 16) (p_context p)) s') ->
  wp (sleep_enter p chan lk) (fun _ s1 => running_proc (this_hart s1) = p /\
    stops r (proc_wakeup chan;; scheduler_round (sym_harts + h1 * sizeof_hart)) (move_to h1 x s1)) (set_mem m (pushed s)).
Proof.
  intros l R Er Hlk P F M Hc Hh1 Hne Hd1 Hx Hfirst HQ. assert (Ht : 0 <= tp s < MAX_CPU) by apply R.
  assert (Hp : p ∈ l) by (apply elem_of_app; right; apply list_elem_of_here).
  apply (wp_sleep_enter p chan lk l); [done..|]. intros s1 [Q1 R1 F1 T1 A1]. rewrite (u64_small chan Hc) in T1.
  destruct (same_globals_fields _ _ (proj1 Q1)) as (Et1 & _).
  assert (U0 : u32 (tp s) = tp s) by (apply u32_small; unfold MAX_CPU in *; lia). assert (U1 : u32 h1 = h1) by (apply u32_small; unfold MAX_CPU in *; lia).
  assert (Hr0 : running_proc (hart_at s1 (tp s)) = p).
  { destruct (same_harts_fields _ _ (tp s) (proj2 Q1)) as (_ & -> & _). rewrite <- U0. exact Er. }
  split; [unfold this_hart; rewrite Et1, U0; exact Hr0|]. set (t0 := move_to h1 x s1).
  assert (Hd0 : trap_pushoff_dep (this_hart t0) = 0).
  { unfold this_hart. change (tp t0) with h1. rewrite U1. change (trap_pushoff_dep (hart_at s1 h1) = 0).
    destruct (same_harts_fields _ _ h1 (proj2 Q1)) as (-> & _). exact Hd1. }
  assert (R0 : ready l t0).
  { split; [|exact Hd0|apply R1|apply R1]. refine (conj Hh1 (conj Hx _)). rewrite Hd0. split; [lia|intros E; by destruct E]. }
  apply stops_bind. eapply wp_mono; [apply (wp_proc_wakeup chan l); [by apply (ready_ok l)|apply R0|apply R0]|].
  intros _ t1 (Q2 & F2 & P2 & T2 & A2). pose proof (ready_quiet l l t0 t1 R0 Q2 F2 P2) as R2.
  destruct (same_globals_fields _ _ (proj1 Q2)) as (Et2 & _). change (tp t0) with h1 in Et2. change (mem t0) with (mem s1) in T2, A2.
  assert (Em : sym_harts + h1 * sizeof_hart = my_hart t1) by (unfold my_hart; by rewrite Et2). rewrite Em.
  assert (V : forall q, q ∈ l -> view (mem t1) q = wake chan (at_addr (sleep_on chan) p (view m q))).
  { intros q Hq. rewrite T1 in T2. unfold table in T2. rewrite !map_map in T2. apply (proj1 map_ext_in_iff T2), list_elem_of_In, Hq. }
  assert (Hp1 : p ∉ l1) by (pose proof (pr_nodup _ _ P) as N; apply NoDup_app in N as (_ & N & _); intros H; apply (N p H); apply list_elem_of_here).
  apply (scheduler_round_stops r p l1 l2); [exact R2| | |].
  - rewrite V by done. unfold at_addr, wake. cbn [v_addr view]. rewrite Z.eqb_refl. cbn [sleep_on v_chan v_state]. by rewrite !Z.eqb_refl.
  - intros q Hq. rewrite V by (apply elem_of_app; by left). unfold at_addr. cbn [v_addr view].
    rewrite (proj2 (Z.eqb_neq q p)) by (intros ->; done). by apply Hfirst.
  - intros s' [K1 K2 K3 K4 K5 K6]. rewrite <- Em. apply HQ.
    + by rewrite K2.
    + rewrite K4 by (rewrite Et2, U1; congruence). destruct (same_harts_fields _ _ (tp s) (proj2 Q2)) as (_ & -> & _). exact Hr0.
    + rewrite <- K3. unfold this_hart. by rewrite K2, Et2, U1.
    + unfold table in K5. rewrite map_map in K5. rewrite (proj1 map_ext_in_iff K5 p) by (by apply list_elem_of_In).
      unfold at_addr. cbn [v_addr view]. by rewrite Z.eqb_refl.
    + apply K1.
    + assert (Hpc : forall a, in_range (p_context p) sizeof_context a -> in_range p sizeof_proc a /\ ~ in_range (p_state p) 4 a /\ ~ on_channel p a).
      { unfold on_channel, in_range, p_context, p_state, p_chan, sizeof_context, sizeof_proc. lia. }
      assert (Hst : forall a, in_range (p_context p) sizeof_context a -> ~ state_field l a /\ ~ in_range pm_lock sizeof_spinlock a).
      { intros a Ha. destruct (Hpc a Ha) as (B1 & B2 & B3). split; [|apply (lock_not_procs m l a P); right; by exists p].
        intros (q & Hq & Hs). destruct (Z.eq_dec q p) as [->|Hqp]; [done|]. pose proof (pr_apart _ _ P q p Hq Hp Hqp).
        unfold disjoint, in_range, p_state, sizeof_proc in *. lia. }
      transitivity (mem s1).
      { eapply agree_weaken; [|exact A1]. intros a Ha. destruct (Hpc a Ha) as (B1 & B2 & B3). destruct (Hst a Ha) as [B4 B5].
        split_and!; [done| |done|done]. intros Hl. apply (proj1 (proj2 Hlk a Hl)). right. by exists p. }
      transitivity (mem t1); [eapply agree_weaken; [|exact A2]|eapply agree_weaken; [|exact K6]]; exact Hst.
Qed.
End race.

(** ** The first process waits for the serial port, the port interrupts another hart *)

#[local] Existing Instance sample_layout.
#[local] Existing Instance no_drivers.
#[local] Instance switched : Switch := fun _ _ => panic "switched".

Definition port_lock : Z := VA_KERNEL_BEGIN + 0x80038020.
Definition port_chan : Z := VA_KERNEL_BEGIN + 0x80038250.
Definition port_locked : memory := lock_mem (mem sample_procs) port_lock (my_hart sample_procs).

Lemma sample_procs_ready : ready [proc_1; proc_2] sample_procs.
Proof.
  split.
  - exact sample_procs_hart.
  - vm_compute. reflexivity.
  - vm_compute. reflexivity.
  - exact sample_procs_ok.
Qed.

Lemma port_lock_ok : lock_apart port_lock [proc_1; proc_2].
Proof.
  split; [vm_compute; congruence|]. unfold in_procs, in_range, port_lock, pm_proc_list, pm_lock, sizeof_proc, sizeof_spinlock.
  change sym_proc_manager with 0xFFFFFFFF80604000. unfold VA_KERNEL_BEGIN. intros a Ha. split; [|lia].
  intros [Hr|(q & Hq & Hr)]; [lia|]. apply elem_of_cons in Hq as [->|Hq]; [|apply list_elem_of_singleton in Hq as ->];
    unfold proc_1, proc_2, VA_KERNEL_BEGIN in Hr; lia.
Qed.

Lemma sleep_race_witness :
  wp (sleep_enter proc_1 port_chan port_lock) (fun _ s1 => running_proc (this_hart s1) = proc_1 /\
    stops (Panics "switched") (proc_wakeup port_chan;; scheduler_round (sym_harts + 1 * sizeof_hart)) (move_to 1 SSTATUS_SIE s1))
    (set_mem port_locked (pushed sample_procs)).
Proof.
  apply (sleep_race proc_1 port_chan port_lock [] [proc_2] port_locked sample_procs 1 SSTATUS_SIE (Panics "switched")).
  - exact sample_procs_ready.
  - vm_compute. reflexivity.
  - exact port_lock_ok.
  - apply (procs_frame (mem sample_procs)); [exact sample_procs_ok|]. eapply agree_weaken; [|apply lock_mem_agree].
    intros a Ha Hl. exact (proj1 (proj2 port_lock_ok a Hl) Ha).
  - vm_compute. reflexivity.
  - split; vm_compute; reflexivity.
  - unfold port_chan, VA_KERNEL_BEGIN. lia.
  - unfold MAX_CPU. lia.
  - vm_compute. congruence.
  - vm_compute. reflexivity.
  - unfold SSTATUS_SIE. lia.
  - intros q Hq. by apply elem_of_nil in Hq.
  - intros s' _ _ _ _ _ _. reflexivity.
Defined.
