(* ===== verification/TrapProofs.v ===== *)
(** * A trap from a user program

    [trapped] is the situation of a hart that has come from a user program:
    its process is on the list, and the trap frame is apart from
    the process table.  The lemmas say which steps keep it; [ends_utrap_ecall]
    follows [utrap_handler] through a system call, whatever the handler is, to
    the point where it is decided whether the process goes on;
    [wp_utrap_return] is the way back to the program and
    [exit_if_killed_stops] the end of a process that was killed. *)

From S2P Require Import Prelude Memory Machine Lists Strings Hal Lock DeviceIo Console Buddy Object Kmem Csr Sbi Vmem Proc Trap ProcProofs ProcHold ProcExit.

Section trap.
Context {L : KernelLayout} {C : Code} {W : Switch} {F : Firmware}.

Record trapped (p f : Z) (l : list Z) (s : kst) : Prop := {
  tr_hart : hart_can 2 s;
  tr_dep : trap_pushoff_dep (this_hart s) = 0;
  tr_run : running_proc (this_hart s) = p;
  tr_free : lock_free (mem s) pm_lock;
  tr_procs : procs_ok (mem s) l;
  tr_in : p ∈ l;
  tr_frame : ld64 (mem s) (p_trapframe p) = f;
  tr_addr : VA_KERNEL_BEGIN <= f /\ f + sizeof_trapframe <= VA_KERNEL_BEGIN + 2 ^ 37;
  tr_apart q : q ∈ l -> disjoint f sizeof_trapframe q sizeof_proc;
}.

(** Everything of the machine but memory, the accesses to device registers,
    [sstatus] and the registers [stvec] and [sepc] is as it was; of the hart
    records, only the saved interrupt state of harts outside critical sections
    may differ. *)
Definition machine_kept (s s' : kst) : Prop :=
  quiet_io (set_sstatus 0 (set_csr ∅ s)) (set_sstatus 0 (set_csr ∅ s')) /\
  forall n, n <> 0x105 -> n <> 0x141 -> csr_get n s' = csr_get n s.

#[export] Instance machine_kept_refl : Reflexive machine_kept.
Proof. intros s. by split. Qed.
#[export] Instance machine_kept_trans : Transitive machine_kept.
Proof. intros s1 s2 s3 [Q1 C1] [Q2 C2]. split; [by etrans|]. intros n H1 H2. by rewrite C2, C1. Qed.

Lemma kept_io s s' : quiet_io s s' -> machine_kept s s'.
Proof.
  intros [G H]. assert (E : csr s' = csr s) by (destruct (same_globals_fields _ _ G) as (_ & _ & _ & _ & _ & _ & Ec & _); exact Ec).
  split; [|intros n _ _; unfold csr_get; by rewrite E]. split; [|exact H].
  unfold same_globals in *. destruct s, s'. cbn in *. injection G. intros. by subst.
Qed.
Lemma kept_tp s s' : machine_kept s s' -> tp s' = tp s.
Proof. intros [[G _] _]. exact (proj1 (same_globals_fields _ _ G)). Qed.
Lemma kept_quiet s s' : quiet s s' -> machine_kept s s'.
Proof. intros H. by apply kept_io, quiet_quiet_io. Qed.
Lemma kept_mem m s : machine_kept s (set_mem m s).
Proof. apply kept_quiet, quiet_set_mem. Qed.
Lemma kept_sstatus x s : machine_kept s (set_sstatus x s).
Proof. by split. Qed.
Lemma kept_csr n v s : n = 0x105 \/ n = 0x141 -> machine_kept s (set_csr (<[n := v]> (csr s)) s).
Proof. intros Hn. split; [done|]. intros k H1 H2. rewrite csr_get_set. rewrite (proj2 (Z.eqb_neq _ _)); [done|]. destruct Hn; congruence. Qed.

(** Where the stubs are mapped in every address space. *)
Definition user_vector : Z := kimage "KERNEL_USER_HANDLER_VA" -l kimage "KERNEL_USER_HANDLER_PA_BEGIN" +l VA_USER_USER_HANDLER_BEGIN.
Definition user_return : Z := kimage "KERNEL_USER_RETURN_VA" -l kimage "KERNEL_USER_HANDLER_PA_BEGIN" +l VA_USER_USER_HANDLER_BEGIN.
Definition user_satp (m : memory) (p : Z) : Z := SATP VMEM_MODE (PMA_VA2PA (ld64 m (p_pgtbl p))).

(** The state [s'] in which the kernel jumps to the return stub, [s] that in
    which it decided to: the program continues at [pc], traps go to the
    user vector, returning from the trap drops to user mode with interrupts
    on, and the frame holds what the next trap needs. *)
Record back_to_user (f pc : Z) (s s' : kst) : Prop := {
  bu_sepc : csr_get 0x141 s' = pc;
  bu_stvec : csr_get 0x105 s' = user_vector;
  bu_sstatus : sstatus s' = ((sstatus s &l not64 SSTATUS_SIE) &l not64 SSTATUS_SPP) |l SSTATUS_SPIE;
  bu_satp : ld64 (mem s') f = csr_get 0x180 s;
  bu_handler : ld64 (mem s') (f + 16) = u64 (sym_fn "utrap_handler");
  bu_hartid : ld64 (mem s') (f + 32) = u64 (tp s);
  bu_mmio : mmio s' = mmio s;
  bu_kept : machine_kept s s';
  bu_mem : agree (fun a => ~ in_range f 8 a /\ ~ in_range (f + 16) 8 a /\ ~ in_range (f + 32) 8 a) (mem s) (mem s');
}.

Section one.
Context (p f : Z) (l : list Z).

Definition in_frame (a : Z) : Prop := in_range f sizeof_trapframe a.

Lemma trapped_hart s : trapped p f l s -> hart_ok s.
Proof. intros H. exact (hart_can_weaken 2 1 s (tr_hart _ _ _ _ H) ltac:(lia)). Qed.

Lemma frame_not_lock s a : trapped p f l s -> in_frame a -> ~ in_range pm_lock sizeof_spinlock a.
Proof.
  intros H Ha Hl. pose proof (tr_addr _ _ _ _ H). pose proof manager_addr. unfold in_frame, in_range, pm_lock, sizeof_trapframe, sizeof_spinlock, VA_KERNEL_BEGIN, VA_KERNEL_IMG_BEGIN in *. lia.
Qed.

Lemma frame_not_procs s a : trapped p f l s -> in_frame a -> ~ in_procs l a.
Proof.
  intros H Ha [Hm|(q & Hq & Hr)].
  - pose proof (tr_addr _ _ _ _ H). pose proof manager_addr. unfold in_frame, in_range, pm_proc_list, sizeof_trapframe, sizeof_proc, VA_KERNEL_BEGIN, VA_KERNEL_IMG_BEGIN in *. lia.
  - pose proof (tr_apart _ _ _ _ H q Hq). unfold in_frame, in_range, disjoint in *. lia.
Qed.

(** Steps that change no process field but state and mark, and leave the
    hart where it was. *)
Lemma trapped_step s s' : trapped p f l s -> hart_can 2 s' -> trap_pushoff_dep (this_hart s') = 0 -> running_proc (this_hart s') = p ->
  lock_free (mem s') pm_lock -> procs_ok (mem s') l -> ld64 (mem s') (p_trapframe p) = f -> trapped p f l s'.
Proof. intros H. intros. split; try done; apply H. Qed.

Lemma trapped_quiet s s' : trapped p f l s -> quiet s s' -> lock_free (mem s') pm_lock -> procs_ok (mem s') l ->
  agree (fun a => ~ sched_field l a /\ ~ in_range pm_lock sizeof_spinlock a) (mem s) (mem s') -> trapped p f l s'.
Proof.
  intros H Hq Hf Hp Ha. destruct Hq as [G Hh] eqn:E. clear E. destruct (same_globals_fields _ _ G) as (Et & _).
  destruct (same_harts_fields _ _ (u32 (tp s)) Hh) as (Ed & Er & _).
  assert (Eh : this_hart s' = hart_at s' (u32 (tp s))) by (unfold this_hart; by rewrite Et).
  apply (trapped_step s); try done; rewrite ?Eh.
  - exact (quiet_can 2 s s' Hq (tr_hart _ _ _ _ H)).
  - rewrite Ed. apply H.
  - rewrite Er. apply H.
  - rewrite <- (tr_frame _ _ _ _ H). apply ld_agree. eapply agree_weaken; [|exact Ha]. intros a Hr. split.
    + intros (q & Hq' & Hs). unfold p_trapframe, p_state, in_range in *. destruct (Z.eq_dec q p) as [->|Hne]; [simpl in *; lia|].
      pose proof (pr_apart _ _ (tr_procs _ _ _ _ H) q p Hq' (tr_in _ _ _ _ H) Hne). unfold disjoint, sizeof_proc in *. simpl in *. lia.
    + apply (lock_not_procs (mem s) l); [apply H|]. right. exists p. split; [apply H|]. unfold p_trapframe, in_range, sizeof_proc in *. simpl in *. lia.
Qed.

Lemma trapped_csr c s : trapped p f l s -> trapped p f l (set_csr c s).
Proof. by intros []; split. Qed.

Lemma trapped_sstatus x s : trapped p f l s -> 0 <= x < 2 ^ 64 -> trapped p f l (set_sstatus x s).
Proof.
  intros H Hx. apply (trapped_step s); try apply H. destruct (tr_hart _ _ _ _ H) as (H1 & _ & H3 & _). refine (conj H1 (conj Hx (conj H3 _))).
  intros Hd. destruct Hd. exact (tr_dep _ _ _ _ H).
Qed.

(** Writing into the trap frame. *)
Lemma trapped_mem m s : trapped p f l s -> agree (fun a => ~ in_frame a) (mem s) m -> trapped p f l (set_mem m s) /\ table m l = table (mem s) l.
Proof.
  intros H Ha. destruct (procs_frame (mem s) m l (tr_procs _ _ _ _ H)) as [P' T'].
  { eapply agree_weaken; [|exact Ha]. intros a Hp Hf. by apply (frame_not_procs s a H). }
  split; [|done]. apply (trapped_step s); try done; try apply H.
  - unfold lock_free. rewrite <- (tr_free _ _ _ _ H). apply ld_agree. eapply agree_weaken; [|exact Ha]. intros a Hr Hf.
    apply (frame_not_lock s a H Hf). unfold in_range, sizeof_spinlock in *. simpl in *. lia.
  - rewrite <- (tr_frame _ _ _ _ H). apply ld_agree. eapply agree_weaken; [|exact Ha]. intros a Hr Hf. apply (frame_not_procs s a H Hf).
    right. exists p. split; [apply H|]. unfold p_trapframe, in_range, sizeof_proc in *. simpl in *. lia.
Qed.

(** ** Pieces of the handlers *)

Lemma wp_get_running (Q : Z -> kst -> Prop) s : trapped p f l s -> Q p s -> wp get_running Q s.
Proof.
  intros H HQ. unfold get_running. wp_step. apply wp_current_hart; [apply (tr_hart _ _ _ _ H)|]. wp_steps. by rewrite (tr_run _ _ _ _ H).
Qed.

Lemma frame_field_addr s off : trapped p f l s -> 0 <= off -> PAGE_SIZE <= f + off.
Proof. intros H Ho. pose proof (tr_addr _ _ _ _ H). unfold VA_KERNEL_BEGIN, PAGE_SIZE in *. lia. Qed.

Lemma proc_field_addr s off : trapped p f l s -> 0 <= off -> PAGE_SIZE <= p + off.
Proof. intros H Ho. destruct (proc_addr _ _ p (tr_procs _ _ _ _ H) (tr_in _ _ _ _ H)). lia. Qed.

Lemma wp_rd_frame (Q : Z -> kst -> Prop) s : trapped p f l s -> Q f s -> wp (rd 8 (p_trapframe p)) Q s.
Proof.
  intros H HQ. apply wp_rd; [apply (proc_field_addr s 88 H); lia|]. by rewrite (tr_frame _ _ _ _ H).
Qed.

(** Writing a field of the frame. *)
Lemma wp_wr_frame off v (Q : unit -> kst -> Prop) s : trapped p f l s -> 0 <= off -> off + 8 <= sizeof_trapframe ->
  (let m' := st64 (mem s) (f + off) v in trapped p f l (set_mem m' s) -> table m' l = table (mem s) l -> Q tt (set_mem m' s)) ->
  wp (wr 8 (f + off) v) Q s.
Proof.
  intros H Ho Hs HQ. apply wp_wr; [by apply (frame_field_addr s)|].
  destruct (trapped_mem (st64 (mem s) (f + off) v) s H) as [H' T']; [|by apply HQ].
  apply agree_st. intros b Hb Hn. apply Hn. unfold in_frame, in_range in *. simpl in Hb. lia.
Qed.

Lemma trapped_ready s : trapped p f l s -> ready l s.
Proof. intros H. split; apply H. Qed.

Lemma wp_is_killed (Q : Z -> kst -> Prop) s : trapped p f l s ->
  (forall s', quiet s s' -> trapped p f l s' -> table (mem s') l = table (mem s) l ->
     agree (fun a => ~ in_range pm_lock sizeof_spinlock a) (mem s) (mem s') -> Q (v_killed (view (mem s) p)) s') ->
  wp (proc_is_killed p) Q s.
Proof.
  intros H HQ. pose proof (trapped_ready s H) as R. unfold proc_is_killed.
  wp_step. apply (wp_take l); [done|]. intros m0 K0 T0 A0. wp_step. wp_step; [apply (proc_field_addr s 8 H); lia|].
  wp_step. apply (wp_give l s m0); [done|]. intros s' Q' R' T' A'. wp_step.
  assert (E : v_killed (view (mem s) p) = ld32 m0 (p_killed p)).
  { change (ld32 m0 (p_killed p)) with (v_killed (view m0 p)). f_equal. symmetry. apply (proj1 map_ext_in_iff T0), list_elem_of_In, H. }
  change (mem (set_mem m0 (pushed s))) with m0. rewrite <- E.
  assert (Hag : agree (fun a => ~ in_range pm_lock sizeof_spinlock a) (mem s) (mem s')) by (transitivity m0; [exact A0|exact A']).
  apply HQ; [done| |by rewrite T', T0|done]. apply (trapped_quiet s); [done|done|apply R'|apply R'|]. eapply agree_weaken; [|exact Hag]. tauto.
Qed.

(** The check for a pending kill does nothing to a process that is alive. *)
Lemma wp_exit_if_killed (Q : unit -> kst -> Prop) s : trapped p f l s -> killed_in (table (mem s) l) p = false ->
  (forall s', quiet s s' -> trapped p f l s' -> table (mem s') l = table (mem s) l ->
     agree (fun a => ~ in_range pm_lock sizeof_spinlock a) (mem s) (mem s') -> Q tt s') ->
  wp (exit_if_killed p) Q s.
Proof.
  intros H Hk HQ. unfold exit_if_killed. wp_step. apply wp_is_killed; [done|]. intros s' Q' H' T' A'.
  rewrite <- (killed_in_table _ l) by apply H. rewrite Hk. wp_step. by apply HQ.
Qed.

(** Of one that was killed nothing more is heard: the kernel stops if it has a
    child, and otherwise the hart switches away from it. *)
Definition death (t : list pview) (r : stop) : stop := if has_child t p then Panics "spinlock_acquire - spinlock held;" else r.

Lemma exit_if_killed_stops r s : trapped p f l s -> killed_in (table (mem s) l) p = true ->
  (has_child (table (mem s) l) p = false -> forall s1, exiting (-1) p l s s1 -> stops r (proc_switch (p_context p) (my_hart s + 16)) s1) ->
  stops (death (table (mem s) l) r) (exit_if_killed p) s.
Proof.
  intros H Hk HQ. unfold exit_if_killed. apply stops_bind, wp_is_killed; [done|]. intros s' Q' H' T' A'.
  rewrite <- (killed_in_table _ l) by apply H. rewrite Hk. unfold death. destruct (has_child _ p) eqn:Ec.
  - rewrite <- T' in Ec. apply has_child_in in Ec as (e & He & Ee). apply (proc_exit_child _ l e); [apply H'..|done|]. by rewrite Ee, (tr_run _ _ _ _ H').
  - assert (Eh : my_hart s = my_hart s') by (unfold my_hart; by destruct (same_globals_fields _ _ (proj1 Q')) as (-> & _)).
    apply (proc_exit_stops _ p l); [by apply trapped_ready|apply H'|apply H|by rewrite T'|]. intros s1 [X1 X2 X3 X4 X5].
    rewrite <- Eh. apply HQ; [done|]. split; [by etrans|done|by rewrite X3, T'|done|].
    transitivity (mem s'); [eapply agree_weaken; [|exact A']; tauto|done].
Qed.

Lemma frame_writes m a b c : let m' := st64 (st64 (st64 m (f + 0) a) (f + 16) b) (f + 32) c in
  ld64 m' f = u64 a /\ ld64 m' (f + 16) = u64 b /\ ld64 m' (f + 32) = u64 c /\
  agree (fun x => ~ in_range f 8 x /\ ~ in_range (f + 16) 8 x /\ ~ in_range (f + 32) 8 x) m m'.
Proof.
  cbv zeta. rewrite Z.add_0_r. split_and!.
  - rewrite !ld_st_other by (unfold disjoint; simpl; lia). by rewrite ld_st_same.
  - rewrite ld_st_other by (unfold disjoint; simpl; lia). by rewrite ld_st_same.
  - by rewrite ld_st_same.
  - intros x (H1 & H2 & H3). by rewrite !ldb_st_out.
Qed.

Lemma wp_utrap_return (Q : unit -> kst -> Prop) s : trapped p f l s ->
  (forall s', trapped p f l s' -> back_to_user f (ld64 (mem s) (f + 24)) s s' -> table (mem s') l = table (mem s) l ->
     wp (call user_return [user_satp (mem s') p]) (fun _ s'' => Q tt s'') s') ->
  wp utrap_return Q s.
Proof.
  intros H HQ. unfold utrap_return, disable_interrupt, r_sstatus, w_sstatus, r_tp. wp_step. apply wp_get_running; [done|]. wp_steps.
  destruct (tr_hart _ _ _ _ H) as (_ & Hs & _).
  assert (H1 : trapped p f l (set_sstatus (sstatus s &l not64 SSTATUS_SIE) s)) by (apply trapped_sstatus; [done|by apply land64_bound]).
  set (s1 := set_sstatus _ s) in *. apply wp_csrw. wp_step. pose proof (trapped_csr (<[0x105:=user_vector]> (csr s1)) s1 H1) as H2. fold user_vector. set (s2 := set_csr _ s1) in *.
  apply wp_rd_frame; [done|]. wp_step. apply wp_csrr. wp_step.
  rewrite <- (Z.add_0_r f) at 1. apply wp_wr_frame; [done|lia|unfold sizeof_trapframe; lia|]. cbv zeta. set (m3 := st64 _ _ _). intros H3 T3. wp_step.
  apply wp_wr_frame; [done|lia|unfold sizeof_trapframe; lia|]. cbv zeta. rewrite set_mem_twice, set_mem_mem. set (m4 := st64 _ _ _). intros H4 T4. do 3 wp_step.
  apply wp_wr_frame; [done|lia|unfold sizeof_trapframe; lia|]. cbv zeta. rewrite set_mem_twice, set_mem_mem. set (m5 := st64 _ _ _). intros H5 T5. do 5 wp_step.
  set (x := _ |l SSTATUS_SPIE). assert (Hx : 0 <= x < 2 ^ 64) by (apply lor_64_bound; [by apply land64_bound, land64_bound|done]).
  pose proof (trapped_sstatus x _ H5 Hx) as H6. apply wp_rd_frame; [done|]. wp_step. wp_step; [apply (frame_field_addr _ 24 H6); lia|]. wp_step. apply wp_csrw. wp_step.
  set (s7 := set_csr _ _). pose proof (trapped_csr (<[0x141 := ld64 m5 (f + 24)]> (csr (set_sstatus x (set_mem m5 s2)))) _ H6 : trapped p f l s7) as H7.
  wp_step; [apply (proc_field_addr s7 80 H7); lia|]. wp_step. fold user_return. change (SATP VMEM_MODE _) with (user_satp (mem s7) p).
  destruct (frame_writes (mem s2) (csr_get 384 s2) (sym_fn "utrap_handler") (tp s)) as (E1 & E2 & E3 & A5).
  change (tp (set_mem m4 s2)) with (tp s) in *. fold m3 m4 m5 in E1, E2, E3, A5.
  assert (E24 : ld64 m5 (f + 24) = ld64 (mem s) (f + 24)).
  { apply ld_agree. eapply agree_weaken; [|exact A5]. unfold in_range. simpl. intros a Ha. lia. }
  eapply wp_mono; [apply HQ; [done| |]|]; cbn [mem set_csr set_sstatus set_mem] in *.
  - assert (Kp : machine_kept s s7).
    { transitivity s1; [apply kept_sstatus|]. transitivity s2; [by apply kept_csr; left|]. transitivity (set_mem m5 s2); [apply kept_mem|].
      transitivity (set_sstatus x (set_mem m5 s2)); [apply kept_sstatus|]. by apply kept_csr; right. }
    split; try done.
    + unfold s7. rewrite csr_get_set, Z.eqb_refl, u64_small by apply ld64_bound. exact E24.
    + unfold s7. rewrite csr_get_set. change (0x105 =? 0x141) with false. unfold s2. change (csr_get 0x105 _) with (csr_get 0x105 (set_csr (<[261:=user_vector]> (csr s1)) s1)).
      rewrite csr_get_set, Z.eqb_refl. apply u64_small, u64_bound.
    + change (mem s7) with m5. rewrite E1. unfold s2. rewrite csr_get_set. change (0x180 =? 0x105) with false. apply u64_small, u64_bound.
  - change (mem s7) with m5. by rewrite T5, T4, T3.
  - intros a s' Ha. by wp_step.
Qed.

(** The memory a trap handler writes on its own account: the frame's program
    counter and result, and the manager's lock. *)
Definition trap_cells (a : Z) : Prop := in_range pm_lock sizeof_spinlock a \/ in_range (f + 24) 8 a \/ in_range (f + 112) 8 a.

(** The frame of a process that exits. *)
Lemma exiting_frame code s s1 off : trapped p f l s -> exiting code p l s s1 -> 0 <= off -> off + 8 <= sizeof_trapframe ->
  ld64 (mem s1) (f + off) = ld64 (mem s) (f + off).
Proof.
  intros H X Ho Hs. apply ld_agree. eapply agree_weaken; [|apply (ex_mem _ _ _ _ _ X)]. intros a Hr.
  assert (Hf : in_frame a) by (unfold in_frame, in_range in *; simpl in Hr; lia).
  assert (Hp : forall q, q ∈ l -> in_range q sizeof_proc a -> False) by (intros q Hq Hqa; apply (frame_not_procs s a H Hf); right; by exists q).
  split; [|split; [by apply (frame_not_lock s a H)|]].
  - intros (q & Hq & Hqa). apply (Hp q Hq). unfold in_range, p_state, sizeof_proc in *. lia.
  - intros Hqa. apply (Hp p (tr_in _ _ _ _ H)). unfold in_range, p_exit_state, sizeof_proc in *. lia.
Qed.

(** The jump to a system call's handler. *)
Lemma wp_syscall_handler k handler (Q : unit -> kst -> Prop) s :
  trapped p f l s -> ld64 (mem s) (f + 168) = Z.of_nat k -> (k < 9)%nat -> syscall_handlers !! k = Some handler ->
  wp handler (fun r s' => wp (wr 8 (f + 112) r) Q s') s -> wp syscall_handler Q s.
Proof.
  intros H H7 Hk Hh HQ. unfold syscall_handler, running_frame. wp_step. wp_step. apply wp_get_running; [done|]. apply wp_rd_frame; [done|].
  wp_step. wp_step; [apply (frame_field_addr s 168 H); lia|]. rewrite H7. assert (Ek : s32 (Z.of_nat k) = Z.of_nat k) by (apply s32_small; lia).
  rewrite Ek, (proj2 (Z.ltb_ge _ _)), Nat2Z.id, Hh by lia. wp_step. exact HQ.
Qed.

(** A word of the frame that is not where [P] is. *)
Lemma frame_word s m m' off (P : Z -> Prop) : trapped p f l s -> agree (fun a => ~ in_range pm_lock sizeof_spinlock a /\ ~ P a) m m' ->
  0 <= off -> off + 8 <= sizeof_trapframe -> (forall a, in_range (f + off) 8 a -> ~ P a) -> ld64 m' (f + off) = ld64 m (f + off).
Proof.
  intros H Ha Ho Hs HP. apply ld_agree. eapply agree_weaken; [|exact Ha]. intros a Hr. split; [|by apply HP].
  apply (frame_not_lock s a H). unfold in_frame, in_range in *. simpl in Hr. lia.
Qed.

(** Entering the kernel: traps go to the kernel's handler, the program
    counter is saved. *)
Record entered (s s' : kst) : Prop := {
  en_trapped : trapped p f l s';
  en_table : table (mem s') l = table (mem s) l;
  en_pc : ld64 (mem s') (f + 24) = csr_get 0x141 s;
  en_mem : agree (fun a => ~ in_range (f + 24) 8 a) (mem s) (mem s');
  en_regs : tp s' = tp s /\ sstatus s' = sstatus s /\ mmio s' = mmio s;
  en_kept : machine_kept s s';
}.

Lemma ends_utrap_entry (K : res unit -> Prop) (body : Z -> Z -> Z -> M unit) s : trapped p f l s ->
  (forall s1, entered s s1 -> ends K (body p (csr_get 0x142 s) (csr_get 0x143 s)) s1) ->
  ends K (ktrap_install_handler;; p ← get_running; f ← rd 8 (p_trapframe p); sepc ← r_sepc; wr 8 (tf_user_pc f) sepc;;
      cause ← r_scause; tval ← r_stval; body p cause tval) s.
Proof.
  intros H HQ. unfold ktrap_install_handler, r_sepc, r_scause, r_stval. apply ends_bind, wp_csrw.
  set (s1 := set_csr _ s). pose proof (trapped_csr (<[0x105:=sym_fn "kernel_handler"]> (csr s)) s H : trapped p f l s1) as H1.
  assert (C1 : forall n, n <> 0x105 -> csr_get n s1 = csr_get n s) by (intros n Hn; unfold s1; rewrite csr_get_set; by rewrite (proj2 (Z.eqb_neq _ _) Hn)).
  apply ends_bind, wp_get_running; [done|]. apply ends_bind, wp_rd_frame; [done|]. apply ends_bind, wp_csrr. rewrite C1 by done. apply ends_bind.
  apply wp_wr_frame; [done|lia|unfold sizeof_trapframe; lia|]. cbv zeta. set (m2 := st64 _ _ _). intros H2 T2. apply ends_bind, wp_csrr. apply ends_bind, wp_csrr.
  change (csr_get 0x142 (set_mem m2 s1)) with (csr_get 0x142 s1). change (csr_get 0x143 (set_mem m2 s1)) with (csr_get 0x143 s1).
  rewrite (C1 0x142), (C1 0x143) by done. apply HQ. split; [done|done| |apply agree_st; intros a Ha Hn; by apply Hn|done|].
  - cbn [mem set_mem]. unfold m2. rewrite ld_st_same. apply Z.mod_small, u64_bound.
  - transitivity s1; [by apply kept_csr; left|apply kept_mem].
Qed.

(** A system call up to its end: the handler of the number in a7 has run on
    the saved arguments, with interrupts on, its result is in a0, and the
    saved program counter is behind the instruction. *)
Record called (P : Z -> Prop) (r : Z) (s s' : kst) : Prop := {
  ca_trapped : trapped p f l s';
  ca_result : ld64 (mem s') (f + 112) = u64 r;
  ca_pc : ld64 (mem s') (f + 24) = csr_get 0x141 s +l 4;
  ca_sstatus : sstatus s' = sstatus s |l SSTATUS_SIE;
  ca_mem : agree (fun a => ~ P a /\ ~ trap_cells a) (mem s) (mem s');
  ca_kept : machine_kept s s';
  ca_mmio : mmio s' = mmio s;
}.

Lemma ends_utrap_ecall (K : res unit -> Prop) k handler (R : Z -> list pview -> Prop) (P : Z -> Prop) s :
  trapped p f l s -> killed_in (table (mem s) l) p = false -> csr_get 0x142 s = SCAUSE_USER_ECALL ->
  ld64 (mem s) (f + 168) = Z.of_nat k -> (k < 9)%nat -> syscall_handlers !! k = Some handler -> (forall a, P a -> ~ in_frame a) ->
  (forall s1, trapped p f l s1 -> table (mem s1) l = table (mem s) l -> ld64 (mem s1) (f + 112) = ld64 (mem s) (f + 112) ->
     wp handler (fun r s2 => quiet s1 s2 /\ trapped p f l s2 /\ R r (table (mem s2) l) /\ agree (fun a => ~ P a) (mem s1) (mem s2)) s1) ->
  (forall r s', R r (table (mem s') l) -> called P r s s' -> ends K (exit_if_killed p;; utrap_return) s') ->
  ends K utrap_handler s.
Proof.
  intros H Hk Hc H7 Hk2 Hh HP Hhandler HQ. unfold utrap_handler. apply ends_utrap_entry; [done|]. rewrite Hc.
  intros s2 [H2 T2 E2 A2 (_ & Es2 & I2) K2].
  change (SCAUSE_USER_ECALL =? SCAUSE_STI) with false. change (SCAUSE_USER_ECALL =? SCAUSE_SEI) with false. cbv iota.
  change (SCAUSE_USER_ECALL =? SCAUSE_USER_ECALL) with true. cbv iota. apply ends_bind. wp_step.
  apply wp_exit_if_killed; [done|by rewrite T2|]. intros s3 Q3 H3 T3 A3.
  assert (E24 : ld64 (mem s3) (f + 24) = csr_get 0x141 s).
  { rewrite <- E2. apply ld_agree. eapply agree_weaken; [|exact A3]. intros a Ha. apply (frame_not_lock s a H).
    unfold in_frame, in_range, sizeof_trapframe in *. simpl in Ha. lia. }
  wp_step. apply wp_rd_frame; [done|]. wp_step. wp_step; [apply (frame_field_addr s3 24 H3); lia|]. unfold tf_user_pc. rewrite E24. wp_step.
  apply wp_wr_frame; [done|lia|unfold sizeof_trapframe; lia|]. cbv zeta. set (m4 := st64 _ _ _). intros H4 T4. unfold enable_interrupt. wp_steps.
  change (sstatus (set_mem m4 s3)) with (sstatus s3).
  assert (Es3 : sstatus s3 = sstatus s) by (destruct (same_globals_fields _ _ (proj1 Q3)) as (_ & -> & _); exact Es2).
  set (s5 := set_sstatus _ _).
  assert (H5 : trapped p f l s5).
  { apply trapped_sstatus; [done|]. rewrite Es3. apply lor_64_bound; [apply (tr_hart _ _ _ _ H)|done]. }
  assert (A5 : agree (fun a => ~ in_range pm_lock sizeof_spinlock a /\ ~ in_range (f + 24) 8 a) (mem s) (mem s5)).
  { transitivity (mem s2); [eapply agree_weaken; [|exact A2]; tauto|]. transitivity (mem s3); [eapply agree_weaken; [|exact A3]; tauto|]. apply agree_st. intros a Ha [_ Hn]. by apply Hn. }
  assert (F5 : forall off, 32 <= off -> off + 8 <= sizeof_trapframe -> ld64 (mem s5) (f + off) = ld64 (mem s) (f + off)).
  { intros off Ho Hs. apply (frame_word s _ _ _ _ H A5); [lia|done|]. unfold in_range. lia. }
  apply (wp_syscall_handler k handler); [done| |done|done|]. { rewrite F5, H7; [done|lia|unfold sizeof_trapframe; lia]. }
  eapply wp_mono; [apply Hhandler; [done| |]|]. { change (mem s5) with m4. by rewrite T4, T3, T2. } { apply F5; [lia|unfold sizeof_trapframe; lia]. }
  intros r s6 (Q6 & H6 & R6 & A6). apply wp_wr_frame; [done|lia|unfold sizeof_trapframe; lia|]. cbv zeta. set (m7 := st64 _ _ _). intros H7' T7.
  assert (Q : quiet s5 (set_mem m7 s6)) by (etrans; [exact Q6|apply quiet_set_mem]).
  apply (HQ r); [cbn [mem set_mem]; by rewrite T7|]. split; [done|unfold m7; cbn [mem set_mem]; by rewrite ld_st_same| | | | |].
  - transitivity (ld64 (mem s5) (f + 24)); [|unfold s5, m4; cbn [mem set_sstatus set_mem]; rewrite ld_st_same; apply Z.mod_small, u64_bound].
    transitivity (ld64 (mem s6) (f + 24)); [unfold m7; cbn [mem set_mem]; apply ld_st_other; unfold disjoint; simpl; lia|].
    apply (frame_word s (mem s5) (mem s6) 24 P H); [eapply agree_weaken; [|exact A6]; tauto|lia|unfold sizeof_trapframe; lia|].
    intros a Ha Hk'. apply (HP a Hk'). unfold in_frame, in_range, sizeof_trapframe in *. lia.
  - destruct (same_globals_fields _ _ (proj1 Q)) as (_ & -> & _). unfold s5. cbn [sstatus set_sstatus]. by rewrite Es3.
  - transitivity (mem s5); [eapply agree_weaken; [|exact A5]; unfold trap_cells; tauto|]. transitivity (mem s6); [eapply agree_weaken; [|exact A6]; tauto|].
    apply agree_st. intros a Ha [_ Hn]. apply Hn. unfold trap_cells. tauto.
  - transitivity s2; [done|]. transitivity s3; [by apply kept_quiet|]. transitivity (set_mem m4 s3); [apply kept_mem|].
    transitivity s5; [apply kept_sstatus|by apply kept_quiet].
  - rewrite (quiet_mmio _ _ Q). change (mmio s5) with (mmio s3). by rewrite (quiet_mmio _ _ Q3).
Qed.
End one.
End trap.
