(* ===== verification/TrapSpec.v ===== *)
(** * Properties of system calls

    A system call from the trap to the return to the program, and what a call
    number outside the table does. *)

From S2P Require Import Prelude Memory Machine Lists Strings Hal Lock DeviceIo Console Buddy Object Kmem Csr Sbi Vmem Proc Trap ProcProofs ProcHold ProcExit ProcSpec TrapProofs.

Section spec.
Context {L : KernelLayout} {C : Code} {W : Switch} {F : Firmware}.

Lemma sched_in_procs l a : sched_field l a -> in_procs l a.
Proof. intros (p & Hp & Ha). right. exists p. split; [done|]. unfold in_range, p_state, sizeof_proc in *. lia. Qed.

(** The kill a program asks for, on the process table. *)
Definition kill_result (pid : Z) (t : list pview) : Z * list pview :=
  match find_pid pid t with
  | Some v => (0, map (at_addr kill (v_addr v)) t)
  | None => (u64 (-1), t)
  end.

Lemma wp_sys_kill p f l s : trapped p f l s ->
  let pid := s32 (ld64 (mem s) (f + 112)) in
  wp sys_kill (fun r s' => quiet s s' /\ trapped p f l s' /\ (r, table (mem s') l) = kill_result pid (table (mem s) l) /\
    agree (fun a => ~ (sched_field l a \/ in_range pm_lock sizeof_spinlock a)) (mem s) (mem s')) s.
Proof.
  intros H pid. unfold sys_kill, running_frame. wp_step. wp_step. apply (wp_get_running p f l); [done|]. apply (wp_rd_frame p f l); [done|].
  wp_step. unfold tf_a0. wp_step; [apply (frame_field_addr p f l s 112 H); lia|]. fold pid. wp_step.
  eapply wp_mono; [apply (wp_proc_kill pid l); [by apply (trapped_hart p f l)|apply H|apply H]|].
  intros r s' (Q' & F' & P' & A' & R'). wp_step. assert (H' : trapped p f l s') by (by apply (trapped_quiet p f l s)).
  assert (A2 : agree (fun a => ~ (sched_field l a \/ in_range pm_lock sizeof_spinlock a)) (mem s) (mem s')) by (eapply agree_weaken; [|exact A']; intros a Hn; split; intros ?; apply Hn; auto).
  refine (conj Q' (conj H' (conj _ A2))). unfold kill_result.
  destruct (find_pid pid (table (mem s) l)) as [v|] eqn:E; destruct R' as [-> T']; by rewrite T'.
Qed.

(** The whole call of the process [p] with argument [a0]: a process that was
    killed before makes no call any more. *)
Definition kill_call (p a0 : Z) (t : list pview) : Z * list pview :=
  if killed_in t p then (a0, t) else kill_result (s32 a0) t.

(** What is known of the state [s'] in which a call made at [s] is over: [r]
    is in a0, the table is [t]. *)
Record call_over (p f : Z) (l : list Z) (r pc : Z) (t : list pview) (s s' : kst) : Prop := {
  co_result : ld64 (mem s') (f + 112) = r;
  co_pc : ld64 (mem s') (f + 24) = pc;
  co_table : table (mem s') l = t;
  co_kept : machine_kept s s';
  co_mmio : mmio s' = mmio s;
}.

(** C9: a program's kill system call, from the trap to its end.  The process
    table is updated as for a kill of the process named by a0, unless the
    caller was killed before, in which case the call is not made.  If the
    caller is alive after that, the program finds the result in a0 and
    continues behind the instruction, in user mode with interrupts on, and
    the next trap finds the kernel; no other register of the program changes.
    If it is not, because it was killed before or names itself, it does not
    get back: it becomes a zombie with exit code -1, its parent is woken and
    the hart switches to the scheduler's context, if it has no child; if it
    has one the kernel stops.  Apart from that the machine, memory and
    registers, is as before. *)
Theorem utrap_kill_correct p f l (Q : unit -> kst -> Prop) (halt : stop) s :
  trapped p f l s -> csr_get 0x142 s = SCAUSE_USER_ECALL -> ld64 (mem s) (f + 168) = 3 ->
  let t := table (mem s) l in
  let (r, t') := kill_call p (ld64 (mem s) (f + 112)) t in
  let pc := if killed_in t p then csr_get 0x141 s else csr_get 0x141 s +l 4 in
  (killed_in t' p = false -> forall s' s'', trapped p f l s'' -> back_to_user f pc s' s'' -> sstatus s' = sstatus s |l SSTATUS_SIE ->
     call_over p f l r pc t' s s'' -> agree (fun a => ~ sched_field l a /\ ~ trap_cells f a) (mem s) (mem s') ->
     wp (call user_return [user_satp (mem s'') p]) (fun _ => Q tt) s'') ->
  (killed_in t' p = true -> has_child t' p = false -> forall s', ready l s' -> ld32 (mem s') (p_exit_state p) = u32 (-1) ->
     call_over p f l r pc (exit_table p t') s s' ->
     agree (fun a => ~ sched_field l a /\ ~ trap_cells f a /\ ~ in_range (p_exit_state p) 4 a) (mem s) (mem s') ->
     stops halt (proc_switch (p_context p) (my_hart s + 16)) s') ->
  if killed_in t' p then stops (death p t' halt) utrap_handler s else wp utrap_handler Q s.
Proof.
  intros H Hc H7. cbv zeta. unfold kill_call. set (t := table (mem s) l). destruct (killed_in t p) eqn:Hk.
  - rewrite Hk. intros _ HQ. unfold utrap_handler. apply (ends_utrap_entry p f l); [done|]. rewrite Hc. intros s1 E.
    change (SCAUSE_USER_ECALL =? SCAUSE_STI) with false. change (SCAUSE_USER_ECALL =? SCAUSE_SEI) with false.
    change (SCAUSE_USER_ECALL =? SCAUSE_USER_ECALL) with true. cbv iota. do 2 apply stops_first.
    pose proof (en_trapped _ _ _ _ _ E) as H1. pose proof (en_table _ _ _ _ _ E) as T1. fold t in T1. destruct (en_regs _ _ _ _ _ E) as (Et & _ & Em).
    rewrite <- T1. apply (exit_if_killed_stops p f l); [done|by rewrite T1|]. rewrite T1. intros Hch s' X.
    replace (my_hart s1) with (my_hart s) by (unfold my_hart; by rewrite Et). pose proof X as [X1 X2 X3 X4 X5].
    apply HQ; [done|done|done|done|split|].
    + rewrite (exiting_frame p f l _ _ _ 112 H1 X) by (unfold sizeof_trapframe; lia). apply ld_agree. eapply agree_weaken; [|apply (en_mem _ _ _ _ _ E)]. unfold in_range. simpl. lia.
    + rewrite (exiting_frame p f l _ _ _ 24 H1 X) by (unfold sizeof_trapframe; lia). apply (en_pc _ _ _ _ _ E).
    + by rewrite X3, T1.
    + transitivity s1; [apply E|by apply kept_quiet].
    + by rewrite (quiet_mmio _ _ X1), Em.
    + transitivity (mem s1); [eapply agree_weaken; [|apply (en_mem _ _ _ _ _ E)]; unfold trap_cells; tauto|].
      eapply agree_weaken; [|exact X5]. intros a (N1 & N2 & N3). unfold trap_cells in N2. split_and!; [intros Hs; by apply N1, state_sched|tauto|done].
  - destruct (kill_result _ t) as [r t'] eqn:Er. intros HQ HX. set (K := fun o : res unit => if killed_in t' p then o = stop_res (death p t' halt)
      else match o with Ok a s' => Q a s' | _ => False end).
    enough (HK : ends K utrap_handler s) by (unfold K, ends in HK; by destruct (killed_in t' p)).
    apply (ends_utrap_ecall p f l K 3 sys_kill (fun r1 t1 => (r1, t1) = (r, t')) (fun a => sched_field l a \/ in_range pm_lock sizeof_spinlock a)); try done; [lia| | |].
    + intros a [Ha|Ha] Hf; [by apply (frame_not_procs p f l s a H), sched_in_procs|by apply (frame_not_lock p f l s a H)].
    + intros s1 H1 T1 E1. eapply wp_mono; [by apply (wp_sys_kill p f l)|]. intros r1 s2 (Q2 & H2 & R2 & A2). split_and!; try done.
      rewrite R2, E1, T1. exact Er.
    + intros r1 s1 [-> T1]%pair_equal_spec [H1 Ea Ep Es A1 K1 I1].
      assert (Er1 : ld64 (mem s1) (f + 112) = r).
      { rewrite Ea. apply u64_small. unfold kill_result in Er. destruct (find_pid _ _); injection Er as <- _; [lia|apply u64_bound]. }
      unfold K. destruct (killed_in t' p) eqn:Hk'.
      * apply stops_first. rewrite <- T1. apply (exit_if_killed_stops p f l); [done|by rewrite T1|]. rewrite T1. intros Hch s' X.
        assert (Et : my_hart s1 = my_hart s) by (unfold my_hart; by rewrite (kept_tp _ _ K1)).
        rewrite Et. pose proof X as [X1 X2 X3 X4 X5]. apply HX; [done|done|done|done|split|].
        -- by rewrite (exiting_frame p f l _ _ _ 112 H1 X) by (unfold sizeof_trapframe; lia).
        -- by rewrite (exiting_frame p f l _ _ _ 24 H1 X) by (unfold sizeof_trapframe; lia).
        -- by rewrite X3, T1.
        -- transitivity s1; [done|by apply kept_quiet].
        -- by rewrite (quiet_mmio _ _ X1), I1.
        -- transitivity (mem s1); [eapply agree_weaken; [|exact A1]; unfold trap_cells; tauto|].
           eapply agree_weaken; [|exact X5]. intros a (N1 & N2 & N3). unfold trap_cells in N2. split_and!; [intros Hs; by apply N1, state_sched|tauto|done].
      * apply (wp_bind (exit_if_killed p)). apply (wp_exit_if_killed p f l); [done|by rewrite T1|]. intros s2 Q2 H2 T2 A2.
        apply (wp_utrap_return p f l); [done|]. intros s3 H3 B T3.
        assert (A02 : agree (fun a => ~ sched_field l a /\ ~ trap_cells f a) (mem s) (mem s2)).
        { transitivity (mem s1); [eapply agree_weaken; [|exact A1]; unfold trap_cells; tauto|]. eapply agree_weaken; [|exact A2]. unfold trap_cells. tauto. }
        assert (F2 : forall off, 0 <= off -> off + 8 <= sizeof_trapframe -> ld64 (mem s2) (f + off) = ld64 (mem s1) (f + off)).
        { intros off Ho Hs. apply (frame_word p f l s _ _ _ (fun _ => False)); [done|eapply agree_weaken; [|exact A2]; tauto|done|done|auto]. }
        assert (E24 : ld64 (mem s2) (f + 24) = csr_get 0x141 s +l 4) by (rewrite F2, Ep by (unfold sizeof_trapframe; lia); done).
        apply (HQ eq_refl s2 s3); [done|by rewrite <- E24| |split|done].
        -- destruct (same_globals_fields _ _ (proj1 Q2)) as (_ & -> & _). exact Es.
        -- rewrite <- Er1, <- (F2 112) by (unfold sizeof_trapframe; lia). apply ld_agree. eapply agree_weaken; [|apply (bu_mem _ _ _ _ B)]. unfold in_range. simpl. lia.
        -- rewrite <- E24. apply ld_agree. eapply agree_weaken; [|apply (bu_mem _ _ _ _ B)]. unfold in_range. simpl. lia.
        -- by rewrite T3, T2, T1.
        -- transitivity s1; [done|]. transitivity s2; [by apply kept_quiet|apply B].
        -- by rewrite (bu_mmio _ _ _ _ B), (quiet_mmio _ _ Q2), I1.
Qed.

(** A call number outside the table: [syscall_handler] reads past the array
    of handlers. *)
Lemma syscall_out_of_range p f l s : trapped p f l s -> let n := s32 (ld64 (mem s) (f + 168)) in
  ~ 0 <= n < 9 -> syscall_handler s = Fault n.
Proof.
  intros H n Hn. unfold syscall_handler, running_frame. apply bind_faults. wp_step. apply (wp_get_running p f l); [done|].
  apply (wp_rd_frame p f l); [done|]. apply bind_faults. wp_step; [apply (frame_field_addr p f l s 168 H); lia|]. fold n.
  destruct (Z.ltb_spec n 0); [done|]. rewrite lookup_ge_None_2; [done|]. simpl. lia.
Qed.
End spec.

(** ** The first process of the sample kills the second *)

#[local] Existing Instance sample_layout.
#[local] Instance stub_code : Code := fun _ _ => mret 0.
#[local] Instance no_switch : Switch := fun _ _ => hang.
#[local] Instance no_firmware : Firmware := fun _ _ _ _ => mk_sbiret 0 0.

Definition trap_state : kst :=
  set_csr {[ 0x142 := SCAUSE_USER_ECALL; 0x141 := 0x200010 ]} (set_sstatus 0 sample_procs).

Lemma trap_state_ok : trapped proc_1 frame_1 [proc_1; proc_2] trap_state.
Proof.
  split.
  - split_and!; vm_compute; congruence.
  - vm_compute. reflexivity.
  - vm_compute. reflexivity.
  - vm_compute. reflexivity.
  - exact sample_procs_ok.
  - apply list_elem_of_here.
  - vm_compute. reflexivity.
  - vm_compute. split; congruence.
  - intros q Hq. apply elem_of_cons in Hq as [->|Hq]; [|apply list_elem_of_singleton in Hq as ->];
      unfold disjoint, frame_1, proc_1, proc_2, sizeof_trapframe, sizeof_proc; lia.
Qed.

(** The second process, which has no child, kills itself. *)
Definition self_state : kst :=
  set_harts {[ 0 := mk_hart 1 proc_2 [] 0 0 ]} (set_mem (st64 sample_procs_mem (p_trapframe proc_2) frame_1) trap_state).

Lemma self_state_ok : trapped proc_2 frame_1 [proc_1; proc_2] self_state.
Proof.
  split.
  - split_and!; vm_compute; congruence.
  - vm_compute. reflexivity.
  - vm_compute. reflexivity.
  - vm_compute. reflexivity.
  - apply (field_write sample_procs_mem [proc_1; proc_2] proc_2 88 8 frame_1 sample_procs_ok); [apply list_elem_of_further, list_elem_of_here|simpl; lia|lia|unfold sizeof_proc; simpl; lia].
  - apply list_elem_of_further, list_elem_of_here.
  - vm_compute. reflexivity.
  - vm_compute. split; congruence.
  - exact (tr_apart _ _ _ _ trap_state_ok).
Qed.

Definition killed_second : list pview := [mk_pview proc_1 1 2 0 0 0; mk_pview proc_2 2 1 1 0x5000 proc_1].

Lemma kill_second_call : kill_call proc_1 (ld64 (mem trap_state) (frame_1 + 112)) (table (mem trap_state) [proc_1; proc_2]) = (0, killed_second).
Proof. vm_compute. reflexivity. Qed.
Lemma kill_self_call : kill_call proc_2 (ld64 (mem self_state) (frame_1 + 112)) (table (mem self_state) [proc_1; proc_2]) = (0, killed_second).
Proof. vm_compute. reflexivity. Qed.

Lemma utrap_kill_correct_witness :
  wp utrap_handler (fun _ s' => ld64 (mem s') (frame_1 + 112) = 0 /\ csr_get 0x141 s' = 0x200014 /\
    map v_state (table (mem s') [proc_1; proc_2]) = [2; 1] /\ map v_killed (table (mem s') [proc_1; proc_2]) = [0; 1]) trap_state /\
  stops Hangs utrap_handler self_state.
Proof.
  split.
  - pose proof (utrap_kill_correct proc_1 frame_1 [proc_1; proc_2] (fun _ s' => ld64 (mem s') (frame_1 + 112) = 0 /\ csr_get 0x141 s' = 0x200014 /\
      map v_state (table (mem s') [proc_1; proc_2]) = [2; 1] /\ map v_killed (table (mem s') [proc_1; proc_2]) = [0; 1]) Hangs trap_state
      trap_state_ok eq_refl ltac:(vm_compute; reflexivity)) as H.
    cbv zeta in H. rewrite kill_second_call in H. change (killed_in killed_second proc_1) with false in H.
    assert (Ek : killed_in (table (mem trap_state) [proc_1; proc_2]) proc_1 = false) by (vm_compute; reflexivity). rewrite Ek in H.
    apply H; [|intros E; discriminate E].
    intros _ s' s'' _ B _ [R1 R2 R3 _ _] _. unfold call, stub_code. apply wp_ret.
    split_and!; [exact R1|rewrite (bu_sepc _ _ _ _ B); vm_compute; reflexivity|by rewrite R3|by rewrite R3].
  - pose proof (utrap_kill_correct proc_2 frame_1 [proc_1; proc_2] (fun _ _ => False) Hangs self_state
      self_state_ok eq_refl ltac:(vm_compute; reflexivity)) as H.
    cbv zeta in H. rewrite kill_self_call in H. change (killed_in killed_second proc_2) with true in H.
    change (death proc_2 killed_second Hangs) with Hangs in H. apply H; [intros E; discriminate E|]. intros _ _ s' _ _ _ _. reflexivity.
Defined.
