(* ===== verification/IrqProofs.v ===== *)
(** * External interrupts

    The interrupt controller driver behind the HAL's dispatcher:
    [irq_controller] is the registry with the controller and the list of
    handlers, [wp_hal_trap_handler] the way of one interrupt from the claim
    over the first handler of its source to the completion.  [ends_utrap_sei]
    follows [utrap_handler] through an external interrupt, whatever the
    dispatcher does. *)

From S2P Require Import Prelude Memory Machine Lists Strings Hal Lock DeviceIo Console Buddy Object Kmem Csr Sbi Vmem Proc Trap Plic Uart ProcProofs ProcHold ProcExit UartProofs TrapProofs.

Section irq.
Context {L : KernelLayout} {C : Code} {W : Switch} {F : Firmware} {D : Devices}.

(** The functions behind the pointers the drivers register. *)
Record irq_code : Prop := {
  code_claim dev : call (sym_fn "plic_driver_hal_claim") [dev] = plic_driver_hal_claim dev;
  code_complete dev irq : call (sym_fn "plic_driver_hal_complete") [dev; irq] = (plic_driver_hal_complete dev irq;; mret 0);
  code_uart dev : call (sym_fn "ns16550a_driver_interrupt_handler") [dev] = ns16550a_driver_interrupt_handler dev;
}.

(** ** The registry *)

(** The controller registered as [hc], with device [dev], record [u] and
    registers at [base]; [irqs] are the handlers. *)
Record irq_controller (m : memory) (hc dev u base : Z) (irqs : list Z) : Prop := {
  ic_addr : PAGE_SIZE <= hc /\ PAGE_SIZE <= dev /\ PAGE_SIZE <= u;
  ic_reg : ld64 m sym_hal_trap = hc;
  ic_dev : ld64 m hc = dev;
  ic_claim : ld64 m (hc + 40) = sym_fn "plic_driver_hal_claim";
  ic_complete : ld64 m (hc + 48) = sym_fn "plic_driver_hal_complete";
  ic_internal : ld64 m (d_internal dev) = u;
  ic_base : ld64 m (u + 8) = base;
  ic_list : slist m (ld64 m (sym_hal_trap + 32)) irqs;
  ic_len : Z.of_nat (length irqs) < 2 ^ 64;
}.

(** The bytes this depends on. *)
Definition irq_cells (hc dev u : Z) (irqs : list Z) (a : Z) : Prop :=
  in_range sym_hal_trap 40 a \/ in_range hc 56 a \/ in_range (d_internal dev) 8 a \/ in_range u 16 a \/
  exists e, e ∈ irqs /\ in_range e 32 a.

(** The first handler of source [id], its function and its device. *)
Fixpoint lookup_irq (m : memory) (id : Z) (l : list Z) : option (Z * Z) :=
  match l with
  | [] => None
  | e :: l' => if u64 (s32 (ld32 m e)) =? id then Some (ld64 m (e + 16), ld64 m (e + 8)) else lookup_irq m id l'
  end.

Lemma lookup_irq_frame m m' id l : agree (fun a => exists e, e ∈ l /\ in_range e 32 a) m m' -> lookup_irq m' id l = lookup_irq m id l.
Proof.
  induction l as [|e l IH]; intros Ha; [done|]. simpl.
  assert (E : forall n off, 0 <= off -> off + Z.of_nat n <= 32 -> ld n m' (e + off) = ld n m (e + off)).
  { intros n off Ho Hs. apply ld_agree. eapply agree_weaken; [|exact Ha]. intros a Hr. exists e. split; [apply list_elem_of_here|]. unfold in_range in *. lia. }
  pose proof (E 4%nat 0 ltac:(lia) ltac:(lia)) as E0. rewrite Z.add_0_r in E0. rewrite E0, !E by lia.
  rewrite IH; [done|]. eapply agree_weaken; [|exact Ha]. intros a (x & Hx & Hr). exists x. split; [by apply list_elem_of_further|done].
Qed.

Lemma irq_frame m m' hc dev u base irqs : irq_controller m hc dev u base irqs -> agree (irq_cells hc dev u irqs) m m' ->
  irq_controller m' hc dev u base irqs.
Proof.
  intros H Ha.
  assert (E : forall x y n, (forall a, in_range x n a -> irq_cells hc dev u irqs a) -> x <= y -> y + 8 <= x + n -> ld64 m' y = ld64 m y).
  { intros x y n Hx Hy Hs. apply ld_agree. eapply agree_weaken; [|exact Ha]. intros a Hr. apply Hx. unfold in_range in *. simpl in Hr. lia. }
  unfold irq_cells in E. destruct H as [H1 H2 H3 H4 H5 H6 H7 H8 H9]. split; try done.
  - rewrite (E sym_hal_trap _ 40); [done|auto|lia|lia].
  - rewrite (E hc _ 56); [done|auto|lia|lia].
  - rewrite (E hc _ 56); [done|auto|lia|lia].
  - rewrite (E hc _ 56); [done|auto|lia|lia].
  - rewrite (E (d_internal dev) _ 8); [done|auto|lia|lia].
  - rewrite (E u _ 16); [done|auto|lia|lia].
  - rewrite (E sym_hal_trap (sym_hal_trap + 32) 40) by (auto || lia). apply (slist_frame m); [done|]. intros e He.
    apply (E e _ 32); [|lia|lia]. intros a Hr. do 4 right. by exists e.
Qed.

(** ** The controller *)

Definition claim_reg (base : Z) (s : kst) : Z := PLIC_SCLAIM base (u32 (tp s)).
(** The source the controller names, and the states after asking it and
    after telling it that the interrupt is served. *)
Definition claimed_id (base : Z) (s : kst) : Z := dev_read (mmio s) 4 (claim_reg base s) mod 2 ^ 32.
Definition claimed (base : Z) (s : kst) : kst := set_mmio (mmio s ++ [MRead 4 (claim_reg base s) (claimed_id base s)]) s.
Definition completed (base id : Z) (s : kst) : kst := set_mmio (mmio s ++ [MWrite 4 (claim_reg base s) id]) s.

Lemma wp_plic_claim hc dev u base irqs (Q : Z -> kst -> Prop) s : irq_controller (mem s) hc dev u base irqs ->
  Q (claimed_id base s) (claimed base s) -> wp (plic_driver_hal_claim dev) Q s.
Proof.
  intros H HQ. destruct (ic_addr _ _ _ _ _ _ H) as (_ & Hd & Hu). unfold plic_driver_hal_claim, plic_base, current_hart_id.
  wp_step. wp_step. wp_step; [unfold d_internal; lia|]. rewrite (ic_internal _ _ _ _ _ _ H). wp_step.
  rewrite (ic_base _ _ _ _ _ _ H). wp_step. wp_steps. exact HQ.
Qed.

Lemma wp_plic_complete hc dev u base irqs id (Q : unit -> kst -> Prop) s : irq_controller (mem s) hc dev u base irqs -> 0 <= id < 2 ^ 32 ->
  Q tt (completed base id s) -> wp (plic_driver_hal_complete dev id) Q s.
Proof.
  intros H Hid HQ. destruct (ic_addr _ _ _ _ _ _ H) as (_ & Hd & Hu). unfold plic_driver_hal_complete, plic_base, current_hart_id.
  wp_step. wp_step. wp_step; [unfold d_internal; lia|]. rewrite (ic_internal _ _ _ _ _ _ H). wp_step.
  rewrite (ic_base _ _ _ _ _ _ H). wp_step. wp_steps. unfold wrv. wp_step. change (256 ^ Z.of_nat 4) with (2 ^ 32). rewrite Z.mod_small by done. exact HQ.
Qed.

(** ** The dispatcher *)

(** One interrupt: nothing but the claim if the controller names no source;
    otherwise the first handler of the source runs, if there is one, and the
    controller is told, provided the handler leaves the registry alone. *)
Lemma wp_hal_trap_handler cause hc dev u base irqs (Q : unit -> kst -> Prop) s :
  irq_code -> irq_controller (mem s) hc dev u base irqs ->
  let id := claimed_id base s in
  (id = 0 -> Q tt (claimed base s)) ->
  (id <> 0 -> match lookup_irq (mem s) id irqs with
    | None => Q tt (completed base id (claimed base s))
    | Some (h, d) => wp (call h [d]) (fun _ s' => irq_controller (mem s') hc dev u base irqs /\ Q tt (completed base id s')) (claimed base s)
    end) ->
  wp (hal_trap_handler cause) Q s.
Proof.
  intros HC H id H0 H1. destruct (ic_addr _ _ _ _ _ _ H) as (Hhc & _). pose proof sym_hal_trap_image as Hs.
  assert (Ha : forall off, 0 <= off -> PAGE_SIZE <= sym_hal_trap + off) by (unfold PAGE_SIZE, VA_KERNEL_IMG_BEGIN in *; lia).
  assert (Hid : 0 <= id < 2 ^ 32) by (apply Z.mod_pos_bound; lia).
  unfold hal_trap_handler. wp_step. wp_step; [specialize (Ha 0); lia|]. rewrite (ic_reg _ _ _ _ _ _ H).
  rewrite (proj2 (Z.eqb_neq _ _)) by (unfold NULL, PAGE_SIZE in *; lia). wp_step. wp_step. rewrite (ic_dev _ _ _ _ _ _ H).
  wp_step. wp_step. rewrite (ic_claim _ _ _ _ _ _ H), (code_claim HC). wp_step. apply (wp_plic_claim hc dev u base irqs); [done|]. fold id.
  destruct (Z.eqb_spec id 0) as [E|E]; [wp_step; by apply H0|]. specialize (H1 E). wp_step. wp_step; [by apply Ha|].
  change (mem (claimed base s)) with (mem s). set (s1 := claimed base s) in *.
  assert (Hfin : forall s', irq_controller (mem s') hc dev u base irqs -> Q tt (completed base id s') ->
    wp (interruptor ← rd 8 sym_hal_trap; complete ← rd 8 (interruptor + 48); call complete [dev; u32 id];; mret tt) Q s').
  { intros s' H' HQ. wp_step. wp_step; [specialize (Ha 0); lia|]. rewrite (ic_reg _ _ _ _ _ _ H'). wp_step. wp_step.
    rewrite (ic_complete _ _ _ _ _ _ H'), (code_complete HC), u32_small by done. wp_step. wp_step.
    apply (wp_plic_complete hc dev u base irqs); [done..|]. by wp_steps. }
  wp_step. apply (wp_while_n (fun n p s' => s' = s1 /\ exists l2, slist (mem s) p l2 /\ n = Z.of_nat (length l2) /\
      lookup_irq (mem s) id l2 = lookup_irq (mem s) id irqs) _ (Z.of_nat (length irqs))).
  - split; [done|]. exists irqs. split_and!; try done. apply (ic_list _ _ _ _ _ _ H).
  - pose proof (ic_len _ _ _ _ _ _ H). lia.
  - intros n p s' (-> & l2 & H2 & -> & E2) _. rewrite <- E2 in H1. destruct l2 as [|e l2]; simpl in H2.
    + subst p. simpl negb. wp_step. apply Hfin; [apply H|exact H1].
    + destruct H2 as (-> & He & H2). rewrite (proj2 (Z.eqb_neq e NULL)) by (unfold NULL, PAGE_SIZE in *; lia).
      simpl negb. wp_step. wp_step. wp_step. change (mem s1) with (mem s). simpl in H1, E2.
      destruct (Z.eqb_spec (u64 (s32 (ld32 (mem s) e))) id) as [Ei|Ei].
      * wp_steps. change (mem s1) with (mem s). eapply wp_mono; [exact H1|]. intros r s' [H' HQ]. wp_step. by apply Hfin.
      * wp_steps. change (mem s1) with (mem s). exists (Z.of_nat (length l2)). split; [simpl; lia|]. split; [done|]. by exists l2.
Qed.
(** ** From the trap to the dispatcher and back *)

Section one.
Context (p f : Z) (l : list Z).

Lemma trapped_log x s : trapped p f l (set_mmio x s) -> trapped p f l s.
Proof. by intros []; split. Qed.

Lemma trapped_io s s' : trapped p f l s -> quiet_io s s' -> lock_free (mem s') pm_lock -> procs_ok (mem s') l ->
  ld64 (mem s') (p_trapframe p) = f -> trapped p f l s'.
Proof.
  intros H Hq Hf Hp Hfr. apply (trapped_log (mmio s)). destruct Hq as [G Hh] eqn:E. clear E. destruct (same_globals_fields _ _ G) as (Et & _).
  destruct (same_harts_fields _ _ (u32 (tp s)) Hh) as (Ed & Er & _).
  assert (Eh : this_hart (set_mmio (mmio s) s') = hart_at (set_mmio (mmio s) s') (u32 (tp s))) by (unfold this_hart; by rewrite Et).
  apply (trapped_step p f l s); try done; rewrite ?Eh; [exact (quiet_can 2 s _ Hq (tr_hart _ _ _ _ H))|rewrite Ed; apply H|rewrite Er; apply H].
Qed.

(** An external interrupt: the dispatcher runs with interrupts off, and then
    it is decided whether the program continues where it was. *)
Lemma ends_utrap_sei (K : res unit -> Prop) (R : kst -> Prop) s :
  trapped p f l s -> csr_get 0x142 s = SCAUSE_SEI ->
  (forall s1, entered p f l s s1 -> wp (hal_trap_handler SCAUSE_SEI) (fun _ s2 => trapped p f l s2 /\
     ld64 (mem s2) (f + 24) = ld64 (mem s1) (f + 24) /\ R s2) s1) ->
  (forall s2, R s2 -> trapped p f l s2 -> ld64 (mem s2) (f + 24) = csr_get 0x141 s -> ends K (exit_if_killed p;; utrap_return) s2) ->
  ends K utrap_handler s.
Proof.
  intros H Hc Hd HQ. unfold utrap_handler. apply (ends_utrap_entry p f l); [done|]. rewrite Hc. intros s1 E1.
  change (SCAUSE_SEI =? SCAUSE_STI) with false. change (SCAUSE_SEI =? SCAUSE_SEI) with true. cbv iota. apply ends_bind. wp_step.
  eapply wp_mono; [by apply Hd|]. intros _ s2 (H2 & P2 & R2). wp_step. apply HQ; [done|done|]. rewrite P2. apply (en_pc _ _ _ _ _ E1).
Qed.
End one.
End irq.
