(* ===== verification/Sample.v ===== *)
(** * A small concrete machine

    Sixteen pages of RAM at physical page 0x80000, the first of them holding
    the allocator's bitmaps; used to evaluate the code and to show that the
    hypotheses of the theorems can be met. *)

From S2P Require Import Prelude Memory Machine Bytes Lists Lock Buddy BuddyMem BuddyInv BuddyProofs BuddyInit.

#[local] Existing Instance sample_layout.

Definition sample_base : Z := 0x80000 * PAGE_SIZE + VA_KERNEL_BEGIN.

Definition sample_kmem : kmem_node_struct :=
  mk_kmem_node 0x80000 16 sample_base 2
    (map (fun i => sample_base + 64 * Z.of_nat i) (seq 1 11)) (replicate 11 1).

(** One hart, interrupts on, only page 0 reserved, nothing freed yet. *)
Definition sample_fresh : kst :=
  mk_kst {[ sample_base := 1 ]} 0 SSTATUS_SIE ∅ (mk_bootmem_node 0x80000 16 sample_base 2 0 0) sample_kmem
    (mk_ram (mk_seg 0x80000000 0x10000) [mk_seg 0x80001000 0xf000]) [] ∅ [] [].

(** The same after [free_unreserved]. *)
Definition sample_ready : kst :=
  match free_unreserved sample_fresh with Ok _ s => s | _ => sample_fresh end.

Definition sample_mg : Z -> Prop := unreserved sample_fresh.

Lemma sample_bmap i : -1 <= i < MAX_MEM_ORDER -> bmap sample_kmem i = sample_base + 64 * (i + 1).
Proof.
  intros Hi. assert (H : i ∈ [-1;0;1;2;3;4;5;6;7;8;9;10]).
  { unfold MAX_MEM_ORDER in Hi. repeat rewrite elem_of_cons. lia. }
  repeat (apply elem_of_cons in H as [->|H]; [reflexivity|]). by apply elem_of_nil in H.
Qed.

Lemma sample_bytes i : -1 <= i < MAX_MEM_ORDER -> 1 <= bytes sample_kmem i <= 2.
Proof.
  intros Hi. assert (H : i ∈ [-1;0;1;2;3;4;5;6;7;8;9;10]).
  { unfold MAX_MEM_ORDER in Hi. repeat rewrite elem_of_cons. lia. }
  repeat (apply elem_of_cons in H as [->|H]; [vm_compute; split; congruence|]). by apply elem_of_nil in H.
Qed.

Lemma sample_hart : hart_ok sample_fresh.
Proof. split_and!; try (vm_compute; congruence). Qed.

Lemma sample_mg_pos x : sample_mg x -> 1 <= x < 16.
Proof.
  intros [[H1 H2] H3]. change (num_ppn (kmem sample_fresh)) with 16 in H2.
  destruct (Z.eq_dec x 0) as [->|]; [|lia]. vm_compute in H3. congruence.
Qed.

Lemma sample_meta : BuddyMeta sample_kmem sample_mg.
Proof.
  split.
  - vm_compute. congruence.
  - vm_compute. congruence.
  - vm_compute. congruence.
  - intros i Hi. rewrite sample_bmap by done. unfold sample_base, PAGE_SIZE, VA_KERNEL_BEGIN. lia.
  - intros i j Hi Hj Hne. rewrite !sample_bmap by done. pose proof (sample_bytes i Hi). pose proof (sample_bytes j Hj).
    unfold disjoint. lia.
  - intros i Hi. rewrite sample_bmap by done. pose proof (sample_bytes i Hi). unfold disjoint, MAX_MEM_ORDER in *.
    unfold sample_base, PAGE_SIZE, VA_KERNEL_BEGIN. simpl sym_kmem. lia.
  - intros i p Hi Hp Hm. rewrite sample_bmap by done. pose proof (sample_bytes i Hi). pose proof (sample_mg_pos p Hm).
    unfold disjoint, nd, MAX_MEM_ORDER, sample_base, PAGE_SIZE in *. simpl begin_ppn. lia.
Qed.

Lemma sample_heads o : order_ok o -> ld64 (mem sample_fresh) (free_page_list o + 8) = NULL.
Proof.
  intros Ho. assert (E : o ∈ [0;1;2;3;4;5;6;7;8;9;10]).
  { unfold order_ok, MAX_MEM_ORDER in Ho. repeat rewrite elem_of_cons. lia. }
  repeat (apply elem_of_cons in E as [->|E]; [vm_compute; reflexivity|]). by apply elem_of_nil in E.
Qed.

Lemma sample_maps_zero o j : order_ok o -> 0 <= j < blen sample_kmem o -> bit (mem sample_fresh) (bmap sample_kmem o) j = false.
Proof.
  intros Ho Hj. unfold bit. assert (E : ldb (mem sample_fresh) (bmap sample_kmem o + j / 8) = 0); [|by rewrite E, Z.bits_0].
  assert (Hi : -1 <= o < MAX_MEM_ORDER) by (unfold order_ok in Ho; lia).
  pose proof (byte_in sample_kmem o j Hj) as Hb. pose proof (sample_bytes o Hi).
  rewrite sample_bmap in Hb |- * by done. unfold in_range, order_ok in *.
  unfold ldb. simpl mem. rewrite lookup_singleton_ne by lia. reflexivity.
Qed.

Lemma sample_ready_ok :
  buddy_step sample_mg sample_mg sample_fresh sample_ready /\
  forall x, page_ok sample_kmem x -> allocated sample_ready x = allocated sample_fresh x.
Proof.
  pose proof (wp_free_unreserved sample_fresh) as H. cbv zeta in H. fold sample_mg in H. unfold wp, sample_ready in *.
  specialize (H sample_hart sample_meta ltac:(reflexivity) sample_heads sample_maps_zero).
  by destruct (free_unreserved sample_fresh) as [[] s| | |].
Qed.

Lemma sample_ready_hart : hart_ok sample_ready.
Proof. apply sample_ready_ok. Qed.
Lemma sample_ready_buddy : buddy_ok sample_mg sample_ready.
Proof. apply sample_ready_ok. Qed.
Lemma sample_ready_kmem : kmem sample_ready = sample_kmem.
Proof. exact (bs_kmem _ _ _ _ (proj1 sample_ready_ok)). Qed.
