(* ===== verification/BuddySpec.v ===== *)
(** * What the page allocator promises

    The theorems about memory/buddy.c, from the invariant and the lemmas of
    BuddyMem, BuddyInv, BuddyProofs and BuddyInit, with runs of the code on
    the machine of Sample that meet their hypotheses. *)

From S2P Require Import Prelude Memory Machine Bytes Lists Lock Buddy BuddyMem BuddyInv BuddyProofs BuddyInit Sample.

Section spec.
Context {L : KernelLayout}.

(** C1: [kmem_alloc_pages] on a valid order neither panics, faults nor
    loops.  It returns either a block of [2^order] pages aligned to its size,
    all of which were free and are now the only pages newly marked allocated,
    or NULL with no page changed; the allocator's invariant holds again, its
    lock is free, the interrupt state is restored, and no memory outside the
    allocator's own data and the pages that were free has changed. *)
Theorem kmem_alloc_pages_correct mg order s :
  hart_ok s -> buddy_ok mg s -> order_ok order ->
  wp (kmem_alloc_pages order) (fun r s' =>
    buddy_step mg (is_free mg s) s s' /\ alloc_post mg s order r (allocated s')) s.
Proof. apply wp_kmem_alloc_pages. Qed.

(** C2: [kmem_free_page] on an allocated page of the allocator returns, marks
    that page and no other free, and merges it with its free buddies so that
    the invariant (no two free buddies below the top order) holds again; only
    free pages and the freed page are written. *)
Theorem kmem_free_page_correct mg pn s :
  hart_ok s -> buddy_ok mg s -> page_ok (kmem s) pn -> mg pn -> allocated s pn = true ->
  wp (kmem_free_page (nd (kmem s) pn)) (fun _ s' =>
    buddy_step mg (fun x => is_free mg s x \/ x = pn) s s' /\
    forall x, page_ok (kmem s) x -> allocated s' x = allocated s x && negb (x =? pn)) s.
Proof. apply wp_kmem_free_page. Qed.

(** C3: a block obtained with [kmem_alloc_pages] can be given back with
    [kmem_free_pages], which leaves every page's allocation bit as it was
    before the allocation. *)
Theorem alloc_then_free mg order s :
  hart_ok s -> buddy_ok mg s -> order_ok order ->
  wp (r ← kmem_alloc_pages order; if r =? NULL then mret tt else kmem_free_pages r (2 ^ order))
    (fun _ s' => hart_ok s' /\ buddy_ok mg s' /\ forall x, page_ok (kmem s) x -> allocated s' x = allocated s x) s.
Proof.
  intros Hok Hb Ho. wp_step. eapply wp_mono; [by apply wp_kmem_alloc_pages|]. intros r s1 [B1 Hpost].
  pose proof (bs_kmem _ _ _ _ B1) as Ek. destruct Hpost as [(-> & Hsame & _)|(p & -> & Hm & Hfree & Hnow)].
  - simpl. wp_steps. split_and!; [apply B1|apply B1|done].
  - pose proof (order_nonneg order Ho) as Hge. pose proof (pow2_pos order Hge) as Hpos.
    destruct (Hfree p (in_blk_first order p Hge)) as [Hp _]. destruct (Hfree (p + 2 ^ order - 1)) as [Hq _]; [unfold in_blk; lia|].
    pose proof (bo_meta _ _ Hb) as BM. pose proof (nd_bound (kmem s) mg p Hp).
    rewrite (proj2 (Z.eqb_neq _ NULL)) by (unfold NULL, VA_KERNEL_BEGIN in *; lia).
    rewrite <- Ek. eapply wp_mono; [apply (wp_kmem_free_pages mg)|]; try apply B1; try (unfold page_ok in *; rewrite ?Ek; lia).
    + intros x Hx. destruct (Hfree x Hx) as [Hpx [Hmx _]]. rewrite Hnow by done. split; [done|].
      by rewrite bool_decide_eq_true_2, orb_true_r by (unfold in_blk in Hx; lia).
    + intros [] s2 [B2 E2]. rewrite Ek in E2. split_and!; [apply B2|apply B2|]. intros x Hx. rewrite Ek in Hx. rewrite E2, Hnow by done.
      destruct (decide (p <= x < p + 2 ^ order)) as [Hin|Hout].
      * destruct (Hfree x Hin) as [_ [_ ->]]. by rewrite bool_decide_eq_true_2.
      * rewrite bool_decide_eq_false_2 by done. by rewrite orb_false_r, andb_true_r.
Qed.

(** C4: freeing a page that is not allocated stops the kernel with the "freed
    twice" panic. *)
Theorem kmem_free_page_twice mg pn s :
  hart_ok s -> buddy_ok mg s -> page_ok (kmem s) pn -> allocated s pn = false ->
  kmem_free_page (nd (kmem s) pn) s = Panic "kmem_free_page - freed twice".
Proof. apply kmem_free_page_panics. Qed.

(** C5: allocation is complete: if anywhere a run of [2^order] free pages
    aligned to its size exists, [kmem_alloc_pages] does not return NULL. *)
Theorem kmem_alloc_pages_complete mg order p s :
  hart_ok s -> buddy_ok mg s -> order_ok order -> 0 <= p -> p mod 2 ^ order = 0 ->
  (forall x, p <= x < p + 2 ^ order -> page_ok (kmem s) x /\ mg x /\ allocated s x = false) ->
  wp (kmem_alloc_pages order) (fun r _ => r <> NULL) s.
Proof.
  intros Hok Hb Ho Hp Hm Hrun. eapply wp_mono; [by apply (wp_kmem_alloc_pages mg)|].
  intros r s1 [B1 [(-> & _ & Hnone)|(q & -> & _ & Hfree & _)]].
  - exfalso. by apply (Hnone p Hp Hm).
  - destruct (Hfree q (in_blk_first order q (order_nonneg order Ho))) as [Hq _].
    pose proof (bo_meta _ _ Hb) as BM. pose proof (nd_bound (kmem s) mg q Hq). unfold NULL, VA_KERNEL_BEGIN in *. lia.
Qed.

(** C6: [kmem_free_pages] on a run of allocated pages frees exactly these. *)
Theorem kmem_free_pages_correct mg p n s :
  hart_ok s -> buddy_ok mg s -> 0 < n -> 0 <= p -> p + n <= num_ppn (kmem s) ->
  (forall x, p <= x < p + n -> mg x /\ allocated s x = true) ->
  wp (kmem_free_pages (nd (kmem s) p) n) (fun _ s' =>
    buddy_step mg (fun x => is_free mg s x \/ p <= x < p + n) s s' /\
    forall x, page_ok (kmem s) x -> allocated s' x = allocated s x && negb (bool_decide (p <= x < p + n))) s.
Proof. intros. apply wp_kmem_free_pages; try done; lia. Qed.

(** Two blocks that are both allocated never overlap. *)
Theorem allocations_disjoint mg o1 o2 s :
  hart_ok s -> buddy_ok mg s -> order_ok o1 -> order_ok o2 ->
  wp (r1 ← kmem_alloc_pages o1; r2 ← kmem_alloc_pages o2; mret (r1, r2)) (fun '(r1, r2) _ =>
    r1 <> NULL -> r2 <> NULL -> disjoint r1 (2 ^ o1 * PAGE_SIZE) r2 (2 ^ o2 * PAGE_SIZE)) s.
Proof.
  intros Hok Hb Ho1 Ho2. wp_step. eapply wp_mono; [by apply (wp_kmem_alloc_pages mg)|]. intros r1 s1 [B1 P1].
  wp_step. eapply wp_mono; [apply (wp_kmem_alloc_pages mg); [apply B1|apply B1|done]|]. intros r2 s2 [B2 P2].
  wp_step. destruct P1 as [(-> & _)|(p & -> & _ & F1 & N1)]; [done|]. destruct P2 as [(-> & _)|(q & -> & _ & F2 & _)]; [done|].
  intros _ _. rewrite (bs_kmem _ _ _ _ B1) in *. pose proof (pow2_pos o1 (order_nonneg _ Ho1)). pose proof (pow2_pos o2 (order_nonneg _ Ho2)).
  assert (Hno : forall x, in_blk o1 p x -> in_blk o2 q x -> False).
  { intros x H1 H2. destruct (F1 x H1) as [Hx _]. destruct (F2 x H2) as [_ [_ Ha]]. rewrite N1 in Ha by done.
    rewrite bool_decide_eq_true_2, orb_true_r in Ha by (unfold in_blk in *; lia). done. }
  unfold disjoint, nd, PAGE_SIZE. pose proof (Hno p). pose proof (Hno q). unfold in_blk in *. lia.
Qed.

(** C8: from zeroed free lists and bitmaps, which have their full size and
    lie apart from each other and from the unreserved pages, the loop at the end of
    [kmem_page_manager_init] brings the allocator up: its invariant holds with
    exactly the unreserved pages managed, all of them free, every reserved
    page still marked, and nothing written but the allocator's data and
    unreserved pages. *)
Theorem free_unreserved_correct s :
  hart_ok s -> BuddyMeta (kmem s) (unreserved s) -> lock_free (mem s) page_manager_lock ->
  (forall o, order_ok o -> ld64 (mem s) (free_page_list o + 8) = NULL) ->
  (forall o j, order_ok o -> 0 <= j < blen (kmem s) o -> bit (mem s) (bmap (kmem s) o) j = false) ->
  wp free_unreserved (fun _ s' => buddy_step (unreserved s) (unreserved s) s s' /\
    forall x, page_ok (kmem s) x -> allocated s' x = allocated s x) s.
Proof. apply wp_free_unreserved. Qed.

(** The size [kmem_page_manager_init] computes for the bitmap of an order
    is too small for the pairs of that order exactly when the number of pages
    is not a multiple of the pair size and the number of whole pairs is a
    multiple of eight. *)
Theorem area_map_size_short k ord :
  order_ok ord -> 0 < num_ppn k < 2 ^ 52 ->
  area_map_size k ord < bytes k ord <-> num_ppn k mod 2 ^ (ord + 1) <> 0 /\ (num_ppn k / 2 ^ (ord + 1)) mod 8 = 0.
Proof.
  intros Ho Hn. unfold order_ok, MAX_MEM_ORDER in Ho. unfold area_map_size, bytes, blen.
  pose proof (pow2_pos (ord + 1) ltac:(lia)) as Hp. rewrite !Z.shiftr_div_pow2 by lia.
  pose proof (Z.div_mod (num_ppn k) (2 ^ (ord + 1)) ltac:(lia)) as E. pose proof (Z.mod_pos_bound (num_ppn k) (2 ^ (ord + 1)) ltac:(lia)) as Hr.
  set (t := 2 ^ (ord + 1)) in *. set (q := num_ppn k / t) in *. set (r := num_ppn k mod t) in *.
  assert (Hq : 0 <= q < 2 ^ 52) by (unfold q; split; [apply Z.div_pos; lia|apply Z.div_lt_upper_bound; nia]).
  rewrite add64_small by lia. rewrite sub64_small by lia. change (2 ^ 3) with 8.
  assert (Eb : (num_ppn k - 1) / t + 1 = if r =? 0 then q else q + 1).
  { destruct (Z.eqb_spec r 0) as [E0|E0].
    - rewrite <- (Z.div_unique (num_ppn k - 1) t (q - 1) (t - 1)); [lia|lia|nia].
    - rewrite <- (Z.div_unique (num_ppn k - 1) t q (r - 1)); [lia|lia|lia]. }
  rewrite Eb. clear Eb. destruct (Z.eqb_spec r 0); zdm.
Qed.
End spec.

(** ** The code run on a small machine *)

#[local] Existing Instance sample_layout.

Lemma kmem_alloc_pages_correct_witness :
  wp (kmem_alloc_pages 2) (fun r s' => buddy_step sample_mg (is_free sample_mg sample_ready) sample_ready s' /\
    alloc_post sample_mg sample_ready 2 r (allocated s')) sample_ready.
Proof.
  apply (kmem_alloc_pages_correct sample_mg 2 sample_ready).
  - exact sample_ready_hart.
  - exact sample_ready_buddy.
  - unfold order_ok, MAX_MEM_ORDER. lia.
Defined.

(** Sample with one block of four pages taken. *)
Definition sample_taken : kst := match kmem_alloc_pages 2 sample_ready with Ok _ s => s | _ => sample_ready end.

Lemma sample_taken_ok : hart_ok sample_taken /\ buddy_ok sample_mg sample_taken.
Proof.
  pose proof (wp_kmem_alloc_pages sample_mg 2 sample_ready sample_ready_hart sample_ready_buddy
    ltac:(unfold order_ok, MAX_MEM_ORDER; lia)) as H.
  unfold wp, sample_taken in *. destruct (kmem_alloc_pages 2 sample_ready); try done.
  destruct H as [B _]. split; apply B.
Qed.

Lemma sample_taken_kmem : kmem sample_taken = sample_kmem.
Proof. vm_compute. reflexivity. Qed.

Lemma sample_taken_page p : 4 <= p < 8 -> page_ok (kmem sample_taken) p /\ sample_mg p /\ allocated sample_taken p = true.
Proof.
  intros Hp. assert (H : p ∈ [4;5;6;7]) by (repeat rewrite elem_of_cons; lia).
  repeat (apply elem_of_cons in H as [->|H]; [split_and!; [vm_compute; split; congruence|split; [vm_compute; split; congruence|vm_compute; reflexivity]|vm_compute; reflexivity]|]).
  by apply elem_of_nil in H.
Qed.

Lemma kmem_free_page_correct_witness :
  wp (kmem_free_page (nd (kmem sample_taken) 5)) (fun _ s' =>
    buddy_step sample_mg (fun x => is_free sample_mg sample_taken x \/ x = 5) sample_taken s' /\
    forall x, page_ok (kmem sample_taken) x -> allocated s' x = allocated sample_taken x && negb (x =? 5)) sample_taken.
Proof.
  apply (kmem_free_page_correct sample_mg 5 sample_taken).
  - exact (proj1 sample_taken_ok).
  - exact (proj2 sample_taken_ok).
  - exact (proj1 (sample_taken_page 5 ltac:(lia))).
  - exact (proj1 (proj2 (sample_taken_page 5 ltac:(lia)))).
  - exact (proj2 (proj2 (sample_taken_page 5 ltac:(lia)))).
Defined.

Lemma alloc_then_free_witness :
  wp (r ← kmem_alloc_pages 3; if r =? NULL then mret tt else kmem_free_pages r (2 ^ 3))
    (fun _ s' => hart_ok s' /\ buddy_ok sample_mg s' /\
       forall x, page_ok (kmem sample_ready) x -> allocated s' x = allocated sample_ready x) sample_ready.
Proof.
  apply (alloc_then_free sample_mg 3 sample_ready).
  - exact sample_ready_hart.
  - exact sample_ready_buddy.
  - unfold order_ok, MAX_MEM_ORDER. lia.
Defined.

Lemma kmem_free_page_twice_witness :
  kmem_free_page (nd (kmem sample_ready) 3) sample_ready = Panic "kmem_free_page - freed twice".
Proof.
  apply (kmem_free_page_twice sample_mg 3 sample_ready).
  - exact sample_ready_hart.
  - exact sample_ready_buddy.
  - vm_compute. split; congruence.
  - vm_compute. reflexivity.
Defined.

Lemma kmem_alloc_pages_complete_witness : wp (kmem_alloc_pages 3) (fun r _ => r <> NULL) sample_ready.
Proof.
  apply (kmem_alloc_pages_complete sample_mg 3 8 sample_ready).
  - exact sample_ready_hart.
  - exact sample_ready_buddy.
  - unfold order_ok, MAX_MEM_ORDER. lia.
  - lia.
  - reflexivity.
  - intros x Hx. assert (H : x ∈ [8;9;10;11;12;13;14;15]) by (repeat rewrite elem_of_cons; lia).
    repeat (apply elem_of_cons in H as [->|H]; [split_and!; [vm_compute; split; congruence|split; [vm_compute; split; congruence|vm_compute; reflexivity]|vm_compute; reflexivity]|]).
    by apply elem_of_nil in H.
Defined.

Lemma kmem_free_pages_correct_witness :
  wp (kmem_free_pages (nd (kmem sample_taken) 4) 4) (fun _ s' =>
    buddy_step sample_mg (fun x => is_free sample_mg sample_taken x \/ 4 <= x < 4 + 4) sample_taken s' /\
    forall x, page_ok (kmem sample_taken) x ->
      allocated s' x = allocated sample_taken x && negb (bool_decide (4 <= x < 4 + 4))) sample_taken.
Proof.
  apply (kmem_free_pages_correct sample_mg 4 4 sample_taken).
  - exact (proj1 sample_taken_ok).
  - exact (proj2 sample_taken_ok).
  - lia.
  - lia.
  - rewrite sample_taken_kmem. simpl. lia.
  - intros x Hx. exact (proj2 (sample_taken_page x Hx)).
Defined.

Lemma allocations_disjoint_witness :
  wp (r1 ← kmem_alloc_pages 1; r2 ← kmem_alloc_pages 2; mret (r1, r2)) (fun '(r1, r2) _ =>
    r1 <> NULL -> r2 <> NULL -> disjoint r1 (2 ^ 1 * PAGE_SIZE) r2 (2 ^ 2 * PAGE_SIZE)) sample_ready.
Proof.
  apply (allocations_disjoint sample_mg 1 2 sample_ready).
  - exact sample_ready_hart.
  - exact sample_ready_buddy.
  - unfold order_ok, MAX_MEM_ORDER. lia.
  - unfold order_ok, MAX_MEM_ORDER. lia.
Defined.

Lemma free_unreserved_correct_witness :
  wp free_unreserved (fun _ s' => buddy_step (unreserved sample_fresh) (unreserved sample_fresh) sample_fresh s' /\
    forall x, page_ok (kmem sample_fresh) x -> allocated s' x = allocated sample_fresh x) sample_fresh.
Proof.
  apply (free_unreserved_correct sample_fresh).
  - exact sample_hart.
  - exact sample_meta.
  - reflexivity.
  - exact sample_heads.
  - exact sample_maps_zero.
Defined.

Lemma area_map_size_short_witness :
  area_map_size (mk_kmem_node 0x80000 17 sample_base 3 [] []) 0 < bytes (mk_kmem_node 0x80000 17 sample_base 3 [] []) 0.
Proof.
  apply (area_map_size_short (mk_kmem_node 0x80000 17 sample_base 3 [] []) 0).
  - unfold order_ok, MAX_MEM_ORDER. lia.
  - simpl. lia.
  - vm_compute. split; congruence.
Defined.
