(* ===== verification/ObjectSpec.v ===== *)
(** * What the object allocator promises

    The theorems about memory/object.c, for any page allocator that meets the
    interface of PageAlloc, with runs on the machine of Sample. *)

From S2P Require Import Prelude Memory Machine Lists Hal Lock Console Buddy BuddyMem BuddyProofs PageAlloc Object ObjectInv ObjectProofs.
From S2P Require Import BuddyInit Sample.

Section spec.
Context {L : KernelLayout} {PA : PageAllocator}.

(** C27: [kmem_object_alloc] terminates and keeps the invariants of the
    manager and of the page allocator.  It returns either NULL, and then no
    block of the manager has a free slot and nothing was allocated, or the
    address of an object that was not allocated before, joins the allocated
    ones, and overlaps none of them; the contents of all allocated objects
    are untouched and the interrupt state is restored. *)
Theorem kmem_object_alloc_correct mgr osz bl s :
  hart_can 2 s -> pa_ok s -> mgr_ok mgr osz s bl ->
  wp (kmem_object_alloc mgr) (fun r s' => quiet s s' /\ pa_ok s' /\
    exists bl', mgr_ok mgr osz s' bl' /\ alloc_result bl bl' r /\
      forall y, y ∈ objects bl -> agree (in_range (y + 24) osz) (mem s) (mem s') /\
        (r <> NULL -> disjoint r osz (y + 24) osz)) s.
Proof.
  intros Hh Hok Hm. pose proof (mk_osz _ _ _ _ Hm) as (_ & Hosz & _).
  eapply wp_mono; [by apply (wp_kmem_object_alloc mgr osz Hosz bl)|].
  intros r s' (Q & O & S & K & bl' & Hm' & Hr). split_and!; [done|done|]. exists bl'. split_and!; [done|done|].
  intros y Hy. pose proof (mk_blocks _ _ _ _ Hm) as Bs. split.
  - eapply agree_weaken; [|exact K]. intros a Ha. split; [|by apply (object_not_meta mgr osz Hosz (mem s) bl y)].
    apply (object_safe mgr osz Hosz s bl y); try done. unfold in_range in *. lia.
  - intros Hn. destruct Hr as [(-> & _)|(x & -> & Hx & P)]; [done|].
    assert (H : disjoint x (osz + 24) y (osz + 24)); [|unfold disjoint in *; lia].
    apply (objects_apart mgr osz Hosz (mem s') bl'); [apply Hm'|rewrite P; set_solver..|set_solver].
Qed.

(** C28: [kmem_object_free] on an allocated object takes exactly that object
    back, keeps both invariants, and changes no byte outside the manager's own
    data, so every object, the freed one included, keeps its contents. *)
Theorem kmem_object_free_correct mgr osz bl x s :
  hart_can 2 s -> pa_ok s -> mgr_ok mgr osz s bl -> x ∈ objects bl ->
  wp (kmem_object_free (x + 24)) (fun _ s' => quiet s s' /\ pa_ok s' /\
    agree (fun a => ~ meta mgr bl a) (mem s) (mem s') /\
    (forall y, y ∈ objects bl -> agree (in_range (y + 24) osz) (mem s) (mem s')) /\
    exists bl', mgr_ok mgr osz s' bl' /\ (objects bl ≡ₚ (x :: objects bl'))) s.
Proof.
  intros Hh Hok Hm Hx. pose proof (mk_osz _ _ _ _ Hm) as (_ & Hosz & _).
  eapply wp_mono; [by apply (wp_kmem_object_free mgr osz Hosz bl)|].
  intros [] s' (Q & O & S & K & bl' & Hm' & P). split_and!; [done|done|done| |by exists bl'].
  intros y Hy. eapply agree_weaken; [|exact K]. intros a Ha. eapply (object_not_meta mgr osz Hosz (mem s)); try done. apply Hm.
Qed.

(** Allocating an object and freeing it leaves the manager with the
    objects it had, whatever blocks it grew by in between. *)
Theorem object_alloc_then_free mgr osz bl s :
  hart_can 2 s -> pa_ok s -> mgr_ok mgr osz s bl ->
  wp (r ← kmem_object_alloc mgr; if r =? NULL then mret tt else kmem_object_free r) (fun _ s' =>
    quiet s s' /\ pa_ok s' /\ exists bl', mgr_ok mgr osz s' bl' /\ (objects bl' ≡ₚ objects bl)) s.
Proof.
  intros Hh Hok Hm. pose proof (mk_osz _ _ _ _ Hm) as (_ & Hosz & _). wp_step.
  eapply wp_mono; [by apply (wp_kmem_object_alloc mgr osz Hosz bl)|].
  intros r s1 (Q1 & O1 & _ & _ & bl1 & Hm1 & Hr). destruct Hr as [(-> & -> & _)|(x & -> & Hx & P)].
  - simpl. wp_step. split_and!; [done|done|by exists bl].
  - assert (Hin : x ∈ objects bl1) by (rewrite P; set_solver).
    destruct (objects_slot mgr osz Hosz _ _ x (mk_blocks _ _ _ _ Hm1) Hin) as (b & Hb & _ & _ & Bx).
    pose proof (bk_run _ _ _ _ (bs_each _ _ _ _ (mk_blocks _ _ _ _ Hm1) b Hb)) as (_ & _ & Hlo & _). unfold VA_KERNEL_BEGIN in Hlo.
    rewrite (proj2 (Z.eqb_neq _ NULL)) by (unfold NULL; lia).
    eapply wp_mono; [apply (wp_kmem_object_free mgr osz Hosz bl1 x s1); try done; by apply (quiet_can 2 s)|].
    intros [] s2 (Q2 & O2 & _ & _ & bl2 & Hm2 & P2). split_and!; [by etrans|done|]. exists bl2. split; [done|].
    rewrite P in P2. by apply Permutation_cons_inv in P2.
Qed.
End spec.

(** ** A manager without blocks on the sample machine *)

#[local] Existing Instance sample_layout.
#[local] Instance sample_pages : PageAllocator := buddy_pages sample_mg.

(** [kmem.object_manager] with its object size set, as after
    [kmem_object_init]. *)
Definition sample_objs : kst := set_mem (st64 (mem sample_ready) (object_manager + 8) 56) sample_ready.

Lemma sample_mgr_safe s a : kmem s = sample_kmem -> in_range object_manager 56 a -> pa_safe s a.
Proof.
  intros Ek Ha. cbn [pa_safe sample_pages buddy_pages]. unfold buddy_safe. rewrite Ek.
  unfold in_range, object_manager in Ha. cbn [sym_kmem sample_layout] in Ha. split_and!.
  - unfold in_range. cbn [sym_kmem sample_layout]. lia.
  - intros i Hi Hr. pose proof (bm_glob sample_kmem (BuddyMeta := sample_meta) i Hi). cbn [sym_kmem sample_layout] in *.
    unfold in_range, disjoint in *. lia.
  - intros p Hp _ Hr. pose proof (nd_bound sample_kmem sample_mg (BM := sample_meta) p Hp). unfold in_range, VA_KERNEL_BEGIN, PAGE_SIZE in *. lia.
Qed.

Lemma sample_objs_hart : hart_can 2 sample_objs.
Proof. split_and!; vm_compute; congruence. Qed.

Lemma sample_ready_pages : pa_ok sample_ready.
Proof. cbn [pa_ok sample_pages buddy_pages]. exact sample_ready_buddy. Qed.

Lemma kmem_set_mem m s : kmem (set_mem m s) = kmem s. Proof. done. Qed.

Lemma sample_objs_kmem : kmem sample_objs = sample_kmem.
Proof. unfold sample_objs. rewrite kmem_set_mem. exact sample_ready_kmem. Qed.

Lemma sample_objs_pages : pa_ok sample_objs.
Proof.
  apply (pa_frame sample_ready sample_objs sample_ready_pages); [unfold sample_objs; apply kmem_set_mem|].
  unfold sample_objs. rewrite set_mem_mem. apply agree_st. intros a Hr Hn. apply Hn.
  apply sample_mgr_safe; [exact sample_ready_kmem|]. unfold in_range in *. simpl in Hr. lia.
Qed.

Lemma sample_objs_mgr : mgr_ok object_manager 56 sample_objs [].
Proof.
  split.
  - vm_compute. split; congruence.
  - intros a. apply sample_mgr_safe. exact sample_objs_kmem.
  - split_and!; [vm_compute; reflexivity|lia|lia|reflexivity].
  - vm_compute. reflexivity.
  - split; [vm_compute; reflexivity|by intros b Hb%elem_of_nil|apply NoDup_nil_2|by intros b b1 Hb%elem_of_nil|by intros b Hb%elem_of_nil].
  - by intros b Hb%elem_of_nil.
Qed.

Lemma kmem_object_alloc_correct_witness :
  wp (kmem_object_alloc object_manager) (fun r s' => quiet sample_objs s' /\ pa_ok s' /\
    exists bl', mgr_ok object_manager 56 s' bl' /\ alloc_result [] bl' r /\
      forall y, y ∈ objects [] -> agree (in_range (y + 24) 56) (mem sample_objs) (mem s') /\
        (r <> NULL -> disjoint r 56 (y + 24) 56)) sample_objs.
Proof.
  apply (kmem_object_alloc_correct object_manager 56 [] sample_objs).
  - exact sample_objs_hart.
  - exact sample_objs_pages.
  - exact sample_objs_mgr.
Defined.

Lemma object_alloc_then_free_witness :
  wp (r ← kmem_object_alloc object_manager; if r =? NULL then mret tt else kmem_object_free r) (fun _ s' =>
    quiet sample_objs s' /\ pa_ok s' /\ exists bl', mgr_ok object_manager 56 s' bl' /\ (objects bl' ≡ₚ objects [])) sample_objs.
Proof.
  apply (object_alloc_then_free object_manager 56 [] sample_objs).
  - exact sample_objs_hart.
  - exact sample_objs_pages.
  - exact sample_objs_mgr.
Defined.

(** The state after one allocation, and the object it returned. *)
Definition sample_object : Z * kst := match kmem_object_alloc object_manager sample_objs with Ok r s => (r - 24, s) | _ => (0, sample_objs) end.

Lemma sample_object_run : (fst sample_object =? sample_base + PAGE_SIZE + 96) = true.
Proof. vm_compute. reflexivity. Qed.

Lemma sample_object_ok :
  let '(x, s) := sample_object in
  exists bl, hart_can 2 s /\ pa_ok s /\ mgr_ok object_manager 56 s bl /\ x ∈ objects bl.
Proof.
  pose proof (wp_kmem_object_alloc object_manager 56 ltac:(lia) [] sample_objs sample_objs_hart sample_objs_pages sample_objs_mgr) as H.
  pose proof sample_object_run as R. unfold wp, sample_object in *. destruct (kmem_object_alloc object_manager sample_objs) as [r s'| | |]; try done.
  destruct H as (Q & O & _ & _ & bl & Hm & Hr). exists bl. split_and!; [exact (quiet_can 2 _ _ Q sample_objs_hart)|done|done|].
  apply Z.eqb_eq in R. destruct Hr as [(-> & _)|(x & -> & _ & P)]; [vm_compute in R; congruence|].
  rewrite Z.add_simpl_r, P. set_solver.
Qed.

Lemma kmem_object_free_correct_witness :
  exists x s bl, x ∈ objects bl /\ wp (kmem_object_free (x + 24)) (fun _ s' => quiet s s' /\ pa_ok s' /\
    agree (fun a => ~ meta object_manager bl a) (mem s) (mem s') /\
    (forall y, y ∈ objects bl -> agree (in_range (y + 24) 56) (mem s) (mem s')) /\
    exists bl', mgr_ok object_manager 56 s' bl' /\ (objects bl ≡ₚ (x :: objects bl'))) s.
Proof.
  pose proof sample_object_ok as H. destruct sample_object as [x s]. destruct H as (bl & H1 & H2 & H3 & H4).
  exists x, s, bl. split; [exact H4|]. exact (kmem_object_free_correct object_manager 56 bl x s H1 H2 H3 H4).
Defined.
