(* ===== verification/VmemSpec.v ===== *)
(** * Properties of the page-table code

    The theorems about memory/vmem.c, for any page allocator that meets the
    interface of PageAlloc, with runs on the machine of Sample. *)

From S2P Require Import Prelude Memory Machine Lists Strings Hal Lock Console Csr Buddy BuddyMem BuddyInv BuddyProofs PageAlloc.
From S2P Require Import Vmem PageTable VmemProofs UserCopy Reap Sample.

Section spec.
Context {L : KernelLayout} {C : Code} {PA : PageAllocator}.

(** C30: on a table of three levels without large pages, as the kernel builds
    them after the boot table, [vm_translate] agrees with the hardware:
    whenever the Sv39 walk translates an address, the result is the direct-map
    address of the same physical byte.  The converse fails: the result is NULL
    only when a whole leaf table is missing; an unmapped page whose leaf table
    exists translates to the direct map of physical page 0. *)
Theorem vm_translate_sv39 root va s :
  pa_ok s -> pt_ok s root ->
  wp (vm_translate root va) (fun r s' => s' = s /\
    (forall pa, sv39 2 (mem s) root va = Some pa -> r = PMA_PA2VA pa) /\
    (r = NULL <-> reach (mem s) root (vpn_path va) = None) /\
    (forall t, reach (mem s) root (vpn_path va) = Some t -> pt_entry (mem s) t (VA_GET_PN 0 va) = 0 -> r = PMA_PA2VA (va mod 4096))) s.
Proof.
  intros Hpa Hpt. apply wp_translate; [done|done|]. rewrite (sv39_mapped root s va Hpt), offset_mask. unfold mapped.
  destruct (reach (mem s) root (vpn_path va)) as [t|] eqn:Et; [|split_and!; try done].
  assert (Hnn : PMA_PA2VA (PTE_PA (pt_entry (mem s) t (VA_GET_PN 0 va)) |l (va mod 4096)) <> NULL).
  { unfold PMA_PA2VA, NULL. rewrite Z.lor_eq_0_iff. intros [_ E]. discriminate E. }
  split_and!; [done| |split; [intros E; by apply Hnn in E|done]|].
  - intros pa E. simpl in E. unfold leaf in E. set (e := pt_entry _ _ _) in *. destruct (has e PTE_FLAG_V); [|done]. simpl in E.
    destruct (_ || _); [done|]. injection E as <-. f_equal. apply (lor_add_disjoint _ _ 12); [lia|zdm|apply PTE_PA_aligned].
  - intros t' [= <-] ->. done.
Qed.

(** C31: mapping a range none of whose pages is mapped to a page-aligned
    physical address refines the update of
    the abstract mapping: every page of the range up to some point is mapped
    to the corresponding physical page with the given flags, the meaning of
    every other address is kept, and everything outside the table's own pages
    is untouched.  The result 0 says the whole range is mapped, -1 that the
    allocator ran out of pages on the way. *)
Theorem vm_mappages_correct root va pa siz flags s :
  let v0 := va - va mod 4096 in let v1 := va + siz + 4095 - (va + siz + 4095) mod 4096 in
  hart_ok s -> pa_ok s -> pt_ok s root -> 0 <= va -> 0 < siz -> v1 <= 2 ^ 39 ->
  0 <= pa -> pa mod 4096 = 0 -> pa + siz < 2 ^ 55 -> 0 <= flags < 1024 ->
  (forall v, v0 <= v < v1 -> mapped (mem s) root v = None) ->
  wp (vm_mappages root va pa siz flags) (fun r s' => pt_step root s s' /\
    exists v, v0 <= v <= v1 /\ v mod 4096 = 0 /\ (r = 0 /\ v = v1 \/ r = -1 /\ v < v1) /\
      forall va', 0 <= va' < 2 ^ 39 ->
        (v0 <= va' < v -> exists e, mapped (mem s') root va' = Some e /\ PTE_PA e = pa + (va' - v0) / 4096 * 4096 /\ e &l 1023 = PTE_FLAG_V |l flags) /\
        (~ v0 <= va' < v -> mapped (mem s') root va' = mapped (mem s) root va')) s.
Proof.
  intros v0 v1 Hh Hpa Hpt Hva Hsz Hv1 Hp Hpm Hps Hf Hun. apply wp_mappages; try done. intros r s' v ST Hv Hvm Hr Hm.
  fold v0 in Hv, Hm. fold v1 in Hv, Hr. split; [done|]. exists v. split_and!; try done; try lia. intros va' Hva'. rewrite (Hm va' Hva'). unfold map_range. split.
  - intros Hin. rewrite (proj2 (Z.leb_le _ _)), (proj2 (Z.ltb_lt _ _)) by lia. simpl.
    assert (Hb : 0 <= pa + (va' - v0) / 4096 * 4096 < 2 ^ 56).
    { unfold v0, v1 in *. zdm. }
    destruct (leaf_pte_spec _ flags Hb Hf) as (_ & _ & E1 & E2). eexists. split_and!; [done| |done]. etrans; [exact E1|]. zdm.
  - intros Hout. destruct (Z.leb_spec v0 va'), (Z.ltb_spec va' v); simpl; done || lia.
Qed.

(** C32: mapping a free range and unmapping it again gives every address its
    old meaning back, whatever tables were added on the way. *)
Theorem map_then_unmap root va pa n flags s :
  hart_ok s -> pa_ok s -> pt_ok s root -> 0 <= va -> va mod 4096 = 0 -> 0 < n -> va + 4096 * n <= 2 ^ 39 ->
  0 <= pa -> pa + 4096 * n < 2 ^ 55 -> 0 <= flags < 1024 -> flags <> 0 -> flags &l PTE_FLAG_V = 0 ->
  (forall v, va <= v < va + 4096 * n -> mapped (mem s) root v = None) ->
  wp (r ← vm_mappages root va pa (4096 * n) flags; when (r =? 0) (vm_unmappages root va n false);; mret r) (fun r s' =>
    (r = 0 \/ r = -1) /\ pt_step root s s' /\
    (r = 0 -> forall va', 0 <= va' < 2 ^ 39 -> mapped (mem s') root va' = mapped (mem s) root va')) s.
Proof.
  intros Hh Hpa Hpt Hva Hal Hn Hv1 Hp Hps Hf Hf0 HfV Hun. wp_step.
  assert (E0 : va - va mod 4096 = va) by lia.
  assert (E1 : va + 4096 * n + 4095 - (va + 4096 * n + 4095) mod 4096 = va + 4096 * n) by zdm.
  apply wp_mappages; rewrite ?E0, ?E1; try done; try lia. intros r s1 v ST Hv Hvm Hr Hm. wp_step.
  destruct Hr as [[-> ->]|[-> _]]; [|cbn; wp_steps; split_and!; [by right|done|done]]. change (0 =? 0) with true. unfold when.
  assert (Hin : forall w, va <= w < va + 4096 * n -> map_range va (va + 4096 * n) pa flags (mapped (mem s) root) w =
    Some (leaf_pte (pa + (w - va) / 4096 * 4096) flags)).
  { intros w Hw. unfold map_range. by rewrite (proj2 (Z.leb_le _ _)), (proj2 (Z.ltb_lt _ _)) by lia. }
  apply wp_unmappages; try done; try lia; [apply ST|apply ST| |].
  - intros w Hw. rewrite Hm, Hin by lia. eexists. split; [done|].
    destruct (leaf_pte_spec (pa + (w - va) / 4096 * 4096) flags ltac:(zdm) Hf) as (_ & _ & _ & ->). intros E.
    apply Hf0. apply Z.bits_inj'. intros i Hi. rewrite Z.bits_0.
    apply (f_equal (fun z => Z.testbit z i)) in E. apply (f_equal (fun z => Z.testbit z i)) in HfV.
    rewrite Z.lor_spec in E. rewrite Z.land_spec, Z.bits_0 in HfV.
    destruct (Z.testbit PTE_FLAG_V i), (Z.testbit flags i); done.
  - intros s2 ST2 Hm2. wp_step. split_and!; [by left|by eapply pt_step_trans|]. intros _ va' Hva'. rewrite Hm2 by done. unfold unmap_range.
    destruct (Z.leb_spec va va'), (Z.ltb_spec va' (va + 4096 * n)); simpl; rewrite ?Hm by done; unfold map_range.
    1: by rewrite Hun.
    all: rewrite ?(proj2 (Z.leb_gt va va')), ?(proj2 (Z.ltb_ge va' (va + 4096 * n))), ?andb_false_r by lia; done.
Qed.

(** The address with the given indices. *)
Definition va_of (i2 i1 i0 : Z) : Z := (i2 * 512 * 512 + i1 * 512 + i0) * 4096.

Lemma va_of_spec i2 i1 i0 : index i2 -> index i1 -> index i0 ->
  0 <= va_of i2 i1 i0 < 2 ^ 39 /\ vpn_path (va_of i2 i1 i0) = [i2; i1] /\ VA_GET_PN 0 (va_of i2 i1 i0) = i0.
Proof.
  unfold index, va_of, vpn_path. intros H2 H1 H0. rewrite !VA_GET_PN_spec by lia.
  change (2 ^ (9 * 2 + 12)) with (4096 * (512 * 512)). change (2 ^ (9 * 1 + 12)) with (4096 * 512). change (2 ^ (9 * 0 + 12)) with 4096.
  assert (D : forall z k, 0 < k -> z * 4096 / (4096 * k) = z / k) by (intros; rewrite (Z.mul_comm 4096 k); apply Z.div_mul_cancel_r; lia).
  rewrite !D, Z.div_mul by lia.
  assert (E2 : (i2 * 512 * 512 + i1 * 512 + i0) / (512 * 512) = i2) by (symmetry; apply (Z.div_unique _ _ _ (i1 * 512 + i0)); lia).
  assert (E1 : (i2 * 512 * 512 + i1 * 512 + i0) / 512 = i2 * 512 + i1) by (symmetry; apply (Z.div_unique _ _ _ i0); lia).
  rewrite E2, E1. split_and!; [lia|lia| |].
  - repeat f_equal; [by apply Z.mod_small|]. rewrite Z.add_comm, Z.mod_add by lia. by apply Z.mod_small.
  - replace (i2 * 512 * 512 + i1 * 512 + i0) with (i0 + (i2 * 512 + i1) * 512) by lia. rewrite Z.mod_add by lia. by apply Z.mod_small.
Qed.

Lemma empty_tree root s : pt_ok s root -> (forall va, 0 <= va < 2 ^ 39 -> mapped (mem s) root va = None) -> tree_ok 2 s root.
Proof.
  intros Hpt Hun. split; [apply (pt_inj s root Hpt)|apply (pt_own s root Hpt)|apply (pt_inner s root Hpt)|].
  intros p z i Hl Hf E Hi. destruct p as [|i2 [|i1 [|]]]; try done. apply Forall_cons in Hf as [H2 Hf]. apply Forall_cons in Hf as [H1 _].
  destruct (va_of_spec i2 i1 i H2 H1 Hi) as (Hb & Ep & E0). specialize (Hun _ Hb). unfold mapped in Hun. rewrite Ep, E, E0 in Hun. simpl in Hun.
  unfold leaf in Hun. by destruct (has _ _).
Qed.

(** C33: [vm_reap_pagetable] on a table in which no page is mapped any more
    returns, and gives back to the page allocator exactly the pages of the
    table and its subtables; no other memory changes and whatever else was
    allocated stays so. *)
Theorem vm_reap_pagetable_correct root s :
  hart_ok s -> pa_ok s -> pt_ok s root -> (forall va, 0 <= va < 2 ^ 39 -> mapped (mem s) root va = None) ->
  wp (vm_reap_pagetable root) (fun _ s' => quiet s s' /\ pa_ok s' /\
    agree (fun a => pa_safe s a /\ ~ in_tables (mem s) root a) (mem s) (mem s') /\
    (forall a, pa_safe s' a <-> pa_safe s a /\ ~ in_tables (mem s) root a) /\
    (forall r n, pa_owned s r n -> (forall a, run_at r n a -> ~ in_tables (mem s) root a) -> pa_owned s' r n)) s.
Proof.
  intros Hh Hpa Hpt Hun. apply (wp_reap_pagetable 2); try done; [lia|by apply empty_tree|].
  intros s' [Q1 O1 M1 S1 W1]. split_and!; try done. eapply agree_weaken; [|exact M1]. intros a [H1 H2]. split_and!; [done|exact H2|tauto].
Qed.

(** No byte of the user's range shares its memory with another user byte, or
    with the [n] bytes at [src]. *)
Definition unshared (s : kst) (root va k src n : Z) : Prop := forall v, va <= v < va + k ->
  ~ in_range src n (va_addr (mem s) root v) /\
  forall v', 0 <= v' < 2 ^ 39 -> user_addr (mem s) root v' = Some (va_addr (mem s) root v) \/
    va <= v' < va + k /\ va_addr (mem s) root v' = va_addr (mem s) root v -> v' = v.

(** C16: [vm_memcpyout] of [n] bytes copies up to the first address for which
    the walk finds no leaf table ([k] bytes of [n]) and says whether that was
    all.  Each byte is written, in increasing order, to the address
    [vm_translate] gives, and nothing else is, which is where the user program
    sees it if the page is mapped; the entry of an address that is not mapped,
    in a table that has others, is taken at its word (an empty one leads to
    physical page 0), and the call succeeds all the same.  The addresses
    written must not hold page tables or the allocator's data.  If no two user
    addresses share one of the bytes written and the source is apart, the
    program finds the source's bytes at the mapped addresses of the range, and
    every other user byte is what it was. *)
Theorem vm_memcpyout_correct root vdst src n k s :
  pa_ok s -> pt_ok s root -> user_range s root vdst n k -> PAGE_SIZE <= src -> src + n < 2 ^ 64 ->
  (forall v, vdst <= v < vdst + k -> data_addr s root (va_addr (mem s) root v)) ->
  wp (vm_memcpyout root vdst src n) (fun r s' => s' = set_mem (mem s') s /\ pa_ok s' /\ pt_ok s' root /\ r = (if k =? n then 0 else -1) /\
    mem s' = copy_bytes (fun i => va_addr (mem s) root (vdst + i)) (fun i => src + i) (Z.to_nat k) (mem s) /\
    (forall v a, user_addr (mem s) root v = Some a -> va_addr (mem s) root v = a) /\
    (unshared s root vdst k src n -> forall v, 0 <= v < 2 ^ 39 -> user_byte (mem s') root v =
       if (vdst <=? v) && (v <? vdst + k) then _ ← user_addr (mem s) root v; Some (ldb (mem s) (src + (v - vdst)))
       else user_byte (mem s) root v)) s.
Proof.
  intros Hpa Hpt R Hs Hs' Hd. pose proof R as [Hk Hva _ _].
  apply (wp_memcpyout root vdst src n k); [done|done|done|done|done|intros i Hi; apply Hd; lia|]. intros m' O T A.
  split_and!; [done|done|done|done|done|intros v a; by apply va_addr_user|]. intros Hu v Hv. cbn [mem set_mem].
  destruct (copy_bytes_copied (fun i => va_addr (mem s) root (vdst + i)) (fun i => src + i) (Z.to_nat k) (mem s)) as [Hnew Hold].
  { intros i j Hi Hj. rewrite Z2Nat.id in Hj by lia. destruct (Hu (vdst + i) ltac:(lia)) as [Hn Hx]. split; [|intros E; apply Hn; rewrite <- E; unfold in_range; lia].
    intros E. assert (vdst + j = vdst + i); [|lia]. apply Hx; [lia|right]. split; [lia|]. by rewrite E. }
  fold m' in Hnew, Hold. rewrite Z2Nat.id in Hnew, Hold by lia. unfold user_byte. rewrite A.
  destruct (user_addr (mem s) root v) as [a|] eqn:E; [|by destruct (_ && _)]. pose proof (va_addr_user root s v a Hpt E) as Ea. simpl.
  destruct (Z.leb_spec vdst v) as [H1|H1], (Z.ltb_spec v (vdst + k)) as [H2|H2]; cbn [andb].
  1: { pose proof (Hnew (v - vdst) ltac:(lia)) as En. cbv beta in En. replace (vdst + (v - vdst)) with v in En by lia. rewrite Ea in En. by rewrite En. }
  all: f_equal; apply Hold; intros i Hi ->; destruct (Hu (vdst + i) ltac:(lia)) as [_ Hx]; specialize (Hx v Hv (or_introl E)); lia.
Qed.

(** C21: [vm_memcpyin] of [n] bytes copies up to the first address for which
    the walk finds no leaf table ([k] bytes of [n]) and says whether that was
    all.  Each byte is read, in increasing order, from the address
    [vm_translate] gives, and nothing but the first [k] bytes of the
    destination is written; the entry of an address that is not mapped, in a
    table that has others, is taken at its word (an empty one leads to
    physical page 0), and the call succeeds all the same.  If the destination
    is apart from the bytes read, it holds what the user program has at the
    mapped addresses of the range.  The destination must not hold page tables
    or the allocator's data. *)
Theorem vm_memcpyin_correct root dst vsrc n k s :
  pa_ok s -> pt_ok s root -> user_range s root vsrc n k -> 0 <= dst -> dst + n < 2 ^ 64 ->
  (forall i, 0 <= i < k -> data_addr s root (dst + i)) ->
  wp (vm_memcpyin root dst vsrc n) (fun r s' => s' = set_mem (mem s') s /\ pa_ok s' /\ pt_ok s' root /\ r = (if k =? n then 0 else -1) /\
    mem s' = copy_bytes (fun i => dst + i) (fun i => va_addr (mem s) root (vsrc + i)) (Z.to_nat k) (mem s) /\
    agree (fun a => ~ in_range dst k a) (mem s) (mem s') /\
    ((forall v, vsrc <= v < vsrc + k -> ~ in_range dst n (va_addr (mem s) root v)) ->
     forall i b, 0 <= i < k -> user_byte (mem s) root (vsrc + i) = Some b -> ldb (mem s') (dst + i) = b)) s.
Proof.
  intros Hpa Hpt R Hs Hs' Hd. pose proof R as [Hk Hva _ _].
  apply (wp_memcpyin root dst vsrc n k); [done..|]. intros m' O T A. split_and!; [done|done|done|done|done| |]; cbn [mem set_mem].
  - eapply agree_weaken; [|apply copy_bytes_agree]. rewrite Z2Nat.id by lia. unfold in_range. intros a Ha i Hi ->. lia.
  - intros Hn i b Hi Hb. destruct (copy_bytes_copied (fun i => dst + i) (fun i => va_addr (mem s) root (vsrc + i)) (Z.to_nat k) (mem s)) as [Hnew _].
    { intros i' j Hi' Hj. split; [lia|]. rewrite Z2Nat.id in Hj by lia. intros E. apply (Hn (vsrc + j)); [lia|]. rewrite E. unfold in_range. lia. }
    unfold m'. rewrite Hnew by lia. unfold user_byte in Hb. destruct (user_addr (mem s) root (vsrc + i)) as [a|] eqn:E; [|done].
    rewrite (va_addr_user root s _ a Hpt E). by injection Hb.
Qed.

(** A page of data mapped at the start of user memory, in a table of its
    own. *)
Definition user_page : M (Z * Z * Z) :=
  data ← kmem_alloc_pages 0; root ← kmem_alloc_pages 0;
  if (data =? NULL) || (root =? NULL) then mret (data, root, -1) else
  memset root 0 PAGE_SIZE;;
  r ← vm_mappages root VA_USER_BEGIN (PMA_VA2PA data) 4096 (PTE_FLAG_R |l PTE_FLAG_W |l PTE_FLAG_U); mret (data, root, r).

Record one_page (s : kst) (root data : Z) : Prop := {
  op_pa : pa_ok s;
  op_pt : pt_ok s root;
  op_run : page_run data 1;
  op_data i : 0 <= i < 4096 -> data_addr s root (data + i);
  op_addr v : 0 <= v < 2 ^ 39 -> user_addr (mem s) root v =
    if (VA_USER_BEGIN <=? v) && (v <? VA_USER_BEGIN + 4096) then Some (data + (v - VA_USER_BEGIN)) else None;
}.

Lemma wp_user_page s : hart_ok s -> pa_ok s -> wp user_page (fun '(data, root, r) s' => r = 0 -> one_page s' root data) s.
Proof.
  intros Hh Hpa. assert (Hc : forall s', quiet s s' -> hart_ok s') by (intros s' Q; exact (quiet_can 1 _ _ Q Hh)).
  assert (Ho : order_ok 0) by (unfold order_ok, MAX_MEM_ORDER; lia). unfold user_page.
  wp_step. eapply wp_mono; [exact (pa_alloc 0 s Hh Hpa Ho)|]. intros data s1 (Q1 & O1 & _ & _ & _ & D1).
  wp_step. eapply wp_mono; [exact (pa_alloc 0 s1 (Hc s1 Q1) O1 Ho)|].
  intros root s2 (Q2 & O2 & _ & S2 & W2 & D2). change (2 ^ 0) with 1 in *.
  destruct (Z.eqb_spec data NULL) as [|Nd]; [by wp_step|]. destruct (Z.eqb_spec root NULL) as [|Nr]; [by wp_step|]. cbn [orb].
  destruct D1 as [?|[D1 _]]; [done|]. destruct D2 as [?|[D2 F2]]; [done|].
  pose proof (pa_run s1 data 1 O1 D1) as Rd. pose proof (pa_run s2 root 1 O2 D2) as Rr.
  pose proof Rd as (_ & Md & Bd & Ud). pose proof Rr as (_ & _ & Br & Ur).
  wp_step. apply wp_memset; [unfold VA_KERNEL_BEGIN, PAGE_SIZE in *; lia|unfold PAGE_SIZE; lia|]. intros m3 Hm3.
  destruct (fresh_table s2 root m3 O2 D2 Hm3) as (O3 & T3 & N3 & X3 & W3). set (s3 := set_mem m3 s2) in *.
  assert (Q3 : quiet s s3) by (etrans; [exact Q1|]; etrans; [exact Q2|]; apply quiet_set_mem). wp_step.
  rewrite <- (Z.sub_add VA_KERNEL_BEGIN data) at 1. rewrite PMA_VA2PA_spec by (unfold VA_KERNEL_BEGIN, PAGE_SIZE in *; lia).
  set (pa := data - VA_KERNEL_BEGIN). assert (Hp : 0 <= pa < 2 ^ 37 - 4095) by (unfold pa, PAGE_SIZE in *; lia).
  assert (Mp : pa mod 4096 = 0) by (unfold pa, VA_KERNEL_BEGIN, PAGE_SIZE in *; zdm).
  apply wp_mappages; [by apply Hc|exact O3|exact T3|unfold VA_USER_BEGIN; lia|lia|vm_compute; congruence|lia|lia|vm_compute; split; congruence|auto|].
  intros r s' v ST Hv Hvm Hr Hm. wp_step. intros ->. destruct Hr as [[_ ->]|[? _]]; [|done].
  assert (Hsafe : forall a, in_range data PAGE_SIZE a -> pa_safe s3 a).
  { intros a Ha. apply (pa_owned_safe s3 data 1); [done|by apply W3, W2|]. unfold run_at. by rewrite Z.mul_1_l. }
  split; [apply ST|apply ST|done| |].
  - intros i Hi. assert (Hin : in_range data PAGE_SIZE (data + i)) by (unfold in_range, PAGE_SIZE; lia).
    split_and!; [unfold VA_KERNEL_BEGIN, PAGE_SIZE in *; lia|by apply ST, Hsafe|]. intros (x & Hx & Ha).
    destruct (vs_new _ _ _ ST x Hx) as [Hx'|Hx']; [|by apply (Hx' _ Ha), Hsafe].
    rewrite (X3 x Hx') in Ha. apply (F2 (data + i)); [unfold run_at; by rewrite Z.mul_1_l|].
    apply (pa_owned_safe s1 data 1); [done|done|]. unfold run_at. by rewrite Z.mul_1_l.
  - intros w Hw. unfold user_addr. rewrite (sv39_mapped root s' w) by apply ST. rewrite Hm by done. unfold map_range. rewrite N3.
    change (VA_USER_BEGIN - VA_USER_BEGIN mod 4096) with VA_USER_BEGIN.
    change (VA_USER_BEGIN + 4096 + 4095 - (VA_USER_BEGIN + 4096 + 4095) mod 4096) with (VA_USER_BEGIN + 4096).
    destruct (Z.leb_spec VA_USER_BEGIN w) as [H1|H1], (Z.ltb_spec w (VA_USER_BEGIN + 4096)) as [H2|H2]; try done. cbn [andb].
    rewrite (Z.div_small (w - VA_USER_BEGIN)), Z.mul_0_l, Z.add_0_r by lia. unfold leaf_pte. rewrite <- Z.lor_assoc.
    set (f := PTE_FLAG_V |l (PTE_FLAG_R |l PTE_FLAG_W |l PTE_FLAG_U)). assert (Hf : 0 <= f < 1024) by (vm_compute; split; congruence).
    cbn [mbind option_bind]. rewrite !(pte_has pa f) by (try done; lia). cbn [has]. change (_ || _) with false. cbn [mbind option_bind].
    rewrite pte_pa, Mp, Z.sub_0_r by lia. rewrite PMA_PA2VA_spec by (pose proof (Z.mod_pos_bound w 4096 ltac:(lia)); lia). f_equal.
    assert (Ew : w mod 4096 = w - VA_USER_BEGIN) by (symmetry; apply (Z.mod_unique_pos _ _ 512); unfold VA_USER_BEGIN in *; lia).
    unfold pa. lia.
Qed.
End spec.

(** ** Runs on the machine of Sample *)

#[local] Existing Instance sample_layout.
#[local] Instance sample_vm_pages : PageAllocator := buddy_pages sample_mg.
#[local] Instance no_drivers : Code := fun _ _ => hang.

(** A page from the allocator; zeroed, it is an empty table. *)
Definition sample_page : Z * kst := match kmem_alloc_pages 0 sample_ready with Ok r s => (r, s) | _ => (0, sample_ready) end.
Lemma sample_page_run : (fst sample_page =? sample_base + PAGE_SIZE) = true.
Proof. vm_compute. reflexivity. Qed.

Lemma sample_vm_ok : pa_ok sample_ready.
Proof. cbn [pa_ok sample_vm_pages buddy_pages]. exact sample_ready_buddy. Qed.

Lemma sample_vm_hart : hart_can 1 sample_ready.
Proof. unfold hart_can. pose proof sample_ready_hart as H. unfold hart_ok in H. exact H. Qed.

Lemma sample_page_ok : hart_ok (snd sample_page) /\ pa_ok (snd sample_page) /\ pa_owned (snd sample_page) (fst sample_page) 1.
Proof.
  assert (Ho : order_ok 0) by (unfold order_ok, MAX_MEM_ORDER; lia).
  pose proof sample_page_run as R. pose proof (pa_alloc 0 sample_ready sample_ready_hart sample_vm_ok Ho) as H.
  unfold wp, sample_page in *. destruct (kmem_alloc_pages 0 sample_ready) as [r s| | |]; try done.
  destruct H as (Q1 & O1 & _ & _ & _ & Hr). cbn [fst snd] in *. split_and!; [exact (quiet_can 1 _ _ Q1 sample_vm_hart)|exact O1|].
  apply Z.eqb_eq in R. destruct Hr as [->|[Hw _]]; [vm_compute in R; congruence|exact Hw].
Qed.

Lemma sample_table_ok : exists root s, hart_ok s /\ pa_ok s /\ pt_ok s root /\ forall va, mapped (mem s) root va = None.
Proof.
  destruct sample_page_ok as (Hh & Hpa & Ho). revert Hh Hpa Ho. generalize (fst sample_page) (snd sample_page). intros r s1 Hh Hpa Ho.
  assert (H : wp (memset r 0 PAGE_SIZE) (fun _ s => hart_ok s /\ pa_ok s /\ pt_ok s r /\ forall va, mapped (mem s) r va = None) s1).
  { destruct (pa_run s1 r 1 Hpa Ho) as (_ & _ & H1 & H2).
    apply wp_memset; [unfold VA_KERNEL_BEGIN, PAGE_SIZE in *; lia|unfold PAGE_SIZE; lia|]. intros m' Hm'.
    destruct (fresh_table s1 r m' Hpa Ho Hm') as (F1 & F2 & F3 & _). split_and!; try done; exact (quiet_can 1 _ _ (quiet_set_mem m' s1) Hh). }
  apply wp_iff in H as (r' & s & _ & H). by exists r, s.
Qed.

Lemma vm_translate_sv39_witness : exists root s,
  wp (vm_translate root VA_USER_BEGIN) (fun r s' => s' = s /\
    (forall pa, sv39 2 (mem s) root VA_USER_BEGIN = Some pa -> r = PMA_PA2VA pa) /\
    (r = NULL <-> reach (mem s) root (vpn_path VA_USER_BEGIN) = None) /\
    (forall t, reach (mem s) root (vpn_path VA_USER_BEGIN) = Some t -> pt_entry (mem s) t (VA_GET_PN 0 VA_USER_BEGIN) = 0 ->
       r = PMA_PA2VA (VA_USER_BEGIN mod 4096))) s.
Proof.
  destruct sample_table_ok as (root & s & H1 & H2 & H3 & H4).
  exists root, s. exact (vm_translate_sv39 root VA_USER_BEGIN s H2 H3).
Defined.

Lemma vm_mappages_correct_witness : exists root s,
  wp (vm_mappages root VA_USER_BEGIN 0x80003000 8192 (PTE_FLAG_R |l PTE_FLAG_U)) (fun r s' => pt_step root s s' /\
    exists v, VA_USER_BEGIN <= v <= VA_USER_BEGIN + 8192 /\ v mod 4096 = 0 /\
      (r = 0 /\ v = VA_USER_BEGIN + 8192 \/ r = -1 /\ v < VA_USER_BEGIN + 8192) /\
      forall va', 0 <= va' < 2 ^ 39 ->
        (VA_USER_BEGIN <= va' < v -> exists e, mapped (mem s') root va' = Some e /\
           PTE_PA e = 0x80003000 + (va' - VA_USER_BEGIN) / 4096 * 4096 /\ e &l 1023 = PTE_FLAG_V |l (PTE_FLAG_R |l PTE_FLAG_U)) /\
        (~ VA_USER_BEGIN <= va' < v -> mapped (mem s') root va' = mapped (mem s) root va')) s.
Proof.
  destruct sample_table_ok as (root & s & H1 & H2 & H3 & H4). exists root, s.
  exact (vm_mappages_correct root VA_USER_BEGIN 0x80003000 8192 (PTE_FLAG_R |l PTE_FLAG_U) s H1 H2 H3
    ltac:(unfold VA_USER_BEGIN; lia) ltac:(lia) ltac:(vm_compute; congruence) ltac:(lia) eq_refl ltac:(lia)
    ltac:(vm_compute; split; congruence) (fun v _ => H4 v)).
Defined.

Lemma map_then_unmap_witness : exists root s,
  wp (r ← vm_mappages root VA_USER_BEGIN 0x80003000 (4096 * 2) PTE_FLAG_R;
      when (r =? 0) (vm_unmappages root VA_USER_BEGIN 2 false);; mret r) (fun r s' =>
    (r = 0 \/ r = -1) /\ pt_step root s s' /\
    (r = 0 -> forall va', 0 <= va' < 2 ^ 39 -> mapped (mem s') root va' = mapped (mem s) root va')) s.
Proof.
  destruct sample_table_ok as (root & s & H1 & H2 & H3 & H4). exists root, s.
  exact (map_then_unmap root VA_USER_BEGIN 0x80003000 2 PTE_FLAG_R s H1 H2 H3
    ltac:(unfold VA_USER_BEGIN; lia) eq_refl ltac:(lia) ltac:(unfold VA_USER_BEGIN; lia) ltac:(lia) ltac:(lia)
    ltac:(unfold PTE_FLAG_R; lia) ltac:(unfold PTE_FLAG_R; lia) eq_refl (fun v _ => H4 v)).
Defined.

Lemma vm_reap_pagetable_correct_witness : exists root s,
  wp (vm_reap_pagetable root) (fun _ s' => quiet s s' /\ pa_ok s' /\
    agree (fun a => pa_safe s a /\ ~ in_tables (mem s) root a) (mem s) (mem s') /\
    (forall a, pa_safe s' a <-> pa_safe s a /\ ~ in_tables (mem s) root a) /\
    (forall r n, pa_owned s r n -> (forall a, run_at r n a -> ~ in_tables (mem s) root a) -> pa_owned s' r n)) s.
Proof.
  destruct sample_table_ok as (root & s & H1 & H2 & H3 & H4). exists root, s.
  exact (vm_reap_pagetable_correct root s H1 H2 H3 (fun v _ => H4 v)).
Defined.


Lemma sample_user_run : match user_page sample_ready with Ok (_, _, r) _ => r =? 0 | _ => false end = true.
Proof. vm_compute. reflexivity. Qed.

Lemma sample_user_ok : exists root data s, one_page s root data.
Proof.
  pose proof sample_user_run as R. pose proof (wp_user_page sample_ready sample_ready_hart sample_vm_ok) as H.
  unfold wp in H. destruct (user_page sample_ready) as [[[data root] r] s| | |]; try done. exists root, data, s. apply H. by apply Z.eqb_eq.
Qed.

(** The range of the page that starts at offset [i]. *)
Lemma one_page_at s root data v : one_page s root data -> VA_USER_BEGIN <= v < VA_USER_BEGIN + 4096 ->
  user_addr (mem s) root v = Some (data + (v - VA_USER_BEGIN)).
Proof. intros H Hv. rewrite (op_addr _ _ _ H) by (unfold VA_USER_BEGIN in *; lia). by rewrite (proj2 (Z.leb_le _ _)), (proj2 (Z.ltb_lt _ _)) by lia. Qed.

Lemma one_page_va s root data v : one_page s root data -> VA_USER_BEGIN <= v < VA_USER_BEGIN + 4096 ->
  va_addr (mem s) root v = data + (v - VA_USER_BEGIN).
Proof. intros H Hv. apply va_addr_user; [apply H|by apply one_page_at]. Qed.

Lemma one_page_range s root data i n : one_page s root data -> 0 <= i -> 0 <= n -> i + n <= 4096 -> user_range s root (VA_USER_BEGIN + i) n n.
Proof.
  intros H Hi Hn Hin. split; [lia|unfold VA_USER_BEGIN; lia| |lia].
  intros v Hv. eapply user_addr_reach; [apply H|]. apply (one_page_at s root data); [done|lia].
Qed.

Lemma one_page_addr s root data v a : one_page s root data -> 0 <= v < 2 ^ 39 -> user_addr (mem s) root v = Some a ->
  a = data + (v - VA_USER_BEGIN) /\ VA_USER_BEGIN <= v < VA_USER_BEGIN + 4096.
Proof.
  intros H Hv. rewrite (op_addr _ _ _ H) by done. destruct (Z.leb_spec VA_USER_BEGIN v), (Z.ltb_spec v (VA_USER_BEGIN + 4096)); try done.
  intros [= <-]. done.
Qed.

Lemma vm_memcpyout_correct_witness : exists root s r s', vm_memcpyout root (VA_USER_BEGIN + 8) 0x10000 16 s = Ok r s' /\ r = 0 /\
  user_byte (mem s') root (VA_USER_BEGIN + 9) = Some (ldb (mem s) 0x10001).
Proof.
  destruct sample_user_ok as (root & data & s & H). destruct (op_run _ _ _ H) as (_ & _ & Hb & _).
  pose proof (vm_memcpyout_correct root (VA_USER_BEGIN + 8) 0x10000 16 16 s (op_pa _ _ _ H) (op_pt _ _ _ H) (one_page_range s root data 8 16 H ltac:(lia) ltac:(lia) ltac:(lia))
    ltac:(unfold PAGE_SIZE; lia) ltac:(lia)) as W.
  assert (A : wp (vm_memcpyout root (VA_USER_BEGIN + 8) 0x10000 16) (fun r s' => r = 0 /\ user_byte (mem s') root (VA_USER_BEGIN + 9) = Some (ldb (mem s) 0x10001)) s).
  { eapply wp_mono; [apply W|].
    - intros v Hv. rewrite (one_page_va s root data v H) by lia. apply (op_data _ _ _ H). lia.
    - intros r s' (_ & _ & _ & -> & _ & _ & U). split; [done|]. rewrite U; [|intros v Hv; rewrite (one_page_va s root data v H) by lia; split|unfold VA_USER_BEGIN; lia].
      + by rewrite (one_page_at s root data _ H) by lia.
      + unfold in_range, VA_KERNEL_BEGIN in *. lia.
      + intros v' Hv' [E|[Hr E]]; [destruct (one_page_addr s root data v' _ H Hv' E); lia|]. rewrite (one_page_va s root data v' H) in E by lia. lia. }
  apply wp_iff in A as (r & s' & E & A). by exists root, s, r, s'.
Defined.

Lemma vm_memcpyin_correct_witness : exists root dst s r s', vm_memcpyin root dst (VA_USER_BEGIN + 8) 16 s = Ok r s' /\ r = 0 /\
  user_byte (mem s) root (VA_USER_BEGIN + 9) = Some (ldb (mem s') (dst + 1)).
Proof.
  destruct sample_user_ok as (root & data & s & H). destruct (op_run _ _ _ H) as (_ & _ & Hb & Hu).
  pose proof (vm_memcpyin_correct root (data + 2048) (VA_USER_BEGIN + 8) 16 16 s (op_pa _ _ _ H) (op_pt _ _ _ H) (one_page_range s root data 8 16 H ltac:(lia) ltac:(lia) ltac:(lia))
    ltac:(unfold VA_KERNEL_BEGIN in *; lia) ltac:(unfold VA_KERNEL_BEGIN, PAGE_SIZE in *; lia)) as W.
  assert (A : wp (vm_memcpyin root (data + 2048) (VA_USER_BEGIN + 8) 16) (fun r s' => r = 0 /\
    user_byte (mem s) root (VA_USER_BEGIN + 9) = Some (ldb (mem s') (data + 2048 + 1))) s).
  { eapply wp_mono; [apply W|].
    - intros i Hi. rewrite <- Z.add_assoc. apply (op_data _ _ _ H). lia.
    - intros r s' (_ & _ & _ & -> & _ & _ & U). split; [done|].
      assert (E : user_byte (mem s) root (VA_USER_BEGIN + 8 + 1) = Some (ldb (mem s) (data + 9))).
      { unfold user_byte. by rewrite (one_page_at s root data _ H) by lia. }
      change (VA_USER_BEGIN + 9) with (VA_USER_BEGIN + 8 + 1). rewrite E. f_equal. symmetry. apply U; [|lia|exact E].
      intros v Hv. rewrite (one_page_va s root data v H) by lia. unfold in_range. lia. }
  apply wp_iff in A as (r & s' & E & A). by exists root, (data + 2048), s, r, s'.
Defined.
