(* ===== verification/HeapSpec.v ===== *)
(** * What the kernel heap promises

    The theorems about memory/kmem.c on top of memory/object.c and any page
    allocator that meets the interface of PageAlloc, with runs on the machine
    of Sample. *)

From S2P Require Import Prelude Memory Machine Lists Lock Buddy BuddyMem BuddyProofs PageAlloc Object ObjectInv ObjectProofs Kmem Heap.
From S2P Require Import BuddyInit Sample ObjectSpec.

Section spec.
Context {L : KernelLayout} {PA : PageAllocator}.

(** C29: [kmem_alloc] on a well-formed heap, whatever the size asked for,
    terminates and keeps the heap, the page allocator and the interrupt state
    in order.  It returns NULL only when every manager with large enough
    objects is full, and then no object appears or goes; otherwise it returns
    a new object of at least the size, from the smallest adequate manager that
    was not used up, which overlaps no live object.  Every live object, and
    all memory that belongs neither to the heap nor to the page allocator,
    keeps its contents. *)
Theorem kmem_alloc_correct size h s :
  hart_can 2 s -> pa_ok s -> heap_ok s h ->
  wp (kmem_alloc size) (fun r s' => quiet s s' /\ pa_ok s' /\
    agree (fun a => pa_safe s a /\ ~ heap_meta h a) (mem s) (mem s') /\
    (forall x n, (x, n) ∈ heap_objects h -> agree (in_range x n) (mem s) (mem s')) /\
    exists h', heap_ok s' h' /\ um_size <$> h' = um_size <$> h /\
      ((r = NULL /\ h' = h /\ forall u, u ∈ h -> size <= um_size u -> full u) \/
       (r <> NULL /\ exists osz, size <= osz /\ heap_objects h' ≡ₚ (r, osz) :: heap_objects h /\
          (forall x n, (x, n) ∈ heap_objects h -> disjoint r osz x n) /\
          forall u, u ∈ h -> size <= um_size u < osz -> full u))) s.
Proof.
  intros Hh Hok H. eapply wp_mono; [by apply wp_kmem_alloc|]. intros r s' (h' & H' & [Q O S W K] & E & Hr). split_and!; [done|done|done| |].
  { intros x n Hx. eapply agree_weaken; [|exact K]. intros a. by apply (heap_object_client s h x n). }
  exists h'. split_and!; [done|done|]. destruct Hr as [(-> & -> & Hf)|(osz & Hr & Hle & P & Hnew & Hf)].
  - left. split_and!; [done|done|]. intros u Hu Hs. apply (Hf (um_size u + 1) u Hu). lia.
  - right. split; [done|]. exists osz. split_and!; [done|done| |done]. intros x n Hx.
    apply (heap_objects_apart s' h'); [done|rewrite P; set_solver..|]. intros ->. apply Hnew.
    assert (n = osz) as <-; [|done]. apply (same_address s' h' x n osz); [done|rewrite P; set_solver..].
Qed.

(** C22: [kmem_free] on a live object of the heap takes exactly that object
    back, and changes no byte but the heap's own data: every live object
    keeps its contents. *)
Theorem kmem_free_correct h s x n :
  hart_can 2 s -> pa_ok s -> heap_ok s h -> (x, n) ∈ heap_objects h ->
  wp (kmem_free x) (fun _ s' => quiet s s' /\ pa_ok s' /\
    agree (fun a => ~ heap_meta h a) (mem s) (mem s') /\
    (forall y k, (y, k) ∈ heap_objects h -> agree (in_range y k) (mem s) (mem s')) /\
    exists h', heap_ok s' h' /\ um_size <$> h' = um_size <$> h /\ heap_objects h ≡ₚ (x, n) :: heap_objects h') s.
Proof.
  intros Hh Hok H Hx. eapply wp_mono; [by apply (wp_kmem_free h s x n)|]. intros [] s' (h' & H' & [Q O S W _] & K & E & P).
  split_and!; [done|done|done| |by exists h']. intros y k Hy. eapply agree_weaken; [|exact K]. intros a. by apply (heap_object_client s h y k).
Qed.
End spec.

(** ** A heap with one manager on the sample machine *)

#[local] Existing Instance sample_layout.
#[local] Instance sample_pages : PageAllocator := buddy_pages sample_mg.

(** The manager is [kmem.object_manager]; its list node lies in the kernel
    image. *)
Definition sample_node : Z := 0xFFFFFFFF80800000.
Definition sample_heap_mem : memory :=
  st64 (st64 (st64 (mem sample_objs) (sym_uni_managers + 8) sample_node) (sample_node + 8) NULL) (sample_node + 16) object_manager.
Definition sample_heap : kst := set_mem sample_heap_mem sample_objs.
Definition sample_managers : list umgr := [mk_umgr sample_node object_manager 56 []].

(** Addresses of the kernel image beside the page allocator's globals. *)
Lemma sample_image_safe s a : kmem s = sample_kmem -> VA_KERNEL_IMG_BEGIN <= a -> ~ in_range sym_kmem 496 a -> pa_safe s a.
Proof.
  intros Ek Ha Hn. cbn [pa_safe sample_pages buddy_pages]. unfold buddy_safe. rewrite Ek.
  unfold VA_KERNEL_IMG_BEGIN in Ha. cbn [sym_kmem sample_layout] in *. split_and!; [done| |].
  - intros i Hi Hr. unfold in_range in Hr. rewrite sample_bmap in Hr by done. pose proof (sample_bytes i Hi).
    unfold sample_base, PAGE_SIZE, VA_KERNEL_BEGIN, MAX_MEM_ORDER in *. lia.
  - intros p Hp _ Hr. pose proof (nd_bound sample_kmem sample_mg (BM := sample_meta) p Hp).
    unfold in_range, VA_KERNEL_BEGIN, PAGE_SIZE in *. lia.
Qed.

Lemma sample_heap_writes : agree (fun a => ~ (in_range sym_uni_managers 24 a \/ in_range sample_node 24 a)) (mem sample_objs) sample_heap_mem.
Proof.
  unfold sample_heap_mem. etrans; [|etrans]; apply agree_st; intros a Hr Hn; apply Hn; unfold in_range in *; change (Z.of_nat 8) with 8 in Hr; lia.
Qed.

Lemma sample_area_safe a : in_range sym_uni_managers 24 a \/ in_range sample_node 24 a -> pa_safe sample_objs a.
Proof.
  intros Ha. apply sample_image_safe; [exact sample_objs_kmem|..]; unfold in_range, sample_node, VA_KERNEL_IMG_BEGIN in *;
    cbn [sym_uni_managers sym_kmem sample_layout] in *; lia.
Qed.

Lemma sample_heap_step : pa_ok sample_heap /\ (forall a, pa_safe sample_objs a -> pa_safe sample_heap a) /\
  (forall r n, pa_owned sample_objs r n -> pa_owned sample_heap r n).
Proof. apply (pa_write sample_objs sample_heap_mem _ sample_objs_pages sample_area_safe sample_heap_writes). Qed.

Lemma sample_heap_hart : hart_can 2 sample_heap.
Proof. unfold sample_heap. exact (quiet_can 2 _ _ (quiet_set_mem sample_heap_mem sample_objs) sample_objs_hart). Qed.

Lemma sample_heap_ok : heap_ok sample_heap sample_managers.
Proof.
  destruct sample_heap_step as (_ & S & W).
  assert (D : forall u a, u ∈ sample_managers -> um_owns u a -> ~ (in_range sym_uni_managers 24 a \/ in_range sample_node 24 a)).
  { intros u a ->%list_elem_of_singleton [Ha|(b & Hb%elem_of_nil & _)]; [|done]. unfold in_range, object_manager, sample_node in *.
    cbn [um_mgr sym_kmem sym_uni_managers sample_layout] in *. lia. }
  assert (A : forall a, list_area sample_managers a -> in_range sym_uni_managers 24 a \/ in_range sample_node 24 a).
  { intros a [Ha|(u & ->%list_elem_of_singleton & Ha)]; [by left|by right]. }
  split.
  - split_and!; vm_compute; reflexivity.
  - intros u ->%list_elem_of_singleton. vm_compute. congruence.
  - intros u Hu. apply (mgr_frame u sample_objs); [|eapply agree_weaken; [|exact sample_heap_writes]; intros a; by apply D|exact S|exact W].
    apply list_elem_of_singleton in Hu as ->. exact sample_objs_mgr.
  - intros a Ha. by apply S, sample_area_safe, A.
  - intros u a Hu Ha Ho. by apply (D u a Hu Ho), A.
  - intros i j u v a Hi Hj Hne. pose proof (lookup_lt_Some _ _ _ Hi). pose proof (lookup_lt_Some _ _ _ Hj). simpl in *. lia.
  - repeat constructor.
Qed.

Lemma kmem_alloc_correct_witness :
  wp (kmem_alloc 40) (fun r s' => quiet sample_heap s' /\ pa_ok s' /\
    agree (fun a => pa_safe sample_heap a /\ ~ heap_meta sample_managers a) (mem sample_heap) (mem s') /\
    (forall x n, (x, n) ∈ heap_objects sample_managers -> agree (in_range x n) (mem sample_heap) (mem s')) /\
    exists h', heap_ok s' h' /\ um_size <$> h' = um_size <$> sample_managers /\
      ((r = NULL /\ h' = sample_managers /\ forall u, u ∈ sample_managers -> 40 <= um_size u -> full u) \/
       (r <> NULL /\ exists osz, 40 <= osz /\ heap_objects h' ≡ₚ (r, osz) :: heap_objects sample_managers /\
          (forall x n, (x, n) ∈ heap_objects sample_managers -> disjoint r osz x n) /\
          forall u, u ∈ sample_managers -> 40 <= um_size u < osz -> full u))) sample_heap.
Proof.
  apply (kmem_alloc_correct 40 sample_managers sample_heap).
  - exact sample_heap_hart.
  - apply sample_heap_step.
  - exact sample_heap_ok.
Defined.

(** The state after one allocation, and the object it returned. *)
Definition sample_live : Z * kst := run_or (kmem_alloc 40) sample_heap NULL.

Lemma sample_live_run : fst sample_live <> NULL.
Proof. vm_compute. congruence. Qed.

Lemma sample_live_ok : exists h n, hart_can 2 (snd sample_live) /\ pa_ok (snd sample_live) /\ heap_ok (snd sample_live) h /\
  (fst sample_live, n) ∈ heap_objects h.
Proof.
  destruct (run_or_ok (kmem_alloc 40) _ sample_heap NULL (wp_kmem_alloc 40 sample_managers sample_heap sample_heap_hart (proj1 sample_heap_step) sample_heap_ok))
    as (h' & H' & F & _ & [(E & _)|(osz & _ & _ & P & _)]); [by destruct (sample_live_run E)|]. exists h', osz. split_and!.
  - exact (quiet_can 2 _ _ (hf_quiet _ _ _ F) sample_heap_hart).
  - exact (hf_ok _ _ _ F).
  - exact H'.
  - unfold sample_live. rewrite P. apply list_elem_of_here.
Qed.

Lemma kmem_free_correct_witness :
  exists x n h s, (x, n) ∈ heap_objects h /\ wp (kmem_free x) (fun _ s' => quiet s s' /\ pa_ok s' /\
    agree (fun a => ~ heap_meta h a) (mem s) (mem s') /\
    (forall y k, (y, k) ∈ heap_objects h -> agree (in_range y k) (mem s) (mem s')) /\
    exists h', heap_ok s' h' /\ um_size <$> h' = um_size <$> h /\ heap_objects h ≡ₚ (x, n) :: heap_objects h') s.
Proof.
  destruct sample_live_ok as (h & n & H1 & H2 & H3 & H4). exists (fst sample_live), n, h, (snd sample_live).
  split; [exact H4|]. exact (kmem_free_correct h (snd sample_live) (fst sample_live) n H1 H2 H3 H4).
Defined.
