(* ===== verification/UartSpec.v ===== *)
(** * Properties of the serial port driver

    Sending, the interrupt handler and reading against the queues the two
    rings hold, whatever the device answers. *)

From S2P Require Import Prelude Memory Machine Lists Fdt Hal Lock DeviceIo Ring Proc ProcProofs ProcHold ProcSleep Plic Uart UartProofs ProcSpec.

Section spec.
Context {L : KernelLayout} {C : Code} {W : Switch} {D : Devices}.

(** ** Sending, and waiting for room *)

(** A hart that may use the port, whose queues are [l] and [r] (the receive
    queue may have overflowed). *)
Record port_at (dev u base : Z) (pl l r : list Z) (s : kst) : Prop := {
  pa_hart : hart_can 2 s;
  pa_ok : uart_ok (mem s) dev u base pl;
  pa_lock : lock_free (mem s) (u_tx_lock u);
  pa_tx : ring (tx_ring u) (mem s) l;
  pa_rx : newest (rx_ring u) (mem s) r;
}.

(** The state [s1] in which the process that finds the queue full at [s]
    switches away: it sleeps on the queue's head. *)
Definition waiting (u : Z) (pl : list Z) (s s1 : kst) : Prop :=
  asleep (running_proc (this_hart s)) (u_tx_head u) (u_tx_lock u) pl s (lock_mem (mem s) (u_tx_lock u) (my_hart s)) s1.

(** At [s] there is room in the queue, or there is some after at most [n]
    waits: the contract of the switches is that the process is resumed,
    outside all critical sections, with the port in order and its lock free,
    whatever else has happened to the queue. *)
Fixpoint gets_room (dev u base : Z) (n : nat) (s : kst) : Prop := exists pl l r, port_at dev u base pl l r s /\
  (Z.of_nat (length l) < TX_BUFFER_SIZE \/
   match n with
   | O => False
   | S n' => let p := running_proc (this_hart s) in p ∈ pl /\ trap_pushoff_dep (this_hart s) = 0 /\
       forall s1, waiting u pl s s1 -> wp (proc_switch (p_context p) (my_hart s + 16)) (fun _ s2 => exists pl2 l2 r2,
         port_at dev u base pl2 l2 r2 s2 /\ p ∈ pl2 /\ trap_pushoff_dep (this_hart s2) = 0 /\
         forall s3, roused p pl2 s2 s3 -> gets_room dev u base n' s3) s1
   end).

Lemma gets_room_step dev u base n s : gets_room dev u base n s -> exists pl l r, port_at dev u base pl l r s /\
  (Z.of_nat (length l) < TX_BUFFER_SIZE \/ exists n', n = S n' /\ let p := running_proc (this_hart s) in p ∈ pl /\ trap_pushoff_dep (this_hart s) = 0 /\
     forall s1, waiting u pl s s1 -> wp (proc_switch (p_context p) (my_hart s + 16)) (fun _ s2 => exists pl2 l2 r2,
       port_at dev u base pl2 l2 r2 s2 /\ p ∈ pl2 /\ trap_pushoff_dep (this_hart s2) = 0 /\
       forall s3, roused p pl2 s2 s3 -> gets_room dev u base n' s3) s1).
Proof. destruct n as [|n]; intros (pl & l & r & HP & [Hl|HW]); exists pl, l, r; split; auto; [done|]. right. by exists n. Qed.

Lemma gets_room_port dev u base n s : gets_room dev u base n s -> exists pl l r, port_at dev u base pl l r s.
Proof. intros (pl & l & r & HP & _)%gets_room_step. by exists pl, l, r. Qed.

(** The waits that have been made between [s] and [s']. *)
Inductive waited (u : Z) : kst -> kst -> Prop :=
| waited_not s : waited u s s
| waited_once s pl l s1 s2 pl2 s3 s' :
    ring (tx_ring u) (mem s) l -> Z.of_nat (length l) = TX_BUFFER_SIZE -> waiting u pl s s1 ->
    proc_switch (p_context (running_proc (this_hart s))) (my_hart s + 16) s1 = Ok tt s2 ->
    roused (running_proc (this_hart s)) pl2 s2 s3 -> waited u s3 s' -> waited u s s'.

Lemma waited_trans u s1 s2 s3 : waited u s1 s2 -> waited u s2 s3 -> waited u s1 s3.
Proof. induction 1; intros H'; [done|]. econstructor; eauto. Qed.

Lemma port_lock_apart m dev u base pl : uart_ok m dev u base pl -> lock_apart (u_tx_lock u) pl.
Proof.
  intros H. pose proof (uo_u _ _ _ _ _ H). destruct (uo_lock _ _ _ _ _ H) as [Dl _]. split; [unfold u_tx_lock; lia|]. intros a Ha. split.
  - intros Hp. apply (proj1 (uo_apart _ _ _ _ _ H a Hp)). unfold in_uart, in_range, u_tx_lock, sizeof_spinlock, sizeof_ns16550a_internal in *. lia.
  - unfold in_range, disjoint, u_tx_lock, sizeof_spinlock, sizeof_ns16550a_internal in *. lia.
Qed.

(** The port during the wait: nothing of it changes when the process goes to
    sleep and when it comes back. *)
Lemma port_frame dev u base pl l r s s' :
  port_at dev u base pl l r s -> hart_can 2 s' -> procs_ok (mem s') pl -> lock_free (mem s') pm_lock -> lock_free (mem s') (u_tx_lock u) ->
  agree (fun a => (in_uart u a /\ ~ in_range (u_tx_lock u) sizeof_spinlock a) \/ in_range (d_internal dev) 8 a) (mem s) (mem s') ->
  port_at dev u base pl l r s'.
Proof.
  intros [Hh H Hf Ht Hr] Hh' P' F' Fl' A. split; [done| |done| |].
  - split; try apply H; try done.
    + rewrite <- (uo_internal _ _ _ _ _ H). apply ld_agree. eapply agree_weaken; [|exact A]. intros a Ha. by right.
    + rewrite <- (uo_base _ _ _ _ _ H). apply ld_agree. eapply agree_weaken; [|exact A]. intros a Ha. left.
      unfold in_uart, in_range, u_reg_base, u_tx_lock, sizeof_spinlock, sizeof_ns16550a_internal in *. simpl in Ha. lia.
  - apply (ring_frame _ (tx_ring_at u) (mem s)); [|done]. eapply agree_weaken; [|exact A]. intros a Ha. left.
    unfold in_ring, tx_ring, in_uart, in_range, u_tx_buffer, u_tx_head, u_tx_tail, u_tx_lock, TX_BUFFER_SIZE, sizeof_spinlock, sizeof_ns16550a_internal in *. simpl in Ha. lia.
  - apply (newest_frame _ (rx_ring_at u) (mem s)); [|done]. eapply agree_weaken; [|exact A]. intros a Ha. left.
    unfold in_ring, rx_ring, in_uart, in_range, u_rx_buffer, u_rx_head, u_rx_tail, u_tx_lock, RX_BUFFER_SIZE, sizeof_spinlock, sizeof_ns16550a_internal in *. simpl in Ha. lia.
Qed.

(** No part of the port is a process's, or the manager's lock. *)
Lemma port_not_proc m dev u base pl a p : uart_ok m dev u base pl -> in_uart u a \/ in_range (d_internal dev) 8 a -> p ∈ pl ->
  ~ in_range pm_lock sizeof_spinlock a /\ ~ in_range p sizeof_proc a.
Proof.
  intros H Ha Hp. split; [apply (uart_not_woken m dev u base pl a H Ha)|]. intros Hr.
  destruct (uo_apart _ _ _ _ _ H a); [right; by exists p|]. tauto.
Qed.

Lemma waiting_port dev u base pl l r s s1 : port_at dev u base pl l r s -> running_proc (this_hart s) ∈ pl -> waiting u pl s s1 ->
  port_at dev u base pl l r s1.
Proof.
  intros HP Hp [Q1 R1 F1 _ A1]. apply (port_frame dev u base pl l r s); [done|apply R1|apply R1|apply R1|done|].
  transitivity (lock_mem (mem s) (u_tx_lock u) (my_hart s)).
  - eapply agree_weaken; [|apply lock_mem_agree]. intros a [[_ Ha]|Ha] Hl; [done|]. pose proof (uo_dev_u _ _ _ _ _ (pa_ok _ _ _ _ _ _ _ HP)).
    unfold in_range, disjoint, u_tx_lock, sizeof_spinlock, sizeof_ns16550a_internal in *. lia.
  - eapply agree_weaken; [|exact A1]. intros a Ha. pose proof (uo_dev_u _ _ _ _ _ (pa_ok _ _ _ _ _ _ _ HP)) as Dd.
    destruct (port_not_proc (mem s) dev u base pl a _ (pa_ok _ _ _ _ _ _ _ HP) ltac:(tauto) Hp) as [N1 N2].
    unfold on_channel, in_range, disjoint, p_state, p_chan, u_tx_lock, sizeof_spinlock, sizeof_proc, sizeof_ns16550a_internal in *.
    destruct Ha as [[Ha Hn]|Ha]; split_and!; try done; lia.
Qed.

Lemma roused_port dev u base pl l r p s s' : port_at dev u base pl l r s -> p ∈ pl -> roused p pl s s' -> port_at dev u base pl l r s'.
Proof.
  intros HP Hp [Q1 R1 _ A1].
  assert (A : agree (fun a => in_uart u a \/ in_range (d_internal dev) 8 a) (mem s) (mem s')).
  { eapply agree_weaken; [|exact A1]. intros a Ha. destruct (port_not_proc (mem s) dev u base pl a p (pa_ok _ _ _ _ _ _ _ HP) Ha Hp) as [N1 N2].
    split; [done|]. unfold on_channel, in_range, p_chan, sizeof_proc in *. lia. }
  apply (port_frame dev u base pl l r s); [done|apply R1|apply R1|apply R1| |eapply agree_weaken; [|exact A]; tauto].
  unfold lock_free. rewrite <- (pa_lock _ _ _ _ _ _ _ HP). apply ld_agree. eapply agree_weaken; [|exact A]. intros a Ha. left.
  unfold in_uart, in_range, u_tx_lock, sizeof_ns16550a_internal in *. simpl in Ha. lia.
Qed.

(** What [ns16550a_driver_putc_async] makes of a port that has room. *)
Definition put_sent (dev u base : Z) (pl : list Z) (c : Z) (l r : list Z) (s s' : kst) : Prop := exists cs rest,
  l ++ [u8 c] = cs ++ rest /\ sent base (mmio s') = sent base (mmio s) ++ cs /\
  ring (tx_ring u) (mem s') rest /\ newest (rx_ring u) (mem s') r /\
  (rest <> [] -> exists log, mmio s' = read_log base UART_LSR log /\ port_read base UART_LSR log &l UART_LSR_TX_IDLE = 0) /\
  table (mem s') pl = woken (0 <? length cs)%nat (u_tx_head u) (table (mem s) pl) /\
  uart_ok (mem s') dev u base pl /\ lock_free (mem s') (u_tx_lock u) /\ quiet_io s s'.

(** The part behind the loop. *)
Lemma wp_put_byte dev u base pl c (l r : list Z) (Q : unit -> kst -> Prop) s :
  port_at dev u base pl l r s -> Z.of_nat (length l) < TX_BUFFER_SIZE -> (forall s', put_sent dev u base pl c l r s s' -> Q tt s') ->
  wp (tail ← rd 8 (u_tx_tail u);
      wr 1 (u_tx_buffer u + tail mod TX_BUFFER_SIZE) c;;
      tail ← rd 8 (u_tx_tail u);
      wr 8 (u_tx_tail u) (tail +l 1);;
      ns16550a_driver_flush dev;;
      spinlock_release (u_tx_lock u)) Q (set_mem (lock_mem (mem s) (u_tx_lock u) (my_hart s)) (pushed s)).
Proof.
  intros [Hh H Hf Ht Hr] Hl HQ. pose proof (uo_u _ _ _ _ _ H) as Hu. pose proof (tx_ring_at u) as RA. set (m0 := lock_mem _ _ _).
  destruct (uart_lock_step (mem s) m0 dev u base pl _ H (or_introl eq_refl) (lock_mem_agree _ _ _)) as (H0 & T0 & K0).
  pose proof (proj1 (K0 l) Ht) as Ht0. assert (Hb : u <= u_tx_tail u /\ u <= u_tx_buffer u) by (unfold u_tx_tail, u_tx_buffer; lia).
  pose proof (ring_slot _ RA (ld64 m0 (u_tx_tail u))) as Hsl. unfold in_range in Hsl. cbn [tx_ring rg_buf rg_size] in Hsl.
  wp_step. wp_step. rewrite set_mem_mem. do 6 wp_step. rewrite !set_mem_mem, !set_mem_twice. set (m1 := st 8 _ _ _).
  pose proof (ring_put_agree (tx_ring u) RA m0 c) as A1. change (ring_put (tx_ring u) m0 c) with m1 in A1.
  destruct (uart_own m0 m1 dev u base pl H0) as [H1 T1].
  { eapply agree_weaken; [|exact A1]. unfold tx_ring, in_range, u_tx_tail, u_tx_buffer, TX_BUFFER_SIZE, sizeof_ns16550a_internal. simpl. intros. lia. }
  apply (wp_flush_release dev u base pl m1 (l ++ [u8 c]) _ s); try done.
  - by apply (ring_put_ok (tx_ring u) RA m0 c).
  - apply (port_lock_kept s (mem s) m1 u _ (tx_ring u)); [apply Hh|auto|auto|]. eapply agree_weaken; [|exact A1]. unfold in_ring. tauto.
  - intros cs rest s' Q' F' U' El Es R' B' T' A' _. apply HQ. exists cs, rest. split_and!; try done; [|by rewrite T', T1, T0].
    apply (newest_frame _ (rx_ring_at u) m1); [exact A'|]. apply (newest_frame _ (rx_ring_at u) m0).
    2:{ by apply K0. }
    eapply agree_weaken; [|exact A1].
    unfold in_ring, tx_ring, rx_ring, in_range, u_tx_buffer, u_tx_tail, u_rx_buffer, u_rx_head, u_rx_tail, TX_BUFFER_SIZE, RX_BUFFER_SIZE. simpl. lia.
Qed.

(** C10: [ns16550a_driver_putc_async] refines a queue in front of the
    transmitter.  As long as the ring is full the process sleeps, with the
    port's lock free and the queue as it was, and looks again when it is
    resumed; if it finds room in the end ([gets_room], which includes that
    there is room at once), then at the state [s1] where it does the byte
    goes to the end of the queue, a prefix of the queue has been sent in
    order, nothing is lost, overwritten or sent twice, and bytes stay behind
    only if the transmitter, asked last, said it was busy; processes waiting
    for room are woken exactly if something was sent, the receive queue is
    kept, and the lock is free again. *)
Theorem putc_async_refines dev u base c n s :
  gets_room dev u base n s -> Z.of_nat n < 2 ^ 64 ->
  wp (ns16550a_driver_putc_async dev c) (fun _ s' => exists s1 pl l r,
      waited u s s1 /\ port_at dev u base pl l r s1 /\ Z.of_nat (length l) < TX_BUFFER_SIZE /\
      put_sent dev u base pl c l r s1 s') s.
Proof.
  intros HG Hn. destruct (gets_room_port _ _ _ _ _ HG) as (pl0 & l0 & r0 & [Hh0 H0 Hf0 _ _]). pose proof (uo_u _ _ _ _ _ H0) as Hu.
  unfold ns16550a_driver_putc_async. wp_step. wp_step; [pose proof (uo_dev _ _ _ _ _ H0); unfold d_internal; lia|].
  rewrite (uo_internal _ _ _ _ _ H0). wp_step. apply wp_spinlock_acquire; [exact (hart_can_weaken 2 1 _ Hh0 ltac:(lia))|unfold u_tx_lock; lia|done|]. wp_step.
  apply (wp_while_n (fun k _ s' => exists s1, waited u s s1 /\ gets_room dev u base (Z.to_nat k) s1 /\
    s' = set_mem (lock_mem (mem s1) (u_tx_lock u) (my_hart s1)) (pushed s1)) _ (Z.of_nat n)); [|lia|].
  { exists s. rewrite Nat2Z.id. split_and!; [constructor|done|done]. }
  intros k [] s' (s1 & W1 & G & ->) Hk. assert (Hb : u <= u_tx_head u /\ u <= u_tx_tail u) by (unfold u_tx_head, u_tx_tail; lia).
  do 4 wp_step. rewrite !set_mem_mem. set (m0 := lock_mem (mem s1) _ _).
  destruct (gets_room_step _ _ _ _ _ G) as (pl & l & r & HP & HG1). pose proof HP as [Hh H Hf Ht Hr].
  destruct (uart_lock_step (mem s1) m0 dev u base pl _ H (or_introl eq_refl) (lock_mem_agree _ _ _)) as (H1 & _ & K1).
  pose proof (ring_counters _ (tx_ring_at u) m0 l TX_BUFFER_SIZE (proj1 (K1 l) Ht) ltac:(unfold tx_ring, TX_BUFFER_SIZE; cbn [rg_size]; lia)) as E.
  cbn [tx_ring rg_head rg_tail] in E. rewrite E. destruct (Z.eqb_spec TX_BUFFER_SIZE (Z.of_nat (length l))) as [Efull|Eroom].
  - destruct HG1 as [Hl|(k' & Ek & Hp & Hd & HW)]; [lia|]. set (p := running_proc (this_hart s1)) in *. wp_step.
    apply (wp_proc_sleep p _ _ pl); [split; [done|done|apply H|apply H]|done|done|by apply (port_lock_apart (mem s1) dev u base)|apply H1|apply H1|apply lock_mem_mine, Hh|].
    intros s2 A2. apply wp_iff. specialize (HW s2 A2). apply wp_iff in HW as ([] & s3 & Es & pl3 & l3 & r3 & HP3 & Hp3 & Hd3 & HG3).
    exists tt, s3. split; [done|]. exists pl3. pose proof HP3 as [Hh3 H3 Hf3 Ht3 Hr3].
    split_and!; [split; [done|done|apply H3|apply H3]|done|by apply (port_lock_apart (mem s3) dev u base)|done|].
    intros s4 X. wp_step. exists (k - 1). split; [lia|]. exists s4. split_and!; [|replace (Z.to_nat (k - 1)) with k' by lia; by apply HG3|done].
    eapply waited_trans; [exact W1|]. econstructor; [exact Ht|by rewrite Efull|exact A2|exact Es|exact X|constructor].
  - wp_step. assert (Hl : Z.of_nat (length l) < TX_BUFFER_SIZE) by (pose proof (ri_len _ _ _ Ht) as Hs; unfold tx_ring in Hs; simpl in Hs; lia).
    apply (wp_put_byte dev u base pl c l r); [done|done|]. intros s' HS. by exists s1, pl, l, r.
Qed.

(** C11: the interrupt handler takes every byte the port has, in order, and
    appends it to the receive queue [r]: the tail counts all of [r ++ cs], and
    the buffer holds them all if they fit; if they do not, it holds the last
    256 of them, the oldest unread bytes being overwritten without notice.  It
    goes on sending as [ns16550a_driver_putc_async] does; readers are woken
    exactly if something came, processes waiting for room exactly if something
    was sent. *)
Theorem interrupt_handler_refines dev u base pl cs log (l r : list Z) s :
  hart_can 2 s -> uart_ok (mem s) dev u base pl -> lock_free (mem s) (u_tx_lock u) ->
  ring (tx_ring u) (mem s) l -> newest (rx_ring u) (mem s) r ->
  receives base (mmio s) cs log -> Z.of_nat (length cs) < 2 ^ 64 ->
  wp (ns16550a_driver_interrupt_handler dev) (fun x s' => x = 0 /\ newest (rx_ring u) (mem s') (r ++ cs) /\
      (Z.of_nat (length (r ++ cs)) <= RX_BUFFER_SIZE -> ring (rx_ring u) (mem s') (r ++ cs)) /\ exists out rest,
      l = out ++ rest /\ sent base (mmio s') = sent base (mmio s) ++ out /\ ring (tx_ring u) (mem s') rest /\
      (rest <> [] -> exists log', mmio s' = read_log base UART_LSR log' /\ port_read base UART_LSR log' &l UART_LSR_TX_IDLE = 0) /\
      table (mem s') pl = woken (0 <? length out)%nat (u_tx_head u) (woken (0 <? length cs)%nat (u_rx_head u) (table (mem s) pl)) /\
      uart_ok (mem s') dev u base pl /\ lock_free (mem s') (u_tx_lock u) /\ quiet_io s s') s.
Proof.
  intros Hh H Hf Ht Hr Hrec Hlen. eapply wp_mono; [by apply (wp_interrupt_handler dev u base pl cs log l r)|].
  intros x s' [-> [R (out & rest & El & Es & T & B & Tb) U F Q M]]. split_and!; try done; [by intros Hn; apply ring_newest|]. by exists out, rest.
Qed.

(** [ns16550a_driver_readc] takes the first byte off a receive queue
    that is not empty and changes nothing else. *)
Theorem readc_refines dev u base pl c (l r : list Z) s :
  hart_ok s -> uart_ok (mem s) dev u base pl -> lock_free (mem s) (u_rx_lock u) ->
  ring (tx_ring u) (mem s) l -> ring (rx_ring u) (mem s) (c :: r) ->
  wp (ns16550a_driver_readc dev) (fun x s' => x = c /\ ring (rx_ring u) (mem s') r /\ ring (tx_ring u) (mem s') l /\
      table (mem s') pl = table (mem s) pl /\ uart_ok (mem s') dev u base pl /\ lock_free (mem s') (u_rx_lock u) /\ quiet s s') s.
Proof.
  intros Hh H Hf Ht Hr. pose proof (uo_u _ _ _ _ _ H) as Hu. pose proof (rx_ring_at u) as RA.
  unfold ns16550a_driver_readc. wp_step. wp_step; [pose proof (uo_dev _ _ _ _ _ H); unfold d_internal; lia|].
  rewrite (uo_internal _ _ _ _ _ H). wp_step. apply wp_spinlock_acquire; [done|unfold u_rx_lock; lia|done|].
  set (m0 := lock_mem _ _ _). destruct (uart_lock_step (mem s) m0 dev u base pl _ H (or_intror eq_refl) (lock_mem_agree _ _ _)) as (H0 & T0 & K0).
  pose proof (queues_rx u _ _ _ K0 Hr) as Hr0. assert (Hb : u <= u_rx_head u /\ u <= u_rx_tail u /\ u <= u_rx_buffer u) by (unfold u_rx_head, u_rx_tail, u_rx_buffer; lia).
  wp_step. apply (wp_while_n (fun _ _ s' => s' = set_mem m0 (pushed s)) _ 0); [done|lia|]. intros n [] s' -> _.
  do 4 wp_step. rewrite !set_mem_mem. pose proof (ring_empty _ RA m0 _ Hr0) as E. cbn [rx_ring rg_head rg_tail] in E. rewrite E. cbn [length].
  rewrite (proj2 (Z.eqb_neq _ _)) by lia. wp_step.
  pose proof (ring_slot _ RA (ld64 m0 (u_rx_head u))) as Hsl. unfold in_range in Hsl. cbn [rx_ring rg_buf rg_size] in Hsl.
  do 2 wp_step. rewrite set_mem_mem. do 6 wp_step. rewrite !set_mem_mem, !set_mem_twice. set (m1 := st 8 _ _ _).
  rewrite (ring_head _ _ c r Hr0 : ld 1 m0 (u_rx_buffer u + ld64 m0 (u_rx_head u) mod RX_BUFFER_SIZE) = c).
  pose proof (ring_take_agree (rx_ring u) m0) as A1. change (ring_take (rx_ring u) m0) with m1 in A1.
  destruct (uart_own m0 m1 dev u base pl H0) as [H1 T1].
  { eapply agree_weaken; [|exact A1]. unfold rx_ring, in_range, u_rx_head, sizeof_ns16550a_internal. simpl. intros. lia. }
  wp_step. apply (wp_release_quiet _ _ m0 s); [done|unfold u_rx_lock; lia|exact (quiet_set_mem m1 (set_mem m0 (pushed s)))| |].
  { apply (port_lock_kept s (mem s) m1 u _ (rx_ring u)); [apply Hh|auto|auto|]. eapply agree_weaken; [|exact A1]. unfold in_ring. tauto. }
  intros s' Q' Em. wp_step. cbn [mem set_mem] in Em. pose proof (unlock_mem_agree m1 (u_rx_lock u)) as A2. rewrite <- Em in A2.
  destruct (uart_lock_step m1 (mem s') dev u base pl _ H1 (or_intror eq_refl) A2) as (H2 & T2 & K2).
  split_and!; [done| | |by rewrite T2, T1, T0|done|rewrite Em; apply unlock_mem_free|done].
  - apply (queues_rx u m1); [done|]. by apply (ring_take_ok (rx_ring u) RA m0 c).
  - apply K2, (ring_frame _ (tx_ring_at u) m0); [|by apply K0]. eapply agree_weaken; [|exact A1].
    unfold in_ring, tx_ring, rx_ring, in_range, u_tx_buffer, u_tx_head, u_tx_tail, u_rx_head, TX_BUFFER_SIZE. simpl. lia.
Qed.
End spec.

(** ** A port whose transmitter takes two bytes and whose receiver has two *)

#[local] Existing Instance sample_layout.
#[local] Existing Instance no_drivers.
#[local] Existing Instance no_switch.

Definition port_base : Z := 0x10000000.
Definition port_u : Z := VA_KERNEL_BEGIN + 0x80038000.
Definition port_dev : Z := VA_KERNEL_BEGIN + 0x80031000.

Definition received (log : list mmio_event) : Z :=
  Z.of_nat (length (List.filter (fun e => match e with MRead _ a _ => a =? UART_REG port_base UART_RHR | _ => false end) log)).

#[local] Instance sample_device : Devices := fun log _ a =>
  if a =? UART_REG port_base UART_LSR then
    (if (length (sent port_base log) <? 2)%nat then UART_LSR_TX_IDLE else 0) |l (if received log <? 2 then 1 else 0)
  else 104 + received log.

(** Three bytes wait to be sent, one wraps around; one waits to be read. *)
Definition sample_port_mem : memory :=
  fold_left (fun m '(n, a, v) => st n m a v)
    [(8%nat, d_internal port_dev, port_u); (8%nat, u_reg_base port_u, port_base); (8%nat, u_tx_head port_u, 254); (8%nat, u_tx_tail port_u, 257);
     (1%nat, u_tx_buffer port_u + 254, 97); (1%nat, u_tx_buffer port_u + 255, 98); (1%nat, u_tx_buffer port_u, 99);
     (8%nat, u_rx_head port_u, 0); (8%nat, u_rx_tail port_u, 1); (1%nat, u_rx_buffer port_u, 120)] sample_procs_mem.

Definition sample_port : kst := set_mem sample_port_mem sample_procs.

Lemma sample_port_ok : uart_ok (mem sample_port) port_dev port_u port_base [proc_1; proc_2].
Proof.
  split.
  - vm_compute. congruence.
  - vm_compute. congruence.
  - vm_compute. reflexivity.
  - vm_compute. reflexivity.
  - destruct sample_procs_ok. split; [|assumption..]. unfold dll, chain. cbn [links lastn]. split_and!; vm_compute; reflexivity.
  - vm_compute. reflexivity.
  - left. vm_compute. congruence.
  - split; left; vm_compute; congruence.
  - unfold in_procs, in_uart, in_range, sizeof_proc, sizeof_ns16550a_internal, d_internal, port_u, port_dev, pm_proc_list.
    change sym_proc_manager with 0xFFFFFFFF80604000. unfold VA_KERNEL_BEGIN.
    intros a [Ha|(p & Hp & Ha)]; [lia|]. apply elem_of_cons in Hp as [->|Hp]; [|apply list_elem_of_singleton in Hp as ->];
      unfold proc_1, proc_2, VA_KERNEL_BEGIN in Ha; lia.
Qed.

Lemma sample_tx : ring (tx_ring port_u) (mem sample_port) [97; 98; 99].
Proof.
  split; [vm_compute; congruence|vm_compute; reflexivity|]. intros i c Hi.
  do 3 (destruct i as [|i]; [injection Hi as <-; vm_compute; reflexivity|]). done.
Qed.

Lemma sample_rx : ring (rx_ring port_u) (mem sample_port) [120].
Proof.
  split; [vm_compute; congruence|vm_compute; reflexivity|]. intros i c Hi.
  destruct i as [|i]; [injection Hi as <-; vm_compute; reflexivity|]. done.
Qed.

Definition sample_log : list mmio_event :=
  read_log port_base UART_LSR (Nat.iter 2 (fun x => read_log port_base UART_RHR (read_log port_base UART_LSR x)) []).

Lemma sample_receives : receives port_base [] [104; 105] sample_log.
Proof.
  unfold sample_log.
  set (two := fun x => read_log port_base UART_RHR (read_log port_base UART_LSR x)).
  assert (E1 : port_read port_base UART_RHR (read_log port_base UART_LSR []) = 104) by (vm_compute; reflexivity).
  assert (E2 : port_read port_base UART_RHR (read_log port_base UART_LSR (two [])) = 105) by (vm_compute; reflexivity).
  rewrite <- E1, <- E2. apply rec_one; [vm_compute; congruence|]. apply rec_one; [vm_compute; congruence|].
  apply rec_none. vm_compute. reflexivity.
Qed.

(** The receive queue is one short of full: the second byte takes the place
    of the first unread one. *)
Definition nearly_full : kst := set_mem (st64 sample_port_mem (u_rx_tail port_u) 255) sample_port.
Definition unread : list Z := 120 :: replicate 254 0.

Lemma newest_check r m l : ld64 m (rg_tail r) = ld64 m (rg_head r) +l Z.of_nat (length l) ->
  forallb (fun i => ld 1 m (rg_buf r + (ld64 m (rg_head r) + Z.of_nat i) mod rg_size r) =? nth i l 0) (seq 0 (length l)) = true -> newest r m l.
Proof.
  intros Ht Hb. split; [done|]. intros i c Hi _. rewrite forallb_forall in Hb. specialize (Hb i).
  rewrite in_seq in Hb. pose proof (lookup_lt_Some _ _ _ Hi). apply Z.eqb_eq in Hb; [|lia]. rewrite Hb. by apply nth_lookup_Some.
Qed.

Lemma nearly_full_rx : newest (rx_ring port_u) (mem nearly_full) unread.
Proof. apply newest_check; vm_compute; reflexivity. Qed.

Lemma nearly_full_ok : uart_ok (mem nearly_full) port_dev port_u port_base [proc_1; proc_2].
Proof.
  apply (uart_own sample_port_mem); [exact sample_port_ok|]. apply agree_st. intros b Hb Hn. apply Hn.
  unfold in_range, u_rx_tail, sizeof_ns16550a_internal in *. simpl in Hb. lia.
Qed.

Lemma nearly_full_tx : ring (tx_ring port_u) (mem nearly_full) [97; 98; 99].
Proof. apply ring_newest. split; [apply newest_check; vm_compute; reflexivity|vm_compute; congruence]. Qed.

Lemma interrupt_handler_refines_witness :
  wp (ns16550a_driver_interrupt_handler port_dev) (fun x s' => x = 0 /\ newest (rx_ring port_u) (mem s') (unread ++ [104; 105]) /\
      (Z.of_nat (length (unread ++ [104; 105])) <= RX_BUFFER_SIZE -> ring (rx_ring port_u) (mem s') (unread ++ [104; 105])) /\ exists out rest,
      [97; 98; 99] = out ++ rest /\ sent port_base (mmio s') = sent port_base (mmio nearly_full) ++ out /\ ring (tx_ring port_u) (mem s') rest /\
      (rest <> [] -> exists log', mmio s' = read_log port_base UART_LSR log' /\ port_read port_base UART_LSR log' &l UART_LSR_TX_IDLE = 0) /\
      table (mem s') [proc_1; proc_2] = woken (0 <? length out)%nat (u_tx_head port_u) (woken true (u_rx_head port_u) (table (mem nearly_full) [proc_1; proc_2])) /\
      uart_ok (mem s') port_dev port_u port_base [proc_1; proc_2] /\ lock_free (mem s') (u_tx_lock port_u) /\ quiet_io nearly_full s') nearly_full.
Proof.
  apply (interrupt_handler_refines port_dev port_u port_base [proc_1; proc_2] [104; 105] sample_log [97; 98; 99] unread nearly_full).
  - exact sample_procs_hart.
  - exact nearly_full_ok.
  - vm_compute. reflexivity.
  - exact nearly_full_tx.
  - exact nearly_full_rx.
  - exact sample_receives.
  - vm_compute. congruence.
Defined.

Lemma readc_refines_witness :
  wp (ns16550a_driver_readc port_dev) (fun x s' => x = 120 /\ ring (rx_ring port_u) (mem s') [] /\ ring (tx_ring port_u) (mem s') [97; 98; 99] /\
      table (mem s') [proc_1; proc_2] = table (mem sample_port) [proc_1; proc_2] /\ uart_ok (mem s') port_dev port_u port_base [proc_1; proc_2] /\
      lock_free (mem s') (u_rx_lock port_u) /\ quiet sample_port s') sample_port.
Proof.
  apply (readc_refines port_dev port_u port_base [proc_1; proc_2] 120 [97; 98; 99] [] sample_port).
  - exact (hart_can_weaken 2 1 _ sample_procs_hart ltac:(lia)).
  - exact sample_port_ok.
  - vm_compute. reflexivity.
  - exact sample_tx.
  - exact sample_rx.
Defined.

(** ** The transmit queue is full; all of it is sent while the writer sleeps *)

#[local] Instance sent_meanwhile : Switch := fun _ _ => tail ← rd 8 (u_tx_tail port_u); wr 8 (u_tx_head port_u) tail.

Definition full_port : kst := set_mem (st64 sample_port_mem (u_tx_tail port_u) 510) sample_port.
Definition unsent : list Z := [97; 98; 99] ++ replicate 253 0.

Lemma full_port_at : port_at port_dev port_u port_base [proc_1; proc_2] unsent [120] full_port.
Proof.
  split.
  - exact sample_procs_hart.
  - apply (uart_own sample_port_mem); [exact sample_port_ok|]. apply agree_st. intros b Hb Hn. apply Hn.
    unfold in_range, u_tx_tail, sizeof_ns16550a_internal in *. simpl in Hb. lia.
  - vm_compute. reflexivity.
  - apply ring_newest. split; [apply newest_check; vm_compute; reflexivity|vm_compute; congruence].
  - apply newest_check; vm_compute; reflexivity.
Qed.

Lemma full_port_waits : gets_room port_dev port_u port_base 1 full_port.
Proof.
  exists [proc_1; proc_2], unsent, [120]. split; [exact full_port_at|right]. split; [exact (list_elem_of_here _ _)|]. split; [reflexivity|].
  change (running_proc (this_hart full_port)) with proc_1. intros s1 X. assert (Hp : proc_1 ∈ [proc_1; proc_2]) by apply list_elem_of_here.
  pose proof (waiting_port _ _ _ _ _ _ _ _ full_port_at Hp X) as [Hh H Hf Ht Hr].
  unfold proc_switch, sent_meanwhile. wp_step. wp_step; [vm_compute; congruence|]. wp_step; [vm_compute; congruence|].
  set (m2 := st 8 _ _ _). set (s2 := set_mem m2 s1). exists [proc_1; proc_2], [], [120].
  assert (A2 : agree (fun a => ~ in_range (u_tx_head port_u) 8 a) (mem s1) m2) by (apply agree_st; intros b Hb Hn; by apply Hn).
  assert (HP : port_at port_dev port_u port_base [proc_1; proc_2] [] [120] s2).
  { split; [exact Hh| | | |].
    - apply (uart_own (mem s1)); [done|]. eapply agree_weaken; [|exact A2]. unfold in_range, u_tx_head, sizeof_ns16550a_internal. lia.
    - unfold lock_free. rewrite <- Hf. apply ld_agree. eapply agree_weaken; [|exact A2]. unfold in_range, u_tx_head, u_tx_lock. simpl. lia.
    - split; [vm_compute; congruence| |by intros i c Hi]. cbn [mem set_mem s2 tx_ring rg_head rg_tail]. unfold m2.
      rewrite ld_st_other by (unfold disjoint, u_tx_head, u_tx_tail; simpl; lia). rewrite ld_st_same. pose proof (ld64_bound (mem s1) (u_tx_tail port_u)).
      change (256 ^ Z.of_nat 8) with (2 ^ 64). rewrite Z.mod_small by done. symmetry. unfold add64, u64. rewrite Z.add_0_r. by apply Z.mod_small.
    - apply (newest_frame _ (rx_ring_at port_u) (mem s1)); [|done]. eapply agree_weaken; [|exact A2].
      unfold in_ring, rx_ring, in_range, u_tx_head, u_rx_buffer, u_rx_head, u_rx_tail, RX_BUFFER_SIZE. simpl. lia. }
  split_and!; [exact HP|exact Hp|exact (rd_dep _ _ (as_ready _ _ _ _ _ _ _ X))|].
  intros s3 X3. exists [proc_1; proc_2], [], [120]. split; [exact (roused_port _ _ _ _ _ _ _ _ _ HP Hp X3)|left; reflexivity].
Qed.

Lemma putc_async_refines_witness :
  wp (ns16550a_driver_putc_async port_dev 100) (fun _ s' => exists s1 pl l r,
      waited port_u full_port s1 /\ port_at port_dev port_u port_base pl l r s1 /\ Z.of_nat (length l) < TX_BUFFER_SIZE /\
      put_sent port_dev port_u port_base pl 100 l r s1 s') full_port.
Proof.
  apply (putc_async_refines port_dev port_u port_base 100 1 full_port).
  - exact full_port_waits.
  - reflexivity.
Defined.
