(* ===== verification/IrqSpec.v ===== *)
(** * A serial interrupt, from the trap to the return

    The interrupt controller, the dispatcher, the serial port's driver, the
    process table and the trap handler together: a program is interrupted
    because the port has bytes or room, and goes on as if nothing had
    happened (or ends, if it has been killed), while the bytes have reached the
    receive queue and whoever slept for them can run. *)

From S2P Require Import Prelude Memory Machine Lists Strings Hal Lock DeviceIo Ring Console Buddy Object Kmem Csr Sbi Vmem Proc Trap Plic Uart ProcProofs ProcHold ProcExit UartProofs TrapProofs IrqProofs ProcSpec TrapSpec UartSpec.

Section spec.
Context {L : KernelLayout} {C : Code} {W : Switch} {F : Firmware} {D : Devices}.

(** The controller names the port's source next, the port's handler is the
    first registered for it, and what the two drivers keep in memory is apart
    from each other, from the process table and from the trap frame. *)
Record serial_line (s : kst) (f : Z) (l : list Z) (hc pdev pu pbase : Z) (irqs : list Z) (dev u base : Z) : Prop := {
  sl_irq : irq_controller (mem s) hc pdev pu pbase irqs;
  sl_id : claimed_id pbase s <> 0;
  sl_handler : lookup_irq (mem s) (claimed_id pbase s) irqs = Some (sym_fn "ns16550a_driver_interrupt_handler", dev);
  sl_port : uart_ok (mem s) dev u base l;
  sl_lock : lock_free (mem s) (u_tx_lock u);
  sl_cells a : irq_cells hc pdev pu irqs a -> ~ in_frame f a /\ serviced_kept u l a;
  sl_frame a : in_frame f a -> ~ in_uart u a /\ ~ in_range (d_internal dev) 8 a;
}.

(** What a trap that only services the port leaves alone: everything but the
    driver's record, the states of processes, the manager's lock, and the
    words of the frame that belong to the kernel. *)
Definition interrupt_kept (u f : Z) (l : list Z) (a : Z) : Prop :=
  serviced_kept u l a /\ ~ in_range f 8 a /\ ~ in_range (f + 16) 24 a.

Section line.
Context (p f : Z) (l : list Z) (hc pdev pu pbase : Z) (irqs : list Z) (dev u base : Z).

(** Entering the kernel keeps all of this. *)
Lemma line_entered s s1 : trapped p f l s -> serial_line s f l hc pdev pu pbase irqs dev u base -> entered p f l s s1 ->
  serial_line s1 f l hc pdev pu pbase irqs dev u base /\ queues_kept u (mem s) (mem s1) /\
  claim_reg pbase s1 = claim_reg pbase s /\ claimed_id pbase s1 = claimed_id pbase s.
Proof.
  intros Ht [H1 H2 H3 H4 H5 H6 H7] [E1 E2 E3 E4 (E5 & _ & E6) _].
  assert (Er : claim_reg pbase s1 = claim_reg pbase s) by (unfold claim_reg; by rewrite E5).
  assert (Ei : claimed_id pbase s1 = claimed_id pbase s) by (unfold claimed_id; by rewrite Er, E6).
  assert (Hc : agree (fun a => ~ in_frame f a) (mem s) (mem s1)).
  { eapply agree_weaken; [|exact E4]. intros a Ha Hr. apply Ha. unfold in_frame, in_range, sizeof_trapframe in *. lia. }
  assert (Hu : agree (fun a => in_uart u a \/ in_range (d_internal dev) 8 a) (mem s) (mem s1)).
  { eapply agree_weaken; [|exact Hc]. intros a Ha Hf. destruct (H7 a Hf). tauto. }
  split_and!; [|apply queues_agree; eapply agree_weaken; [|exact Hu]; by left|done|done]. split; rewrite ?Ei; try done.
  - eapply irq_frame; [done|]. eapply agree_weaken; [|exact Hc]. intros a Ha. by apply H6.
  - rewrite (lookup_irq_frame (mem s)); [done|]. eapply agree_weaken; [|exact Hc]. intros a Ha. apply H6. do 4 right. done.
  - apply (uart_agree (mem s)); [done|apply E1|apply E1|done].
  - unfold lock_free. rewrite <- H5. apply ld_agree. eapply agree_weaken; [|exact Hu]. unfold in_uart, in_range, u_tx_lock, sizeof_ns16550a_internal. simpl. lia.
Qed.

(** The dispatcher's part. *)
Lemma line_serviced s cs log (tx rx : list Z) : irq_code -> trapped p f l s ->
  serial_line s f l hc pdev pu pbase irqs dev u base ->
  ring (tx_ring u) (mem s) tx -> newest (rx_ring u) (mem s) rx ->
  receives base (mmio (claimed pbase s)) cs log -> Z.of_nat (length cs) < 2 ^ 64 ->
  wp (hal_trap_handler SCAUSE_SEI) (fun _ s' => trapped p f l s' /\ ld64 (mem s') (f + 24) = ld64 (mem s) (f + 24) /\
    exists sh, port_serviced (claimed pbase s) dev u base l tx rx cs sh /\ s' = completed pbase (claimed_id pbase s) sh) s.
Proof.
  intros HC Ht [H1 H2 H3 H4 H5 H6 H7] Htx Hrx Hrec Hlen. pose proof (quiet_io_log (mmio (claimed pbase s)) s : quiet_io s (claimed pbase s)) as Q0.
  apply (wp_hal_trap_handler _ hc pdev pu pbase irqs); [done|done|by intros ?|]. intros _. rewrite H3, (code_uart HC).
  eapply wp_mono; [apply (wp_interrupt_handler dev u base l cs log tx rx); try done; apply (quiet_io_can 2 s); [done|apply Ht]|].
  intros r sh [_ S]. pose proof S as [_ (out & rest & _ & _ & _ & _ & T) U _ Q M]. change (mem (claimed pbase s)) with (mem s) in T, M.
  split; [eapply irq_frame; [done|]; eapply agree_weaken; [|exact M]; intros a Ha; by apply H6|].
  assert (Qh : quiet_io s sh) by (etrans; [exact Q0|exact Q]).
  assert (Hf : forall a, in_frame f a -> serviced_kept u l a).
  { intros a Ha. split; [by apply H7|]. split; [intros Hs%state_in_procs; by apply (frame_not_procs p f l s a Ht)|by apply (frame_not_lock p f l s a Ht)]. }
  assert (Hp : forall a, in_range (p_trapframe p) 8 a -> serviced_kept u l a).
  { intros a Ha. assert (Hi : in_procs l a) by (right; exists p; split; [apply Ht|]; unfold in_range, p_trapframe, sizeof_proc in *; lia).
    split; [by apply (uo_apart _ _ _ _ _ H4)|]. split; [|by apply (lock_not_procs (mem s) l); [apply Ht|]].
    intros (q & Hq & Hr). unfold p_trapframe, p_state, in_range in *. destruct (Z.eq_dec q p) as [->|Hne]; [lia|].
    pose proof (pr_apart _ _ (tr_procs _ _ _ _ Ht) q p Hq (tr_in _ _ _ _ Ht) Hne). unfold disjoint, sizeof_proc in *. lia. }
  split_and!.
  - apply (trapped_io p f l s); [done|etrans; [exact Qh|apply quiet_io_log]|apply U|apply U|]. rewrite <- (tr_frame _ _ _ _ Ht).
    apply ld_agree. eapply agree_weaken; [|exact M]. exact Hp.
  - apply ld_agree. eapply agree_weaken; [|exact M]. intros a Ha. apply Hf. unfold in_frame, in_range, sizeof_trapframe in *. simpl in Ha. lia.
  - by exists sh.
Qed.
End line.

(** The port has been served between [s] and [s']: what it had is in the
    receive queue, a prefix of the transmit queue is sent, the controller was
    told last; [k] is what has become of the process table since. *)
Record line_done (pbase u base : Z) (l tx rx cs : list Z) (k : list pview -> list pview) (s s' : kst) : Prop := {
  ld_rx : newest (rx_ring u) (mem s') (rx ++ cs);
  ld_fits : Z.of_nat (length (rx ++ cs)) <= RX_BUFFER_SIZE -> ring (rx_ring u) (mem s') (rx ++ cs);
  ld_tx : exists out rest log', tx = out ++ rest /\ ring (tx_ring u) (mem s') rest /\
    mmio s' = log' ++ [MWrite 4 (claim_reg pbase s) (claimed_id pbase s)] /\ sent base log' = sent base (mmio s) ++ out /\
    table (mem s') l = k (woken (0 <? length out)%nat (u_tx_head u) (woken (0 <? length cs)%nat (u_rx_head u) (table (mem s) l)));
  ld_kept : machine_kept s s';
}.

Lemma line_done_then pbase u base l tx rx cs k s s2 s' :
  line_done pbase u base l tx rx cs id s s2 -> queues_kept u (mem s2) (mem s') -> mmio s' = mmio s2 ->
  table (mem s') l = k (table (mem s2) l) -> machine_kept s2 s' -> line_done pbase u base l tx rx cs k s s'.
Proof.
  intros [H1 H2 (out & rest & log' & E1 & E2 & E3 & E4 & E5) H4] K Em Et Hk. split; [by apply K|intros Hl; by apply (queues_rx u (mem s2)), H2| |by etrans].
  exists out, rest, log'. split_and!; [done|by apply K|by rewrite Em|done|by rewrite Et, E5].
Qed.

(** Waking changes nobody's parent and nobody's mark. *)
Lemma woken_proc_in b chan t p : proc_in (woken b chan t) p = option_map (if b then wake chan else id) (proc_in t p).
Proof.
  unfold proc_in. destruct b; simpl; [|by destruct (List.find _ t)]. induction t as [|v t IH]; [done|]. simpl.
  assert (E : v_addr (wake chan v) = v_addr v) by (unfold wake; by destruct (_ && _)). rewrite E. by destruct (_ =? _).
Qed.

Lemma woken_killed_in b chan t p : killed_in (woken b chan t) p = killed_in t p.
Proof. unfold killed_in. rewrite woken_proc_in. destruct (proc_in t p) as [v|]; [|done]. destruct b; [|done]. simpl. unfold wake. by destruct (_ && _). Qed.

Lemma woken_has_child b chan t p : has_child (woken b chan t) p = has_child t p.
Proof.
  destruct b; [|done]. unfold has_child. simpl. induction t as [|v t IH]; [done|]. simpl. rewrite IH. f_equal. unfold wake. by destruct (_ && _).
Qed.

(** The memory of the port is no process's and not the manager's lock. *)
Lemma port_not_shared m dev u base l p code s s' : uart_ok m dev u base l -> p ∈ l -> exiting code p l s s' -> agree (in_uart u) (mem s) (mem s').
Proof.
  intros U Hp [_ _ _ _ X]. eapply agree_weaken; [|exact X]. intros a Ha. destruct (uart_not_woken m dev u base l a U (or_introl Ha)) as [N1 N2].
  split; [done|]. split; [done|]. intros Hx. apply (proj1 (uo_apart _ _ _ _ _ U a ltac:(right; exists p; split; [exact Hp|unfold in_range, p_exit_state, sizeof_proc in *; lia]))). done.
Qed.

(** C14: a program is interrupted by the serial port: the controller is asked
    for the source, all the port has is appended to the receive queue in
    order (the oldest unread bytes give way if it does not fit, see
    [interrupt_handler_refines]), a prefix of the transmit queue is sent, the
    controller is told that the interrupt is served, last and with the number
    it gave; whoever slept for input or for room is runnable exactly if some
    came or went.  If the process has not been killed, the program continues
    at the instruction it was at, with its registers as they were, and the
    next trap finds the kernel.  If it has, it does not get back: it becomes a
    zombie with exit code -1, its parent is woken and the hart switches away,
    or the kernel stops if it has a child. *)
Theorem serial_interrupt_correct p f l hc pdev pu pbase irqs dev u base cs log (tx rx : list Z) (Q : unit -> kst -> Prop) (halt : stop) s :
  irq_code -> trapped p f l s -> csr_get 0x142 s = SCAUSE_SEI ->
  serial_line s f l hc pdev pu pbase irqs dev u base ->
  ring (tx_ring u) (mem s) tx -> newest (rx_ring u) (mem s) rx ->
  receives base (mmio (claimed pbase s)) cs log -> Z.of_nat (length cs) < 2 ^ 64 ->
  let t := table (mem s) l in
  (killed_in t p = false -> forall s3 s', back_to_user f (csr_get 0x141 s) s3 s' -> trapped p f l s' ->
     line_done pbase u base l tx rx cs id s s' -> agree (interrupt_kept u f l) (mem s) (mem s') ->
     wp (call user_return [user_satp (mem s') p]) (fun _ => Q tt) s') ->
  (killed_in t p = true -> has_child t p = false -> forall s', ready l s' -> ld32 (mem s') (p_exit_state p) = u32 (-1) ->
     line_done pbase u base l tx rx cs (exit_table p) s s' ->
     agree (fun a => interrupt_kept u f l a /\ ~ in_range (p_exit_state p) 4 a) (mem s) (mem s') ->
     stops halt (proc_switch (p_context p) (my_hart s + 16)) s') ->
  if killed_in t p then stops (death p t halt) utrap_handler s else wp utrap_handler Q s.
Proof.
  intros HC Ht Hc HL Htx Hrx Hrec Hlen t HQ HX. set (K := fun o : res unit => if killed_in t p then o = stop_res (death p t halt)
      else match o with Ok a s' => Q a s' | _ => False end).
  enough (HK : ends K utrap_handler s) by (unfold K, ends in HK; by destruct (killed_in t p)).
  apply (ends_utrap_sei p f l K (fun s2 => uart_ok (mem s2) dev u base l /\ line_done pbase u base l tx rx cs id s s2 /\
    agree (fun a => serviced_kept u l a /\ ~ in_range (f + 24) 8 a) (mem s) (mem s2))); [done..| |].
  - intros s1 E1. destruct (line_entered p f l hc pdev pu pbase irqs dev u base s s1 Ht HL E1) as (L1 & K1 & R1 & I1).
    assert (Em : mmio (claimed pbase s1) = mmio (claimed pbase s)) by (unfold claimed; cbn; rewrite R1, I1; by destruct (en_regs _ _ _ _ _ E1) as (_ & _ & ->)).
    eapply wp_mono; [apply (line_serviced p f l hc pdev pu pbase irqs dev u base s1 cs log tx rx); try done; [apply E1|by apply K1|by apply K1|by rewrite Em]|].
    intros r s2 (T2 & P2 & sh & S & ->). split; [done|]. split; [done|].
    destruct S as [Srx (out & rest & Eo & Es & Stx & _ & Tb) U _ Qs M]. split; [done|].
    assert (Ef : claim_reg pbase sh = claim_reg pbase s).
    { rewrite <- R1. unfold claim_reg. destruct (same_globals_fields _ _ (proj1 Qs)) as (Et & _). change (tp sh = tp s1) in Et. by rewrite Et. }
    split; [split; [done|by intros Hl; apply ring_newest| |]|].
    + exists out, rest, (mmio sh). split_and!; [done|done| | |].
      * unfold completed. cbn. by rewrite Ef, I1.
      * rewrite Es. f_equal. unfold claimed. cbn. rewrite (proj2 (proj2 (en_regs _ _ _ _ _ E1))). unfold sent. rewrite omap_app. apply app_nil_r.
      * change (mem (completed _ _ sh)) with (mem sh). rewrite Tb. change (mem (claimed pbase s1)) with (mem s1). by rewrite (en_table _ _ _ _ _ E1).
    + transitivity s1; [apply E1|]. apply kept_io. transitivity (claimed pbase s1); [apply quiet_io_log|]. transitivity sh; [exact Qs|apply quiet_io_log].
    + transitivity (mem s1); [eapply agree_weaken; [|apply (en_mem _ _ _ _ _ E1)]; unfold in_range; tauto|].
      eapply agree_weaken; [|exact M]. tauto.
  - intros s2 (U2 & D2 & A2) H2 P2.
    assert (T2 : killed_in (table (mem s2) l) p = killed_in t p /\ has_child (table (mem s2) l) p = has_child t p).
    { destruct (ld_tx _ _ _ _ _ _ _ _ _ _ D2) as (out & rest & log' & _ & _ & _ & _ & ->). unfold id. by rewrite !woken_killed_in, !woken_has_child. }
    destruct T2 as [Tk Tc]. unfold K. destruct (killed_in t p) eqn:Hk.
    + apply stops_first. assert (Ed : death p t halt = death p (table (mem s2) l) halt) by (unfold death; by rewrite Tc). rewrite Ed.
      apply (exit_if_killed_stops p f l); [done|done|]. rewrite Tc. intros Hch s' X. pose proof X as [X1 X2 X3 X4 X5].
      assert (Et : my_hart s2 = my_hart s) by (unfold my_hart; by rewrite (kept_tp _ _ (ld_kept _ _ _ _ _ _ _ _ _ _ D2))). rewrite Et.
      apply HX; [done|done|done|done| |].
      * apply (line_done_then _ _ _ _ _ _ _ _ _ s2); [done|apply queues_agree, (port_not_shared (mem s2) dev u base l p (-1)); [done|apply H2|done]|by rewrite (quiet_mmio _ _ X1)|done|by apply kept_quiet].
      * transitivity (mem s2); [eapply agree_weaken; [|exact A2]; intros a [(Hs & Hf1 & Hf2) _]; split; [done|unfold in_range in *; lia]|].
        eapply agree_weaken; [|exact X5]. intros a [([_ [N1 N2]] & _) N3]. by split_and!.
    + apply (wp_bind (exit_if_killed p)). apply (wp_exit_if_killed p f l); [done|done|]. intros s3 Q3 H3 T3 A3.
      apply (wp_utrap_return p f l); [done|]. intros s4 H4 B T4.
      assert (Hu : forall a, in_uart u a -> ~ in_range pm_lock sizeof_spinlock a /\ ~ in_frame f a).
      { intros a Ha. split; [apply (uart_not_woken (mem s2) dev u base l a U2 (or_introl Ha))|]. intros Hf. exact (proj1 (sl_frame _ _ _ _ _ _ _ _ _ _ _ HL a Hf) Ha). }
      assert (E24 : ld64 (mem s3) (f + 24) = csr_get 0x141 s).
      { rewrite <- P2. apply (frame_word p f l s _ _ _ (fun _ => False)); [done|eapply agree_weaken; [|exact A3]; tauto|lia|unfold sizeof_trapframe; lia|auto]. }
      rewrite E24 in B. apply (HQ eq_refl s3 s4); [done|done| |].
      * apply (line_done_then _ _ _ _ _ _ _ _ _ s2); [done| |by rewrite (bu_mmio _ _ _ _ B), (quiet_mmio _ _ Q3)|by rewrite T4, T3|].
        -- apply queues_agree. transitivity (mem s3); [eapply agree_weaken; [|exact A3]; by intros a (? & _)%Hu|].
           eapply agree_weaken; [|apply (bu_mem _ _ _ _ B)]. intros a (_ & Hf)%Hu. unfold in_frame, in_range, sizeof_trapframe in *. lia.
        -- transitivity s3; [by apply kept_quiet|apply B].
      * transitivity (mem s2); [eapply agree_weaken; [|exact A2]; intros a (Hs & Hf1 & Hf2); split; [done|unfold in_range in *; lia]|].
        transitivity (mem s3); [eapply agree_weaken; [|exact A3]; unfold interrupt_kept, serviced_kept, not_woken; tauto|].
        eapply agree_weaken; [|apply (bu_mem _ _ _ _ B)]. unfold interrupt_kept, in_range. lia.
Qed.
End spec.

(** ** The port of the sample interrupts the first process *)

#[local] Existing Instance sample_layout.
#[local] Existing Instance no_switch.
#[local] Existing Instance no_firmware.

Definition plic_hal : Z := VA_KERNEL_BEGIN + 0x80032000.
Definition plic_dev : Z := VA_KERNEL_BEGIN + 0x80033000.
Definition plic_record : Z := VA_KERNEL_BEGIN + 0x80034000.
Definition plic_regs : Z := 0xC000000.
Definition port_irq : Z := VA_KERNEL_BEGIN + 0x80035000.

(** The controller names source 10; the port answers as before, and the second
    process sleeps until it has something. *)
#[local] Instance line_device : Devices := fun log n a =>
  if a =? PLIC_SCLAIM plic_regs 0 then 10 else sample_device log n a.

#[local] Instance line_code : Code := fun fn args =>
  match args with
  | [d] => if fn =? sym_fn "plic_driver_hal_claim" then plic_driver_hal_claim d
           else if fn =? sym_fn "ns16550a_driver_interrupt_handler" then ns16550a_driver_interrupt_handler d else mret 0
  | [d; i] => if fn =? sym_fn "plic_driver_hal_complete" then plic_driver_hal_complete d i;; mret 0 else mret 0
  | _ => mret 0
  end.

Lemma line_code_ok : irq_code.
Proof.
  split; intros; unfold call, line_code.
  - by rewrite Z.eqb_refl.
  - by rewrite Z.eqb_refl.
  - change (sym_fn "ns16550a_driver_interrupt_handler" =? sym_fn "plic_driver_hal_claim") with false. by rewrite Z.eqb_refl.
Qed.

Definition line_mem : memory :=
  fold_left (fun m '(n, a, v) => st n m a v)
    [(8%nat, p_chan proc_2, u_rx_head port_u); (8%nat, sym_hal_trap, plic_hal); (8%nat, sym_hal_trap + 32, port_irq); (8%nat, plic_hal, plic_dev);
     (8%nat, plic_hal + 40, sym_fn "plic_driver_hal_claim"); (8%nat, plic_hal + 48, sym_fn "plic_driver_hal_complete");
     (8%nat, d_internal plic_dev, plic_record); (8%nat, plic_record + 8, plic_regs);
     (4%nat, port_irq, 10); (8%nat, port_irq + 8, port_dev); (8%nat, port_irq + 16, sym_fn "ns16550a_driver_interrupt_handler")] sample_port_mem.

Definition line_state : kst := set_csr {[ 0x142 := SCAUSE_SEI; 0x141 := 0x200010 ]} (set_mem line_mem trap_state).

Lemma line_irq : irq_controller (mem line_state) plic_hal plic_dev plic_record plic_regs [port_irq].
Proof.
  split; try (vm_compute; reflexivity); [split_and!; vm_compute; congruence|]. simpl. split_and!; vm_compute; congruence.
Qed.

Lemma line_procs : procs_ok (mem line_state) [proc_1; proc_2].
Proof. destruct sample_procs_ok. split; [|assumption..]. unfold dll, chain. cbn [links lastn]. split_and!; vm_compute; reflexivity. Qed.

Lemma line_trapped : trapped proc_1 frame_1 [proc_1; proc_2] line_state.
Proof.
  apply trapped_csr, (trapped_step _ _ _ trap_state).
  - exact trap_state_ok.
  - exact (tr_hart _ _ _ _ trap_state_ok).
  - exact (tr_dep _ _ _ _ trap_state_ok).
  - exact (tr_run _ _ _ _ trap_state_ok).
  - vm_compute. reflexivity.
  - exact line_procs.
  - vm_compute. reflexivity.
Qed.

Lemma line_port : uart_ok (mem line_state) port_dev port_u port_base [proc_1; proc_2].
Proof.
  split.
  - exact (uo_dev _ _ _ _ _ sample_port_ok).
  - exact (uo_u _ _ _ _ _ sample_port_ok).
  - vm_compute. reflexivity.
  - vm_compute. reflexivity.
  - exact line_procs.
  - vm_compute. reflexivity.
  - exact (uo_dev_u _ _ _ _ _ sample_port_ok).
  - exact (uo_lock _ _ _ _ _ sample_port_ok).
  - exact (uo_apart _ _ _ _ _ sample_port_ok).
Qed.

Lemma line_tx : ring (tx_ring port_u) (mem line_state) [97; 98; 99].
Proof.
  split; [vm_compute; congruence|vm_compute; reflexivity|]. intros i c Hi.
  do 3 (destruct i as [|i]; [injection Hi as <-; vm_compute; reflexivity|]). done.
Qed.

Lemma line_rx : ring (rx_ring port_u) (mem line_state) [120].
Proof.
  split; [vm_compute; congruence|vm_compute; reflexivity|]. intros i c Hi.
  destruct i as [|i]; [injection Hi as <-; vm_compute; reflexivity|]. done.
Qed.

Lemma line_receives : exists log, receives port_base (mmio (claimed plic_regs line_state)) [104; 105] log.
Proof.
  set (log0 := mmio _). eexists.
  assert (E1 : port_read port_base UART_RHR (read_log port_base UART_LSR log0) = 104) by (vm_compute; reflexivity).
  set (log1 := read_log port_base UART_RHR (read_log port_base UART_LSR log0)).
  assert (E2 : port_read port_base UART_RHR (read_log port_base UART_LSR log1) = 105) by (vm_compute; reflexivity).
  rewrite <- E1, <- E2. apply rec_one; [vm_compute; congruence|]. fold log1. apply rec_one; [vm_compute; congruence|].
  apply rec_none. vm_compute. reflexivity.
Qed.

Lemma line_ok : serial_line line_state frame_1 [proc_1; proc_2] plic_hal plic_dev plic_record plic_regs [port_irq] port_dev port_u port_base.
Proof.
  split.
  - exact line_irq.
  - vm_compute. congruence.
  - vm_compute. reflexivity.
  - exact line_port.
  - vm_compute. reflexivity.
  - intros a Ha.
    assert (B : 0xFFFFFFFF80602000 <= a < 0xFFFFFFFF80602028 \/ plic_hal <= a < plic_hal + 0x4000).
    { unfold irq_cells, in_range, d_internal, plic_hal, plic_dev, plic_record in *. change sym_hal_trap with 0xFFFFFFFF80602000 in Ha.
      destruct Ha as [Ha|[Ha|[Ha|[Ha|(e & ->%list_elem_of_singleton & Ha)]]]]; unfold port_irq in *; lia. }
    unfold plic_hal, VA_KERNEL_BEGIN in B. split; [unfold in_frame, in_range, frame_1, sizeof_trapframe, VA_KERNEL_BEGIN; lia|].
    split; [unfold in_uart, in_range, port_u, sizeof_ns16550a_internal, VA_KERNEL_BEGIN; lia|].
    split; [|unfold in_range, pm_lock, sizeof_spinlock; change sym_proc_manager with 0xFFFFFFFF80604000; lia].
    intros (q & Hq & Hr). apply elem_of_cons in Hq as [->|Hq]; [|apply list_elem_of_singleton in Hq as ->];
      unfold in_range, p_state, proc_1, proc_2, VA_KERNEL_BEGIN in Hr; lia.
  - unfold in_frame, in_uart, in_range, frame_1, port_u, d_internal, port_dev, sizeof_trapframe, sizeof_ns16550a_internal. lia.
Qed.

Definition line_end (s' : kst) : Prop :=
  csr_get 0x141 s' = 0x200010 /\ ring (rx_ring port_u) (mem s') [120; 104; 105] /\ map v_state (table (mem s') [proc_1; proc_2]) = [2; 1].

Lemma line_alive : killed_in (table (mem line_state) [proc_1; proc_2]) proc_1 = false.
Proof. vm_compute. reflexivity. Qed.

Lemma line_newest : newest (rx_ring port_u) (mem line_state) [120].
Proof. exact (proj1 (proj1 (ring_newest _ _ _) line_rx)). Qed.

Lemma serial_interrupt_correct_witness : wp utrap_handler (fun _ s' => line_end s') line_state.
Proof.
  destruct line_receives as [log Hlog].
  pose proof (serial_interrupt_correct proc_1 frame_1 [proc_1; proc_2] plic_hal plic_dev plic_record plic_regs [port_irq] port_dev port_u port_base
    [104; 105] log [97; 98; 99] [120] (fun _ s' => line_end s') Hangs line_state
    line_code_ok line_trapped eq_refl line_ok line_tx line_newest Hlog ltac:(reflexivity)) as H.
  cbv zeta in H. rewrite line_alive in H. apply H; [|intros E; discriminate E].
  intros _ s3 s' B _ [_ Hrx (out & rest & log' & _ & _ & _ & _ & T) _] _.
  unfold call, line_code. change (user_return =? _) with false.
  apply wp_ret. split; [rewrite (bu_sepc _ _ _ _ B); vm_compute; reflexivity|]. split; [refine (Hrx _); unfold RX_BUFFER_SIZE; simpl; lia|].
  rewrite T. destruct (0 <? length out)%nat; vm_compute; reflexivity.
Defined.
